(* ===== verification/_CoqProject ===== *)
-Q . S2P
Prelude.v
RustStr.v
Json.v
Errors.v
Names.v
Pod.v
Kube.v
Logs.v
Derive.v
Watcher.v
Backoff.v
ServerCheck.v
GarbageCollector.v
TermColors.v
ExternalHandle.v
EventWatcher.v
PodManager.v
Live.v
Acm.v
Service.v
Routes.v
Process.v
AimEnv.v
Containerd.v
Cleanup.v
EndToEnd.v
Registry.v
Ecr.v
Minikube.v
Installations.v
Aim.v
Linear.v
Shared.v
Handlers.v
Tests.v
