(* ===== verification/Prelude.v ===== *)
(** * The OCF connector services: a verification development

    The repository [src/k8s] holds two HTTP services that run connectors as pods
    of a Kubernetes cluster, and the libraries that they share.

    - The ACM (connector manager, [service/acm]) deploys a pod, waits until it is
      healthy, keeps it alive while it is refreshed, and deletes it.
    - The AIM (image manager, [service/aim]) installs the images of connectors
      into a container registry, lists them and uninstalls them.

    ** The parts and their models

    One file models one part; a file requires the files of the parts it calls.

    - [Prelude.v] (this file): [Result], computations that may panic ([run]), the
      operator [?] as the notations of [rust_scope], their lemmas, the tactic
      [inv_bind] and the hint database [rust].
    - [RustStr.v]: strings as byte strings with their UTF-8 decoding; the
      functions of the standard library on them that the services use.
    - [Json.v]: JSON documents, [Deserialize] as the derive macro generates it, and
      a printer and parser that instantiate [serde_json].
    - [Errors.v]: [library/error], [httpcode], [kind], [result], [response]: the
      traits as type classes, [Box<dyn AcmError>] as the record of what its
      methods return, the JSON envelopes and the responders.
    - [Derive.v]: [library/kind-derive], [httpcode-derive], [error-derive]: the
      macros as functions from a parsed type definition to generated code, which
      is evaluated.
    - [Names.v]: [library/names]: names of pods and tags of images.
    - [Pod.v]: [library/k8s/src/pod.rs]: the document of a new pod and [PodExt].
    - [Kube.v]: [library/k8s/src/lib.rs], [client.rs], [errors.rs]: deploying and
      deleting, against the interface [PodApi] of the API server.
    - [Logs.v]: [Logs::stream_into] of [client.rs]: the copy of a pod's log.
    - [Watcher.v]: [library/k8s/src/watcher.rs]: the stream of events of a
      resource as a state machine over a script of the server's answers.
    - [Backoff.v]: the interface of the crate [backoff].
    - [ServerCheck.v], [GarbageCollector.v], [ExternalHandle.v],
      [EventWatcher.v]: the coroutines in [service/acm/src/podmanager], each a
      state machine.  A step takes one thing that the coroutine awaits together
      with what the environment answers while it is handled, and returns the next
      state and what it did to the world; [None] is a thing that the state does
      not await.
    - [PodManager.v]: [podmanager/mod.rs]: the three coroutines of one manager
      with their channels, interleaved freely; what the event watcher reads from
      its stream and its health check is any input here.
    - [Live.v]: a manager together with the stream of [Watcher.v] that it polls and
      the task of [ServerCheck.v] that it starts, joins and kills.
    - [Acm.v]: the cache of managers of [podmanager/mod.rs] with its sharing,
      the handlers of [service/acm/src/main.rs], each without interruption, and
      [adoption.rs].
    - [Service.v]: the handlers as threads that interleave with each other, with
      the managers behind their mutexes and with the clean-up tasks.  A manager is
      the interface [Machine] there, which [Live.v] discharges.
    - [Routes.v]: the routes of both services, against the interface [Rocket].
    - [TermColors.v]: [library/term_colors], and the [Display] of a ticket.
    - [Process.v]: [library/os/src/process.rs]: [cmd!] and [exec].
    - [AimEnv.v]: [service/aim/src/env/mod.rs]: variables and secrets.
    - [Containerd.v]: [service/aim/src/registry/containerd]: the workflow of an
      installation with its drops and background tasks.
    - [Cleanup.v]: those background tasks at work, beside the workflow, against
      containerd as the interface [Containerd].
    - [EndToEnd.v]: the reference that the AIM pushes and the one that the ACM
      deploys.
    - [Registry.v]: [service/aim/src/registry/mod.rs], [ecr], [minikube] and the
      handlers of [service/aim/src/main.rs].
    - [Ecr.v], [Minikube.v]: the operations of [ecr/mod.rs] and [minikube/mod.rs],
      each against its registry as an interface.
    - [Linear.v]: the same operations while others use the registry.
    - [Installations.v]: any number of installations at the same time; a world is
      the daemon of [Cleanup.v] with the log and the tasks of each of them.
    - [Aim.v]: [service/aim/src/main.rs] as a whole: its start, and the life of an
      image through its endpoints over the registry that the variables select,
      which is one of the two with its laws ([RegistryLaws]).
    - [Shared.v]: an installation and a look-up while others use containerd and the
      registry.
    - [Handlers.v]: any number of handlers of the AIM over ECR at the same time, and
      the map that they implement together.
    - [Tests.v]: the unit tests of the repository, run on the model.

    How they interact: the handlers of [Acm.v] and [Service.v] create managers and call [wait]
    and [refresh] on them; inside a manager the event watcher reads the stream of
    [Watcher.v], starts the health check, signals the garbage collector over one
    channel and posts results into the handle, from which [wait] takes them; all
    of them delete pods through the client of [Kube.v].  The handlers of
    [Registry.v] run commands through [Process.v] and send requests; what they have
    done so far is the log, on which the answers of the outside may depend.

    ** What the theorems show

    - The promise of the wait endpoint, for the whole service under every
      interleaving ([acm_wait_ok]): a successful answer carries a ticket for the
      pod that was asked for, which its manager saw running and connected to on its
      own address within thirty seconds.  It rests on the well-formedness of the service
      ([service_well_formed]), on the protocol of the event watcher
      ([watch_protocol], an inductive description of all its runs), on the
      invariant of the handle ([wait_returns_first_post]) and on the refinement of
      a manager by the manager with its real stream and health check
      ([live_refines_manager]).
    - Concurrency: a manager serves one client at a time and no handler waits for
      nothing ([one_client_at_a_time]); the event watcher is never held up, since
      the health check ends at most one round after the signal
      ([poll_never_blocked], [watcher_waits_only_for_shim]); the health check is
      decided within 122 rounds that keep their time ([phase2_decides]).
    - Clean-up: an event watcher that returns has told everybody
      ([watch_cleans_up]), also in an outage ([watch_outage]); a panic of the
      stream is cleaned up by the garbage collector ([crash_is_cleaned_up]); then
      the manager winds down ([manager_winds_down]), the service empties its cache
      ([service_winds_down]), and a client that waits when a result is posted gets
      it, under every schedule of the next sixty seconds ([waiting_client_is_served]).
    - Time to live: pods are collected exactly when their time has passed, at most
      once, and a refresh extends their life ([gc_deadline_exact], [gc_deletes_once],
      [gc_refresh_extends], [handed_out_pod_is_timed]).
    - Refinement: the cache of shared objects implements a map
      ([service_refines_map]); the operations on ECR implement a map from tags to
      digests, of which they list one page ([ecr_implements_map]), and those on the Minikube registry a map in
      which only digests can be deleted ([minikube_implements_digests]), also while
      others use the registry: each operation on ECR takes effect at one moment
      ([ecr_linearisable]), and an uninstallation from Minikube deletes once, the
      digest that it was told ([minikube_uninstall_moments]); a watch delivers the meaning of its items
      ([watch_refines]) and is resumed where it was closed ([watch_resumes]).
    - Termination: every poll of the stream ([step_terminates]), the health check
      ([check_terminates]) and the background removals ([removal_decides]) end.
    - Names and formats: names are valid labels ([rfc1123_subdomain_valid],
      [rfc1035_label_valid]), equal to a closed formula
      ([rfc1123_subdomain_closed_form]); envelopes and tables can be read back
      ([respond_roundtrip], [extract_roundtrip]); the derive macros generate
      exhaustive code with the declared values.
    - Installation: its result and the removal of what it created
      ([install_result], [install_cleans_up]), also once containerd and the
      background tasks are taken into account ([installation_leaves_nothing]), and
      for any number of installations at the same time
      ([installations_leave_nothing]), whose clean-up can always be brought to its
      end ([installations_can_finish]); the
      reference that is deployed for its tag ([installed_image_is_deployed]); the
      secrecy of credentials in messages ([push_redacts_credentials]).
    - The AIM as a whole: a service that is launched is configured
      ([launched_is_configured]); an image that was installed is found under its
      tag, and not any more once it was uninstalled ([image_lifecycle]); an
      installation takes effect at one moment, whatever others do
      ([installation_among_others]); over ECR the whole service is linearisable
      ([aim_linearisable]).
    - The tests of the repository hold of the model ([repository_tests_pass]), the
      fuzz tests for all inputs ([fuzz_rfc1123], [fuzz_rfc1035]).
    - Behaviours that differ from what the code or its comments intend are
      theorems as well: [rfc1123_subdomain_panics], [relist_kills_healthy_pod],
      [failed_connection_leaks_pod], [gc_patch_failure_disarms],
      [ticket_ttl_wraps], [late_wait_never_succeeds], [termination_log_blank],
      [err_image_pull_outcomes], [restart_policy_misplaced], [into_iter_split],
      [unread_upload_stays], [untagged_image_breaks_list], [second_page_is_lost],
      [watch_error_stays], [one_failure_after_silence], [minikube_list_vs_get],
      [outage_hides_tag], [unreachable_registry_panics],
      [documented_deploy_is_refused].

    ** Modelling decisions

    - Panics are values ([Panic], and the states in which a daemon has panicked).
    - Time is in nanoseconds as [Z]; machine widths are written out where they
      matter ([as_i64]).
    - The one recursion that is not structural, the trampoline of [Watcher.step],
      has as its fuel a bound computed from the script and the state ([budget]);
      [step_terminates] shows that it is never exhausted.  The fuel of the UTF-8
      functions of [Process.v] is the length of the string, and every round
      consumes at least one byte.
    - Crates that are not part of the sources are parameters: interfaces with
      laws ([Backoff], [Chrono], [PodApi], [Containerd], [EcrLaws],
      [MinikubeLaws], [PushLaws], [EcrServer], [MinikubeServer], [PushServer], [Rocket],
      [Copy], [PaintLaws]) that have an instance here, or plain
      arguments (UUID rendering, kebab case, JSON, HTTP, SHA-256, the operating
      system), with hypotheses where a theorem needs some.
    - In [Ecr.v], [Minikube.v] and [Aim.v] the answers of a registry depend on what
      this handler has done; in [Linear.v], [Shared.v] and [Handlers.v] the outside is a
      state that others may change at any time.  That a request may fail is part of
      all the interfaces.
    - The signal that ends the health check, its two timers and its connection are
      instants, from which [round_ends] computes the branch that each [select!]
      takes; timers may fire late and connections may hang.
    - A step of a daemon is one thing that it awaits with all that follows until
      the next one: the further awaits of that iteration (a send into a channel, a
      request for the deletion of the pod) are part of the step, and whether a
      receiver is there is decided at its start.  In [PodManager.v] the other
      parties move between the steps; a channel that is full holds up the step.
      The registration of a manager in [Service.v] is one step as well: its clean-up
      task, spawned before the insertion into the cache, cannot end before the
      shim, which stays for sixty seconds as long as nobody can call [wait]
      ([unclaimed_shim_stays]).
    - [aws ecr list-images --no-paginate] prints the first page of at most a
      hundred images, as the reference of the command line says; what lists and
      look-ups miss beyond it is part of the statements ([fits], [lists],
      [looks_up]).
    - Log messages are left out, except the one that [termination_log_blank] is
      about.

    - Handlers of the AIM that run at the same time meet in containerd and in the
      registry only.  The operations on ECR and the installation have one moment
      each at which they take effect; those on the Minikube registry ask for every
      manifest on its own, so that a list may mix two moments
      ([minikube_list_mixes]); what they promise is said of each request
      ([minikube_uninstall_moments]).

    ** Not modelled

    The HTTP servers and the logger that the two [main] functions start (their
    configuration, their routes, and what the AIM does before, are modelled), the
    conversions of a namespace and of a temporary image to the string that they hold
    (they are that string here), the comment that [library/response/src/whack.rs]
    consists of, and everything that is not Rust (Helm charts, scripts, the Python
    clients).  Every other part that the sources name is modelled. *)

From stdpp Require Export base gmap strings list option numbers pretty.
From Stdlib Require Export ZArith Ascii.

Declare Scope rust_scope.
Delimit Scope rust_scope with rust.

(** ** Results and panics *)

(** [std::result::Result]. *)
Inductive result (T E : Type) : Type :=
| Ok (t : T)
| Err (e : E).
Arguments Ok {T E} t.
Arguments Err {T E} e.

(** A Rust computation that may panic: it either produces a value or unwinds
    with a message. *)
Inductive run (A : Type) : Type :=
| Done (a : A)
| Panic (msg : string).
Arguments Done {A} a.
Arguments Panic {A} msg.

Definition try_bind {A B E} (r : result A E) (k : A -> result B E) : result B E :=
  match r with Ok a => k a | Err e => Err e end.

Definition run_bind {A B} (r : run A) (k : A -> run B) : run B :=
  match r with Done a => k a | Panic m => Panic m end.

(** [?] inside a computation that may also panic. *)
Definition run_try {A B E} (r : run (result A E)) (k : A -> run (result B E))
  : run (result B E) :=
  match r with
  | Done (Ok a) => k a
  | Done (Err e) => Done (Err e)
  | Panic m => Panic m
  end.

Notation "'let?' x ':=' r 'in' k" := (try_bind r (fun x => k))
  (at level 10, x name, r at level 100, k at level 200) : rust_scope.
Notation "'let!' x ':=' r 'in' k" := (run_bind r (fun x => k))
  (at level 10, x name, r at level 100, k at level 200) : rust_scope.
Notation "'let!?' x ':=' r 'in' k" := (run_try r (fun x => k))
  (at level 10, x name, r at level 100, k at level 200) : rust_scope.

Open Scope rust_scope.

Definition map_err {T E F} (f : E -> F) (r : result T E) : result T F :=
  match r with Ok t => Ok t | Err e => Err (f e) end.

Definition ok_or {T E} (o : option T) (e : E) : result T E :=
  match o with Some t => Ok t | None => Err e end.

Definition unwrap {T} (o : option T) (msg : string) : run T :=
  match o with Some t => Done t | None => Panic msg end.

Definition unwrap_result {T E} (r : result T E) (msg : string) : run T :=
  match r with Ok t => Done t | Err _ => Panic msg end.

Definition unwrap_or {T} (o : option T) (d : T) : T :=
  match o with Some t => t | None => d end.

Definition is_ok {T E} (r : result T E) : bool :=
  match r with Ok _ => true | Err _ => false end.

#[export] Instance result_eq_dec {T E} `{EqDecision T, EqDecision E} : EqDecision (result T E).
Proof. solve_decision. Defined.
#[export] Instance run_eq_dec {A} `{EqDecision A} : EqDecision (run A).
Proof. solve_decision. Defined.

Lemma try_bind_Ok {A B E} (r : result A E) (k : A -> result B E) b :
  try_bind r k = Ok b <-> exists a, r = Ok a /\ k a = Ok b.
Proof. destruct r; simpl; naive_solver. Qed.

Lemma try_bind_Err {A B E} (r : result A E) (k : A -> result B E) e :
  try_bind r k = Err e <-> r = Err e \/ exists a, r = Ok a /\ k a = Err e.
Proof. destruct r; simpl; naive_solver. Qed.

Lemma run_bind_Done {A B} (r : run A) (k : A -> run B) b :
  run_bind r k = Done b <-> exists a, r = Done a /\ k a = Done b.
Proof. destruct r; simpl; naive_solver. Qed.

Lemma ok_or_Ok {T E} (o : option T) (e : E) t : ok_or o e = Ok t <-> o = Some t.
Proof. destruct o; simpl; naive_solver. Qed.

Lemma ok_or_Err {T E} (o : option T) (e e' : E) : ok_or o e = Err e' <-> o = None /\ e = e'.
Proof. destruct o; simpl; naive_solver. Qed.

Lemma map_err_Ok {T E F} (f : E -> F) (r : result T E) t :
  map_err f r = Ok t <-> r = Ok t.
Proof. destruct r; simpl; naive_solver. Qed.

Lemma run_try_Done {A B E} (r : run (result A E)) (k : A -> run (result B E)) b :
  run_try r k = Done (Ok b) <-> exists a, r = Done (Ok a) /\ k a = Done (Ok b).
Proof. destruct r as [[a|e]|m]; simpl; naive_solver. Qed.

(** ** Automation

    [inv_bind] takes a sequence of binds that returned apart; the database
    [rust] holds the ways in which the combinators return. *)

Ltac inv_bind :=
  repeat match goal with
  | H : run_bind _ _ = Done _ |- _ => apply run_bind_Done in H as (? & ? & ?)
  | H : try_bind _ _ = Ok _ |- _ => apply try_bind_Ok in H as (? & ? & ?)
  | H : run_try _ _ = Done (Ok _) |- _ => apply run_try_Done in H as (? & ? & ?)
  | H : map_err _ _ = Ok _ |- _ => apply map_err_Ok in H
  | H : ok_or _ _ = Ok _ |- _ => apply ok_or_Ok in H
  | H : Done _ = Done _ |- _ => injection H as H
  end.

Create HintDb rust.
#[export] Hint Resolve -> run_bind_Done try_bind_Ok run_try_Done map_err_Ok ok_or_Ok : rust.
#[export] Hint Resolve <- run_bind_Done try_bind_Ok run_try_Done map_err_Ok ok_or_Ok : rust.

(** ** Association lists *)

(** First value stored under a key. *)
Fixpoint assoc {V} (k : string) (l : list (string * V)) : option V :=
  match l with
  | [] => None
  | (k', v) :: l' => if String.eqb k k' then Some v else assoc k l'
  end.
