(* ===== verification/RustStr.v ===== *)
(** * Rust strings

    A Rust [String] is a byte string; [chars] and [of_chars] are the UTF-8
    decoding and encoding of [core::str].  The file holds the operations of the
    standard library on strings that the services use, and their lemmas. *)

From S2P Require Import Prelude.
Open Scope Z_scope.

(** ** Concatenation *)

Lemma append_cons a s t : String a s +:+ t = String a (s +:+ t).
Proof. done. Qed.

Lemma str_app_nil_r (s : string) : s +:+ "" = s.
Proof. induction s as [|a s IH]; [done|]. by rewrite append_cons, IH. Qed.

Lemma str_app_assoc (s t u : string) : s +:+ (t +:+ u) = (s +:+ t) +:+ u.
Proof. induction s as [|a s IH]; [done|]. by rewrite !append_cons, IH. Qed.

(** ** Rust string operations on byte strings *)

(** [str::replace(char, &str)] for an ASCII character. *)
Fixpoint str_replace (c : ascii) (by_ : string) (s : string) : string :=
  match s with
  | EmptyString => EmptyString
  | String a s' =>
      if Ascii.eqb a c then by_ +:+ str_replace c by_ s'
      else String a (str_replace c by_ s')
  end.

(** A double quote, for the messages that contain one. *)
Definition dq : string := String (Ascii.ascii_of_nat 34) EmptyString.

(** [format!("{}", n)] for an integer. *)
Definition fmt_int (n : Z) : string := pretty n.

(** ** UTF-8 as [core::str] does it *)

(** A [char] is its code point. *)
Notation char := Z (only parsing).

Definition byte_of (a : ascii) : Z := Z.of_N (Ascii.N_of_ascii a).
Definition of_byte (z : Z) : ascii := Ascii.ascii_of_N (Z.to_N z).

Definition bytes (s : string) : list Z := map byte_of (String.list_ascii_of_string s).
Definition of_bytes (l : list Z) : string := String.string_of_list_ascii (map of_byte l).

(** [char::encode_utf8]. *)
Definition encode_utf8 (c : char) : list Z :=
  if c <? 128 then [c]
  else if c <? 2048 then [192 + Z.shiftr c 6; 128 + Z.land c 63]
  else if c <? 65536 then
    [224 + Z.shiftr c 12; 128 + Z.land (Z.shiftr c 6) 63; 128 + Z.land c 63]
  else
    [240 + Z.shiftr c 18; 128 + Z.land (Z.shiftr c 12) 63;
     128 + Z.land (Z.shiftr c 6) 63; 128 + Z.land c 63].

Definition cont (acc b : Z) : Z := Z.lor (Z.shiftl acc 6) (Z.land b 63).

(** [str::chars]: decoding of the bytes of a [str]. *)
Fixpoint decode (l : list Z) : list char :=
  match l with
  | [] => []
  | x :: r =>
      if x <? 128 then x :: decode r
      else match r with
      | [] => []
      | y :: r2 =>
          if x <? 224 then cont (Z.land x 31) y :: decode r2
          else match r2 with
          | [] => []
          | z :: r3 =>
              if x <? 240 then cont (cont (Z.land x 15) y) z :: decode r3
              else match r3 with
              | [] => []
              | w :: r4 => cont (cont (cont (Z.land x 7) y) z) w :: decode r4
              end
          end
      end
  end.

Definition chars (s : string) : list char := decode (bytes s).
Definition of_chars (l : list char) : string := of_bytes (mjoin (map encode_utf8 l)).

(** [str::is_char_boundary] for an index within the string: the byte there
    does not continue a character. *)
Definition is_char_boundary (s : string) (n : nat) : bool :=
  match bytes s !! n with
  | None => Nat.eqb n (String.length s)
  | Some b => negb ((128 <=? b) && (b <? 192))
  end.

(** The first [n] bytes. *)
Definition str_take (n : nat) (s : string) : string := String.substring 0 n s.
Definition str_drop (n : nat) (s : string) : string :=
  String.substring n (String.length s - n) s.

(** [String::truncate]: nothing when the string is short enough, a panic when
    the cut is inside a character. *)
Definition truncate (n : nat) (s : string) : run string :=
  if (n <=? String.length s)%nat then
    if is_char_boundary s n then Done (str_take n s)
    else Panic "assertion failed: self.is_char_boundary(new_len)"
  else Done s.

Definition is_ascii_lower (c : char) : bool := (97 <=? c) && (c <=? 122).
Definition is_ascii_upper (c : char) : bool := (65 <=? c) && (c <=? 90).
Definition is_ascii_digit (c : char) : bool := (48 <=? c) && (c <=? 57).
Definition is_ascii_alphanumeric (c : char) : bool :=
  is_ascii_lower c || is_ascii_upper c || is_ascii_digit c.

(** [char::is_whitespace]: the Unicode property [White_Space]. *)
Definition is_whitespace (c : char) : bool :=
  ((9 <=? c) && (c <=? 13)) || (c =? 32) || (c =? 133) || (c =? 160) || (c =? 5760) ||
  ((8192 <=? c) && (c <=? 8202)) || (c =? 8232) || (c =? 8233) || (c =? 8239) ||
  (c =? 8287) || (c =? 12288).

Fixpoint drop_while {A} (f : A -> bool) (l : list A) : list A :=
  match l with
  | [] => []
  | x :: l' => if f x then drop_while f l' else l
  end.

(** [str::trim_start], [str::trim_end] and [str::trim]. *)
Definition trim_start (s : string) : string := of_chars (drop_while is_whitespace (chars s)).
Definition trim_end (s : string) : string :=
  of_chars (rev (drop_while is_whitespace (rev (chars s)))).
Definition trim (s : string) : string := trim_end (trim_start s).

(** ** Lemmas *)

Lemma bytes_cons a s : bytes (String a s) = byte_of a :: bytes s.
Proof. reflexivity. Qed.

Lemma bytes_app s1 s2 : bytes (s1 +:+ s2) = bytes s1 ++ bytes s2.
Proof. induction s1 as [|a s1 IH]; [done|]. unfold bytes in *; simpl. by rewrite IH. Qed.

Lemma length_bytes s : length (bytes s) = String.length s.
Proof. induction s as [|a s IH]; [done|]. by rewrite bytes_cons; simpl; rewrite IH. Qed.

Lemma length_str_app s1 s2 :
  String.length (s1 +:+ s2) = (String.length s1 + String.length s2)%nat.
Proof. by rewrite <- !length_bytes, bytes_app, length_app. Qed.

Lemma byte_of_bound a : 0 <= byte_of a < 256.
Proof. unfold byte_of. pose proof (Ascii.N_ascii_bounded a). lia. Qed.

Lemma of_byte_byte_of a : of_byte (byte_of a) = a.
Proof. unfold of_byte, byte_of. by rewrite N2Z.id, Ascii.ascii_N_embedding. Qed.

Lemma byte_of_of_byte z : 0 <= z < 256 -> byte_of (of_byte z) = z.
Proof. intros. unfold of_byte, byte_of. rewrite Ascii.N_ascii_embedding; lia. Qed.

Lemma byte_of_inj a b : byte_of a = byte_of b -> a = b.
Proof. intros H. by rewrite <- (of_byte_byte_of a), H, of_byte_byte_of. Qed.

Lemma bytes_inj s1 s2 : bytes s1 = bytes s2 -> s1 = s2.
Proof.
  revert s2; induction s1 as [|a s1 IH]; intros [|b s2]; rewrite ?bytes_cons;
    intros H; simplify_eq; f_equal; eauto using byte_of_inj.
Qed.

Lemma bytes_of_bytes l : Forall (fun z => 0 <= z < 256) l -> bytes (of_bytes l) = l.
Proof.
  induction 1 as [|z l Hz _ IH]; [done|].
  change (of_bytes (z :: l)) with (String (of_byte z) (of_bytes l)).
  by rewrite bytes_cons, byte_of_of_byte, IH.
Qed.

Lemma bytes_str_take n s : bytes (str_take n s) = take n (bytes s).
Proof.
  revert s; induction n as [|n IH]; intros [|a s]; try done.
  change (str_take (S n) (String a s)) with (String a (str_take n s)).
  by rewrite !bytes_cons, firstn_cons, IH.
Qed.

Lemma length_str_take n s : String.length (str_take n s) = Nat.min n (String.length s).
Proof. by rewrite <- !length_bytes, bytes_str_take, length_take. Qed.

Lemma str_take_ge n s : (String.length s <= n)%nat -> str_take n s = s.
Proof. intros H. apply bytes_inj. rewrite bytes_str_take, take_ge; [done|]. by rewrite length_bytes. Qed.

Lemma bytes_str_drop n s : (n <= String.length s)%nat -> bytes (str_drop n s) = drop n (bytes s).
Proof.
  revert s; induction n as [|n IH]; intros [|a s] H; simpl in H; try lia; try done.
  - unfold str_drop. rewrite Nat.sub_0_r, drop_0. f_equal.
    change (str_take (String.length (String a s)) (String a s) = String a s).
    by rewrite str_take_ge.
  - rewrite bytes_cons, skipn_cons, <- IH by lia. reflexivity.
Qed.

(** Every byte of the string satisfies a test. *)
Definition str_all (P : Z -> bool) (s : string) : bool := forallb P (bytes s).

Lemma str_all_spec P s : str_all P s = true <-> Forall (fun b => P b = true) (bytes s).
Proof. unfold str_all. rewrite forallb_forall, List.Forall_forall. done. Qed.

Lemma str_all_impl (P Q : Z -> bool) s :
  (forall b, P b = true -> Q b = true) -> str_all P s = true -> str_all Q s = true.
Proof. rewrite !str_all_spec. intros H HP. eapply Forall_impl; eauto. Qed.

Lemma str_all_take P n s : str_all P s = true -> str_all P (str_take n s) = true.
Proof. rewrite !str_all_spec, bytes_str_take. apply Forall_take. Qed.

Lemma str_all_app P s1 s2 : str_all P (s1 +:+ s2) = str_all P s1 && str_all P s2.
Proof. unfold str_all. by rewrite bytes_app, forallb_app. Qed.

(** *** ASCII strings *)

Definition is_ascii (b : Z) : bool := b <? 128.

Lemma decode_ascii l : Forall (fun b => is_ascii b = true) l -> decode l = l.
Proof.
  induction 1 as [|b l Hb _ IH]; [done|]. unfold is_ascii in Hb. simpl.
  by rewrite Hb, IH.
Qed.

Lemma chars_ascii s : str_all is_ascii s = true -> chars s = bytes s.
Proof. rewrite str_all_spec. apply decode_ascii. Qed.

Lemma is_char_boundary_ascii s n :
  str_all is_ascii s = true -> (n <= String.length s)%nat -> is_char_boundary s n = true.
Proof.
  rewrite str_all_spec. unfold is_char_boundary. intros Hs Hn.
  destruct (bytes s !! n) as [b|] eqn:E.
  - eapply Forall_lookup_1 in Hs; [|done]. unfold is_ascii in Hs. lia.
  - apply lookup_ge_None in E. rewrite length_bytes in E. apply Nat.eqb_eq. lia.
Qed.

Lemma truncate_ascii n s :
  str_all is_ascii s = true -> truncate n s = Done (str_take n s).
Proof.
  intros Hs. unfold truncate. destruct (Nat.leb_spec n (String.length s)).
  - by rewrite is_char_boundary_ascii.
  - rewrite str_take_ge by lia. done.
Qed.

(** A truncation that returns cuts exactly the requested number of bytes. *)
Lemma truncate_Done n s t : truncate n s = Done t -> t = str_take n s.
Proof.
  unfold truncate. destruct (Nat.leb_spec n (String.length s)).
  - destruct (is_char_boundary s n); congruence.
  - rewrite str_take_ge by lia. congruence.
Qed.

Lemma truncate_Panic n s m :
  truncate n s = Panic m -> (n < String.length s)%nat /\ is_char_boundary s n = false.
Proof.
  unfold truncate. destruct (Nat.leb_spec n (String.length s)); [|done].
  destruct (is_char_boundary s n) eqn:E; [done|]. intros _. split; [|done].
  destruct (decide (n = String.length s)) as [->|]; [|lia].
  unfold is_char_boundary in E. rewrite lookup_ge_None_2 in E by (rewrite length_bytes; lia).
  by rewrite Nat.eqb_refl in E.
Qed.

Lemma encode_utf8_ascii c : c < 128 -> encode_utf8 c = [c].
Proof. intros. unfold encode_utf8. by rewrite (proj2 (Z.ltb_lt _ _)). Qed.

Lemma bytes_of_chars_ascii l :
  Forall (fun c => 0 <= c < 128) l -> bytes (of_chars l) = l.
Proof.
  intros Hl. unfold of_chars.
  replace (mjoin (map encode_utf8 l)) with l.
  - apply bytes_of_bytes. eapply Forall_impl; [done|]. simpl; lia.
  - induction Hl as [|c l Hc _ IH]; [done|]. simpl.
    rewrite encode_utf8_ascii by lia. by rewrite <- IH.
Qed.

Lemma fmt_int_inj n m : fmt_int n = fmt_int m -> n = m.
Proof. apply (inj pretty). Qed.
