(* ===== verification/Json.v ===== *)
(** * JSON

    Documents ([serde_json::Value]), what a type's [Deserialize] makes of one,
    and the interface of the functions of [serde_json] that the services call.
    [serde_json] is not part of the sources: its printer and its parser are
    parameters of the definitions that call them.  At the end of the file there is
    a small printer and parser, with which those parameters are instantiated. *)

From S2P Require Import Prelude RustStr.

Inductive json : Type :=
| JNull
| JBool (b : bool)
| JNum (n : Z)
| JStr (s : string)
| JArr (l : list json)
| JObj (l : list (string * json)).

(** [serde_json::Value::get] on an object: the value stored under a key. *)
Definition json_get (k : string) (j : json) : option json :=
  match j with JObj l => assoc k l | _ => None end.

Fixpoint json_eqb (a b : json) {struct a} : bool :=
  match a, b with
  | JNull, JNull => true
  | JBool x, JBool y => Bool.eqb x y
  | JNum x, JNum y => x =? y
  | JStr x, JStr y => String.eqb x y
  | JArr l, JArr m =>
      (fix go l m := match l, m with
       | [], [] => true
       | x :: l, y :: m => json_eqb x y && go l m
       | _, _ => false
       end) l m
  | JObj l, JObj m =>
      (fix go l m := match l, m with
       | [], [] => true
       | (k, x) :: l, (k', y) :: m => String.eqb k k' && json_eqb x y && go l m
       | _, _ => false
       end) l m
  | _, _ => false
  end.

(** Induction with hypotheses for the documents inside. *)
Lemma json_rect' (P : json -> Prop) (Hnull : P JNull) (Hbool : forall b, P (JBool b)) (Hnum : forall n, P (JNum n))
  (Hstr : forall s, P (JStr s)) (Harr : forall l, Forall P l -> P (JArr l))
  (Hobj : forall l, Forall (fun kv => P kv.2) l -> P (JObj l)) : forall j, P j.
Proof.
  fix go 1. intros [|b|n|s|l|l]; [done|done|done|done| |].
  - apply Harr. induction l as [|x l IH]; constructor; [apply go|exact IH].
  - apply Hobj. induction l as [|[k x] l IH]; constructor; [apply go|exact IH].
Qed.

Lemma json_eqb_eq a b : json_eqb a b = true -> a = b.
Proof.
  revert b. induction a as [| | | |l IH|l IH] using json_rect'; intros [|b'|n'|s'|m|m]; simpl; try done.
  - intros He. apply Bool.eqb_prop in He. by subst.
  - intros He. apply Z.eqb_eq in He. by subst.
  - intros He. apply String.eqb_eq in He. by subst.
  - intros He. f_equal. revert m He. induction IH as [|x l Hx _ IHl]; intros [|y m]; try done.
    intros [Hxy Hl]%andb_true_iff. by rewrite (Hx _ Hxy), (IHl _ Hl).
  - intros He. f_equal. revert m He. induction IH as [|[k x] l Hx _ IHl]; intros [|[k' y] m]; try done.
    intros [[Hk Hxy]%andb_true_iff Hl]%andb_true_iff. apply String.eqb_eq in Hk. simpl in Hx.
    by rewrite Hk, (Hx _ Hxy), (IHl _ Hl).
Qed.

(** ** [serde::Serialize] and [serde::Deserialize] *)

(** [Serialize], with the JSON value as the target. *)
Class Serialize (T : Type) := serialize : T -> json.

(** Why a document is not of a type. *)
Inductive de_error :=
| InvalidType
| InvalidLength
| MissingField (field : string)
| DuplicateField (field : string).

Class Deserialize (T : Type) := deserialize : json -> result T de_error.

#[export] Instance deserialize_String : Deserialize string := fun j =>
  match j with JStr s => Ok s | _ => Err InvalidType end.

Fixpoint deserialize_all {T} `{Deserialize T} (l : list json) : result (list T) de_error :=
  match l with
  | [] => Ok []
  | j :: l =>
      let? x := deserialize j in
      let? xs := deserialize_all l in
      Ok (x :: xs)
  end.
#[export] Instance deserialize_Vec {T} `{Deserialize T} : Deserialize (list T) := fun j =>
  match j with JArr l => deserialize_all l | _ => Err InvalidType end.

(** What [#[derive(Deserialize)]] generates for a struct: the entries are read in
    order; a field is found under its name or its alias, at most once; entries
    with other keys are skipped. *)
Definition read_field {T} `{Deserialize T} (name : string) (slot : option T) (j : json)
  : result (option T) de_error :=
  match slot with
  | Some _ => Err (DuplicateField name)
  | None => let? x := deserialize j in Ok (Some x)
  end.

Definition required {T} (name : string) (slot : option T) : result T de_error :=
  ok_or slot (MissingField name).

Fixpoint visit_map {S} (field : S -> string -> json -> result S de_error) (s : S) (l : list (string * json))
  : result S de_error :=
  match l with
  | [] => Ok s
  | (k, j) :: l => let? s := field s k j in visit_map field s l
  end.

Definition keyed (key name alias : string) : bool := String.eqb key name || String.eqb key alias.

(** [serde_json::from_str]: [parse] reads the document, [render] is the text of an
    error at its place in the text. *)
Definition from_str {T} `{Deserialize T} (parse : string -> result json string)
  (render : string -> de_error -> string) (text : string) : result T string :=
  let? j := parse text in map_err (render text) (deserialize j).

Lemma deserialize_all_map {T A} `{Deserialize T} (f : A -> json) (g : A -> T) l :
  (forall a, deserialize (f a) = Ok (g a)) -> deserialize_all (map f l) = Ok (map g l).
Proof. intros Hf. induction l as [|a l IH]; [done|]. simpl. by rewrite Hf, IH. Qed.

(** A member of a document that cannot be read makes the whole unreadable. *)
Lemma deserialize_all_fails {T} `{Deserialize T} l (j : json) e :
  j ∈ l -> deserialize (T := T) j = Err e -> exists e', deserialize_all (T := T) l = Err e'.
Proof.
  intros Hin Hj. induction l as [|x l IH]; [by apply not_elem_of_nil in Hin|]. simpl.
  apply elem_of_cons in Hin as [<-|Hin]; [rewrite Hj; simpl; eauto|].
  destruct (IH Hin) as [e' ->]. destruct (deserialize x); simpl; eauto.
Qed.

(** ** An instance *)

(** A character that is only white space between tokens. *)
Definition json_space (a : ascii) : bool :=
  match Ascii.nat_of_ascii a with 9 | 10 | 13 | 32 => true | _ => false end%nat.

Fixpoint skip_space (s : string) : string :=
  match s with
  | String a s' => if json_space a then skip_space s' else s
  | EmptyString => EmptyString
  end.

(** The rest of a string literal after its opening quote. *)
Fixpoint scan_string (s : string) : option (string * string) :=
  match s with
  | EmptyString => None
  | String a s' =>
      match Ascii.nat_of_ascii a with
      | 34 => Some ("", s')
      | 92 =>
          match s' with
          | String e s'' =>
              let c := match Ascii.nat_of_ascii e with
                       | 34 => Some 34 | 92 => Some 92 | 47 => Some 47
                       | 98 => Some 8 | 102 => Some 12 | 110 => Some 10 | 114 => Some 13 | 116 => Some 9
                       | _ => None
                       end in
              match c, scan_string s'' with
              | Some c, Some (t, rest) => Some (String (Ascii.ascii_of_nat c) t, rest)
              | _, _ => None
              end
          | EmptyString => None
          end
      | _ => match scan_string s' with Some (t, rest) => Some (String a t, rest) | None => None end
      end%nat
  end.

Definition digit (a : ascii) : option Z :=
  let n := Z.of_nat (Ascii.nat_of_ascii a) in if (48 <=? n) && (n <=? 57) then Some (n - 48) else None.

Fixpoint scan_digits (acc : Z) (s : string) : Z * string :=
  match s with
  | String a s' => match digit a with Some d => scan_digits (10 * acc + d) s' | None => (acc, s) end
  | EmptyString => (acc, s)
  end.

Fixpoint strip (word s : string) : option string :=
  match word, s with
  | EmptyString, _ => Some s
  | String a word, String b s => if Ascii.eqb a b then strip word s else None
  | String _ _, EmptyString => None
  end.

Lemma strip_same word s t : strip (word +:+ s) (word +:+ t) = strip s t.
Proof. induction word as [|a word IH]; [done|]. rewrite !append_cons. simpl. by rewrite Ascii.eqb_refl. Qed.

Lemma strip_app word s : strip word (word +:+ s) = Some s.
Proof.
  induction word as [|a word IH]; [done|]. change (String a word +:+ s) with (String a (word +:+ s)). simpl.
  by rewrite Ascii.eqb_refl.
Qed.

(** A document at the beginning of a text; every call consumes a character of
    the text, so that its length is enough [fuel]. *)
Fixpoint scan (fuel : nat) (s : string) : option (json * string) :=
  match fuel with
  | O => None
  | S fuel =>
      let elements := fix elements n s := match n with
        | O => None
        | S n =>
            match scan fuel s with
            | None => None
            | Some (j, s) =>
                match skip_space s with
                | String c s => match Ascii.nat_of_ascii c with
                    | 44 => match elements n s with Some (l, s) => Some (j :: l, s) | None => None end
                    | 93 => Some ([j], s)
                    | _ => None
                    end%nat
                | EmptyString => None
                end
            end
        end in
      let entries := fix entries n s := match n with
        | O => None
        | S n =>
            match skip_space s with
            | String q s =>
                match (Ascii.nat_of_ascii q =? 34)%nat, scan_string s with
                | true, Some (k, s) =>
                    match skip_space s with
                    | String c s =>
                        match (Ascii.nat_of_ascii c =? 58)%nat, scan fuel s with
                        | true, Some (j, s) =>
                            match skip_space s with
                            | String c s => match Ascii.nat_of_ascii c with
                                | 44 => match entries n s with Some (l, s) => Some ((k, j) :: l, s) | None => None end
                                | 125 => Some ([(k, j)], s)
                                | _ => None
                                end%nat
                            | EmptyString => None
                            end
                        | _, _ => None
                        end
                    | EmptyString => None
                    end
                | _, _ => None
                end
            | EmptyString => None
            end
        end in
      match skip_space s with
      | EmptyString => None
      | String c s' as s =>
          match Ascii.nat_of_ascii c with
          | 34 => match scan_string s' with Some (t, s) => Some (JStr t, s) | None => None end
          | 91 =>
              match strip "]" (skip_space s') with
              | Some s => Some (JArr [], s)
              | None => match elements fuel s' with Some (l, s) => Some (JArr l, s) | None => None end
              end
          | 123 =>
              match strip "}" (skip_space s') with
              | Some s => Some (JObj [], s)
              | None => match entries fuel s' with Some (l, s) => Some (JObj l, s) | None => None end
              end
          | _ =>
              match strip "null" s, strip "true" s, strip "false" s with
              | Some s, _, _ => Some (JNull, s)
              | _, Some s, _ => Some (JBool true, s)
              | _, _, Some s => Some (JBool false, s)
              | _, _, _ =>
                  match digit c, strip "-" s with
                  | Some _, _ => let '(n, s) := scan_digits 0 s in Some (JNum n, s)
                  | None, Some (String d _ as s) =>
                      match digit d with
                      | Some _ => let '(n, s) := scan_digits 0 s in Some (JNum (- n), s)
                      | None => None
                      end
                  | None, _ => None
                  end
              end
          end%nat
      end
  end.

Definition simple_parse (text : string) : result json string :=
  match scan (S (String.length text)) text with
  | Some (j, rest) => if String.eqb (skip_space rest) "" then Ok j else Err "trailing characters"
  | None => Err "malformed document"
  end.

(** The format of [to_string_pretty]: an entry per line, indented by two. *)
Fixpoint escape (s : string) : string :=
  match s with
  | EmptyString => ""
  | String a s =>
      let back c := String (Ascii.ascii_of_nat 92) (String (Ascii.ascii_of_nat c) (escape s)) in
      match Ascii.nat_of_ascii a with
      | 34 => back 34 | 92 => back 92 | 8 => back 98 | 12 => back 102 | 10 => back 110 | 13 => back 114 | 9 => back 116
      | _ => String a (escape s)
      end%nat
  end.

Definition quote (s : string) : string := dq +:+ escape s +:+ dq.
Definition line (depth : nat) : string :=
  String (Ascii.ascii_of_nat 10) (String.concat "" (replicate depth "  ")).

Fixpoint print (depth : nat) (j : json) : string :=
  match j with
  | JNull => "null"
  | JBool b => if b then "true" else "false"
  | JNum n => fmt_int n
  | JStr s => quote s
  | JArr [] => "[]"
  | JArr l => "[" +:+ line (S depth) +:+ String.concat ("," +:+ line (S depth)) (map (print (S depth)) l) +:+
              line depth +:+ "]"
  | JObj [] => "{}"
  | JObj l => "{" +:+ line (S depth) +:+
      String.concat ("," +:+ line (S depth)) (map (fun kv => quote kv.1 +:+ ": " +:+ print (S depth) kv.2) l) +:+
      line depth +:+ "}"
  end.

(** A printer that reads its own output back before it returns it. *)
Definition simple_pretty (j : json) : option string :=
  let text := print 0 j in
  match simple_parse text with
  | Ok j' => if json_eqb j j' then Some text else None
  | Err _ => None
  end.

Definition simple_from_str (text : string) : option json :=
  match simple_parse text with Ok j => Some j | Err _ => None end.

Lemma simple_serde doc body : simple_pretty doc = Some body -> simple_from_str body = Some doc.
Proof.
  unfold simple_pretty, simple_from_str. destruct (simple_parse (print 0 doc)) as [j|] eqn:Ep; [|done].
  destruct (json_eqb doc j) eqn:Eq; [|done]. intros [= <-]. rewrite Ep. by rewrite (json_eqb_eq _ _ Eq).
Qed.

Definition example_document : json :=
  JObj [("payload", JObj [("kind", JStr "List[Image]"); ("object", JArr [JNum (-12); JBool true; JStr ("a" +:+ dq)])]);
        ("error", JNull); ("e", JObj []); ("l", JArr [])].

Example simple_example : is_Some (simple_pretty example_document).
Proof. vm_compute. eauto. Qed.
