(* ===== verification/Errors.v ===== *)
(** * Errors, kinds and HTTP envelopes

    The libraries [library/error], [library/httpcode], [library/kind],
    [library/result] and [library/response]: the traits that every error and
    payload of the services implements, the boxed error [Box<dyn AcmError>], and
    the JSON envelope in which a handler's [Result<Response<T>>] leaves the
    process; and what both services set before they are launched.

    The pretty printer of [serde_json] is not part of the sources; it is the
    parameter [to_string_pretty] of the definitions that call it. *)

From S2P Require Import Prelude RustStr Json.

(** ** HTTP status codes ([rocket::http::Status]) *)

Module Status.
Record t := new { code : Z }.
Definition Ok : t := new 200.
Definition BadRequest : t := new 400.
Definition NotFound : t := new 404.
Definition InternalServerError : t := new 500.
Definition BadGateway : t := new 502.
Definition ServiceUnavailable : t := new 503.
#[global] Instance eq_dec : EqDecision t.
Proof. solve_decision. Defined.
End Status.

(** ** The start of a service *)

(** [std::env]. *)
Definition environment : Type := string -> option string.
Definition set_var (name value : string) (var : environment) : environment := fun n =>
  if String.eqb n name then Some value else var n.

(** What a service sets of [rocket::Config]. *)
Record Config := { address : string; limits : list (string * Z) }.

(** ** The traits *)

(** [library/httpcode]: the status an instance of the type is answered with. *)
Class HttpCode (E : Type) := http_code : E -> Status.t.

(** [library/kind]: the name under which a value describes itself. *)
Class Kind (T : Type) := kind : T -> string.

(** The part of [std::error::Error] that the services use: [Display], and the
    [Display] of [source()]. *)
Class Error (E : Type) := {
  display : E -> string;
  source : E -> option string;
}.

(** [library/error]: [AcmError: std::error::Error + HttpCode + Kind]. *)
Class AcmError (E : Type) := {
  acm_error :: Error E;
  acm_code :: HttpCode E;
  acm_kind :: Kind E;
}.

(** [Box<dyn AcmError>]: a boxed error is known only through its methods. *)
Record dyn_AcmError := Box {
  dyn_kind : string;
  dyn_code : Status.t;
  dyn_display : string;
  dyn_source : option string;
}.

#[export] Instance dyn_AcmError_eq_dec : EqDecision dyn_AcmError.
Proof. solve_decision. Defined.

(** [impl<T: AcmError> From<T> for Box<dyn AcmError>]. *)
Definition into_box {E} `{AcmError E} (e : E) : dyn_AcmError :=
  {| dyn_kind := kind e; dyn_code := http_code e;
     dyn_display := display e; dyn_source := source e |}.

(** [library/result]: [Result<T>] with its error type filled in. *)
Notation Result T := (result T dyn_AcmError).

(** ** [impl Kind for ...] of [library/kind] *)

#[export] Instance kind_unit : Kind unit := fun _ => "()".
#[export] Instance kind_String : Kind string := fun _ => "String".

(** The numeric types; [stringify!] gives their names. *)
Inductive primitive := U8 | U16 | U32 | U64 | U128 | I8 | I16 | I32 | I64 | I128 | F32 | F64.
#[export] Instance kind_primitive : Kind primitive := fun p =>
  match p with
  | U8 => "u8" | U16 => "u16" | U32 => "u32" | U64 => "u64" | U128 => "u128"
  | I8 => "i8" | I16 => "i16" | I32 => "i32" | I64 => "i64" | I128 => "i128"
  | F32 => "f32" | F64 => "f64"
  end.

(** The blanket implementation for [Vec<T>]. *)
#[export] Instance kind_Vec {T} `{Kind T} : Kind (list T) := fun l =>
  match l with
  | [] => "List[]"
  | x :: _ => "List[" +:+ kind x +:+ "]"
  end.

(** ** Documents *)

#[export] Instance serialize_unit : Serialize unit := fun _ => JNull.
#[export] Instance serialize_String : Serialize string := JStr.
#[export] Instance serialize_Vec {T} `{Serialize T} : Serialize (list T) :=
  fun l => JArr (map serialize l).

(** [impl Serialize for Box<dyn AcmError>]. *)
#[export] Instance serialize_AcmError : Serialize dyn_AcmError := fun e =>
  JObj [("kind", JStr (dyn_kind e));
        ("message", JStr (dyn_display e));
        ("cause", match dyn_source e with Some c => JStr c | None => JNull end)].

(** ** Responders *)

(** The parts of [rocket::Response] that the responders set. *)
Record http_response := {
  resp_content_type : string;
  resp_status : Status.t;
  resp_length : nat;
  resp_body : string;
}.

Definition JSON_content_type : string := "application/json".

(** [library/response]: [Response<T>] and its blanket [From<T>]. *)
Record Response (T : Type) := { payload : T }.
Arguments payload {T} _.

Definition into_response {T} (t : T) : Response T := {| payload := t |}.

(** The document built by [impl Responder for Box<dyn AcmError>]. *)
Definition error_envelope (e : dyn_AcmError) : json :=
  JObj [("payload", JNull); ("error", serialize e)].

(** The document built by [impl Responder for Response<T>]. *)
Definition payload_envelope {T} `{Serialize T, Kind T} (t : T) : json :=
  JObj [("payload", JObj [("kind", JStr (kind t)); ("object", serialize t)]);
        ("error", JNull)].

Section Responders.
(** [serde_json::to_string_pretty]; [None] is its [Err]. *)
Context (to_string_pretty : json -> option string).

Definition respond_json (st : Status.t) (doc : json) : run http_response :=
  let! body := unwrap (to_string_pretty doc) "failed to pretty print" in
  Done {| resp_content_type := JSON_content_type; resp_status := st;
          resp_length := String.length body; resp_body := body |}.

(** [respond_to] of a boxed error. *)
Definition respond_error (e : dyn_AcmError) : run http_response :=
  respond_json (dyn_code e) (error_envelope e).

(** [respond_to] of a [Response<T>]. *)
Definition respond_payload {T} `{Serialize T, Kind T} (r : Response T) : run http_response :=
  respond_json Status.Ok (payload_envelope (payload r)).

(** Rocket answers a handler's [Result<Response<T>>] with the responder of the
    side it holds. *)
Definition respond {T} `{Serialize T, Kind T} (r : Result (Response T)) : run http_response :=
  match r with Ok p => respond_payload p | Err e => respond_error e end.
End Responders.

(** ** [StringError] *)

Inductive StringError := mk_StringError (inner : string).

#[export] Instance StringError_AcmError : AcmError StringError := {|
  acm_error := {| display := fun e => match e with mk_StringError s => s end;
                  source := fun _ => None |};
  acm_code := fun _ => Status.InternalServerError;
  acm_kind := fun _ => "StringError";
|}.

(** [impl From<Box<dyn AcmError>> for StringError]: the [Debug] of the boxed
    error, which is a parameter. *)
Definition StringError_from (debug : dyn_AcmError -> string) (inner : dyn_AcmError) : StringError :=
  mk_StringError (debug inner).

(** ** What a client reads *)

(** A client's reading of the envelope: the two keys decide which side it is. *)
Inductive client_view :=
| Success (kind : string) (object : json)
| Failure (kind message : string) (cause : option string)
| Malformed.

Definition as_str (j : option json) : option string :=
  match j with Some (JStr s) => Some s | _ => None end.

Definition read_payload (p : json) : client_view :=
  match as_str (json_get "kind" p), json_get "object" p with
  | Some k, Some o => Success k o
  | _, _ => Malformed
  end.

Definition read_error (e : json) : client_view :=
  match as_str (json_get "kind" e), as_str (json_get "message" e), json_get "cause" e with
  | Some k, Some m, Some JNull => Failure k m None
  | Some k, Some m, Some (JStr c) => Failure k m (Some c)
  | _, _, _ => Malformed
  end.

Definition read_envelope (doc : json) : client_view :=
  match json_get "payload" doc, json_get "error" doc with
  | Some p, Some JNull => read_payload p
  | Some JNull, Some e => read_error e
  | _, _ => Malformed
  end.

Lemma read_payload_envelope {T} `{Serialize T, Kind T} (t : T) :
  read_envelope (payload_envelope t) = Success (kind t) (serialize t).
Proof. done. Qed.

Lemma read_error_envelope e :
  read_envelope (error_envelope e) = Failure (dyn_kind e) (dyn_display e) (dyn_source e).
Proof. by destruct e as [k c d [s|]]. Qed.

(** ** Theorem *)

Section Envelope.
Context (to_string_pretty : json -> option string) (from_str : string -> option json).

(** C35: what a handler returns reaches the client: the body parses to an
    envelope from which the client reads back the kind and the object of the
    payload, or the kind, the message and the cause of the error; the status is
    200 or the one that the error declares, and the declared length is that of
    the body.  [serde_json] is assumed to parse what it prints. *)
Theorem respond_roundtrip {T} `{Serialize T, Kind T} (r : Result (Response T)) (resp : http_response)
  (Hserde : forall doc body, to_string_pretty doc = Some body -> from_str body = Some doc)
  (Hresp : respond to_string_pretty r = Done resp) :
  resp_content_type resp = JSON_content_type /\
  resp_length resp = String.length (resp_body resp) /\
  resp_status resp = match r with Ok _ => Status.Ok | Err e => dyn_code e end /\
  read_envelope <$> from_str (resp_body resp) =
    Some match r with
         | Ok p => Success (kind (payload p)) (serialize (payload p))
         | Err e => Failure (dyn_kind e) (dyn_display e) (dyn_source e)
         end.
Proof.
  destruct r as [p|e]; simpl in Hresp; unfold respond_payload, respond_error, respond_json in Hresp;
    apply run_bind_Done in Hresp as (body & Hb & [= <-]); simpl;
    destruct (to_string_pretty _) as [b|] eqn:Ep; try done; injection Hb as <-;
    rewrite (Hserde _ _ Ep); split_and!; try done; simpl.
  by rewrite read_error_envelope.
Qed.
End Envelope.

(** An answer with a list of names and a quotation mark. *)
Definition example_answer : Result (Response (list string)) := Ok (into_response ["oracle"; "a" +:+ dq]).

Lemma respond_roundtrip_witness :
  exists resp, respond simple_pretty example_answer = Done resp /\
    read_envelope <$> simple_from_str (resp_body resp) =
      Some (Success "List[String]" (JArr [JStr "oracle"; JStr ("a" +:+ dq)])).
Proof.
  eexists. split; [vm_compute; reflexivity|].
  refine (proj2 (proj2 (proj2 (respond_roundtrip simple_pretty simple_from_str example_answer _ simple_serde _)))).
  vm_compute. reflexivity.
Defined.
