(* ===== verification/Names.v ===== *)
(** * Generated names

    [library/names/src/lib.rs]: random image tags ([rfc1035_label]) and pod names
    ([rfc1123_subdomain]).  
    Three things the module calls are not in the sources and are parameters:
    the UUID crate's rendering of a 128-bit number ([simple]), the case
    converter ([to_kebab]), and the Unicode tables behind
    [char::is_alphanumeric] outside ASCII ([unicode_alphanumeric]).  The random
    numbers drawn from [thread_rng] are arguments. *)

From S2P Require Import Prelude RustStr.
Open Scope Z_scope.

(** ** The module *)

Definition DEFAULT_IF_INVALID_SUBDOMAIN : string := "invalid-rfc1123-connector-name".

Section Names.
(** [Uuid::from_u128(n).to_simple().to_string()]. *)
Context (simple : Z -> string).
(** [Casing::to_case(Case::Kebab)] of the crate [convert_case]. *)
Context (to_kebab : string -> string).
(** The Unicode tables for characters outside ASCII. *)
Context (unicode_alphanumeric unicode_alphabetic : char -> bool).

(** [char::is_alphanumeric] and [char::is_alphabetic]. *)
Definition is_alphanumeric (c : char) : bool :=
  if c <? 128 then is_ascii_alphanumeric c else unicode_alphanumeric c.
Definition is_alphabetic (c : char) : bool :=
  if c <? 128 then is_ascii_lower c || is_ascii_upper c else unicode_alphabetic c.

(** [names::uuid], with the random number it draws. *)
Definition uuid (random : Z) : string := simple random.

(** [names::rfc1035_label]: [letter] is the draw from ['a'..='z'].  Removing
    the first character drops its encoded bytes. *)
Definition rfc1035_label (random letter : Z) : run string :=
  let name := uuid random in
  match chars name with
  | [] => Panic "cannot remove a char from the end of a string"
  | c :: _ =>
      if is_alphabetic c then Done name
      else Done (of_chars [letter] +:+ str_drop (length (encode_utf8 c)) name)
  end.

(** The prefix after steps 1 and 2 of the normalisation. *)
Definition normalise (prefix : string) : string :=
  let prefix :=
    to_kebab (of_chars (map (fun c => if is_alphanumeric c then c else 32) (chars prefix))) in
  if String.eqb prefix "" then DEFAULT_IF_INVALID_SUBDOMAIN else prefix.

(** Step 3: fitting prefix and UUID into 63 bytes. *)
Definition fit (prefix uuid : string) : run (string * string) :=
  if (String.length uuid + String.length prefix <? 63)%nat then Done (prefix, uuid)
  else if (63 <? String.length prefix + 9)%nat then
    let! prefix := truncate (63 - 9) prefix in
    let! uuid := truncate 8 uuid in
    Done (prefix, uuid)
  else
    let ulen := (63 - 1 - String.length prefix)%nat in
    let! uuid := truncate ulen uuid in
    Done (prefix, uuid).

(** [names::rfc1123_subdomain]. *)
Definition rfc1123_subdomain (random : Z) (prefix : string) : run string :=
  let uuid := uuid random in
  let prefix := normalise prefix in
  let! pu := fit prefix uuid in
  Done (pu.1 +:+ "-" +:+ pu.2).
End Names.

(** ** What the names promise *)

(** Bytes of a lowercase hexadecimal rendering. *)
Definition is_hex_lower (b : Z) : bool := is_ascii_digit b || ((97 <=? b) && (b <=? 102)).

Definition is_lower_alphanumeric (b : Z) : bool := is_ascii_lower b || is_ascii_digit b.
Definition is_label_byte (b : Z) : bool := is_lower_alphanumeric b || (b =? 45).

Definition first_byte (P : Z -> bool) (s : string) : bool :=
  match bytes s with b :: _ => P b | [] => false end.
Definition last_byte (P : Z -> bool) (s : string) : bool :=
  match last (bytes s) with Some b => P b | None => false end.

(** The validation that the API server applies to the name of a pod:
    [[a-z0-9]([-a-z0-9]*[a-z0-9])?], at most 63 bytes. *)
Definition is_dns1123_label (s : string) : bool :=
  (String.length s <=? 63)%nat && str_all is_label_byte s &&
  first_byte is_lower_alphanumeric s && last_byte is_lower_alphanumeric s.

(** [[a-z]([-a-z0-9]*[a-z0-9])?], at most 63 bytes. *)
Definition is_dns1035_label (s : string) : bool :=
  (String.length s <=? 63)%nat && str_all is_label_byte s &&
  first_byte is_ascii_lower s && last_byte is_lower_alphanumeric s.

(** Closed form of step 3: how many bytes of the prefix and of the UUID are
    kept. *)
Definition kept_prefix (plen : nat) : nat := Nat.min 54 plen.
Definition kept_uuid (plen : nat) : nat := Nat.max 8 (Nat.min 32 (62 - plen)).

(** What the crates promise. *)
Section NamesLaws.
Context (simple : Z -> string) (to_kebab : string -> string).

(** The simple form of a UUID is 32 lowercase hexadecimal digits. *)
Definition simple_law : Prop :=
  forall n, 0 <= n < 2 ^ 128 ->
    String.length (simple n) = 32%nat /\ str_all is_hex_lower (simple n) = true.

(** Kebab case joins non-empty lowercase words with single hyphens: of ASCII
    letters, digits and spaces it makes lowercase letters, digits and hyphens,
    and it does not begin with a hyphen. *)
Definition kebab_law : Prop :=
  forall s, str_all (fun b => is_ascii_alphanumeric b || (b =? 32)) s = true ->
    str_all is_label_byte (to_kebab s) = true /\
    (to_kebab s = "" \/ first_byte is_lower_alphanumeric (to_kebab s) = true).
End NamesLaws.

(** ** Lemmas *)

#[local] Ltac byte_tests :=
  unfold is_label_byte, is_lower_alphanumeric, is_hex_lower, is_ascii_alphanumeric,
    is_ascii_lower, is_ascii_upper, is_ascii_digit, is_ascii in *.

Lemma hex_is_lower_alphanumeric b : is_hex_lower b = true -> is_lower_alphanumeric b = true.
Proof. byte_tests; lia. Qed.
Lemma hex_is_ascii b : is_hex_lower b = true -> is_ascii b = true.
Proof. byte_tests; lia. Qed.
Lemma lower_alphanumeric_is_label b : is_lower_alphanumeric b = true -> is_label_byte b = true.
Proof. byte_tests; lia. Qed.
Lemma label_is_ascii b : is_label_byte b = true -> is_ascii b = true.
Proof. byte_tests; lia. Qed.
Lemma lower_is_lower_alphanumeric b : is_ascii_lower b = true -> is_lower_alphanumeric b = true.
Proof. byte_tests; lia. Qed.
Create HintDb bytes.
#[export] Hint Resolve hex_is_lower_alphanumeric hex_is_ascii lower_alphanumeric_is_label
  label_is_ascii lower_is_lower_alphanumeric : bytes.

Lemma first_byte_app P s t : first_byte P s = true -> first_byte P (s +:+ t) = true.
Proof. unfold first_byte. rewrite bytes_app. by destruct (bytes s). Qed.

Lemma first_byte_take P n s : (0 < n)%nat -> first_byte P s = true -> first_byte P (str_take n s) = true.
Proof.
  unfold first_byte. rewrite bytes_str_take. destruct n; [lia|]. by destruct (bytes s).
Qed.

Lemma last_byte_app P s t : last_byte P t = true -> last_byte P (s +:+ t) = true.
Proof.
  unfold last_byte. rewrite bytes_app, last_app. by destruct (last (bytes t)).
Qed.

Lemma str_all_last P s : (0 < String.length s)%nat -> str_all P s = true -> last_byte P s = true.
Proof.
  rewrite str_all_spec, <- length_bytes. unfold last_byte. intros Hn Hs.
  destruct (last (bytes s)) as [b|] eqn:E.
  - rewrite last_lookup in E. exact (Forall_lookup_1 _ _ _ _ Hs E).
  - apply last_None in E. rewrite E in Hn. simpl in Hn. lia.
Qed.

Lemma str_all_first P s : (0 < String.length s)%nat -> str_all P s = true -> first_byte P s = true.
Proof.
  rewrite str_all_spec, <- length_bytes. unfold first_byte.
  destruct (bytes s); simpl; [lia|]. intros _. by inversion 1.
Qed.

Lemma fit_Done p u q :
  String.length u = 32%nat -> fit p u = Done q ->
  q = (str_take (kept_prefix (String.length p)) p, str_take (kept_uuid (String.length p)) u).
Proof.
  intros Hu. unfold fit, kept_prefix, kept_uuid. rewrite Hu.
  destruct (Nat.ltb_spec (32 + String.length p) 63) as [H1|H1].
  - intros [= <-]. f_equal; rewrite str_take_ge; done || lia.
  - destruct (Nat.ltb_spec 63 (String.length p + 9)) as [H2|H2]; intros Hq.
    + apply run_bind_Done in Hq as (p' & ->%truncate_Done & Hq).
      apply run_bind_Done in Hq as (u' & ->%truncate_Done & [= <-]).
      f_equal; f_equal; lia.
    + apply run_bind_Done in Hq as (u' & ->%truncate_Done & [= <-]).
      f_equal; [by rewrite str_take_ge by lia|f_equal; lia].
Qed.

Lemma fit_ascii p u :
  String.length u = 32%nat -> str_all is_ascii u = true ->
  ((54 < String.length p)%nat -> is_char_boundary p 54 = true) ->
  fit p u =
  Done (str_take (kept_prefix (String.length p)) p, str_take (kept_uuid (String.length p)) u).
Proof.
  intros Hu Ha Hb. destruct (fit p u) as [q|m] eqn:E; [by rewrite (fit_Done _ _ _ Hu E)|].
  exfalso. revert E. unfold fit.
  destruct (Nat.ltb _ _); [done|]. destruct (Nat.ltb_spec 63 (String.length p + 9)).
  - rewrite (truncate_ascii 8 u) by done. destruct (truncate (63 - 9) p) eqn:Et; [done|].
    apply truncate_Panic in Et as [? Et]. simpl in Et. rewrite Hb in Et; done || lia.
  - by rewrite truncate_ascii.
Qed.

Lemma normalise_nonempty tk ua p : (0 < String.length (normalise tk ua p))%nat.
Proof.
  unfold normalise. destruct (String.eqb_spec (tk (of_chars
    (map (fun c => if is_alphanumeric ua c then c else 32) (chars p)))) "") as [E|E].
  - simpl; lia.
  - destruct (tk _); [done|]. simpl; lia.
Qed.

Lemma normalise_label tk ua p :
  kebab_law tk -> str_all is_ascii p = true ->
  str_all is_label_byte (normalise tk ua p) = true /\
  first_byte is_lower_alphanumeric (normalise tk ua p) = true.
Proof.
  intros Hk Hp. unfold normalise.
  set (s := of_chars _). destruct (Hk s) as [Hall Hfst].
  - unfold s. rewrite str_all_spec, chars_ascii by done. apply str_all_spec in Hp.
    rewrite bytes_of_chars_ascii.
    + apply Forall_map. eapply Forall_impl; [exact Hp|]. intros b Hb. simpl.
      unfold is_alphanumeric. replace (b <? 128) with true by done.
      destruct (is_ascii_alphanumeric b) eqn:E; [by rewrite E|done].
    + apply Forall_map. apply List.Forall_forall. intros b Hb. simpl.
      assert (0 <= b < 128).
      { rewrite List.Forall_forall in Hp. specialize (Hp _ Hb). unfold is_ascii in Hp.
        apply in_map_iff in Hb as (a & <- & _). pose proof (byte_of_bound a). lia. }
      destruct (is_alphanumeric ua b); lia.
  - destruct (String.eqb_spec (tk s) "") as [E|E]; [done|].
    split; [done|]. by destruct Hfst.
Qed.

(** ** Theorems *)

Section NamesTheorems.
Context (simple : Z -> string) (to_kebab : string -> string).
Context (ua ul : Z -> bool).

Lemma subdomain_valid (random : Z) (prefix : string)
  (Hs : simple_law simple) (Hk : kebab_law to_kebab)
  (Hr : 0 <= random < 2 ^ 128) (Hp : str_all is_ascii prefix = true) :
  exists name, rfc1123_subdomain simple to_kebab ua random prefix = Done name /\
    is_dns1123_label name = true.
Proof.
  destruct (Hs random Hr) as [Hlen Hhex].
  destruct (normalise_label to_kebab ua prefix Hk Hp) as [Hall Hfst].
  pose proof (normalise_nonempty to_kebab ua prefix) as Hne.
  unfold rfc1123_subdomain, uuid. cbn zeta. rewrite fit_ascii; eauto using str_all_impl with bytes.
  2: { intros. apply is_char_boundary_ascii; [eauto using str_all_impl with bytes|lia]. }
  eexists; split; [reflexivity|]. cbn [fst snd].
  set (p := normalise _ _ _) in *. unfold is_dns1123_label.
  assert (Hu : str_all is_lower_alphanumeric (str_take (kept_uuid (String.length p)) (simple random)) = true)
    by (apply str_all_take; eauto using str_all_impl with bytes).
  rewrite !andb_true_iff; split_and!.
  - apply Nat.leb_le. rewrite !length_str_app, !length_str_take. simpl.
    unfold kept_prefix, kept_uuid. lia.
  - rewrite !str_all_app, !andb_true_iff; split_and!; [by apply str_all_take|done|].
    eauto using str_all_impl with bytes.
  - apply first_byte_app, first_byte_take; [unfold kept_prefix; lia|done].
  - apply last_byte_app, last_byte_app, str_all_last; [|done].
    rewrite length_str_take, Hlen. unfold kept_uuid. lia.
Qed.

(** C21: for every ASCII connector name, [rfc1123_subdomain] returns (it does
    not panic) and the pod name it returns is one that the API server accepts:
    a non-empty RFC 1123 label of at most 63 bytes. *)
Theorem rfc1123_subdomain_valid (random : Z) (prefix : string)
  (Hs : simple_law simple) (Hk : kebab_law to_kebab)
  (Hr : 0 <= random < 2 ^ 128) (Hp : str_all is_ascii prefix = true) :
  exists name, rfc1123_subdomain simple to_kebab ua random prefix = Done name /\
    is_dns1123_label name = true.
Proof. by apply subdomain_valid. Qed.

Lemma subdomain_closed_form (random : Z) (prefix name : string)
  (Hs : simple_law simple) (Hr : 0 <= random < 2 ^ 128)
  (Hd : rfc1123_subdomain simple to_kebab ua random prefix = Done name) :
  let p := normalise to_kebab ua prefix in
  name = str_take (kept_prefix (String.length p)) p +:+ "-" +:+
         str_take (kept_uuid (String.length p)) (simple random) /\
  String.length name = Nat.min 63 (String.length p + 33).
Proof.
  destruct (Hs random Hr) as [Hlen _]. cbn zeta. unfold rfc1123_subdomain, uuid in Hd.
  apply run_bind_Done in Hd as (q & Hq%(fit_Done _ _ _ Hlen) & [= <-]). subst q. cbn [fst snd].
  split; [done|]. rewrite !length_str_app, !length_str_take, Hlen.
  change (String.length "-") with 1%nat.
  unfold kept_prefix, kept_uuid. lia.
Qed.

(** C37: whatever the connector name is, a name that [rfc1123_subdomain] returns
    is the documented one: the first 54 bytes at most of the normalised prefix,
    a hyphen, and as many bytes of the UUID as fit into 63, never fewer than
    eight. *)
Theorem rfc1123_subdomain_closed_form (random : Z) (prefix name : string)
  (Hs : simple_law simple) (Hr : 0 <= random < 2 ^ 128)
  (Hd : rfc1123_subdomain simple to_kebab ua random prefix = Done name) :
  let p := normalise to_kebab ua prefix in
  name = str_take (kept_prefix (String.length p)) p +:+ "-" +:+
         str_take (kept_uuid (String.length p)) (simple random) /\
  String.length name = Nat.min 63 (String.length p + 33).
Proof. by apply subdomain_closed_form. Qed.

(** [rfc1123_subdomain] panics exactly when the normalised prefix is longer
    than 54 bytes and byte 54 is inside a character: the truncation of step 3b
    is not safe for names outside ASCII. *)
Theorem rfc1123_subdomain_panics (random : Z) (prefix : string)
  (Hs : simple_law simple) (Hr : 0 <= random < 2 ^ 128) :
  let p := normalise to_kebab ua prefix in
  (exists m, rfc1123_subdomain simple to_kebab ua random prefix = Panic m) <->
  (54 < String.length p)%nat /\ is_char_boundary p 54 = false.
Proof.
  destruct (Hs random Hr) as [Hlen Hhex]. cbn zeta. unfold rfc1123_subdomain, uuid.
  set (p := normalise _ _ _). split.
  - intros [m Hm]. destruct (decide ((54 < String.length p)%nat)) as [Hl|Hl].
    + split; [done|]. destruct (is_char_boundary p 54) eqn:E; [|done].
      rewrite fit_ascii in Hm; [done|done|eauto using str_all_impl with bytes|done].
    + rewrite fit_ascii in Hm; [done|done|eauto using str_all_impl with bytes|lia].
  - intros [Hl Hb]. unfold fit. rewrite Hlen.
    destruct (Nat.ltb_spec (32 + String.length p) 63); [lia|].
    destruct (Nat.ltb_spec 63 (String.length p + 9)); [|lia].
    unfold truncate at 1. destruct (Nat.leb_spec (63 - 9) (String.length p)); [|lia].
    change (63 - 9)%nat with 54%nat. rewrite Hb. eauto.
Qed.

Lemma label_valid (random letter : Z)
  (Hs : simple_law simple) (Hr : 0 <= random < 2 ^ 128)
  (Hl : is_ascii_lower letter = true) :
  exists tag, rfc1035_label simple ul random letter = Done tag /\
    is_dns1035_label tag = true /\ String.length tag = 32%nat.
Proof.
  destruct (Hs random Hr) as [Hlen Hhex]. unfold rfc1035_label, uuid. cbn zeta.
  assert (Hasc : str_all is_ascii (simple random) = true) by eauto using str_all_impl with bytes.
  rewrite chars_ascii by done. set (u := simple random) in *.
  pose proof Hhex as Hb. apply str_all_spec in Hb.
  pose proof (length_bytes u) as Hbl. rewrite Hlen in Hbl.
  destruct (bytes u) as [|c r] eqn:E; [done|].
  apply Forall_cons in Hb as [Hc Hr'].
  assert (Hcase : is_alphabetic ul c = is_ascii_lower c).
  { unfold is_alphabetic. byte_tests. destruct (c <? 128) eqn:?; lia. }
  rewrite Hcase. destruct (is_ascii_lower c) eqn:Ec.
  - exists u. split_and!; [done| |done]. unfold is_dns1035_label.
    rewrite !andb_true_iff; split_and!; [by rewrite Hlen|eauto using str_all_impl with bytes| |].
    + unfold first_byte. by rewrite E.
    + apply str_all_last; [lia|eauto using str_all_impl with bytes].
  - eexists; split; [reflexivity|]. rewrite encode_utf8_ascii by (byte_tests; lia).
    assert (Hlt : 0 <= letter < 128) by (byte_tests; lia).
    assert (Ht : bytes (of_chars [letter] +:+ str_drop 1 u) = letter :: r).
    { rewrite bytes_app, (bytes_of_chars_ascii [letter]) by (apply Forall_singleton; lia).
      by rewrite bytes_str_drop, E by lia. }
    simpl length. set (t := _ +:+ _) in *.
    assert (Hlt' : String.length t = 32%nat) by (rewrite <- length_bytes, Ht; simpl in *; lia).
    assert (Hlow : str_all is_lower_alphanumeric t = true).
    { rewrite str_all_spec, Ht. constructor; [eauto with bytes|].
      eapply Forall_impl; [exact Hr'|]. eauto with bytes. }
    split; [|done]. unfold is_dns1035_label.
    rewrite Hlt', !andb_true_iff; split_and!; [done|eauto using str_all_impl with bytes| |].
    + unfold first_byte. by rewrite Ht.
    + apply str_all_last; [lia|done].
Qed.

(** The tag that [rfc1035_label] draws is a 32-byte RFC 1035 label,
    whatever random number and replacement letter it draws. *)
Theorem rfc1035_label_valid (random letter : Z)
  (Hs : simple_law simple) (Hr : 0 <= random < 2 ^ 128)
  (Hl : is_ascii_lower letter = true) :
  exists tag, rfc1035_label simple ul random letter = Done tag /\
    is_dns1035_label tag = true /\ String.length tag = 32%nat.
Proof. by apply label_valid. Qed.
End NamesTheorems.

(** ** Instances of the crates, and witnesses *)

Definition hex_digit (d : Z) : Z := if d <? 10 then 48 + d else 87 + d.

(** 32 hexadecimal digits, most significant first. *)
Definition hex_simple (n : Z) : string :=
  of_bytes (map (fun i => hex_digit (Z.land (Z.shiftr n (4 * (31 - i))) 15)) (seqZ 0 32)).

Definition lower_byte (b : Z) : Z := if is_ascii_upper b then b + 32 else b.

(** Words separated by spaces, in lower case, joined with hyphens.  [started]
    says that a word was written, [pending] that a separator was seen since. *)
Fixpoint kebab_bytes (started pending : bool) (l : list Z) : list Z :=
  match l with
  | [] => []
  | b :: l' =>
      if b =? 32 then kebab_bytes started started l'
      else (if pending then [45] else []) ++ lower_byte b :: kebab_bytes true false l'
  end.
Definition space_kebab (s : string) : string := of_bytes (kebab_bytes false false (bytes s)).

Lemma hex_digit_lower d : 0 <= d < 16 -> is_hex_lower (hex_digit d) = true.
Proof. unfold hex_digit. byte_tests. destruct (d <? 10) eqn:?; lia. Qed.

Lemma hex_simple_law : simple_law hex_simple.
Proof.
  intros n _. unfold hex_simple.
  set (l := map _ _). assert (Hl : Forall (fun b => is_hex_lower b = true) l).
  { apply Forall_map, List.Forall_forall. intros i _. apply hex_digit_lower.
    change 15 with (Z.ones 4). rewrite Z.land_ones by lia. apply Z.mod_pos_bound. lia. }
  assert (Hb : bytes (of_bytes l) = l).
  { apply bytes_of_bytes. eapply Forall_impl; [exact Hl|]. byte_tests. intros; lia. }
  split; [by rewrite <- length_bytes, Hb|by rewrite str_all_spec, Hb].
Qed.

Lemma lower_byte_alphanumeric b :
  is_ascii_alphanumeric b = true -> is_lower_alphanumeric (lower_byte b) = true.
Proof. unfold lower_byte. byte_tests. destruct ((65 <=? b) && (b <=? 90)) eqn:?; lia. Qed.

Lemma kebab_bytes_label started pending l :
  Forall (fun b => is_ascii_alphanumeric b || (b =? 32) = true) l ->
  Forall (fun b => is_label_byte b = true) (kebab_bytes started pending l) /\
  (started = false -> pending = false -> kebab_bytes started pending l = [] \/
   exists b r, kebab_bytes started pending l = b :: r /\ is_lower_alphanumeric b = true).
Proof.
  intros Hl; revert started pending.
  induction Hl as [|b l Hb _ IH]; intros started pending; simpl; [by split; [|left]|].
  destruct (b =? 32) eqn:E.
  - destruct (IH started started) as [? Hf]. split; [done|]. intros -> _. by apply Hf.
  - rewrite orb_false_r in Hb. apply lower_byte_alphanumeric in Hb.
    destruct (IH true false) as [? _]. split.
    + destruct pending; repeat (apply Forall_cons; split); eauto with bytes.
    + intros _ ->. right. eexists _, _. split; [reflexivity|done].
Qed.

Lemma space_kebab_law : kebab_law space_kebab.
Proof.
  intros s Hs%str_all_spec. unfold space_kebab.
  destruct (kebab_bytes_label false false _ Hs) as [Hl Hf].
  assert (Hb : bytes (of_bytes (kebab_bytes false false (bytes s))) = kebab_bytes false false (bytes s)).
  { apply bytes_of_bytes. eapply Forall_impl; [exact Hl|]. byte_tests. intros; lia. }
  rewrite str_all_spec, Hb. split; [done|].
  destruct (Hf eq_refl eq_refl) as [E|(b & r & E & Hlo)]; rewrite E in *; [by left|right].
  unfold first_byte. by rewrite Hb.
Qed.

Definition no_unicode (_ : Z) : bool := false.
Definition all_unicode (_ : Z) : bool := true.

(** A test of the repository, with the UUID zero. *)
Example subdomain_example :
  rfc1123_subdomain hex_simple space_kebab no_unicode 0 "super cool connector v1.2" =
  Done "super-cool-connector-v1-2-00000000000000000000000000000000".
Proof. vm_compute. reflexivity. Qed.

Lemma rfc1123_subdomain_valid_witness :
  exists name, rfc1123_subdomain hex_simple space_kebab no_unicode 255 "Oracle (OCF)" = Done name /\
    is_dns1123_label name = true.
Proof.
  apply rfc1123_subdomain_valid;
    [exact hex_simple_law|exact space_kebab_law|lia|reflexivity].
Defined.

Lemma rfc1123_subdomain_closed_form_witness :
  String.length "invalid-rfc1123-connector-name-00000000000000000000000000000000" = 63%nat.
Proof.
  apply (rfc1123_subdomain_closed_form hex_simple space_kebab no_unicode 0 ""
    "invalid-rfc1123-connector-name-00000000000000000000000000000000");
    [exact hex_simple_law|lia|vm_compute; reflexivity].
Defined.

(** 53 letters and an accented one: byte 54 is inside the last character. *)
Definition long_accented_name : string :=
  "aaaaaaaaaaaaaaaaaaaaaaaaaaaaaaaaaaaaaaaaaaaaaaaaaaaaaé".

Lemma rfc1123_subdomain_panics_witness :
  exists m, rfc1123_subdomain hex_simple space_kebab all_unicode 0 long_accented_name = Panic m.
Proof.
  apply (rfc1123_subdomain_panics hex_simple space_kebab all_unicode 0 long_accented_name);
    [exact hex_simple_law|lia|split; [vm_compute; lia|vm_compute; reflexivity]].
Defined.

Lemma rfc1035_label_valid_witness :
  exists tag, rfc1035_label hex_simple no_unicode 0 115 = Done tag /\
    is_dns1035_label tag = true /\ String.length tag = 32%nat.
Proof. apply rfc1035_label_valid; [exact hex_simple_law|lia|reflexivity]. Defined.
