(* ===== verification/Pod.v ===== *)
(** * Pods and [PodExt]

    [library/k8s/src/pod.rs]: the JSON document from which a connector pod is
    created, and the extension trait that answers questions about a pod that the
    API server returned.  The records below are the part of
    [k8s_openapi::api::core::v1] that the services read. *)

From S2P Require Import Prelude RustStr Json Errors Names.

(** ** The Kubernetes objects *)

Record ContainerStateWaiting := {
  waiting_reason : option string;
  waiting_message : option string;
}.

Record ContainerStateTerminated := {
  terminated_state_reason : option string;
  terminated_state_message : option string;
}.

Record ContainerStateRunning := { started_at : option Z }.

Record ContainerState := {
  state_running : option ContainerStateRunning;
  state_terminated : option ContainerStateTerminated;
  state_waiting : option ContainerStateWaiting;
}.

Record ContainerStatus := { cs_state : option ContainerState }.

Record PodStatus := {
  pod_ip : option string;
  container_statuses : option (list ContainerStatus);
}.

Record ContainerPort := { container_port : Z }.

Record Container := {
  container_name : string;
  container_image : option string;
  container_ports : option (list ContainerPort);
}.

Record PodSpec := { containers : list Container }.

Record ObjectMeta := {
  meta_name : option string;
  meta_namespace : option string;
  meta_labels : option (list (string * string));
  meta_resource_version : option string;
}.

Record Pod := {
  metadata : ObjectMeta;
  spec : option PodSpec;
  status : option PodStatus;
}.

(** [Default] implementations. *)
Definition ContainerState_default : ContainerState :=
  {| state_running := None; state_terminated := None; state_waiting := None |}.
Definition PodStatus_default : PodStatus :=
  {| pod_ip := None; container_statuses := None |}.
Definition ObjectMeta_default : ObjectMeta :=
  {| meta_name := None; meta_namespace := None; meta_labels := None;
     meta_resource_version := None |}.
Definition Pod_default : Pod :=
  {| metadata := ObjectMeta_default; spec := None; status := None |}.

#[export] Instance ContainerStateWaiting_eq_dec : EqDecision ContainerStateWaiting.
Proof. solve_decision. Defined.
#[export] Instance ContainerStateTerminated_eq_dec : EqDecision ContainerStateTerminated.
Proof. solve_decision. Defined.
#[export] Instance ContainerStateRunning_eq_dec : EqDecision ContainerStateRunning.
Proof. solve_decision. Defined.
#[export] Instance ContainerState_eq_dec : EqDecision ContainerState.
Proof. solve_decision. Defined.
#[export] Instance ContainerStatus_eq_dec : EqDecision ContainerStatus.
Proof. solve_decision. Defined.
#[export] Instance PodStatus_eq_dec : EqDecision PodStatus.
Proof. solve_decision. Defined.
#[export] Instance ContainerPort_eq_dec : EqDecision ContainerPort.
Proof. solve_decision. Defined.
#[export] Instance Container_eq_dec : EqDecision Container.
Proof. solve_decision. Defined.
#[export] Instance PodSpec_eq_dec : EqDecision PodSpec.
Proof. solve_decision. Defined.
#[export] Instance ObjectMeta_eq_dec : EqDecision ObjectMeta.
Proof. solve_decision. Defined.
#[export] Instance Pod_eq_dec : EqDecision Pod.
Proof. solve_decision. Defined.
#[export] Instance kind_Pod : Kind Pod := fun _ => "Pod".

(** [ResourceExt::name]: the object's name, which the API server always sets;
    the library function unwraps it. *)
Definition pod_name (p : Pod) : run string :=
  unwrap (meta_name (metadata p)) ".metadata.name missing".

(** ** The errors of [pod.rs]

    The one of [new], and one constructor for each error structure of [PodExt]. *)

Inductive SerializationError := PodSerializationError (name reference source_ : string).
#[export] Instance SerializationError_AcmError : AcmError SerializationError := {|
  acm_error := {|
    display '(PodSerializationError name reference _) :=
      "Failed to serialize a Kubernetes pod resource with the name '" +:+ name +:+
      "' and image reference '" +:+ reference +:+
      "'. This is very peculiar, and it may work if you simply run it again, although this error should be reported to Alation so that we can make sure it never happens again.";
    source '(PodSerializationError _ _ s) := Some s |};
  acm_code _ := Status.InternalServerError;
  acm_kind _ := "PodSerializationError";
|}.

Inductive PodError :=
| ErrImagePull (cause : string)
| PodHasNoStatus (op : string)
| PodHasNoIp (op : string)
| PodHasNoNamespace (op : string)
| PodHasNoSpec (op : string)
| PodHasNoContainers (op : string)
| ContainerHasNoPorts (op : string).

Definition premature_call : string :=
  "This was likely a premature call to a pod object that had not yet been provisioned in Kubernetes.".

#[export] Instance PodError_Error : Error PodError := {|
  display e := match e with
    | ErrImagePull _ =>
        "The image for the connector failed to get pulled from the configured image registry. Perhaps the image doesn't exist or the connection to the registry couldn't be established?"
    | PodHasNoStatus op =>
        "An attempt was made to retrieve the status field of a pod object while " +:+ op +:+
        ", however the object had no status field. " +:+ premature_call
    | PodHasNoIp op =>
        "An attempt was made to retrieve the pod IP field of a pod object while " +:+ op +:+
        ", however the object had no IP. " +:+ premature_call
    | PodHasNoNamespace op =>
        "An attempt was made to retrieve the namespace of a pod object while " +:+ op +:+
        ", however the object had no namespace associated with it. " +:+ premature_call
    | PodHasNoSpec op =>
        "An attempt was made to retrieve the spec of a pod object while " +:+ op +:+
        ", however the object had no spec associated with it. " +:+ premature_call
    | PodHasNoContainers op =>
        "An attempt was made to retrieve at least one container associated with a pod object while "
        +:+ op +:+ ", however the object had no containers associated with it. " +:+ premature_call
    | ContainerHasNoPorts op =>
        "An attempt was made to retrieve at least one listening port associated with a container object while "
        +:+ op +:+ ", however the object had no listening ports associated with it. " +:+ premature_call
    end;
  source e := match e with
    | ErrImagePull cause => Some cause
    | _ => None
    end;
|}.

#[export] Instance PodError_HttpCode : HttpCode PodError := fun e =>
  match e with
  | ErrImagePull _ => Status.NotFound
  | _ => Status.InternalServerError
  end.

#[export] Instance PodError_Kind : Kind PodError := fun e =>
  match e with
  | ErrImagePull _ => "ErrImagePull"
  | PodHasNoStatus _ => "PodHasNoStatus"
  | PodHasNoIp _ => "PodHasNoIp"
  | PodHasNoNamespace _ => "PodHasNoNamespace"
  | PodHasNoSpec _ => "PodHasNoSpec"
  | PodHasNoContainers _ => "PodHasNoContainers"
  | ContainerHasNoPorts _ => "ContainerHasNoPorts"
  end.

#[export] Instance PodError_AcmError : AcmError PodError := {}.

(** ** [pod::new] *)

Definition OCF_NAMESPACE : string := "ocf".
Definition OCF_SYSTEM_NAMESPACE : string := "ocf-system".

(** The document handed to [serde_json::from_value]. *)
Definition pod_document (name reference : string) : json :=
  JObj [
    ("apiVersion", JStr "v1");
    ("kind", JStr "Pod");
    ("metadata", JObj [("name", JStr name); ("namespace", JStr OCF_NAMESPACE)]);
    ("spec", JObj [
      ("containers", JArr [JObj [
        ("name", JStr name);
        ("image", JStr reference);
        ("env", JArr [JObj [("name", JStr "PORT"); ("value", JStr "8080")]]);
        ("restartPolicy", JStr "Never");
        ("imagePullPolicy", JStr "IfNotPresent");
        ("ports", JArr [JObj [("containerPort", JNum 8080); ("protocol", JStr "TCP")]])
      ]])
    ])
  ].

Section New.
Context (simple : Z -> string) (to_kebab : string -> string) (ua : Z -> bool).
(** [serde_json::from_value::<Pod>]; an error is known by its [Display]. *)
Context (from_value : json -> result Pod string).

(** [pod::new], with the random number drawn for the name. *)
Definition pod_new (random : Z) (reference name : string) : run (Result Pod) :=
  let! name := rfc1123_subdomain simple to_kebab ua random name in
  Done (map_err (fun source => into_box (PodSerializationError name reference source))
          (from_value (pod_document name reference))).
End New.

(** ** [impl PodExt for Pod] *)

Definition dns_op : string := "retrieving its cluster DNS entry".
Definition port_op : string := "retrieving its listening port number".

Definition dns (p : Pod) : Result string :=
  let? st := ok_or (status p) (into_box (PodHasNoStatus dns_op)) in
  let? ip := ok_or (pod_ip st) (into_box (PodHasNoIp dns_op)) in
  let subdomain := str_replace "." "-" ip in
  let? domain := ok_or (meta_namespace (metadata p)) (into_box (PodHasNoNamespace dns_op)) in
  Ok (subdomain +:+ "." +:+ domain +:+ ".pod").

Definition port (p : Pod) : Result Z :=
  let? sp := ok_or (spec p) (into_box (PodHasNoSpec port_op)) in
  let? c := ok_or (containers sp !! 0%nat) (into_box (PodHasNoContainers port_op)) in
  let? ps := ok_or (container_ports c) (into_box (ContainerHasNoPorts port_op)) in
  let? cp := ok_or (ps !! 0%nat) (into_box (ContainerHasNoPorts port_op)) in
  Ok (container_port cp).

Definition address (p : Pod) : Result string :=
  let? d := dns p in
  let? n := port p in
  Ok (d +:+ ":" +:+ fmt_int n).

(** The container statuses of a pod, with the defaults that every method below
    falls back to. *)
Definition statuses (p : Pod) : list ContainerStatus :=
  unwrap_or (container_statuses (unwrap_or (status p) PodStatus_default)) [].

Definition state_of (cs : ContainerStatus) : ContainerState :=
  unwrap_or (cs_state cs) ContainerState_default.

Definition running (p : Pod) : bool :=
  existsb (fun cs => bool_decide (is_Some (state_running (state_of cs)))) (statuses p).

Definition terminated (p : Pod) : bool :=
  existsb (fun cs => bool_decide (is_Some (state_terminated (state_of cs)))) (statuses p).

(** [matches!(&state.waiting, Some(ContainerStateWaiting { reason: Some(reason), .. })
    if reason.eq(why))]. *)
Definition waits_for (why : string) (cs : ContainerStatus) : bool :=
  match state_waiting (state_of cs) with
  | Some {| waiting_reason := Some reason |} => String.eqb reason why
  | _ => false
  end.

Definition was_err_image_pull (p : Pod) : bool :=
  match List.find (waits_for "ErrImagePull") (statuses p) with Some _ => true | None => false end.

Definition unwrap_none : string := "called `Option::unwrap()` on a `None` value".

(** The three [unwrap]s are kept: the search above tests the reason, not the
    message. *)
Definition err_image_pull (p : Pod) : run (Result unit) :=
  match List.find (waits_for "ErrImagePull") (statuses p) with
  | Some problem =>
      let! st := unwrap (cs_state problem) unwrap_none in
      let! w := unwrap (state_waiting st) unwrap_none in
      let! message := unwrap (waiting_message w) unwrap_none in
      Done (Err (into_box (ErrImagePull message)))
  | None => Done (Ok tt)
  end.

Definition crashed (p : Pod) : bool :=
  match List.find (waits_for "CrashLoopBackOff") (statuses p) with Some _ => true | None => false end.

(** [status.pop().unwrap_or(None)] on the vector of the statuses' answers. *)
Definition pop_last {A} (l : list (option A)) : option A := unwrap_or (last l) None.

Definition terminated_reason (p : Pod) : option string :=
  pop_last (map (fun cs =>
    match state_terminated (state_of cs) with
    | Some {| terminated_state_reason := Some reason |} => Some reason
    | _ => None
    end) (statuses p)).

Definition terminated_message (p : Pod) : option string :=
  pop_last (map (fun cs =>
    match state_terminated (state_of cs) with
    | Some {| terminated_state_message := Some message |} => Some message
    | _ => None
    end) (statuses p)).

(** ** Lemmas *)

Lemma find_waits_for why p cs :
  List.find (waits_for why) (statuses p) = Some cs ->
  exists st w, cs_state cs = Some st /\ state_waiting st = Some w /\
    waiting_reason w = Some why.
Proof.
  intros [_ H]%find_some. unfold waits_for, state_of in H.
  destruct (cs_state cs) as [st|]; simpl in H; [|done].
  destruct (state_waiting st) as [w|] eqn:Ew; [|done].
  destruct w as [[r|] m]; [|done]. apply String.eqb_eq in H as ->. eauto.
Qed.

Lemma err_image_pull_agrees p :
  was_err_image_pull p = false <-> err_image_pull p = Done (Ok tt).
Proof.
  unfold was_err_image_pull, err_image_pull.
  destruct (List.find _ _) as [cs|] eqn:E; [|done]. split; [done|].
  apply find_waits_for in E as (st & w & -> & Hw & _). simpl. rewrite Hw. simpl.
  by destruct (waiting_message w).
Qed.

(** An IPv4 address: no hyphens. *)
Definition no_hyphen (s : string) : bool := str_all (fun b => negb (b =? 45)) s.

Lemma append_hyphen s : "-" +:+ s = String "-" s.
Proof. reflexivity. Qed.

Lemma str_replace_dot_inj s t :
  no_hyphen s = true -> no_hyphen t = true ->
  str_replace "." "-" s = str_replace "." "-" t -> s = t.
Proof.
  revert t; induction s as [|a s IH]; intros [|b t]; unfold no_hyphen, str_all;
    rewrite ?bytes_cons; simpl; rewrite ?andb_true_iff; intros Hs Ht.
  - done.
  - destruct (Ascii.eqb b "."); discriminate.
  - destruct (Ascii.eqb a "."); discriminate.
  - destruct Hs as [Ha Hs], Ht as [Hb Ht].
    destruct (Ascii.eqb_spec a ".") as [->|Hna], (Ascii.eqb_spec b ".") as [->|Hnb];
      rewrite ?append_hyphen; intros E; simplify_eq; try done.
    all: f_equal; by apply IH.
Qed.

Lemma append_inj_r s t u : s +:+ u = t +:+ u -> s = t.
Proof.
  intros H%(f_equal bytes). rewrite !bytes_app in H. by apply app_inv_tail, bytes_inj in H.
Qed.

Lemma dns_Ok p d :
  dns p = Ok d <-> exists st ip ns,
    status p = Some st /\ pod_ip st = Some ip /\ meta_namespace (metadata p) = Some ns /\
    d = str_replace "." "-" ip +:+ "." +:+ ns +:+ ".pod".
Proof.
  unfold dns. split.
  - intros (st & ?%ok_or_Ok & (ip & ?%ok_or_Ok &
      (ns & ?%ok_or_Ok & [= <-])%try_bind_Ok)%try_bind_Ok)%try_bind_Ok. eauto 10.
  - intros (st & ip & ns & -> & Hip & Hns & ->). simpl. rewrite Hip. simpl. by rewrite Hns.
Qed.

Lemma port_Ok p n :
  port p = Ok n <-> exists sp c ps cp,
    spec p = Some sp /\ containers sp !! 0%nat = Some c /\ container_ports c = Some ps /\
    ps !! 0%nat = Some cp /\ n = container_port cp.
Proof.
  unfold port. split.
  - intros (sp & ?%ok_or_Ok & (c & ?%ok_or_Ok & (ps & ?%ok_or_Ok &
      (cp & ?%ok_or_Ok & [= <-])%try_bind_Ok)%try_bind_Ok)%try_bind_Ok)%try_bind_Ok. eauto 10.
  - intros (sp & c & ps & cp & -> & Hc & Hps & Hcp & ->). simpl.
    rewrite Hc; simpl; rewrite Hps; simpl; by rewrite Hcp.
Qed.

(** ** Theorems *)

(** The address that the health check dials exists exactly when the pod has
    an IP, a namespace and a first container with a first port, and is then
    [<ip-with-hyphens>.<namespace>.pod:<port>]. *)
Theorem address_spec (p : Pod) (a : string) :
  address p = Ok a <->
  exists st ip ns sp c ps cp,
    status p = Some st /\ pod_ip st = Some ip /\
    meta_namespace (metadata p) = Some ns /\
    spec p = Some sp /\ containers sp !! 0%nat = Some c /\
    container_ports c = Some ps /\ ps !! 0%nat = Some cp /\
    a = str_replace "." "-" ip +:+ "." +:+ ns +:+ ".pod:" +:+ fmt_int (container_port cp).
Proof.
  unfold address. split.
  - intros (d & (st & ip & ns & ? & ? & ? & ->)%dns_Ok &
      (n & (sp & c & ps & cp & ? & ? & ? & ? & ->)%port_Ok & [= <-])%try_bind_Ok)%try_bind_Ok.
    exists st, ip, ns, sp, c, ps, cp. split_and!; try done. by rewrite <- !str_app_assoc.
  - intros (st & ip & ns & sp & c & ps & cp & ? & ? & ? & ? & ? & ? & ? & ->).
    rewrite (proj2 (dns_Ok p _)) by eauto 10. simpl.
    rewrite (proj2 (port_Ok p _)) by eauto 10. simpl. by rewrite <- !str_app_assoc.
Qed.

(** Within a namespace the cluster DNS entry identifies the pod's IPv4
    address: two pods with the same entry have the same IP. *)
Theorem dns_injective (p q : Pod) (st st' : PodStatus) (ip ip' ns d : string)
  (Hp : status p = Some st) (Hq : status q = Some st')
  (Hip : pod_ip st = Some ip) (Hiq : pod_ip st' = Some ip')
  (Hv : no_hyphen ip = true) (Hv' : no_hyphen ip' = true)
  (Hn : meta_namespace (metadata p) = Some ns) (Hn' : meta_namespace (metadata q) = Some ns)
  (Hd : dns p = Ok d) (Hd' : dns q = Ok d) :
  ip = ip'.
Proof.
  apply dns_Ok in Hd as (? & ? & ? & ? & ? & ? & ->). apply dns_Ok in Hd' as (? & ? & ? & ? & ? & ? & E).
  simplify_eq. apply append_inj_r in E. by apply str_replace_dot_inj.
Qed.

(** [err_image_pull] reports an error exactly when [was_err_image_pull]
    holds and the waiting container carries a message, and panics exactly when
    [was_err_image_pull] holds and it does not; the comment that the unwraps
    are safe holds for the state and the waiting record only. *)
Theorem err_image_pull_outcomes (p : Pod) :
  match err_image_pull p with
  | Done (Ok tt) => was_err_image_pull p = false
  | Done (Err e) => was_err_image_pull p = true /\
      exists cs st w m, cs ∈ statuses p /\ cs_state cs = Some st /\ state_waiting st = Some w /\
        waiting_reason w = Some "ErrImagePull" /\ waiting_message w = Some m /\
        e = into_box (ErrImagePull m)
  | Panic _ => was_err_image_pull p = true /\
      exists cs st w, cs ∈ statuses p /\ cs_state cs = Some st /\ state_waiting st = Some w /\
        waiting_reason w = Some "ErrImagePull" /\ waiting_message w = None
  end.
Proof.
  unfold err_image_pull, was_err_image_pull.
  destruct (List.find _ _) as [cs|] eqn:E; [|done].
  pose proof (find_some _ _ E) as [Hin%list_elem_of_In _].
  apply find_waits_for in E as (st & w & Hst & Hw & Hr). rewrite Hst; simpl; rewrite Hw; simpl.
  destruct (waiting_message w) as [m|] eqn:Em; simpl; split; eauto 12.
Qed.

(** The document of a new connector pod carries [restartPolicy] in the
    container, where a pod specification has no such field, and not in the
    specification, where Kubernetes reads it. *)
Theorem restart_policy_misplaced (name reference : string) :
  exists spec container,
    json_get "spec" (pod_document name reference) = Some spec /\
    json_get "containers" spec = Some (JArr [container]) /\
    json_get "restartPolicy" spec = None /\
    json_get "restartPolicy" container = Some (JStr "Never").
Proof. eexists _, _. split_and!; reflexivity. Qed.

(** ** Witnesses *)

(** A pod as the API server reports it once it has started. *)
Definition example_pod : Pod := {|
  metadata := {| meta_name := Some "oracle-0a1b"; meta_namespace := Some OCF_NAMESPACE;
                 meta_labels := None; meta_resource_version := Some "7" |};
  spec := Some {| containers := [{| container_name := "oracle-0a1b";
                                    container_image := Some "registry.kurl/ocf:tag";
                                    container_ports := Some [{| container_port := 8080 |}] |}] |};
  status := Some {| pod_ip := Some "10.0.0.7";
                    container_statuses := Some [{| cs_state := Some {|
                      state_running := Some {| started_at := None |};
                      state_terminated := None; state_waiting := None |} |}] |};
|}.

Example address_example : address example_pod = Ok "10-0-0-7.ocf.pod:8080".
Proof. vm_compute. reflexivity. Qed.

Lemma dns_injective_witness : "10.0.0.7" = "10.0.0.7".
Proof.
  apply (dns_injective example_pod example_pod
    {| pod_ip := Some "10.0.0.7"; container_statuses := Some [{| cs_state := Some {|
       state_running := Some {| started_at := None |};
       state_terminated := None; state_waiting := None |} |}] |}
    {| pod_ip := Some "10.0.0.7"; container_statuses := Some [{| cs_state := Some {|
       state_running := Some {| started_at := None |};
       state_terminated := None; state_waiting := None |} |}] |}
    "10.0.0.7" "10.0.0.7" OCF_NAMESPACE "10-0-0-7.ocf.pod");
    reflexivity.
Defined.
