(* ===== verification/Kube.v ===== *)
(** * The Kubernetes client

    [library/k8s/src/errors.rs], [client.rs] and [lib.rs]: the errors of the API
    server, the client, and the two operations that the ACM performs on pods,
    [deploy] and [delete].

    The API server itself (the crate [kube]) is not part of the sources.  It is
    the interface [PodApi]: operations on an unknown world [W], with the
    documented behaviour that the theorems use stated as the laws of
    [PodApiLaws].  The file ends with an instance, a server that keeps pods in a
    finite map, which shows that the laws can hold. *)

From S2P Require Import Prelude RustStr Json Errors Names Pod.

(** ** [kube::Error] *)

(** [kube::error::ErrorResponse]. *)
Record ErrorResponse := {
  er_status : string;
  er_message : string;
  er_reason : string;
  er_code : Z;
}.

(** [kube::Error], with the [Display] text of the error.  The variants that the
    services do not distinguish are [KRest]. *)
Inductive kube_error :=
| KApi (response : ErrorResponse) (text : string)
| KConnection (text : string)
| KRest (text : string).

Definition kube_text (e : kube_error) : string :=
  match e with KApi _ t => t | KConnection t => t | KRest t => t end.

#[export] Instance ErrorResponse_eq_dec : EqDecision ErrorResponse.
Proof. solve_decision. Defined.
#[export] Instance kube_error_eq_dec : EqDecision kube_error.
Proof. solve_decision. Defined.

(** ** [errors.rs] *)

Inductive ApiError :=
| Api (e : kube_error)
| Connection (e : kube_error)
| Rest (e : kube_error).

(** [impl From<kube::Error> for ApiError]. *)
Definition ApiError_from (e : kube_error) : ApiError :=
  match e with
  | KApi _ _ => Api e
  | KConnection _ => Connection e
  | KRest _ => Rest e
  end.

#[export] Instance ApiError_AcmError : AcmError ApiError := {|
  acm_error := {|
    display e := match e with
      | Api _ => "The Kubernetes API server rejected our request"
      | Connection _ => "Failed to connect to the Kubernetes API server"
      | Rest _ => "The Kubernetes API server rejected our request"
      end;
    source e := match e with Api e | Connection e | Rest e => Some (kube_text e) end |};
  acm_code e := match e with
    | Api _ | Connection _ | Rest _ => Status.InternalServerError
    end;
  acm_kind e := match e with
    | Api _ => "ApiError::Api"
    | Connection _ => "ApiError::Connection"
    | Rest _ => "ApiError::Rest"
    end;
|}.

(** ** The API server *)

(** [kube::core::response::Status]. *)
Record KubeStatus := {
  ks_status : string;
  ks_message : string;
  ks_reason : string;
  ks_code : Z;
}.

Record DeleteParams := {
  dp_dry_run : bool;
  dp_grace_period_seconds : option Z;
}.
Definition DeleteParams_default : DeleteParams :=
  {| dp_dry_run := false; dp_grace_period_seconds := None |}.

(** What the services call.  [connect] is [kube::Client::try_default], which
    reads the configuration of the environment; [hostname] is the contents of
    [/etc/hostname]. *)
Class PodApi (W : Type) := {
  connect : W -> result unit kube_error;
  hostname : W -> option string;
  api_get : string -> string -> W -> result Pod kube_error;
  api_create : string -> Pod -> W -> result Pod kube_error * W;
  api_delete : string -> string -> DeleteParams -> W -> result (Pod + KubeStatus) kube_error * W;
}.

Definition not_found (code : Z) : bool := code =? 404.

(** The documented behaviour of a server that is up: the pods that it stores
    are a finite map from namespace and name. *)
Class PodApiLaws (W : Type) `{PodApi W} := {
  pods : W -> gmap (string * string) Pod;
  (** Looking up a stored pod returns it. *)
  law_get ns n w p : pods w !! (ns, n) = Some p -> api_get ns n w = Ok p;
  (** Creating a pod under a free name stores it. *)
  law_create ns n p w :
    meta_name (metadata p) = Some n -> pods w !! (ns, n) = None ->
    exists p' w', api_create ns p w = (Ok p', w') /\
      meta_name (metadata p') = Some n /\ meta_labels (metadata p') = meta_labels (metadata p) /\
      pods w' = <[(ns, n) := p']> (pods w);
  (** Deleting a stored pod is accepted; the pod may remain while it shuts
      down.  No other pod is affected. *)
  law_delete_found ns n dp w p :
    pods w !! (ns, n) = Some p ->
    exists w', api_delete ns n dp w = (Ok (inl p), w') /\
      (pods w' = pods w \/ pods w' = delete (ns, n) (pods w)) /\ connect w' = connect w;
  (** Deleting an unknown pod is refused with 404. *)
  law_delete_missing ns n dp w :
    pods w !! (ns, n) = None ->
    exists r t, api_delete ns n dp w = (Err (KApi r t), w) /\ er_code r = 404;
}.

(** ** [client.rs] and [lib.rs] *)

Section Lib.
Context {W : Type} `{PodApi W}.
Context (simple : Z -> string) (to_kebab : string -> string) (ua : Z -> bool).
Context (from_value : json -> result Pod string).

(** [client::new_with_namespace]: the client is its namespace; a missing
    configuration panics. *)
Definition new_with_namespace (ns : string) (w : W) : run string :=
  match connect w with
  | Ok _ => Done ns
  | Err e => Panic (dyn_display (into_box (ApiError_from e)))
  end.
Definition client_new (w : W) : run string := new_with_namespace OCF_NAMESPACE w.
Definition client_new_for_system (w : W) : run string :=
  new_with_namespace OCF_SYSTEM_NAMESPACE w.

(** [servicer]: the pod that executes this code. *)
Definition servicer (w : W) : run (Result Pod) :=
  let! ns := client_new_for_system w in
  let! name := unwrap (hostname w) "could not read /etc/hostname! This is extremely fatal!" in
  Done (map_err (fun e => into_box (ApiError_from e)) (api_get ns (trim name) w)).

Definition set_labels (ls : list (string * string)) (p : Pod) : Pod :=
  {| metadata := {| meta_name := meta_name (metadata p);
                    meta_namespace := meta_namespace (metadata p);
                    meta_labels := Some ls;
                    meta_resource_version := meta_resource_version (metadata p) |};
     spec := spec p; status := status p |}.

(** A step of a handler: it threads the world through. *)
Definition threaded {A} (r : run (Result A)) (w : W) (k : A -> run (Result Pod) * W)
  : run (Result Pod) * W :=
  match r with
  | Done (Ok a) => k a
  | Done (Err e) => (Done (Err e), w)
  | Panic m => (Panic m, w)
  end.

(** [k8s::deploy].  The labels are a [BTreeMap]; the list is in key order. *)
Definition deploy (random : Z) (reference name : string) (ttl : Z) (w : W)
  : run (Result Pod) * W :=
  threaded (pod_new simple to_kebab ua from_value random reference name) w (fun pod =>
  threaded (servicer w) w (fun myself =>
  threaded (let! n := pod_name myself in Done (Ok n)) w (fun servicer_name =>
  threaded (Done (dns myself)) w (fun servicer_dns =>
  threaded (Done (port myself)) w (fun servicer_port =>
  let pod := set_labels [("servicer", servicer_name);
                         ("servicer_dns", servicer_dns);
                         ("servicer_port", fmt_int servicer_port);
                         ("ttl", fmt_int ttl)] pod in
  threaded (let! c := client_new w in Done (Ok c)) w (fun client =>
  let '(r, w') := api_create client pod w in
  (Done (map_err (fun e => into_box (ApiError_from e)) r), w'))))))).

(** [k8s::delete]. *)
Definition delete_params : DeleteParams :=
  {| dp_dry_run := false; dp_grace_period_seconds := Some 60 |}.
Definition gone : KubeStatus :=
  {| ks_status := ""; ks_message := ""; ks_reason := ""; ks_code := 0 |}.

Definition k8s_delete (id : string) (w : W) : run (Result (Pod + KubeStatus)) * W :=
  match client_new w with
  | Panic m => (Panic m, w)
  | Done client =>
      let '(r, w') := api_delete client id delete_params w in
      let r := match r with
               | Err (KApi resp t) => if not_found (er_code resp) then Ok (inr gone) else Err (KApi resp t)
               | r => r
               end in
      (Done (map_err (fun e => into_box (ApiError_from e)) r), w')
  end.
End Lib.

(** [n] calls of the delete endpoint for the same pod, with what each returned. *)
Fixpoint delete_times {W} `{PodApi W} (n : nat) (id : string) (w : W)
  : list (run (Result (Pod + KubeStatus))) * W :=
  match n with
  | O => ([], w)
  | S n' =>
      let '(r, w1) := k8s_delete id w in
      let '(rs, w2) := delete_times n' id w1 in
      (r :: rs, w2)
  end.

Definition succeeded {A} (r : run (Result A)) : bool :=
  match r with Done (Ok _) => true | _ => false end.

(** ** Lemmas *)

Section Laws.
Context {W : Type} `{PodApiLaws W}.

Lemma client_new_connected w : connect w = Ok tt -> client_new w = Done OCF_NAMESPACE.
Proof. intros Hc. unfold client_new, new_with_namespace. by rewrite Hc. Qed.

Lemma k8s_delete_step id w :
  connect w = Ok tt ->
  exists r w', k8s_delete id w = (Done (Ok r), w') /\ connect w' = Ok tt /\
    (pods w' = pods w \/ pods w' = delete (OCF_NAMESPACE, id) (pods w)).
Proof.
  intros Hc. unfold k8s_delete. rewrite client_new_connected by done.
  destruct (pods w !! (OCF_NAMESPACE, id)) as [p|] eqn:E.
  - destruct (law_delete_found _ _ delete_params _ _ E) as (w' & -> & Hp & Hc').
    simpl. exists (inl p), w'. rewrite Hc'. auto.
  - destruct (law_delete_missing _ _ delete_params _ E) as (r & t & -> & Hr).
    unfold not_found. rewrite Hr. simpl. exists (inr gone), w. auto.
Qed.

(** ** Theorems *)

(** While the API server answers as documented, deleting is idempotent:
    any number of calls of the delete endpoint for a pod all succeed, whether or
    not the pod exists, and no other pod is touched. *)
Theorem delete_idempotent (n : nat) (id : string) (w : W) (Hc : connect w = Ok tt) :
  let '(rs, w') := delete_times n id w in
  Forall (fun r => succeeded r = true) rs /\ length rs = n /\
  forall k, k <> (OCF_NAMESPACE, id) -> pods w' !! k = pods w !! k.
Proof.
  revert w Hc; induction n as [|n IH]; intros w Hc; simpl; [by repeat split|].
  destruct (k8s_delete_step id w Hc) as (r & w1 & -> & Hc1 & Hp).
  specialize (IH w1 Hc1). destruct (delete_times n id w1) as [rs w2].
  destruct IH as (? & ? & Hk). split_and!; [by constructor|simpl; congruence|].
  intros k Hne. rewrite Hk by done. destruct Hp as [->| ->]; [done|].
  by rewrite lookup_delete_ne.
Qed.

Context (simple : Z -> string) (to_kebab : string -> string) (ua : Z -> bool).
Context (from_value : json -> result Pod string).

(** Deploying against a server that answers as documented creates exactly
    one pod, in the namespace [ocf], under the sanitised name and with the
    labels that identify the servicing ACM and its TTL. *)
Theorem deploy_creates (random : Z) (reference name : string) (ttl : Z) (w : W)
  (n host sname sdns : string) (sport : Z) (p0 myself : Pod)
  (Hc : connect w = Ok tt)
  (Hname : rfc1123_subdomain simple to_kebab ua random name = Done n)
  (Hfrom : from_value (pod_document n reference) = Ok p0)
  (Hmeta : meta_name (metadata p0) = Some n)
  (Hfree : pods w !! (OCF_NAMESPACE, n) = None)
  (Hhost : hostname w = Some host)
  (Hself : pods w !! (OCF_SYSTEM_NAMESPACE, trim host) = Some myself)
  (Hsname : meta_name (metadata myself) = Some sname)
  (Hsdns : dns myself = Ok sdns) (Hsport : port myself = Ok sport) :
  exists p w', deploy simple to_kebab ua from_value random reference name ttl w = (Done (Ok p), w') /\
    pods w' = <[(OCF_NAMESPACE, n) := p]> (pods w) /\
    meta_name (metadata p) = Some n /\
    meta_labels (metadata p) = Some [("servicer", sname); ("servicer_dns", sdns);
                                     ("servicer_port", fmt_int sport); ("ttl", fmt_int ttl)].
Proof.
  unfold deploy, pod_new, servicer, client_new_for_system, client_new, new_with_namespace.
  rewrite Hname, Hc, Hhost. simpl. rewrite Hfrom. simpl.
  rewrite (law_get _ _ _ _ Hself). simpl. unfold pod_name. rewrite Hsname. simpl.
  rewrite Hsdns. simpl. rewrite Hsport. simpl.
  set (p1 := set_labels _ p0).
  destruct (law_create OCF_NAMESPACE n p1 w) as (p & w' & -> & ? & Hl & ?); [done|done|].
  simpl. eauto 10.
Qed.
End Laws.

(** ** A server that satisfies the laws *)

Record mem_server := { mem_pods : gmap (string * string) Pod; mem_host : string }.

Definition mem_error (code : Z) : kube_error :=
  KApi {| er_status := "Failure"; er_message := ""; er_reason := ""; er_code := code |} "".

#[export] Instance mem_PodApi : PodApi mem_server := {|
  connect _ := Ok tt;
  hostname w := Some (mem_host w);
  api_get ns n w := ok_or (mem_pods w !! (ns, n)) (mem_error 404);
  api_create ns p w :=
    match meta_name (metadata p) with
    | None => (Err (mem_error 422), w)
    | Some n =>
        match mem_pods w !! (ns, n) with
        | Some _ => (Err (mem_error 409), w)
        | None => (Ok p, {| mem_pods := <[(ns, n) := p]> (mem_pods w); mem_host := mem_host w |})
        end
    end;
  api_delete ns n _ w :=
    match mem_pods w !! (ns, n) with
    | None => (Err (mem_error 404), w)
    | Some p => (Ok (inl p), {| mem_pods := delete (ns, n) (mem_pods w); mem_host := mem_host w |})
    end;
|}.

#[export] Instance mem_PodApiLaws : PodApiLaws mem_server.
Proof.
  refine {| pods := mem_pods |}; cbn.
  - intros ns n w p ->. done.
  - intros ns n p w Hn Hf. rewrite Hn, Hf. eexists _, _. split_and!; done.
  - intros ns n dp w p ->. eexists. split_and!; [reflexivity|by right|done].
  - intros ns n dp w ->. unfold mem_error. eauto.
Defined.

Definition mem_example : mem_server := {|
  mem_pods := {[ (OCF_SYSTEM_NAMESPACE, "acm-0") := example_pod ]};
  mem_host := "acm-0" |}.

(** A deserialiser for the one field that the laws speak of. *)
Definition name_from_value (j : json) : result Pod string :=
  match json_get "metadata" j ≫= json_get "name" with
  | Some (JStr n) =>
      Ok {| metadata := {| meta_name := Some n; meta_namespace := Some OCF_NAMESPACE;
                           meta_labels := None; meta_resource_version := None |};
            spec := None; status := None |}
  | _ => Err "missing field `name`"
  end.

Lemma delete_idempotent_witness :
  let '(rs, w') := delete_times 3 "oracle" mem_example in
  Forall (fun r => succeeded r = true) rs /\ length rs = 3%nat /\
  forall k, k <> (OCF_NAMESPACE, "oracle") -> pods w' !! k = pods mem_example !! k.
Proof. apply (delete_idempotent 3 "oracle" mem_example). reflexivity. Defined.

Definition example_name : string := "oracle-00000000000000000000000000000000".

Lemma deploy_creates_witness :
  exists p w', deploy hex_simple space_kebab no_unicode name_from_value 0 "registry.kurl/ocf:t" "Oracle" 150
      mem_example = (Done (Ok p), w') /\
    pods w' = <[(OCF_NAMESPACE, example_name) := p]> (pods mem_example) /\
    meta_name (metadata p) = Some example_name /\
    meta_labels (metadata p) =
      Some [("servicer", "oracle-0a1b"); ("servicer_dns", "10-0-0-7.ocf.pod");
            ("servicer_port", "8080"); ("ttl", "150")].
Proof.
  apply (deploy_creates hex_simple space_kebab no_unicode name_from_value 0 "registry.kurl/ocf:t"
           "Oracle" 150 mem_example example_name "acm-0" "oracle-0a1b" "10-0-0-7.ocf.pod" 8080
           {| metadata := {| meta_name := Some example_name; meta_namespace := Some OCF_NAMESPACE;
                             meta_labels := None; meta_resource_version := None |};
              spec := None; status := None |} example_pod);
    vm_compute; reflexivity.
Defined.
