(* ===== verification/Logs.v ===== *)
(** * Copying the log of a pod

    [Logs::stream_into] of [library/k8s/src/client.rs].  The log arrives as a
    stream of chunks, each of which may be an error; [tokio::io::copy] moves it
    into a buffered file.  The API server, the file system and [tokio] are
    parameters; [CopyLaws] is what the documentation of [tokio] says of the copy. *)

From S2P Require Import Prelude RustStr Json Errors Names Pod Kube.

(** [kube::api::LogParams]. *)
Record LogParams := {
  lp_container : option string;
  lp_follow : bool;
  lp_limit_bytes : option Z;
  lp_pretty : bool;
  lp_previous : bool;
  lp_since_seconds : option Z;
  lp_tail_lines : option Z;
  lp_timestamps : bool;
}.

Definition stream_params : LogParams := {|
  lp_container := None; lp_follow := true; lp_limit_bytes := None; lp_pretty := false;
  lp_previous := false; lp_since_seconds := None; lp_tail_lines := None; lp_timestamps := false |}.

Record StreamError := { stream_cause : kube_error }.
Definition StreamError_display (e : StreamError) : string := "this is hard".

(** [std::io::Error::new(kind, error)]. *)
Inductive ErrorKind := BrokenPipe | OtherKind.
Record io_error := { io_kind : ErrorKind; io_inner : StreamError }.

Definition io_error_from (e : StreamError) : io_error := {| io_kind := BrokenPipe; io_inner := e |}.

(** [tokio::io::copy] from a [StreamReader] into a [BufWriter] over a file: what
    is in the file when both are dropped, and what the copy returns. *)
Class Copy := copied : list (result string io_error) -> string * result Z io_error.

Definition concat_chunks (l : list string) : string := String.concat "" l.

Class CopyLaws `{Copy} := {
  (** A stream that ends is copied as a whole, and flushed. *)
  law_copied chunks :
    copied (map Ok chunks) = (concat_chunks chunks, Ok (Z.of_nat (String.length (concat_chunks chunks))));
  (** An error ends the copy; what the buffer still held may be lost. *)
  law_copy_error chunks e rest : exists lost,
    (copied (map Ok chunks ++ Err e :: rest)).1 +:+ lost = concat_chunks chunks /\
    (copied (map Ok chunks ++ Err e :: rest)).2 = Err e;
}.

Section Logs.
Context `{Copy}.
(** [Api::log_stream] with all that the server sends, and [File::create]. *)
Context (log_stream : string -> LogParams -> result (list (result string kube_error)) kube_error).
Context (create : string -> result unit string).

Definition unwrap_failed : string := "called `Result::unwrap()` on an `Err` value".

(** The content of the file in the end; the result of the copy is ignored. *)
Definition stream_into (resource : Pod) (dst : string) : run string :=
  let! name := pod_name resource in
  let! stream := unwrap_result (log_stream name stream_params) unwrap_failed in
  let src := map (fun item => match item with
                              | Err err => Err (io_error_from {| stream_cause := err |})
                              | Ok buf => Ok buf
                              end) stream in
  let! _ := unwrap_result (create dst) unwrap_failed in
  Done (copied src).1.

(** The chunks up to the first error. *)
Fixpoint received (stream : list (result string kube_error)) : list string * bool :=
  match stream with
  | Ok c :: stream => let '(l, ok) := received stream in (c :: l, ok)
  | Err _ :: _ => ([], false)
  | [] => ([], true)
  end.

Definition to_io (item : result string kube_error) : result string io_error :=
  match item with Err err => Err (io_error_from {| stream_cause := err |}) | Ok buf => Ok buf end.

Lemma received_spec stream :
  if (received stream).2 then map to_io stream = map Ok (received stream).1
  else exists e rest, map to_io stream = map Ok (received stream).1 ++ Err e :: rest.
Proof.
  induction stream as [|[c|e] stream IH]; simpl; [done| |].
  - destruct (received stream) as [l [|]]; simpl in *; [by rewrite IH|].
    destruct IH as (e & rest & ->). eauto.
  - eauto.
Qed.

(** What reaches the file is the log: all of it when the server closes the
    stream, and otherwise a beginning of what arrived before the first error,
    about which the caller is told nothing.  It panics when the pod has no name,
    when the log cannot be opened and when the file cannot be created. *)
Theorem stream_into_content `{!CopyLaws} (resource : Pod) (dst : string) :
  match pod_name resource with
  | Panic m => stream_into resource dst = Panic m
  | Done name =>
      match log_stream name stream_params, create dst with
      | Ok stream, Ok _ => exists content lost, stream_into resource dst = Done content /\
          content +:+ lost = concat_chunks (received stream).1 /\ ((received stream).2 = true -> lost = "")
      | _, _ => stream_into resource dst = Panic unwrap_failed
      end
  end.
Proof.
  unfold stream_into. destruct (pod_name resource) as [name|m]; [|done]. simpl.
  destruct (log_stream name stream_params) as [stream|e]; [|done]. simpl. destruct (create dst); [|done]. simpl.
  change (map _ stream) with (map to_io stream). pose proof (received_spec stream) as Hr.
  destruct (received stream) as [l [|]]; simpl in *.
  - rewrite Hr, law_copied. exists (concat_chunks l), "". split_and!; [done|apply str_app_nil_r|done].
  - destruct Hr as (e & rest & ->). destruct (law_copy_error l e rest) as (lost & Hc & _).
    by exists (copied (map Ok l ++ Err e :: rest)).1, lost.
Qed.
End Logs.

(** ** An instance: a copy without a buffer *)

Fixpoint copy_all (l : list (result string io_error)) : string * result Z io_error :=
  match l with
  | [] => ("", Ok 0)
  | Err e :: _ => ("", Err e)
  | Ok c :: l =>
      let '(s, r) := copy_all l in
      (c +:+ s, let? n := r in Ok (Z.of_nat (String.length c) + n))
  end.
#[export] Instance plain_copy : Copy := copy_all.

Lemma concat_cons c l : concat_chunks (c :: l) = c +:+ concat_chunks l.
Proof.
  destruct l as [|d l]; [|done]. symmetry. apply str_app_nil_r.
Qed.

#[export] Instance plain_copy_laws : CopyLaws.
Proof.
  split; unfold copied, plain_copy.
  - induction chunks as [|c l IH]; [done|]. cbn [map copy_all]. rewrite IH, concat_cons. simpl. f_equal. f_equal.
    rewrite length_str_app. lia.
  - intros chunks e rest. exists "". induction chunks as [|c l [IH1 IH2]]; [done|]. cbn [map copy_all app].
    rewrite concat_cons. destruct (copy_all (map Ok l ++ Err e :: rest)) as [s r]. simpl in *. subst r. split; [|done].
    by rewrite <- IH1, str_app_assoc.
Qed.

Example stream_into_example :
  stream_into (fun _ _ => Ok [Ok "Hello, "; Ok "Alation!"; Err (mem_error 500); Ok "lost"]) (fun _ => Ok tt)
    {| metadata := {| meta_name := Some "oracle"; meta_namespace := None; meta_labels := None;
                      meta_resource_version := None |}; spec := None; status := None |} "/tmp/log" = Done "Hello, Alation!".
Proof. vm_compute. reflexivity. Qed.
