(* ===== verification/Derive.v ===== *)
(** * The derive macros

    [library/kind-derive], [library/httpcode-derive] and [library/error-derive]:
    from the definition of a type they generate the implementations of [Kind],
    [HttpCode] and [AcmError].  The crate [syn] has parsed the definition; what
    the macros look at is [DeriveInput] below, and the code they generate is one
    expression or the arms of one [match], evaluated by [eval]. *)

From S2P Require Import Prelude RustStr Errors Names Pod Kube.

(** ** Definitions of types, as [syn] presents them *)

(** An attribute: its path, and the expression that its arguments parse to
    ([None] when they do not parse).  The expressions of [code] attributes are
    status codes. *)
Record Attribute := { attr_path : string; attr_args : option Status.t }.

Inductive Fields := Unnamed | Named | Unit.
#[export] Instance Fields_eq_dec : EqDecision Fields.
Proof. solve_decision. Defined.

Record Variant := { v_ident : string; v_fields : Fields; v_attrs : list Attribute }.

Inductive Data := Struct | Enum (variants : list Variant) | Union.

Record DeriveInput := { ident : string; attrs : list Attribute; data : Data }.

(** ** Generated code *)

(** A pattern [name::variant(..)], [name::variant{ .. }] or [name::variant]. *)
Record pattern := { pat_variant : string; pat_fields : Fields }.

Inductive generated (A : Type) :=
| Body (a : A)
| Match (arms : list (pattern * A)).
Arguments Body {A} a.
Arguments Match {A} arms.

(** A value of the type: a struct, or a value of a variant. *)
Inductive value := StructValue | EnumValue (variant : string) (fields : Fields).

Definition matches (v : string) (f : Fields) (p : pattern) : bool :=
  String.eqb (pat_variant p) v && bool_decide (pat_fields p = f).

(** The first arm that matches; [None] when no arm does. *)
Definition eval {A} (g : generated A) (x : value) : option A :=
  match g, x with
  | Body a, _ => Some a
  | Match arms, EnumValue v f => snd <$> List.find (fun arm => matches v f arm.1) arms
  | Match _, StructValue => None
  end.

(** ** The macros *)

Fixpoint map_run {A B} (f : A -> run B) (l : list A) : run (list B) :=
  match l with
  | [] => Done []
  | x :: l' =>
      let! y := f x in
      let! ys := map_run f l' in
      Done (y :: ys)
  end.

Definition arm {A} (v : Variant) (a : A) : pattern * A :=
  ({| pat_variant := v_ident v; pat_fields := v_fields v |}, a).

Definition union_message (name : string) : string :=
  "kind-derive does not support Unions yet. Perhaps you should try manually implementing Kind?

r#" +:+ dq +:+ "impl Kind for " +:+ name +:+ " {
    fn kind(&self) -> &'static str {
        ...
    }
}".

(** [#[derive(Kind)]]. *)
Definition derive_kind (input : DeriveInput) : run (generated string) :=
  match data input with
  | Struct => Done (Body (ident input))
  | Enum variants =>
      Done (Match (map (fun v => arm v (ident input +:+ "::" +:+ v_ident v)) variants))
  | Union => Panic (union_message (ident input))
  end.

(** [attrs.iter().find(|attr| attr.path.is_ident("code"))]. *)
Definition find_code (attrs : list Attribute) : option Attribute :=
  List.find (fun a => String.eqb (attr_path a) "code") attrs.

Definition variant_code (v : Variant) : run Status.t :=
  let! code := unwrap (find_code (v_attrs v)) ("variant " +:+ v_ident v +:+ " missigin code attribute") in
  unwrap (attr_args code) "called `Result::unwrap()` on an `Err` value".

(** [#[derive(HttpCode)]]. *)
Definition derive_http_code (input : DeriveInput) : run (generated Status.t) :=
  match data input with
  | Struct =>
      match find_code (attrs input) with
      | Some attribute =>
          let! code := unwrap (attr_args attribute) "called `Result::unwrap()` on an `Err` value" in
          Done (Body code)
      | None => Panic "struct must have #[code(<CODE>)] attribute"
      end
  | Enum variants =>
      let! arms := map_run (fun v => let! code := variant_code v in Done (arm v code)) variants in
      Done (Match arms)
  | Union => Panic "just say no to unions"
  end.

(** [#[derive(AcmError)]]: the tokens of an empty implementation. *)
Definition derive_acm_error (input : DeriveInput) : string :=
  "impl AcmError for " +:+ ident input +:+ " { }".

(** ** What they should do *)

(** The values of a type. *)
Definition inhabits (input : DeriveInput) (x : value) : Prop :=
  match data input, x with
  | Struct, StructValue => True
  | Enum variants, EnumValue v f =>
      exists w, w ∈ variants /\ v_ident w = v /\ v_fields w = f
  | _, _ => False
  end.

(** The compiler refuses an enum with two variants of the same name. *)
Definition well_formed (input : DeriveInput) : Prop :=
  match data input with Enum variants => NoDup (map v_ident variants) | _ => True end.

(** The code that the definition declares for a value: the first [code]
    attribute of the struct, or of the value's variant. *)
Definition declared_code (input : DeriveInput) (x : value) : option Status.t :=
  match data input, x with
  | Struct, _ => find_code (attrs input) ≫= attr_args
  | Enum variants, EnumValue v _ =>
      List.find (fun w => String.eqb (v_ident w) v) variants ≫= fun w =>
      find_code (v_attrs w) ≫= attr_args
  | _, _ => None
  end.

(** ** Lemmas *)

Lemma find_arm {A} (g : Variant -> A) variants w :
  NoDup (map v_ident variants) -> w ∈ variants ->
  List.find (fun a => matches (v_ident w) (v_fields w) a.1) (map (fun v => arm v (g v)) variants) =
    Some (arm w (g w)) /\
  List.find (fun v => String.eqb (v_ident v) (v_ident w)) variants = Some w.
Proof.
  intros Hnd Hin. induction variants as [|v vs IH]; [set_solver|]. simpl in Hnd |- *.
  apply NoDup_cons in Hnd as [Hv Hnd]. unfold matches at 1. simpl.
  apply elem_of_cons in Hin as [->|Hin].
  - by rewrite String.eqb_refl, bool_decide_true.
  - destruct (String.eqb_spec (v_ident v) (v_ident w)) as [Heq|Hne]; [|by apply IH].
    destruct Hv. rewrite Heq. apply list_elem_of_In, in_map, list_elem_of_In, Hin.
Qed.

Lemma map_run_Done {A B} (f : A -> run B) l ys :
  map_run f l = Done ys <-> Forall2 (fun x y => f x = Done y) l ys.
Proof.
  revert ys; induction l as [|x l IH]; intros ys; simpl.
  - split; [intros [= <-]; constructor|intros H; by inversion H].
  - rewrite run_bind_Done. split.
    + intros (y & Hy & (ys' & Hys & [= <-])%run_bind_Done). constructor; [done|by apply IH].
    + intros H. inversion H as [|? y ? ys' Hy Hys]; subst. exists y. split; [done|].
      apply run_bind_Done. exists ys'. split; [by apply IH|done].
Qed.

Lemma map_run_total {A B} (f : A -> run B) (g : A -> B) l :
  Forall (fun x => f x = Done (g x)) l -> map_run f l = Done (map g l).
Proof. induction 1 as [|x l Hx _ IH]; simpl; [done|]. by rewrite Hx, IH. Qed.

Lemma variant_code_Done v c : variant_code v = Done c <-> find_code (v_attrs v) ≫= attr_args = Some c.
Proof.
  unfold variant_code. destruct (find_code (v_attrs v)) as [[p [a|]]|]; simpl; naive_solver.
Qed.

Lemma append_name_inj (n s t : string) : n +:+ s = n +:+ t -> s = t.
Proof. apply inj, _. Qed.

(** The arms of the generated [http_code]. *)
Lemma http_code_arms variants arms w :
  NoDup (map v_ident variants) -> w ∈ variants ->
  Forall2 (fun v a => (let! code := variant_code v in Done (arm v code)) = Done a) variants arms ->
  exists c, variant_code w = Done c /\
    List.find (fun a => matches (v_ident w) (v_fields w) a.1) arms = Some (arm w c).
Proof.
  intros Hnd Hin Harms. induction Harms as [|v a vs arms Ha _ IH]; [set_solver|]. simpl in Hnd |- *.
  apply NoDup_cons in Hnd as [Hv Hnd]. apply run_bind_Done in Ha as (c & Hc & [= <-]).
  unfold matches at 1. simpl. apply elem_of_cons in Hin as [->|Hin].
  - rewrite String.eqb_refl, bool_decide_true by done. eauto.
  - destruct (String.eqb_spec (v_ident v) (v_ident w)) as [Heq|Hne]; [|by apply IH].
    destruct Hv. rewrite Heq. apply list_elem_of_In, in_map, list_elem_of_In, Hin.
Qed.

(** ** Theorems *)

(** The derived [kind] names every value: for a struct the name of the
    type, for a value of an enum the name of the type and of its variant; the
    generated [match] is exhaustive, and values of different variants have
    different kinds. *)
Theorem derive_kind_names (input : DeriveInput) (g : generated string)
  (Hwf : well_formed input) (Hg : derive_kind input = Done g) :
  (forall x, inhabits input x ->
     eval g x = Some match x with
                     | StructValue => ident input
                     | EnumValue v _ => ident input +:+ "::" +:+ v
                     end) /\
  (forall v f v' f', inhabits input (EnumValue v f) -> inhabits input (EnumValue v' f') ->
     eval g (EnumValue v f) = eval g (EnumValue v' f') -> v = v').
Proof.
  unfold derive_kind, well_formed, inhabits in *. destruct (data input) as [|variants|]; try done.
  - injection Hg as <-. split; [by intros [|]|done].
  - injection Hg as <-.
    assert (He : forall v f, (exists w, w ∈ variants /\ v_ident w = v /\ v_fields w = f) ->
      eval (Match (map (fun v => arm v (ident input +:+ "::" +:+ v_ident v)) variants)) (EnumValue v f) =
      Some (ident input +:+ "::" +:+ v)).
    { intros v f (w & Hin & <- & <-). simpl.
      by destruct (find_arm (fun v => ident input +:+ "::" +:+ v_ident v) variants w Hwf Hin) as [-> _]. }
    split; [intros [|v f] Hx; [done|by apply He]|].
    intros v f v' f' Hv Hv'. rewrite (He v f Hv), (He v' f' Hv'). intros Heq.
    apply (inj Some), append_name_inj, append_name_inj in Heq. done.
Qed.

(** C36: the derived [http_code] is the declared one: when the macro accepts a
    type, every value is answered with the first [code] attribute of its struct
    or variant; and it accepts a struct or enum exactly when each of these has
    one that parses. *)
Theorem derive_http_code_declared (input : DeriveInput) (Hwf : well_formed input) :
  (forall g, derive_http_code input = Done g -> forall x, inhabits input x ->
     is_Some (declared_code input x) /\ eval g x = declared_code input x) /\
  (data input <> Union -> (forall x, inhabits input x -> is_Some (declared_code input x)) ->
   exists g, derive_http_code input = Done g).
Proof.
  unfold derive_http_code, well_formed, inhabits, declared_code in *.
  destruct (data input) as [|variants|] eqn:Ed; [| |by split].
  - destruct (find_code (attrs input)) as [[p [c|]]|]; simpl; split; try done.
    + intros g [= <-] [|] Hx; [|done]. eauto.
    + eauto.
    + intros _ Hx. by destruct (Hx StructValue I).
    + intros _ Hx. by destruct (Hx StructValue I).
  - split.
    + intros g (arms & Ha%map_run_Done & [= <-])%run_bind_Done [|v f] Hx; [done|].
      destruct Hx as (w & Hin & <- & <-).
      destruct (http_code_arms _ _ _ Hwf Hin Ha) as (c & Hc%variant_code_Done & Hf).
      destruct (find_arm (fun _ => tt) variants w Hwf Hin) as [_ ->]. simpl. rewrite Hc, Hf. simpl. eauto.
    + intros _ Hx.
      assert (Hall : Forall (fun v => is_Some (find_code (v_attrs v) ≫= attr_args)) variants).
      { apply Forall_forall. intros w Hin.
        specialize (Hx (EnumValue (v_ident w) (v_fields w)) (ex_intro _ w (conj Hin (conj eq_refl eq_refl)))).
        cbn beta iota in Hx. destruct (find_arm (fun _ => tt) variants w Hwf Hin) as [_ Heq].
        by rewrite Heq in Hx. }
      clear -Hall. induction Hall as [|v vs [c Hc] _ [g Hg]]; simpl; [by eexists|].
      apply variant_code_Done in Hc. rewrite Hc. simpl. apply run_bind_Done in Hg as (arms & -> & _). by eexists.
Qed.

(** ** Witnesses *)

(** [ApiError] of [library/k8s/src/errors.rs], as the macros see it. *)
Definition ApiError_input : DeriveInput :=
  let code := [{| attr_path := "error"; attr_args := None |};
               {| attr_path := "code"; attr_args := Some Status.InternalServerError |}] in
  {| ident := "ApiError"; attrs := [];
     data := Enum [{| v_ident := "Api"; v_fields := Unnamed; v_attrs := code |};
                   {| v_ident := "Connection"; v_fields := Unnamed; v_attrs := code |};
                   {| v_ident := "Rest"; v_fields := Unnamed; v_attrs := code |}] |}.

Definition ApiError_value (e : ApiError) : value :=
  EnumValue match e with Api _ => "Api" | Connection _ => "Connection" | Rest _ => "Rest" end Unnamed.

(** The instances of [Kube.v] are what the macros generate. *)
Lemma ApiError_derived e :
  (exists g, derive_kind ApiError_input = Done g /\ eval g (ApiError_value e) = Some (kind e)) /\
  (exists g, derive_http_code ApiError_input = Done g /\ eval g (ApiError_value e) = Some (http_code e)).
Proof. destruct e; (split; eexists; (split; [reflexivity|vm_compute; reflexivity])). Qed.

Lemma ApiError_well_formed : well_formed ApiError_input.
Proof. apply (bool_decide_unpack (NoDup ["Api"; "Connection"; "Rest"])). by vm_compute. Qed.

Lemma ApiError_inhabits e : inhabits ApiError_input (ApiError_value e).
Proof.
  destruct e; (eexists {| v_ident := _; v_fields := _; v_attrs := _ |}; split; [|split; reflexivity]);
    apply list_elem_of_In; simpl; auto.
Qed.

Lemma derive_kind_names_witness :
  exists g, derive_kind ApiError_input = Done g /\
    eval g (EnumValue "Rest" Unnamed) = Some "ApiError::Rest".
Proof.
  eexists. split; [reflexivity|].
  exact (proj1 (derive_kind_names ApiError_input _ ApiError_well_formed eq_refl) (EnumValue "Rest" Unnamed)
    (ApiError_inhabits (Rest (KRest "")))).
Defined.

Lemma derive_http_code_declared_witness :
  exists g, derive_http_code ApiError_input = Done g /\
    is_Some (declared_code ApiError_input (EnumValue "Api" Unnamed)) /\
    eval g (EnumValue "Api" Unnamed) = declared_code ApiError_input (EnumValue "Api" Unnamed).
Proof.
  eexists. split; [reflexivity|].
  exact (proj1 (derive_http_code_declared ApiError_input ApiError_well_formed) _ eq_refl
    (EnumValue "Api" Unnamed) (ApiError_inhabits (Api (KRest "")))).
Defined.
