(* ===== verification/Watcher.v ===== *)
(** * The watch stream

    [library/k8s/src/watcher.rs]: the finite state machine that turns LIST and
    WATCH calls into one endless stream of events.

    The API server is a script: the answers that it will give to the LIST and
    WATCH calls, in order, and, for each watch, the items that its stream will
    deliver before it is closed or falls silent.  The calls made are recorded.
    A step that awaits an answer that the script does not have is [Pending]. *)

From S2P Require Import Prelude RustStr Errors Names Pod Kube.

(** ** Data *)

(** [kube::api::WatchEvent]. *)
Inductive WatchEvent (K : Type) :=
| WAdded (obj : K)
| WModified (obj : K)
| WDeleted (obj : K)
| WBookmark (version : string)
| WError (err : ErrorResponse).
Arguments WAdded {K} obj.
Arguments WModified {K} obj.
Arguments WDeleted {K} obj.
Arguments WBookmark {K} version.
Arguments WError {K} err.

(** The [Error] of the module. *)
Inductive watch_error :=
| InitialListFailed (source : kube_error)
| WatchStartFailed (source : kube_error)
| WatchError (source : ErrorResponse)
| WatchFailed (source : kube_error).

Inductive Event (K : Type) :=
| Added (obj : K)
| Applied (obj : K)
| Deleted (obj : K)
| Restarted (objs : list K).
Arguments Added {K} obj.
Arguments Applied {K} obj.
Arguments Deleted {K} obj.
Arguments Restarted {K} objs.

Definition into_iter_added {K} (e : Event K) : list K :=
  match e with Added obj => [obj] | _ => [] end.
Definition into_iter_applied {K} (e : Event K) : list K :=
  match e with
  | Applied obj | Added obj => [obj]
  | Deleted _ => []
  | Restarted objs => objs
  end.
Definition into_iter_touched {K} (e : Event K) : list K :=
  match e with
  | Applied obj | Deleted obj | Added obj => [obj]
  | Restarted objs => objs
  end.
Definition into_iter_deleted {K} (e : Event K) : list K :=
  match e with Deleted obj => [obj] | _ => [] end.

(** A watch stream: the items still to come, and whether it stays open (and
    silent) after them. *)
Record stream (K : Type) := {
  items : list (result (WatchEvent K) kube_error);
  stays_open : bool;
}.
Arguments items {K} _.
Arguments stays_open {K} _.

(** The answer to a LIST: the objects and the version of the collection. *)
Record object_list (K : Type) := { list_items : list K; list_version : option string }.
Arguments list_items {K} _.
Arguments list_version {K} _.

Inductive api_call := CallList | CallWatch (version : string).

Record api (K : Type) := {
  lists : list (result (object_list K) kube_error);
  watches : list (result (stream K) kube_error);
  calls : list api_call;
}.
Arguments lists {K} _.
Arguments watches {K} _.
Arguments calls {K} _.

Inductive State (K : Type) :=
| Empty
| InitListed (resource_version : string)
| Watching (resource_version : string) (s : stream K).
Arguments Empty {K}.
Arguments InitListed {K} resource_version.
Arguments Watching {K} resource_version s.

(** What awaiting a step gives. *)
Inductive awaited (A : Type) :=
| Ready (a : A)
| Pending
| Panicked
| OutOfFuel.
Arguments Ready {A} a.
Arguments Pending {A}.
Arguments Panicked {A}.
Arguments OutOfFuel {A}.

Section Watcher.
Context {K : Type} (resource_version : K -> option string).

(** An event of the stream. *)
Notation out := (result (Event K) watch_error).

(** The next item of a watch that names an object: it is passed on as [ev], and
    its version becomes the current one. *)
Definition on_object (ev : Event K) (obj : K) (s : stream K) (a : api K)
  : awaited (option out * State K * api K) :=
  match resource_version obj with
  | Some v => Ready (Some (Ok ev), Watching v s, a)
  | None => Panicked
  end.

(** [step_trampolined]. *)
Definition step_trampolined (a : api K) (st : State K) : awaited (option out * State K * api K) :=
  match st with
  | Empty =>
      match lists a with
      | [] => Pending
      | answer :: rest =>
          let a := {| lists := rest; watches := watches a; calls := calls a ++ [CallList] |} in
          match answer with
          | Ok l =>
              match list_version l with
              | Some v => Ready (Some (Ok (Restarted (list_items l))), InitListed v, a)
              | None => Panicked
              end
          | Err e => Ready (Some (Err (InitialListFailed e)), Empty, a)
          end
      end
  | InitListed v =>
      match watches a with
      | [] => Pending
      | answer :: rest =>
          let a := {| lists := lists a; watches := rest; calls := calls a ++ [CallWatch v] |} in
          match answer with
          | Ok s => Ready (None, Watching v s, a)
          | Err e => Ready (Some (Err (WatchStartFailed e)), InitListed v, a)
          end
      end
  | Watching v s =>
      match items s with
      | [] => if stays_open s then Pending else Ready (None, InitListed v, a)
      | item :: rest =>
          let s := {| items := rest; stays_open := stays_open s |} in
          match item with
          | Ok (WAdded obj) => on_object (Added obj) obj s a
          | Ok (WModified obj) => on_object (Applied obj) obj s a
          | Ok (WDeleted obj) => on_object (Deleted obj) obj s a
          | Ok (WBookmark v') => Ready (None, Watching v' s, a)
          | Ok (WError err) =>
              Ready (Some (Err (WatchError err)),
                     if er_code err =? 410 then Empty else Watching v s, a)
          | Err e => Ready (Some (Err (WatchFailed e)), Watching v s, a)
          end
      end
  end.

(** [step]: the trampoline, with a bound on its number of rounds. *)
Fixpoint step_fuel (fuel : nat) (a : api K) (st : State K) : awaited (out * State K * api K) :=
  match fuel with
  | O => OutOfFuel
  | S fuel' =>
      match step_trampolined a st with
      | Ready (Some r, st', a') => Ready (r, st', a')
      | Ready (None, st', a') => step_fuel fuel' a' st'
      | Pending => Pending
      | Panicked => Panicked
      | OutOfFuel => OutOfFuel
      end
  end.

(** How many more rounds the script allows without an event. *)
Definition stream_weight (r : result (stream K) kube_error) : nat :=
  match r with Ok s => length (items s) + 2 | Err _ => 0 end.
Definition budget (a : api K) (st : State K) : nat :=
  sum_list_with stream_weight (watches a) +
  match st with Watching _ s => length (items s) + 1 | _ => 0 end.

Definition step (a : api K) (st : State K) : awaited (out * State K * api K) :=
  step_fuel (S (budget a st)) a st.

(** [watcher]: the closure given to [stream::unfold]. *)
Definition watcher_next (a : api K) (st : State K) : awaited (option (out * State K * api K)) :=
  match step a st with
  | Ready (event, st', a') => Ready (Some (event, st', a'))
  | Pending => Pending
  | Panicked => Panicked
  | OutOfFuel => OutOfFuel
  end.

(** [n] rounds of the trampoline, with the events that they emit. *)
Fixpoint rounds (n : nat) (a : api K) (st : State K) : awaited (list out * State K * api K) :=
  match n with
  | O => Ready ([], st, a)
  | S n' =>
      match step_trampolined a st with
      | Ready (r, st', a') =>
          match rounds n' a' st' with
          | Ready (rs, st'', a'') => Ready (option_list r ++ rs, st'', a'')
          | o => o
          end
      | Pending => Pending
      | Panicked => Panicked
      | OutOfFuel => OutOfFuel
      end
  end.

(** [n] events pulled from the stream. *)
Fixpoint pulls (n : nat) (a : api K) (st : State K) : awaited (list out * State K * api K) :=
  match n with
  | O => Ready ([], st, a)
  | S n' =>
      match watcher_next a st with
      | Ready (Some (r, st', a')) =>
          match pulls n' a' st' with
          | Ready (rs, st'', a'') => Ready (r :: rs, st'', a'')
          | o => o
          end
      | Ready None => Ready ([], st, a)
      | Pending => Pending
      | Panicked => Panicked
      | OutOfFuel => OutOfFuel
      end
  end.

(** *** Specification of a watch: what its items mean *)

Definition meaning (i : result (WatchEvent K) kube_error) : option out :=
  match i with
  | Ok (WAdded obj) => Some (Ok (Added obj))
  | Ok (WModified obj) => Some (Ok (Applied obj))
  | Ok (WDeleted obj) => Some (Ok (Deleted obj))
  | Ok (WBookmark _) => None
  | Ok (WError err) => Some (Err (WatchError err))
  | Err e => Some (Err (WatchFailed e))
  end.

(** The version that an item announces. *)
Definition announces (i : result (WatchEvent K) kube_error) : option string :=
  match i with
  | Ok (WAdded obj) | Ok (WModified obj) | Ok (WDeleted obj) => resource_version obj
  | Ok (WBookmark v) => Some v
  | _ => None
  end.

(** The version of the last item that announces one. *)
Definition last_version (v : string) (its : list (result (WatchEvent K) kube_error)) : string :=
  foldl (fun v i => unwrap_or (announces i) v) v its.

(** An item that keeps the watch going: objects carry a version, and an error
    is not the desynchronisation 410. *)
Definition regular (i : result (WatchEvent K) kube_error) : bool :=
  match i with
  | Ok (WAdded obj) | Ok (WModified obj) | Ok (WDeleted obj) =>
      bool_decide (is_Some (resource_version obj))
  | Ok (WError err) => negb (er_code err =? 410)
  | _ => true
  end.

(** ** Lemmas *)

Lemma trampoline_budget a st st' a' :
  step_trampolined a st = Ready (None, st', a') -> (budget a' st' < budget a st)%nat.
Proof.
  unfold step_trampolined, on_object, budget. destruct a as [ls ws cs], st as [|v|v [its o]]; simpl.
  - destruct ls as [|[l|e] ls]; try done. by destruct (list_version l).
  - destruct ws as [|[s|e] ws]; try done. intros [= <- <-]. simpl. lia.
  - destruct its as [|[[obj|obj|obj|b|er]|e] its]; simpl; try done;
      try (by destruct (resource_version obj)).
    + destruct o; [done|]. intros [= <- <-]. simpl. lia.
    + intros [= <- <-]. simpl. lia.
Qed.

Lemma step_fuel_enough n a st : (budget a st < n)%nat -> step_fuel n a st = step a st.
Proof.
  unfold step. intros Hn. remember (S (budget a st)) as m eqn:Em.
  assert (Hm : (budget a st < m)%nat) by lia. clear Em. revert m a st Hn Hm.
  induction n as [|n IH]; intros [|m] a st Hn Hm; try lia. simpl.
  destruct (step_trampolined a st) as [[[[r|] st'] a']| | |] eqn:E; try done.
  apply trampoline_budget in E. apply IH; lia.
Qed.

(** The loop of [step], without a bound. *)
Lemma step_unfold a st :
  step a st = match step_trampolined a st with
              | Ready (Some r, st', a') => Ready (r, st', a')
              | Ready (None, st', a') => step a' st'
              | Pending => Pending
              | Panicked => Panicked
              | OutOfFuel => OutOfFuel
              end.
Proof.
  unfold step at 1. simpl.
  destruct (step_trampolined a st) as [[[[r|] st'] a']| | |] eqn:E; try done.
  apply trampoline_budget in E. apply step_fuel_enough. lia.
Qed.

Lemma step_trampolined_fuel a st : step_trampolined a st <> OutOfFuel.
Proof.
  unfold step_trampolined, on_object. by repeat case_match.
Qed.

Lemma step_regular v i its o a :
  regular i = true ->
  step_trampolined a (Watching v {| items := i :: its; stays_open := o |}) =
  Ready (meaning i, Watching (unwrap_or (announces i) v) {| items := its; stays_open := o |}, a).
Proof.
  unfold regular. simpl. unfold on_object.
  destruct i as [[obj|obj|obj|b|er]|e]; simpl; try done.
  1-3: by intros [v' ->]%bool_decide_eq_true.
  by destruct (er_code er =? 410).
Qed.
End Watcher.
#[export] Hint Resolve step_trampolined_fuel : core.

(** ** Theorems *)

Section WatcherTheorems.
Context {K : Type} (resource_version : K -> option string).

(** C34: every poll of the stream returns, panics or waits for the API server:
    the trampoline never runs for ever on a script, whatever its state. *)
Theorem step_terminates (a : api K) (st : State K) :
  step resource_version a st <> OutOfFuel.
Proof.
  remember (budget a st) as n eqn:En. revert a st En.
  induction n as [n IH] using lt_wf_ind; intros a st ->. rewrite step_unfold.
  destruct (step_trampolined resource_version a st) as [[[[r|] st'] a']| | |] eqn:E; try done.
  - apply trampoline_budget in E. by eapply IH.
  - by apply step_trampolined_fuel in E.
Qed.

(** C22: a watch whose objects carry a version and whose errors are not the
    desynchronisation 410 ([regular]) delivers exactly the meaning of its items,
    in order: objects added, modified and deleted become events, errors are passed
    on, after which the same watch goes on, bookmarks are silent, and the machine
    remembers the last version announced. *)
Theorem watch_refines (its rest : list (result (WatchEvent K) kube_error)) (o : bool)
  (v : string) (a : api K) (Hreg : Forall (fun i => regular resource_version i = true) its) :
  rounds resource_version (length its) a (Watching v {| items := its ++ rest; stays_open := o |}) =
  Ready (omap meaning its,
         Watching (last_version resource_version v its) {| items := rest; stays_open := o |}, a).
Proof.
  revert v; induction Hreg as [|i its Hi _ IH]; intros v; [done|].
  cbn [length app rounds]. rewrite step_regular by done. rewrite IH.
  cbn [omap list_omap]. by destruct (meaning i).
Qed.

(** A failure of the connection does not restart the watch: the error is passed
    on, and the machine stays on the stream that has failed, with no call to the
    API server, until that stream ends. *)
Theorem watch_error_stays (e : kube_error) (its : list (result (WatchEvent K) kube_error)) (o : bool)
  (v : string) (a : api K) :
  step resource_version a (Watching v {| items := Err e :: its; stays_open := o |}) =
  Ready (Err (WatchFailed e), Watching v {| items := its; stays_open := o |}, a).
Proof. rewrite step_unfold. by rewrite step_regular. Qed.

(** C23: when a watch is closed, the next watch is started from the last
    version that the closed one announced, and nothing is emitted in between:
    no event between the two is skipped or listed again. *)
Theorem watch_resumes (its : list (result (WatchEvent K) kube_error)) (v : string) (a : api K)
  (s : stream K) (ws : list (result (stream K) kube_error))
  (Hreg : Forall (fun i => regular resource_version i = true) its)
  (Hws : watches a = Ok s :: ws) :
  let v' := last_version resource_version v its in
  rounds resource_version (length its + 2) a (Watching v {| items := its; stays_open := false |}) =
  Ready (omap meaning its, Watching v' s,
         {| lists := lists a; watches := ws; calls := calls a ++ [CallWatch v'] |}).
Proof.
  cbn zeta. revert v; induction Hreg as [|i its Hi _ IH]; intros v.
  - simpl. by rewrite Hws.
  - cbn [length Nat.add rounds]. rewrite step_regular by done. rewrite IH.
    cbn [omap list_omap]. by destruct (meaning i).
Qed.

(** After a 410 the next poll lists the objects again. *)
Lemma relist err rest o v v' a l ls :
  er_code err = 410 -> lists a = Ok l :: ls -> list_version l = Some v' ->
  pulls resource_version 2 a (Watching v {| items := Ok (WError err) :: rest; stays_open := o |}) =
  Ready ([Err (WatchError err); Ok (Restarted (list_items l))], InitListed v',
         {| lists := ls; watches := watches a; calls := calls a ++ [CallList] |}).
Proof.
  intros Herr Hls Hv. cbn [pulls]. unfold watcher_next. rewrite step_unfold. cbn [step_trampolined items].
  rewrite (proj2 (Z.eqb_eq _ _) Herr). rewrite step_unfold. cbn [step_trampolined].
  by rewrite Hls, Hv.
Qed.

(** A watch that the server ends with 410 (the version is too old) is
    reported as an error, and the next poll lists the objects again and reports
    them as [Restarted]; the version from then on is that of the list. *)
Theorem gone_relists (err : ErrorResponse) (rest : list (result (WatchEvent K) kube_error))
  (o : bool) (v v' : string) (a : api K) (l : object_list K)
  (ls : list (result (object_list K) kube_error))
  (Herr : er_code err = 410) (Hls : lists a = Ok l :: ls) (Hv : list_version l = Some v') :
  pulls resource_version 2 a (Watching v {| items := Ok (WError err) :: rest; stays_open := o |}) =
  Ready ([Err (WatchError err); Ok (Restarted (list_items l))], InitListed v',
         {| lists := ls; watches := watches a; calls := calls a ++ [CallList] |}).
Proof. by apply relist. Qed.

(** The stream never ends: a poll that is ready has an event. *)
Lemma watcher_never_ends a st : watcher_next resource_version a st <> Ready None.
Proof. unfold watcher_next. by destruct (step _ a st) as [[[? ?] ?]| | |]. Qed.

(** The objects touched by an event are those applied and those deleted,
    and those added are among those applied; a [Restarted] event contributes
    nothing to [into_iter_added] although its documentation says that every
    object of a [Restarted] event is emitted. *)
Theorem into_iter_split (e : Event K) :
  into_iter_touched e = into_iter_applied e ++ into_iter_deleted e /\
  into_iter_added e ⊆ into_iter_applied e /\
  (forall objs, e = Restarted objs -> into_iter_added e = []).
Proof. destruct e; split_and!; simpl; rewrite ?app_nil_r; set_solver. Qed.
End WatcherTheorems.

(** ** Witnesses *)

(** [ResourceExt::resource_version] of a pod. *)
Definition pod_version (p : Pod) : option string := meta_resource_version (metadata p).

Definition gone_response : ErrorResponse :=
  {| er_status := "Failure"; er_message := "too old resource version"; er_reason := "Expired";
     er_code := 410 |}.

Definition example_items : list (result (WatchEvent Pod) kube_error) :=
  [Ok (WBookmark "6"); Ok (WModified example_pod); Ok (WBookmark "9")].

Definition example_api : api Pod := {|
  lists := [Ok {| list_items := [example_pod]; list_version := Some "12" |}];
  watches := [Ok {| items := []; stays_open := true |}];
  calls := [] |}.

Lemma watch_refines_witness :
  rounds pod_version 3 example_api (Watching "5" {| items := example_items; stays_open := true |}) =
  Ready ([Ok (Applied example_pod)], Watching "9" {| items := []; stays_open := true |}, example_api).
Proof.
  apply (watch_refines pod_version example_items [] true "5" example_api).
  repeat (apply List.Forall_cons; [reflexivity|]). apply List.Forall_nil.
Defined.

Lemma watch_resumes_witness :
  rounds pod_version 5 example_api (Watching "5" {| items := example_items; stays_open := false |}) =
  Ready ([Ok (Applied example_pod)], Watching "9" {| items := []; stays_open := true |},
         {| lists := lists example_api; watches := []; calls := [CallWatch "9"] |}).
Proof.
  apply (watch_resumes pod_version example_items "5" example_api {| items := []; stays_open := true |} []).
  - repeat (apply List.Forall_cons; [reflexivity|]). apply List.Forall_nil.
  - reflexivity.
Defined.

Lemma gone_relists_witness :
  pulls pod_version 2 example_api
    (Watching "5" {| items := [Ok (WError gone_response)]; stays_open := true |}) =
  Ready ([Err (WatchError gone_response); Ok (Restarted [example_pod])], InitListed "12",
         {| lists := []; watches := watches example_api; calls := [CallList] |}).
Proof.
  apply (gone_relists pod_version gone_response [] true "5" "12" example_api
    {| list_items := [example_pod]; list_version := Some "12" |} []); reflexivity.
Defined.
