(* ===== verification/Backoff.v ===== *)
(** * Exponential backoff

    The crate [backoff] is not part of the sources.  The daemons use it through
    the trait [Backoff], which is the interface [Backoff] below: a state [B],
    and the operations at a given instant (in nanoseconds).  [BackoffLaws] is
    what its documentation promises, and [simple_backoff] an instance. *)

From S2P Require Import Prelude.
Open Scope Z_scope.

Definition NANOS : Z := 1000000000.
Definition from_secs (s : Z) : Z := s * NANOS.

Class Backoff (B : Type) := {
  (** [ExponentialBackoff { max_elapsed_time, ..Default::default() }], made at
      an instant. *)
  backoff_new : Z -> Z -> B;
  (** The pause before the next attempt, or [None] to give up. *)
  next_backoff : Z -> B -> option Z * B;
  backoff_reset : Z -> B -> B;
  get_elapsed_time : Z -> B -> Z;
}.

(** The default [max_elapsed_time]: fifteen minutes. *)
Definition DEFAULT_MAX_ELAPSED_TIME : Z := from_secs 900.
Definition backoff_default {B} `{Backoff B} (now : Z) : B :=
  backoff_new DEFAULT_MAX_ELAPSED_TIME now.

(** The first pause: 500 ms, randomised by a half in both directions. *)
Definition SHORTEST_PAUSE : Z := 250000000.
Definition LONGEST_FIRST_PAUSE : Z := 750000000.

Class BackoffLaws (B : Type) `{Backoff B} := {
  (** When the backoff was made or last reset, and its limit. *)
  started : B -> Z;
  limit : B -> Z;
  law_new_started m now : started (backoff_new m now) = now;
  law_new_limit m now : limit (backoff_new m now) = m;
  law_elapsed now b : get_elapsed_time now b = now - started b;
  law_next_keeps now b :
    started (next_backoff now b).2 = started b /\ limit (next_backoff now b).2 = limit b;
  law_reset_started now b : started (backoff_reset now b) = now;
  law_reset_limit now b : limit (backoff_reset now b) = limit b;
  (** It gives up once the limit has passed ... *)
  law_gives_up now b : limit b < now - started b -> (next_backoff now b).1 = None;
  (** ... pauses at least for the shortest interval ... *)
  law_pause now b d : (next_backoff now b).1 = Some d -> SHORTEST_PAUSE <= d;
  (** ... and does not give up at once. *)
  law_fresh m t0 t : t0 <= t -> t - t0 + LONGEST_FIRST_PAUSE <= m ->
    is_Some (next_backoff t (backoff_new m t0)).1;
}.

(** ** An instance: intervals that grow by half, without jitter *)

Record simple_backoff := { sb_started : Z; sb_limit : Z; sb_interval : Z }.

#[export] Instance simple_Backoff : Backoff simple_backoff := {|
  backoff_new m now := {| sb_started := now; sb_limit := m; sb_interval := 500000000 |};
  next_backoff now b :=
    if sb_limit b <? now - sb_started b then (None, b)
    else (Some (Z.max SHORTEST_PAUSE (sb_interval b)),
          {| sb_started := sb_started b; sb_limit := sb_limit b;
             sb_interval := Z.min (from_secs 60) (sb_interval b * 3 / 2) |});
  backoff_reset now b :=
    {| sb_started := now; sb_limit := sb_limit b; sb_interval := 500000000 |};
  get_elapsed_time now b := now - sb_started b;
|}.

#[export] Instance simple_BackoffLaws : BackoffLaws simple_backoff.
Proof.
  refine {| started := sb_started; limit := sb_limit |}; simpl; try done.
  - intros now b. by destruct (sb_limit b <? now - sb_started b).
  - intros now b Hl. by rewrite (proj2 (Z.ltb_lt _ _) Hl).
  - intros now b d. destruct (sb_limit b <? now - sb_started b); simpl; [done|].
    intros [= <-]. lia.
  - intros m t0 t H0 H1. destruct (Z.ltb_spec m (t - t0)).
    + unfold LONGEST_FIRST_PAUSE in H1. lia.
    + eauto.
Defined.
