(* ===== verification/ServerCheck.v ===== *)
(** * The gRPC health check

    [service/acm/src/podmanager/server_check.rs]: the coroutine that dials a new
    pod until it answers, gives up, or is told to stop.

    The loop of [check] is driven by a list of rounds.  A round says when the
    loop asked the backoff, how late its two timers fired, how the connection
    would end and how long it would take; the signal of [kill] is the instant at
    which it was sent.  Which branch of each [select!] wins is computed from these
    instants. *)

From S2P Require Import Prelude RustStr Errors Names Pod Backoff.

Definition MAXIMUM_POLLING_TIME : Z := 30.

(** ** Errors *)

Inductive CheckError :=
| NotReady
| TooManyFailures (uri source_ : string)
| GrpcEndpointParsdeError (uri source_ : string).

Definition too_many_text (uri : string) : string :=
  "There were too many failures when attempting to connect to the requested pod (" +:+ uri +:+
  ") for its server health check".

#[export] Instance CheckError_AcmError : AcmError CheckError := {|
  acm_error := {|
    display e := match e with
      | NotReady => ""
      | TooManyFailures uri _ => too_many_text uri
      | GrpcEndpointParsdeError uri _ => too_many_text uri
      end;
    source e := match e with
      | NotReady => None
      | TooManyFailures _ s | GrpcEndpointParsdeError _ s => Some s
      end |};
  acm_code e := Status.ServiceUnavailable;
  acm_kind e := match e with
    | NotReady => "NotReady"
    | TooManyFailures _ _ => "TooManyFailures"
    | GrpcEndpointParsdeError _ _ => "GrpcEndpointParsdeError"
    end;
|}.

(** ** [ServerCheck::new] *)

(** [str::parse::<Endpoint>]: an endpoint is known by its URI. *)
Definition server_check_new (parse_endpoint : string -> result string string) (p : Pod)
  : Result string :=
  let? a := address p in
  let uri := "http://" +:+ a in
  map_err (fun err => into_box (GrpcEndpointParsdeError uri err)) (parse_endpoint uri).

(** ** [ServerCheck::check] *)

(** What the environment does in one iteration of the loop. *)
Record round := {
  r_now : Z;                (* when [next_backoff] is called *)
  r_late : N;               (* by how much the pause outlasts its duration *)
  r_grace : N;              (* by how much the timer of [patience] fires late *)
  (* how long the connection takes and how it ends, or that it hangs *)
  r_connection : option (positive * result unit string);
  (* which branch a [select!] takes when two are ready at the same instant: the
     signal rather than the other one, and the connection rather than [patience] *)
  r_tie_pause : bool;
  r_tie_dial : bool;
  r_tie_connection : bool;
}.

(** A connection that has ended: the round in which it was made, when it was
    started, when it ended and how. *)
Record attempt := {
  a_round : round;
  a_woke : Z;
  a_at : Z;
  a_result : result unit string;
}.

(** How the two [select!]s of an iteration ended. *)
Inductive round_end := Interrupted | OutOfPatience | DialEnded (a : attempt).

(** A [select!] of two branches: whether the first is taken. *)
Definition taken_first (tie : bool) (x : option Z) (y : Z) : bool :=
  match x with
  | None => false
  | Some x => (x <? y) || ((x =? y) && tie)
  end.

(** What the coroutine has done: it is still polling, it returned having sent
    at most one result, or it panicked. *)
Inductive check_exit :=
| Polling
| Returned (sent : option (Result unit))
| CheckPanicked.

(** The local variables of [check], whether it has ended, and the connections
    that it has made. *)
Record loop (B : Type) := {
  l_backoff : B;
  latest_error : option string;
  l_exit : check_exit;
  l_attempts : list attempt;
}.
Arguments l_backoff {B} _.
Arguments latest_error {B} _.
Arguments l_exit {B} _.
Arguments l_attempts {B} _.

Section Check.
Context {B : Type} `{Backoff B}.
Context (uri : string).
(** Whether the receiving end of [output] is alive when a result is sent. *)
Context (receiver_alive : bool).
(** When the signal is sent, or its sender dropped, if ever. *)
Context (sigint : option Z).

(** [output.send(r).unwrap(); return]. *)
Definition send_output (r : Result unit) : check_exit :=
  if receiver_alive then Returned (Some r) else CheckPanicked.

(** The duration of [patience], computed when the dial starts. *)
Definition patience (now : Z) (b : B) : Z :=
  Z.max 0 (from_secs MAXIMUM_POLLING_TIME - get_elapsed_time now b).

(** When the signal is noticed by a [select!] that starts at [now]. *)
Definition sigint_from (now : Z) : option Z := Z.max now <$> sigint.

(** When the pause of [duration] ends. *)
Definition woke (duration : Z) (r : round) : Z := r_now r + duration + Z.of_N (r_late r).

(** The pause, and the connection against [patience] and the signal. *)
Definition round_ends (b : B) (duration : Z) (r : round) : round_end :=
  let w := woke duration r in
  if taken_first (r_tie_pause r) (sigint_from (r_now r)) w then Interrupted
  else
    let deadline := w + patience w b + Z.of_N (r_grace r) in
    let connected := (fun c => w + Z.pos (fst c)) <$> r_connection r in
    let '(at_, ended) :=
      match r_connection r with
      | Some (c, res) =>
          if taken_first (r_tie_connection r) connected deadline
          then (w + Z.pos c, DialEnded {| a_round := r; a_woke := w; a_at := w + Z.pos c; a_result := res |})
          else (deadline, OutOfPatience)
      | None => (deadline, OutOfPatience)
      end in
    if taken_first (r_tie_dial r) (sigint_from w) at_ then Interrupted else ended.

(** The loop ends. *)
Definition ends (b : B) (l : loop B) (e : check_exit) (made : list attempt) : loop B :=
  {| l_backoff := b; latest_error := latest_error l; l_exit := e; l_attempts := l_attempts l ++ made |}.

(** One iteration of the loop. *)
Definition check_round (l : loop B) (r : round) : loop B :=
  match l_exit l with
  | Polling =>
      let '(next, b) := next_backoff (r_now r) (l_backoff l) in
      match next with
      | None =>
          match latest_error l with
          | None => ends b l CheckPanicked []
          | Some err => ends b l (send_output (Err (into_box (TooManyFailures uri err)))) []
          end
      | Some duration =>
          match round_ends b duration r with
          | Interrupted => ends b l (Returned None) []
          | OutOfPatience => ends b l (send_output (Err (into_box NotReady))) []
          | DialEnded a =>
              match a_result a with
              | Ok _ => ends b l (send_output (Ok tt)) [a]
              | Err err =>
                  {| l_backoff := b; latest_error := Some err; l_exit := Polling;
                     l_attempts := l_attempts l ++ [a] |}
              end
          end
      end
  | _ => l
  end.

Definition check_loop (l : loop B) (rounds : list round) : loop B := fold_left check_round rounds l.
End Check.

Section Checks.
Context {B : Type} `{Backoff B}.

Definition check_begin (start : Z) : loop B :=
  {| l_backoff := backoff_new (from_secs MAXIMUM_POLLING_TIME) start; latest_error := None;
     l_exit := Polling; l_attempts := [] |}.

Definition check (uri : string) (receiver_alive : bool) (sigint : option Z) (start : Z)
  (rounds : list round) : loop B :=
  check_loop uri receiver_alive sigint (check_begin start) rounds.

(** *** Timing *)

(** The rounds follow one another in time: the next starts after the pause. *)
Fixpoint timely (sigint : option Z) (b : B) (now : Z) (rounds : list round) : Prop :=
  match rounds with
  | [] => True
  | r :: rest =>
      now <= r_now r /\
      match next_backoff (r_now r) b with
      | (None, _) => True
      | (Some d, b') =>
          match round_ends sigint b' d r with
          | DialEnded a => timely sigint b' (a_woke a) rest
          | _ => True
          end
      end
  end.
End Checks.

(** ** The task behind a [ServerCheck]

    The spawned coroutine as an object: the signal that it was sent, the state of
    its loop, and the rounds that it has made since its start. *)
Record task (B : Type) := {
  t_uri : string;
  t_start : Z;
  t_sigint : option Z;
  t_loop : loop B;
  t_rounds : list round;
}.
Arguments t_uri {B} _.
Arguments t_start {B} _.
Arguments t_sigint {B} _.
Arguments t_loop {B} _.
Arguments t_rounds {B} _.

Definition t_exit {B} (t : task B) : check_exit := l_exit (t_loop t).

Section Task.
Context {B : Type} `{Backoff B}.

(** [tokio::spawn(Self::check(..))]. *)
Definition spawn_check (uri : string) (now : Z) : task B :=
  {| t_uri := uri; t_start := now; t_sigint := None; t_loop := check_begin now; t_rounds := [] |}.

(** One round of a task that still polls. *)
Definition task_round (receiver_alive : bool) (t : task B) (r : round) : option (task B) :=
  match t_exit t with
  | Polling =>
      Some {| t_uri := t_uri t; t_start := t_start t; t_sigint := t_sigint t;
              t_loop := check_round (t_uri t) receiver_alive (t_sigint t) (t_loop t) r;
              t_rounds := t_rounds t ++ [r] |}
  | _ => None
  end.

Fixpoint task_run (receiver_alive : bool) (t : task B) (rounds : list round) : option (task B) :=
  match rounds with
  | [] => Some t
  | r :: rest =>
      match task_round receiver_alive t r with
      | Some t' => task_run receiver_alive t' rest
      | None => None
      end
  end.

(** [self.sigint.send(())], or the sender goes out of scope: a task that has
    ended has dropped its receiver, and the first signal is the one that counts. *)
Definition signal_task (now : Z) (t : task B) : task B :=
  match t_exit t, t_sigint t with
  | Polling, None =>
      {| t_uri := t_uri t; t_start := t_start t; t_sigint := Some now; t_loop := t_loop t;
         t_rounds := t_rounds t |}
  | _, _ => t
  end.

(** [ServerCheck::join]: the task is awaited. *)
Definition check_join (t : task B) : option (task B) :=
  match t_exit t with Polling => None | _ => Some t end.

(** [ServerCheck::kill]: the signal is sent and the task is awaited; [last] are
    the rounds that it makes until it has noticed. *)
Definition check_kill (now : Z) (t : task B) (last : list round) : option (task B) :=
  match task_run true (signal_task now t) last with
  | Some t' => check_join t'
  | None => None
  end.
End Task.

(** ** What the attempts mean *)

(** The connection is that of its round, made after the pause. *)
Definition made (a : attempt) : Prop :=
  r_now (a_round a) < a_woke a /\
  exists c, r_connection (a_round a) = Some (c, a_result a) /\ a_at a = a_woke a + Z.pos c.

Definition refused (a : attempt) : Prop := exists err, a_result a = Err err.
Definition refusal (a : attempt) : option string :=
  match a_result a with Err err => Some err | Ok _ => None end.

(** A connection that was made by the end of the polling time.  When the timer
    of [patience] fires late the connection may be later by as much; if the pause
    itself has gone past the polling time, that much after the pause. *)
Definition in_time (start : Z) (a : attempt) : Prop :=
  a_at a <= Z.max (a_woke a) (start + from_secs 30) + Z.of_N (r_grace (a_round a)) /\
  (r_grace (a_round a) = 0%N -> a_at a <= start + from_secs 30).

(** Refused connections, and then one that was made in time. *)
Definition connected_in_time (start : Z) (l : list attempt) : Prop :=
  exists pre a, l = pre ++ [a] /\ Forall made l /\ Forall refused pre /\ a_result a = Ok tt /\ in_time start a.

(** What the loop of a check means after the rounds [rounds]. *)
Definition outcome_meaning {B} `{Backoff B} (uri : string) (receiver_alive : bool) (sigint : option Z)
  (start : Z) (rounds : list round) (l : loop B) : Prop :=
  match l_exit l with
  | Polling => Forall refused (l_attempts l) /\ map a_round (l_attempts l) = rounds
  | Returned (Some (Ok _)) =>
      connected_in_time start (l_attempts l) /\ exists post, rounds = map a_round (l_attempts l) ++ post
  | Returned (Some (Err e)) =>
      Forall refused (l_attempts l) /\
      (e = into_box NotReady \/
       exists err, last (omap refusal (l_attempts l)) = Some err /\ e = into_box (TooManyFailures uri err))
  | Returned None => is_Some sigint
  | CheckPanicked =>
      receiver_alive = false \/
      exists r rest, rounds = r :: rest /\
        fst (next_backoff (r_now r) (backoff_new (B := B) (from_secs MAXIMUM_POLLING_TIME) start)) = None
  end.

(** ** Lemmas *)

Lemma taken_first_true tie x y : taken_first tie (Some x) y = true -> x <= y.
Proof. simpl. intros [?%Z.ltb_lt|[?%Z.eqb_eq _]%andb_true_iff]%orb_true_iff; lia. Qed.

Lemma taken_first_lt tie x y : x < y -> taken_first tie (Some x) y = true.
Proof. intros Hl. simpl. by rewrite (proj2 (Z.ltb_lt x y) Hl). Qed.

Section CheckLemmas.
Context {B : Type} `{BackoffLaws B}.

Lemma next_backoff_in_time now (b b' : B) d :
  next_backoff now b = (Some d, b') ->
  now - started b <= limit b /\ SHORTEST_PAUSE <= d /\ started b' = started b /\ limit b' = limit b.
Proof.
  intros E. pose proof (law_next_keeps now b) as [Hs Hl]. rewrite E in Hs, Hl.
  split_and!; try done.
  - destruct (Z.le_gt_cases (now - started b) (limit b)) as [|Hgt]; [done|].
    apply law_gives_up in Hgt. by rewrite E in Hgt.
  - apply (law_pause now b). by rewrite E.
Qed.

(** A dial is never allowed past the polling time: its patience runs out thirty
    seconds after the start, or at once when these have passed. *)
Lemma patience_deadline now (b : B) : now + patience now b = Z.max now (started b + from_secs 30).
Proof. unfold patience. rewrite law_elapsed. unfold MAXIMUM_POLLING_TIME. lia. Qed.

(** What a dial that has ended says. *)
Lemma round_ends_attempt sigint (b : B) d r a :
  round_ends sigint b d r = DialEnded a -> 0 < d ->
  a_round a = r /\ a_woke a = woke d r /\ made a /\
  a_at a <= Z.max (a_woke a) (started b + from_secs 30) + Z.of_N (r_grace r).
Proof.
  unfold round_ends. destruct (taken_first (r_tie_pause r) _ _); [done|].
  destruct (r_connection r) as [[c res]|] eqn:Ec; simpl fmap;
    [|by destruct (taken_first (r_tie_dial r) _ _)].
  destruct (taken_first (r_tie_connection r) _ _) eqn:Et;
    destruct (taken_first (r_tie_dial r) _ _); try done.
  intros [= <-] Hd. simpl in *. split_and!; [done|done| |].
  - split; simpl; [unfold woke; lia|]. by exists c.
  - apply taken_first_true in Et. rewrite <- patience_deadline. done.
Qed.

Lemma round_ends_unsignalled (b : B) d r : round_ends None b d r <> Interrupted.
Proof.
  unfold round_ends. simpl. destruct (r_connection r) as [[c res]|]; [|done]. by destruct (taken_first _ _ _).
Qed.

(** A signal that was sent before the round starts ends it. *)
Lemma round_ends_signalled s (b : B) d r : s <= r_now r -> 0 < d -> round_ends (Some s) b d r = Interrupted.
Proof.
  intros Hs Hd. unfold round_ends, sigint_from. simpl fmap.
  rewrite taken_first_lt; [done|]. unfold woke. lia.
Qed.

Lemma in_time_intro start a :
  made a -> a_at a <= Z.max (a_woke a) (start + from_secs 30) + Z.of_N (r_grace (a_round a)) -> in_time start a.
Proof. intros (_ & c & _ & Hc) Hle. split; [done|]. intros Hg. rewrite Hg in Hle. lia. Qed.

(** *** The invariant of the loop *)

Record loop_ok (uri : string) (alive : bool) (sigint : option Z) (start : Z) (rounds : list round) (l : loop B)
  : Prop := {
  lk_started : started (l_backoff l) = start;
  lk_made : Forall made (l_attempts l);
  lk_latest : latest_error l = last (omap refusal (l_attempts l));
  lk_fresh : rounds = [] -> l = check_begin start;
  lk_meaning : outcome_meaning uri alive sigint start rounds l;
}.

Lemma check_begin_ok uri alive sigint start : loop_ok uri alive sigint start [] (check_begin start).
Proof. split; simpl; try done. by rewrite law_new_started. Qed.

Lemma refused_refusal l : Forall refused l -> last (omap refusal l) = None -> l = [].
Proof.
  destruct l as [|a l _] using rev_ind; [done|].
  intros [_ Hr]%Forall_app Hl. apply Forall_inv in Hr as [err Hr].
  rewrite omap_app in Hl. simpl in Hl. unfold refusal in Hl at 2. by rewrite Hr, last_snoc in Hl.
Qed.

(** Once ended, the loop means the same after more rounds. *)
Lemma outcome_meaning_more uri alive sigint start rounds r (l : loop B) :
  l_exit l <> Polling ->
  outcome_meaning uri alive sigint start rounds l -> outcome_meaning uri alive sigint start (rounds ++ [r]) l.
Proof.
  unfold outcome_meaning. destruct (l_exit l) as [|[[u|e]|]|]; try done.
  - intros _ [? [post ->]]. split; [done|]. exists (post ++ [r]). by rewrite app_assoc.
  - intros _ [?|(r0 & rest & -> & ?)]; [by left|right]. by exists r0, (rest ++ [r]).
Qed.

Lemma send_output_meaning uri alive sigint start rounds b (l : loop B) e :
  Forall refused (l_attempts l) ->
  (e = into_box NotReady \/
   exists err, last (omap refusal (l_attempts l)) = Some err /\ e = into_box (TooManyFailures uri err)) ->
  outcome_meaning uri alive sigint start rounds (ends b l (send_output alive (Err e)) []).
Proof.
  intros Hr He. unfold outcome_meaning, ends, send_output. simpl. rewrite app_nil_r. destruct alive; by auto.
Qed.

Lemma dial_meaning uri alive sigint start rounds (l : loop B) b d r a :
  loop_ok uri alive sigint start rounds l -> l_exit l = Polling -> started b = start -> 0 < d ->
  round_ends sigint b d r = DialEnded a ->
  made a /\
  outcome_meaning uri alive sigint start (rounds ++ [r])
    match a_result a with
    | Ok _ => ends b l (send_output alive (Ok tt)) [a]
    | Err err => {| l_backoff := b; latest_error := Some err; l_exit := Polling; l_attempts := l_attempts l ++ [a] |}
    end.
Proof.
  intros [_ Hmade _ _ Hm] Hp Hs Hd Ha. unfold outcome_meaning in Hm. rewrite Hp in Hm. destruct Hm as [Hr Hro].
  apply round_ends_attempt in Ha as (Har & _ & Hma & Hle); [|done]. split; [done|]. unfold outcome_meaning.
  destruct (a_result a) as [[]|err] eqn:Er; simpl.
  - unfold send_output. destruct alive; simpl; [|by left].
    split; [|exists []; by rewrite app_nil_r, map_app, Hro; simpl; rewrite Har].
    exists (l_attempts l), a. split_and!; [done| |done|done|].
    + apply Forall_app. by split; [|apply Forall_singleton].
    + apply in_time_intro; [done|]. rewrite Har, <- Hs. done.
  - rewrite map_app, Hro. simpl. rewrite Har. split; [|done].
    apply Forall_app. split; [done|]. apply Forall_singleton. by exists err.
Qed.

Lemma check_round_ok uri alive sigint start rounds (l : loop B) r :
  loop_ok uri alive sigint start rounds l ->
  loop_ok uri alive sigint start (rounds ++ [r]) (check_round uri alive sigint l r).
Proof.
  intros HL. pose proof HL as [Hs Hmade Hlat Hf Hm].
  assert (Hsnoc : forall P : Prop, rounds ++ [r] = [] -> P) by (intros P Hn; by destruct rounds).
  unfold check_round. destruct (l_exit l) eqn:Hp;
    [|split; try done; [by apply Hsnoc|apply outcome_meaning_more; congruence]..].
  destruct (next_backoff (r_now r) (l_backoff l)) as [next b] eqn:E.
  assert (Hsb : started b = start).
  { rewrite <- Hs. pose proof (law_next_keeps (r_now r) (l_backoff l)) as [? _]. by rewrite E in *. }
  assert (Hr : Forall refused (l_attempts l) /\ map a_round (l_attempts l) = rounds)
    by (unfold outcome_meaning in Hm; by rewrite Hp in Hm).
  destruct next as [d|].
  - apply next_backoff_in_time in E as (_ & Hd & _). unfold SHORTEST_PAUSE in Hd.
    destruct (round_ends sigint b d r) as [| |a] eqn:Ea.
    + split; simpl; rewrite ?app_nil_r; try done; [by apply Hsnoc|]. unfold outcome_meaning. simpl. destruct sigint; [by eauto|].
      by apply round_ends_unsignalled in Ea.
    + split; simpl; rewrite ?app_nil_r; try done; [by apply Hsnoc|]. apply send_output_meaning; [apply Hr|by left].
    + destruct (dial_meaning uri alive sigint start rounds l b d r a) as [Hma Ho]; try done; [lia|].
      destruct (a_result a) as [[]|err] eqn:Er; split; simpl; try done; try (by apply Hsnoc);
        try (apply Forall_app; by split; [|apply Forall_singleton]);
        rewrite omap_app; simpl; unfold refusal at 2; rewrite Er; simpl; [by rewrite app_nil_r|by rewrite last_snoc].
  - destruct (latest_error l) as [err|] eqn:El; split; simpl; rewrite ?app_nil_r, ?El; try done; try (by apply Hsnoc).
    + apply send_output_meaning; [apply Hr|]. right. by exists err.
    + symmetry in Hlat. apply refused_refusal in Hlat; [|apply Hr]. destruct Hr as [_ <-]. rewrite Hlat in *. simpl in *.
      unfold outcome_meaning. simpl. right. exists r, []. split; [done|]. rewrite (Hf eq_refl) in E. simpl in E. by rewrite E.
Qed.

Lemma check_loop_ok uri alive sigint start pre rounds (l : loop B) :
  loop_ok uri alive sigint start pre l ->
  loop_ok uri alive sigint start (pre ++ rounds) (check_loop uri alive sigint l rounds).
Proof.
  revert pre l; induction rounds as [|r rounds IH]; intros pre l HL; simpl; [by rewrite app_nil_r|].
  rewrite (cons_middle r pre rounds), app_assoc. apply IH. by apply check_round_ok.
Qed.

Lemma check_ok uri alive sigint start rounds :
  loop_ok uri alive sigint start rounds (check uri alive sigint start rounds).
Proof. apply (check_loop_ok _ _ _ _ []). apply check_begin_ok. Qed.

Lemma check_loop_ended uri alive sigint (l : loop B) rounds :
  l_exit l <> Polling -> check_loop uri alive sigint l rounds = l.
Proof.
  intros Hp. induction rounds as [|r rounds IH]; simpl; [done|].
  replace (check_round uri alive sigint l r) with l; [done|].
  unfold check_round. by destruct (l_exit l).
Qed.

Lemma ended_loop uri alive sigint b (l : loop B) e made rounds :
  e <> Polling -> l_exit (check_loop uri alive sigint (ends b l e made) rounds) <> Polling.
Proof. intros He. by rewrite check_loop_ended. Qed.

Lemma send_output_ends alive r : send_output alive r <> Polling.
Proof. unfold send_output. by destruct alive. Qed.

Lemma check_loop_terminates uri alive sigint (l : loop B) now rounds :
  timely sigint (l_backoff l) now rounds -> (1 <= length rounds)%nat ->
  limit (l_backoff l) - (now - started (l_backoff l)) < SHORTEST_PAUSE * (Z.of_nat (length rounds) - 1) ->
  l_exit (check_loop uri alive sigint l rounds) <> Polling.
Proof.
  unfold SHORTEST_PAUSE.
  revert l now; induction rounds as [|r rest IH]; intros l now Htm Hlen Hb; simpl in *; [lia|].
  destruct (l_exit l) eqn:Hp; [|unfold check_round; rewrite Hp, check_loop_ended; congruence..].
  destruct Htm as [Hnow Htm]. unfold check_round. rewrite Hp.
  destruct (next_backoff (r_now r) (l_backoff l)) as [[d|] b'] eqn:E.
  - apply next_backoff_in_time in E as (Ht & Hd & Hs & Hl). unfold SHORTEST_PAUSE in Hd.
    destruct (round_ends sigint b' d r) as [| |a] eqn:Ea;
      [by apply ended_loop|by apply ended_loop, send_output_ends|].
    apply round_ends_attempt in Ea as (_ & Hw & _); [|lia]. unfold woke in Hw.
    destruct (a_result a); [by apply ended_loop, send_output_ends|].
    apply (IH _ (a_woke a)); simpl; [done|lia|]. rewrite Hs, Hl. lia.
  - destruct (latest_error l); [by apply ended_loop, send_output_ends|by apply ended_loop].
Qed.

(** A check that was not told to stop does not return without an answer. *)
Lemma check_unsignalled uri start rounds :
  (forall r rest, rounds = r :: rest ->
     start <= r_now r /\ r_now r - start + LONGEST_FIRST_PAUSE <= from_secs MAXIMUM_POLLING_TIME) ->
  l_exit (check (B := B) uri true None start rounds) = Polling \/
  exists r, l_exit (check (B := B) uri true None start rounds) = Returned (Some r).
Proof.
  intros Hf. pose proof (lk_meaning _ _ _ _ _ _ (check_ok uri true None start rounds)) as Hm.
  unfold outcome_meaning in Hm. destruct (l_exit _) as [|[r|]|]; [by left|by eauto|by destruct Hm|].
  destruct Hm as [?|(r & rest & -> & Hn)]; [done|]. destruct (Hf r rest eq_refl) as [H1 H2].
  destruct (law_fresh (B := B) _ _ _ H1 H2) as [? Hl]. congruence.
Qed.

(** *** Tasks *)

(** A task that was not signalled, while its receiver lives: its loop is that
    of its rounds, and it was polling before the last of them. *)
Record task_ok (t : task B) : Prop := {
  task_unsignalled : t_sigint t = None;
  task_loop : t_loop t = check (t_uri t) true None (t_start t) (t_rounds t);
  task_polled : forall rs r, t_rounds t = rs ++ [r] ->
    l_exit (check (B := B) (t_uri t) true None (t_start t) rs) = Polling;
}.

Lemma spawn_check_ok uri now : task_ok (spawn_check uri now).
Proof. split; [done|done|]. intros rs r Hr. by destruct rs. Qed.

Lemma task_round_Some alive (t : task B) r t' :
  task_round alive t r = Some t' ->
  t_exit t = Polling /\ t_uri t' = t_uri t /\ t_start t' = t_start t /\ t_rounds t' = t_rounds t ++ [r].
Proof. unfold task_round. destruct (t_exit t); [|done|done]. by intros [= <-]. Qed.

Lemma task_round_ok (t : task B) r t' : task_ok t -> task_round true t r = Some t' -> task_ok t'.
Proof.
  intros [Hs Hl _]. unfold task_round, t_exit. destruct (l_exit (t_loop t)) eqn:Ex; [|done|done].
  intros [= <-]. split; simpl; [done| |].
  - unfold check, check_loop. rewrite fold_left_app. simpl. rewrite Hs, Hl. done.
  - intros rs r' [<- _]%app_inj_tail. by rewrite <- Hl.
Qed.

Lemma check_round_Ok uri alive sigint (l : loop B) r u :
  l_exit l = Polling -> l_exit (check_round uri alive sigint l r) = Returned (Some (Ok u)) ->
  exists a, l_attempts (check_round uri alive sigint l r) = l_attempts l ++ [a].
Proof.
  intros Hp. unfold check_round, send_output. rewrite Hp.
  destruct (next_backoff (r_now r) (l_backoff l)) as [[d|] b'];
    [|by destruct (latest_error l), alive].
  destruct (round_ends sigint b' d r) as [| |a]; [by destruct alive..|].
  destruct (a_result a); simpl; by eauto.
Qed.

(** A task that has reported a success. *)
Lemma task_Ok (t : task B) u :
  task_ok t -> t_exit t = Returned (Some (Ok u)) ->
  connected_in_time (t_start t) (l_attempts (t_loop t)) /\ map a_round (l_attempts (t_loop t)) = t_rounds t.
Proof.
  intros [_ Hl Hp] Hx. unfold t_exit in Hx.
  pose proof (lk_meaning _ _ _ _ _ _ (check_ok (t_uri t) true None (t_start t) (t_rounds t))) as Hm.
  unfold outcome_meaning in Hm. rewrite <- Hl, Hx in Hm. destruct Hm as [Hm [post Hpost]]. split; [done|].
  destruct (t_rounds t) as [|r rs _] using rev_ind; [by destruct (l_attempts (t_loop t))|].
  specialize (Hp rs r eq_refl).
  pose proof (lk_meaning _ _ _ _ _ _ (check_ok (t_uri t) true None (t_start t) rs)) as Hrs.
  unfold outcome_meaning in Hrs. rewrite Hp in Hrs. destruct Hrs as [_ Hrs].
  unfold check, check_loop in Hl. rewrite fold_left_app in Hl. simpl in Hl. rewrite Hl in Hx.
  apply check_round_Ok in Hx as [a Ha]; [|done]. rewrite <- Hl in Ha.
  assert (Hlen : length post = 0%nat).
  { apply (f_equal length) in Hpost, Hrs. rewrite Ha, !length_app, length_map, length_app in Hpost.
    rewrite length_map in Hrs. simpl in Hpost. unfold check, check_loop in Hrs. lia. }
  destruct post; [|done]. by rewrite app_nil_r in Hpost.
Qed.

Lemma timely_app sigint (b : B) now l1 l2 : timely sigint b now (l1 ++ l2) -> timely sigint b now l1.
Proof.
  revert b now; induction l1 as [|r l1 IH]; intros b now; simpl; [done|].
  intros [? Ht]. split; [done|]. destruct (next_backoff (r_now r) b) as [[d|] b']; [|done].
  destruct (round_ends sigint b' d r); eauto.
Qed.

Lemma check_bounded uri alive sigint start rounds :
  timely sigint (backoff_new (B := B) (from_secs MAXIMUM_POLLING_TIME) start) start rounds ->
  (122 <= length rounds)%nat -> l_exit (check (B := B) uri alive sigint start rounds) <> Polling.
Proof.
  intros Ht Hlen. apply (check_loop_terminates _ _ _ _ start); [done|lia|]. simpl.
  rewrite law_new_limit, law_new_started. unfold from_secs, MAXIMUM_POLLING_TIME, NANOS, SHORTEST_PAUSE. lia.
Qed.

(** A task whose rounds keep their time makes no more than 122 of them. *)
Lemma task_bounded (t : task B) :
  task_ok t ->
  timely None (backoff_new (B := B) (from_secs MAXIMUM_POLLING_TIME) (t_start t)) (t_start t) (t_rounds t) ->
  (length (t_rounds t) <= 122)%nat.
Proof.
  intros [_ _ Hp]. revert Hp. generalize (t_rounds t). intros l Hp Ht.
  destruct l as [|r rs _] using rev_ind; [simpl; lia|].
  destruct (le_gt_dec (length (rs ++ [r])) 122) as [|Hgt]; [done|exfalso].
  rewrite length_app in Hgt. simpl in Hgt. apply timely_app in Ht.
  apply (check_bounded (t_uri t) true None (t_start t) rs Ht); [lia|]. by eapply (Hp rs r).
Qed.

Lemma task_run_ended alive rs (t t' : task B) :
  t_exit t <> Polling -> task_run alive t rs = Some t' -> t' = t /\ rs = [].
Proof.
  intros Ht. destruct rs as [|r rs]; simpl; [by intros [= <-]|]. unfold task_round. by destruct (t_exit t).
Qed.

Lemma signal_task_ended now (t : task B) : t_exit t <> Polling -> signal_task now t = t.
Proof. unfold signal_task. by destruct (t_exit t). Qed.

Lemma check_kill_ended now (t : task B) rs t' :
  t_exit t <> Polling -> check_kill now t rs = Some t' -> t' = t /\ rs = [].
Proof.
  intros Ht. unfold check_kill, check_join. rewrite signal_task_ended by done.
  destruct (task_run true t rs) as [t1|] eqn:E; [|done]. apply task_run_ended in E as [-> ->]; [|done].
  by destruct (t_exit t); intros [= <-].
Qed.

Lemma check_join_Some (t t' : task B) : check_join t = Some t' -> t' = t /\ t_exit t <> Polling.
Proof. unfold check_join. by destruct (t_exit t); intros [= <-]. Qed.

(** In a round that starts after the signal the loop ends. *)
Lemma signalled_ends uri alive s (l : loop B) r :
  s <= r_now r -> l_exit (check_round uri alive (Some s) l r) <> Polling.
Proof.
  intros Hs. unfold check_round. destruct (l_exit l) eqn:Hp; [|congruence..].
  destruct (next_backoff (r_now r) (l_backoff l)) as [[d|] b'] eqn:E.
  - apply next_backoff_in_time in E as (_ & Hd & _). unfold SHORTEST_PAUSE in Hd.
    rewrite round_ends_signalled; [done|done|lia].
  - destruct (latest_error l); simpl; [apply send_output_ends|done].
Qed.

(** A task that is told to end does so in the round that is under way or in the
    next one, whatever the network does in them. *)
Lemma kill_possible now (t : task B) r1 r2 :
  t_sigint t = None -> now <= r_now r2 ->
  exists n, (n <= 2)%nat /\ is_Some (check_kill now t (take n [r1; r2])).
Proof.
  intros Hs Hr. unfold check_kill, check_join.
  destruct (t_exit t) eqn:Hx.
  2-3: exists 0%nat; split; [lia|]; rewrite signal_task_ended by congruence; simpl; rewrite Hx; by eauto.
  assert (Hst : signal_task now t = {| t_uri := t_uri t; t_start := t_start t; t_sigint := Some now;
    t_loop := t_loop t; t_rounds := t_rounds t |}) by (unfold signal_task; by rewrite Hx, Hs).
  rewrite Hst. clear Hst. unfold t_exit in Hx.
  destruct (l_exit (check_round (t_uri t) true (Some now) (t_loop t) r1)) eqn:H1.
  - exists 2%nat. split; [lia|]. simpl. unfold task_round, t_exit. simpl. rewrite Hx. simpl. rewrite H1. simpl.
    pose proof (signalled_ends (t_uri t) true now (check_round (t_uri t) true (Some now) (t_loop t) r1) r2 Hr) as Hn.
    destruct (l_exit (check_round _ _ _ (check_round _ _ _ _ _) _)); [done|by eauto..].
  - exists 1%nat. split; [lia|]. simpl. unfold task_round, t_exit. simpl. rewrite Hx. simpl. rewrite H1. by eauto.
  - exists 1%nat. split; [lia|]. simpl. unfold task_round, t_exit. simpl. rewrite Hx. simpl. rewrite H1. by eauto.
Qed.

(** ** Theorems *)

(** The health check reports at most one result: success only after a
    connection that was made within the polling time, all earlier ones having been
    refused; otherwise [NotReady], or [TooManyFailures] with the latest connection
    error; nothing only when it was told to stop; and its unwraps only panic when
    nobody waits for the result, or when the first round begins too late. *)
Theorem check_meaning (uri : string) (alive : bool) (sigint : option Z) (start : Z) (rounds : list round) :
  outcome_meaning uri alive sigint start rounds (check (B := B) uri alive sigint start rounds).
Proof. apply (lk_meaning _ _ _ _ _ _ (check_ok uri alive sigint start rounds)). Qed.

(** C30: the health check ends: within 122 rounds it has returned, whatever the
    network answers and whether or not it is told to stop. *)
Theorem check_terminates (uri : string) (alive : bool) (sigint : option Z) (start : Z) (rounds : list round)
  (Htimely : timely sigint (backoff_new (B := B) (from_secs MAXIMUM_POLLING_TIME) start) start rounds)
  (Hlen : (122 <= length rounds)%nat) :
  l_exit (check (B := B) uri alive sigint start rounds) <> Polling.
Proof. by apply check_bounded. Qed.
End CheckLemmas.

(** ** Witnesses *)

(** A round whose pause is on time, with this connection. *)
Definition dial_at (now : Z) (took : positive) (res : result unit string) : round :=
  {| r_now := now; r_late := 0; r_grace := 0; r_connection := Some (took, res);
     r_tie_pause := false; r_tie_dial := false; r_tie_connection := false |}.

(** Refused twice, then connected. *)
Definition example_rounds : list round :=
  [ dial_at 0 3000000 (Err "connection refused"); dial_at 503000000 2000000 (Err "connection reset");
    dial_at 1255000000 4000000 (Ok tt) ].

Example check_example :
  l_exit (check (B := simple_backoff) "http://a" true None 0 example_rounds) = Returned (Some (Ok tt)).
Proof. vm_compute. reflexivity. Qed.

(** A pod that accepts connections and never answers: the patience runs out. *)
Example check_slow_loris :
  l_exit (check (B := simple_backoff) "http://a" true None 0
    [{| r_now := 0; r_late := 0; r_grace := 0; r_connection := None;
        r_tie_pause := false; r_tie_dial := false; r_tie_connection := false |}]) =
  Returned (Some (Err (into_box NotReady))).
Proof. vm_compute. reflexivity. Qed.

(** The signal arrives during the second pause. *)
Example check_signalled :
  l_exit (check (B := simple_backoff) "http://a" true (Some 600000000) 0 example_rounds) = Returned None.
Proof. vm_compute. reflexivity. Qed.

(** A pod that refuses every connection, polled every minute. *)
Definition refusing_rounds : list round :=
  map (fun i => dial_at (from_secs (60 * i)) 1 (Err "connection refused")) (seqZ 0 122).

Lemma check_terminates_witness :
  l_exit (check (B := simple_backoff) "http://a" true None 0 refusing_rounds) <> Polling.
Proof.
  apply check_terminates.
  - vm_compute. repeat split; try discriminate.
  - vm_compute. lia.
Defined.
