(* ===== verification/GarbageCollector.v ===== *)
(** * The garbage collector

    [service/acm/src/podmanager/garbage_collector.rs]: the daemon that deletes a
    pod when its time to live has passed without a refresh.

    The daemon is a state machine.  A step is one event that its [select!] (or,
    before the pod runs, its [recv]) picks, together with what the environment
    answers while the event is handled: the clocks, the API server.  The step is
    undefined for an event that the daemon does not listen for in its state, and
    for a timeout before the execution instant.

    The crate [chrono] is the interface [Chrono]. *)

From S2P Require Import Prelude RustStr Json Errors Names Pod Kube Backoff.

(** ** Clocks *)

(** [chrono::DateTime<Utc>]: adding [chrono::Duration::seconds(s)] may panic. *)
Class Chrono (DateTime : Type) := {
  plus_seconds : DateTime -> Z -> run DateTime;
  timestamp : DateTime -> Z;
}.

(** A timestamp that every date of the crate's range can reach. *)
Definition LATEST_TIMESTAMP : Z := 8000000000000.

Class ChronoLaws (DateTime : Type) `{Chrono DateTime} := {
  law_plus t s t' : plus_seconds t s = Done t' -> timestamp t' = timestamp t + s;
  law_plus_total t s : 0 <= timestamp t -> 0 <= s -> timestamp t + s <= LATEST_TIMESTAMP ->
    exists t', plus_seconds t s = Done t';
}.

(** [tokio::time::Instant] in nanoseconds; the last instant that the platform
    can represent is the argument [latest]. *)
Definition instant_add (latest now secs : Z) : run Z :=
  if now + from_secs secs <=? latest then Done (now + from_secs secs)
  else Panic "overflow when adding duration to instant".

(** [ttl as i64] for a [u64]. *)
Definition as_i64 (n : Z) : Z := if n <? 2 ^ 63 then n else n - 2 ^ 64.

Definition DEFAULT_TTL : Z := 60 * 30.

(** ** Tickets *)

Record KeepAliveTicket (DateTime : Type) := {
  ticket : string;
  execution_date : Z;
  ticket_now : DateTime;
  ticket_then : DateTime;
  execution_instant : Z;
}.
Arguments ticket {DateTime} _.
Arguments execution_date {DateTime} _.
Arguments ticket_now {DateTime} _.
Arguments ticket_then {DateTime} _.
Arguments execution_instant {DateTime} _.

(** [KeepAliveTicket::new], at the time [now] and the instant [instant]. *)
Definition ticket_new {D} `{Chrono D} (latest : Z) (pod : string) (ttl : Z) (now : D) (instant : Z)
  : run (KeepAliveTicket D) :=
  let! then_ := plus_seconds now (as_i64 ttl) in
  let! execution_instant := instant_add latest instant ttl in
  Done {| ticket := pod; execution_date := timestamp then_;
          ticket_now := now; ticket_then := then_; execution_instant := execution_instant |}.

(** [#[derive(Serialize)]] with the skipped fields. *)
#[export] Instance ticket_Serialize {D} : Serialize (KeepAliveTicket D) := fun t =>
  JObj [("ticket", JStr (ticket t)); ("execution_date", JNum (execution_date t))].
#[export] Instance ticket_Kind {D} : Kind (KeepAliveTicket D) := fun _ => "KeepAliveTicket".

(** The merge patch: an otherwise empty pod with one label. *)
Definition pod_patch {D} (t : KeepAliveTicket D) : Pod :=
  set_labels [("execution_date", fmt_int (execution_date t))] Pod_default.

(** [sleep] ends once the moment is reached. *)
Definition ticket_sleep {D} (t : KeepAliveTicket D) (now : Z) : bool := execution_instant t <=? now.
Arguments ticket_sleep {D} t now /.

(** ** Errors *)

Inductive GcError := RefreshChannelClosed.
#[export] Instance GcError_AcmError : AcmError GcError := {|
  acm_error := {| display _ := "This pod appears to have already been shutdown or garbage collected.";
                  source _ := None |};
  acm_code _ := Status.ServiceUnavailable;
  acm_kind _ := "RefreshChannelClosed";
|}.

(** ** The daemon *)

(** [GcStatus] of [event_watcher.rs]. *)
Inductive GcStatus := StatusRunning (p : Pod) | StatusTerminated.

(** [GcEvent]; of a refresh request it matters whether its requester still
    waits for the ticket. *)
Inductive GcEvent :=
| RefreshRequest (request : option bool)
| ExecutionDateReached
| PodEvent (s : option GcStatus).

(** What the environment answers while an event is handled. *)
Record gc_env (D : Type) := {
  env_utc : D;
  env_instant : Z;
  env_connect : result unit kube_error;
  env_patch : result unit kube_error;
  env_delete : result unit kube_error;
}.
Arguments env_utc {D} _.
Arguments env_instant {D} _.
Arguments env_connect {D} _.
Arguments env_patch {D} _.
Arguments env_delete {D} _.

Inductive gc_state (D : Type) :=
| AwaitingRunning
| Countdown (keep_alive : KeepAliveTicket D)
| GcReturned
| GcPanicked.
Arguments AwaitingRunning {D}.
Arguments Countdown {D} keep_alive.
Arguments GcReturned {D}.
Arguments GcPanicked {D}.

(** What the daemon does to the world. *)
Inductive gc_action (D : Type) :=
| GcPatch (pod : string) (patch : Pod)
| GcDelete (pod : string)
| GcReply (t : KeepAliveTicket D) (delivered : bool).
Arguments GcPatch {D} pod patch.
Arguments GcDelete {D} pod.
Arguments GcReply {D} t delivered.

Section Daemon.
Context {D : Type} `{Chrono D}.
Context (latest : Z) (pod : string) (ttl : Z).

Notation outcome := (gc_state D * list (gc_action D))%type.

(** [client.patch(..).await.unwrap()], after which the countdown is on. *)
Definition patch_then (env : gc_env D) (t : KeepAliveTicket D) (before : list (gc_action D)) : outcome :=
  (match env_patch env with Ok _ => Countdown t | Err _ => GcPanicked end,
   before ++ [GcPatch pod (pod_patch t)]).

(** [client.delete(..).await.unwrap(); return]. *)
Definition delete_and_return (env : gc_env D) : outcome :=
  (match env_delete env with Ok _ => GcReturned | Err _ => GcPanicked end, [GcDelete pod]).

(** Phase 2 up to its loop: the client, the first ticket and its patch. *)
Definition begin_countdown (env : gc_env D) : outcome :=
  match env_connect env with
  | Err _ => (GcPanicked, [])
  | Ok _ =>
      match ticket_new latest pod ttl (env_utc env) (env_instant env) with
      | Panic _ => (GcPanicked, [])
      | Done t => patch_then env t []
      end
  end.

Definition gc_step (st : gc_state D) (env : gc_env D) (ev : GcEvent) : option outcome :=
  match st, ev with
  (* Phase 1 *)
  | AwaitingRunning, PodEvent None => Some (GcReturned, [])
  | AwaitingRunning, PodEvent (Some StatusTerminated) => Some (GcReturned, [])
  | AwaitingRunning, PodEvent (Some (StatusRunning _)) => Some (begin_countdown env)
  (* Phase 2 *)
  | Countdown t, RefreshRequest None => Some (Countdown t, [])
  | Countdown t, RefreshRequest (Some open) =>
      Some (match ticket_new latest pod ttl (env_utc env) (env_instant env) with
            | Panic _ => (GcPanicked, [])
            | Done t' => patch_then env t' [GcReply t' open]
            end)
  | Countdown t, PodEvent None => Some (delete_and_return env)
  | Countdown t, PodEvent (Some (StatusRunning _)) => Some (Countdown t, [])
  | Countdown t, PodEvent (Some StatusTerminated) => Some (GcReturned, [])
  | Countdown t, ExecutionDateReached =>
      if ticket_sleep t (env_instant env) then Some (delete_and_return env) else None
  | _, _ => None
  end.

(** [GarbageCollector::new]: the daemon is spawned at its beginning.  Its channel
    for refresh requests holds one of them; the handlers of the service hold the
    mutex of the manager while they wait, so that there is never a second one. *)
Definition gc_new : gc_state D := AwaitingRunning.

(** A sequence of events handled one after the other, with all the actions. *)
Fixpoint gc_run (st : gc_state D) (evs : list (gc_env D * GcEvent)) : option outcome :=
  match evs with
  | [] => Some (st, [])
  | (env, ev) :: rest =>
      match gc_step st env ev with
      | None => None
      | Some (st', acts) =>
          match gc_run st' rest with
          | None => None
          | Some (st'', acts') => Some (st'', acts ++ acts')
          end
      end
  end.

(** An event that makes the daemon issue a ticket. *)
Definition issues (ev : GcEvent) : bool :=
  match ev with
  | RefreshRequest (Some _) => true
  | PodEvent (Some (StatusRunning _)) => true
  | _ => false
  end.
Definition refreshes (ev : GcEvent) : bool :=
  match ev with RefreshRequest (Some _) => true | _ => false end.

Definition is_delete (a : gc_action D) : bool := match a with GcDelete _ => true | _ => false end.

(** [GarbageCollector::refresh]: whether the request could be sent, and the
    ticket that came back over its channel. *)
Definition gc_refresh (sent : bool) (reply : option (KeepAliveTicket D)) : Result (KeepAliveTicket D) :=
  if sent then
    match reply with
    | Some t => Ok t
    | None => Err (into_box RefreshChannelClosed)
    end
  else Err (into_box RefreshChannelClosed).
End Daemon.

(** Every ticket handed to a client is recorded on the pod right after. *)
Fixpoint announced {D} (pod : string) (acts : list (gc_action D)) : bool :=
  match acts with
  | [] => true
  | GcReply t _ :: GcPatch pod' patch :: rest =>
      String.eqb pod pod' && bool_decide (patch = pod_patch t) && announced pod rest
  | GcReply _ _ :: _ => false
  | _ :: rest => announced pod rest
  end.

(** ** Lemmas *)

Section DaemonLemmas.
Context {D : Type} `{Chrono D}.
Context (latest : Z) (pod : string) (ttl : Z).
Notation step := (gc_step latest pod ttl).
Notation run_gc := (gc_run latest pod ttl).

Lemma ticket_new_Done now instant (t : KeepAliveTicket D) :
  ticket_new latest pod ttl now instant = Done t ->
  ticket t = pod /\ execution_instant t = instant + from_secs ttl /\
  exists then_, plus_seconds now (as_i64 ttl) = Done then_ /\ execution_date t = timestamp then_.
Proof.
  unfold ticket_new, instant_add.
  intros (then_ & Ht & (i & Hi & [= <-])%run_bind_Done)%run_bind_Done. simpl.
  destruct (_ <=? _); simplify_eq. eauto.
Qed.

Lemma gc_run_snoc st evs env ev st' acts' :
  run_gc st (evs ++ [(env, ev)]) = Some (st', acts') ->
  exists st0 acts0 acts1, run_gc st evs = Some (st0, acts0) /\
    step st0 env ev = Some (st', acts1) /\ acts' = acts0 ++ acts1.
Proof.
  revert st acts'; induction evs as [|[env0 ev0] evs IH]; intros st acts'; simpl.
  - destruct (step st env ev) as [[s a]|] eqn:E; [|done]. intros [= <- <-].
    exists st, [], a. split_and!; [done|done|by rewrite app_nil_r].
  - destruct (step st env0 ev0) as [[s a]|]; [|done].
    destruct (run_gc s (evs ++ [(env, ev)])) as [[s' a']|] eqn:E; [|done].
    intros [= <- <-]. destruct (IH _ _ E) as (st0 & acts0 & acts1 & -> & Hs & ->).
    exists st0, (a ++ acts0), acts1. by rewrite app_assoc.
Qed.

(** The countdown runs from the last event that issued a ticket. *)
Definition counts_from_last_issue (st : gc_state D) (evs : list (gc_env D * GcEvent)) : Prop :=
  forall t, st = Countdown t ->
  ticket t = pod /\
  exists pre env ev post, evs = pre ++ (env, ev) :: post /\ issues ev = true /\
    Forall (fun e => refreshes e.2 = false) post /\
    execution_instant t = env_instant env + from_secs ttl.

Lemma counts_issue (env : gc_env D) ev evs t :
  issues ev = true -> ticket_new latest pod ttl (env_utc env) (env_instant env) = Done t ->
  counts_from_last_issue (Countdown t) (evs ++ [(env, ev)]).
Proof.
  intros Hev (Ht & Hi & _)%ticket_new_Done t' [= <-]. split; [done|].
  exists evs, env, ev, []. split_and!; auto.
Qed.

Lemma counts_keep (env : gc_env D) ev evs t :
  refreshes ev = false -> counts_from_last_issue (Countdown t) evs ->
  counts_from_last_issue (Countdown t) (evs ++ [(env, ev)]).
Proof.
  intros Hev Hc t' Ht'. destruct (Hc t' Ht') as (? & pre & e & v & post & -> & ? & ? & ?).
  split; [done|]. exists pre, e, v, (post ++ [(env, ev)]). split_and!; try done.
  - by rewrite <- app_assoc.
  - apply Forall_app. split; [done|]. by apply Forall_singleton.
Qed.

Lemma patch_then_countdown (env : gc_env D) (t : KeepAliveTicket D) before st acts :
  patch_then pod env t before = (st, acts) -> st = Countdown t \/ st = GcPanicked.
Proof. unfold patch_then. intros [= <- <-]. destruct (env_patch env); auto. Qed.

Lemma gc_run_counts evs st acts :
  run_gc AwaitingRunning evs = Some (st, acts) -> counts_from_last_issue st evs.
Proof.
  revert st acts; induction evs as [|[env ev] evs IH] using rev_ind; intros st acts Hr.
  - injection Hr as <- <-. done.
  - apply gc_run_snoc in Hr as (st0 & acts0 & acts1 & Hr & Hs & ->). specialize (IH _ _ Hr).
    destruct st0 as [|t| |]; [| |done|done]; destruct ev as [[o|]| |[[p|]|]]; simpl in Hs;
      try done; try (injection Hs as <- <-; try done; by apply counts_keep).
    + unfold begin_countdown in Hs. destruct (env_connect env); [|by injection Hs as <- <-].
      destruct (ticket_new _ _ _ _ _) as [t'|] eqn:Et; [|by injection Hs as <- <-].
      apply (inj Some) in Hs. apply patch_then_countdown in Hs as [->| ->]; [|done].
      by apply counts_issue.
    + destruct (ticket_new _ _ _ _ _) as [t'|] eqn:Et; [|by injection Hs as <- <-].
      apply (inj Some) in Hs. apply patch_then_countdown in Hs as [->| ->]; [|done].
      by apply counts_issue.
    + destruct (_ <=? _); [|done]. injection Hs as <- _. by destruct (env_delete env).
    + injection Hs as <- _. by destruct (env_delete env).
Qed.

(** The actions of one step. *)
Lemma gc_step_actions st env ev st' acts :
  step st env ev = Some (st', acts) ->
  (Forall (fun a => is_delete a = false) acts /\ announced pod acts = true) \/
  (acts = [GcDelete pod] /\ (st' = GcReturned \/ st' = GcPanicked)).
Proof.
  destruct st as [|t| |], ev as [[o|]| |[[p|]|]]; simpl; try done;
    try (intros [= <- <-]; left; by repeat constructor).
  - unfold begin_countdown. destruct (env_connect env); [|intros [= <- <-]; left; by repeat constructor].
    destruct (ticket_new _ _ _ _ _); intros [= <- <-]; left; by repeat constructor.
  - destruct (ticket_new _ _ _ _ _); intros [= <- <-]; left; [|by repeat constructor].
    split; [by repeat constructor|]. simpl. rewrite String.eqb_refl.
    by rewrite bool_decide_true.
  - destruct (_ <=? _); [|done]. intros [= <- <-]. right. destruct (env_delete env); auto.
  - intros [= <- <-]. right. destruct (env_delete env); auto.
Qed.

Lemma announced_app (l1 l2 : list (gc_action D)) :
  announced pod l1 = true -> announced pod l2 = true -> announced pod (l1 ++ l2) = true.
Proof.
  assert (Hn : forall n (l : list (gc_action D)), (length l <= n)%nat ->
    announced pod l = true -> announced pod l2 = true -> announced pod (l ++ l2) = true).
  { induction n as [|n IH]; intros [|[p q|p|t d] l] Hl; simpl in *; try lia; try done; eauto with lia.
    destruct l as [|[p' q'|p'|t' d'] l]; simpl in *; try done.
    rewrite !andb_true_iff. intros [? ?] ?. split; [done|]. apply IH; [lia|done|done]. }
  eauto.
Qed.

Lemma stopped_stays st env ev : st = GcReturned \/ st = GcPanicked -> step st env ev = None.
Proof. by intros [->| ->]. Qed.

Lemma filter_no_delete (l : list (gc_action D)) :
  Forall (fun a => is_delete a = false) l -> filter (fun a => is_delete a = true) l = [].
Proof. induction 1; [done|]. rewrite filter_cons_False; [done|congruence]. Qed.
End DaemonLemmas.

(** ** Theorems *)

Section DaemonTheorems.
Context {D : Type} `{Chrono D}.
Context (latest : Z) (pod : string) (ttl : Z).

(** A pod is never collected early: when the daemon acts on the timeout,
    the full time to live has passed since the last event that issued a ticket,
    and no refresh came in between. *)
Theorem gc_never_early (evs : list (gc_env D * GcEvent)) (env : gc_env D)
  (st : gc_state D) (acts : list (gc_action D))
  (Hrun : gc_run latest pod ttl AwaitingRunning (evs ++ [(env, ExecutionDateReached)]) =
          Some (st, acts)) :
  exists pre env0 ev0 post, evs = pre ++ (env0, ev0) :: post /\ issues ev0 = true /\
    Forall (fun e => refreshes e.2 = false) post /\
    env_instant env0 + from_secs ttl <= env_instant env.
Proof.
  apply gc_run_snoc in Hrun as (st0 & acts0 & acts1 & Hr & Hs & _).
  pose proof (gc_run_counts _ _ _ _ _ _ Hr) as Hc.
  destruct st0 as [|t| |]; simpl in Hs; try done.
  destruct (Hc t eq_refl) as (_ & pre & e & v & post & -> & ? & ? & Hi).
  destruct (Z.leb_spec (execution_instant t) (env_instant env)) as [Hle|]; [|done].
  rewrite Hi in Hle. exists pre, e, v, post. auto.
Qed.

(** C16: the deadline of a pod is exact: while the countdown is on, the timeout
    is handled, by the deletion of the pod, from the moment on at which the time to
    live has passed since the last event that issued a ticket, and not before. *)
Theorem gc_deadline_exact (evs : list (gc_env D * GcEvent)) (t : KeepAliveTicket D)
  (acts : list (gc_action D)) (Hrun : gc_run latest pod ttl AwaitingRunning evs = Some (Countdown t, acts)) :
  exists pre env0 ev0 post, evs = pre ++ (env0, ev0) :: post /\ issues ev0 = true /\
    Forall (fun e => refreshes e.2 = false) post /\
    forall env, gc_step latest pod ttl (Countdown t) env ExecutionDateReached =
      if env_instant env0 + from_secs ttl <=? env_instant env
      then Some (match env_delete env with Ok _ => GcReturned | Err _ => GcPanicked end, [GcDelete pod])
      else None.
Proof.
  destruct (gc_run_counts _ _ _ _ _ _ Hrun t eq_refl) as (_ & pre & e & v & post & -> & ? & ? & Hi).
  exists pre, e, v, post. split_and!; [done|done|done|]. intros env. simpl. by rewrite Hi.
Qed.

(** C17: over its whole life the daemon requests at most one deletion, the
    deletion is the last thing it does, and every ticket that it hands out is at
    once recorded as the pod's [execution_date] label. *)
Theorem gc_deletes_once (evs : list (gc_env D * GcEvent)) (st st' : gc_state D)
  (acts : list (gc_action D))
  (Hrun : gc_run latest pod ttl st evs = Some (st', acts)) :
  announced pod acts = true /\
  (Forall (fun a => is_delete a = false) acts \/
   exists before, acts = before ++ [GcDelete pod] /\
     Forall (fun a => is_delete a = false) before /\ (st' = GcReturned \/ st' = GcPanicked)).
Proof.
  revert st acts Hrun; induction evs as [|[env ev] evs IH]; intros st acts Hrun; simpl in Hrun.
  - injection Hrun as <- <-. split; [done|left; constructor].
  - destruct (gc_step latest pod ttl st env ev) as [[s a]|] eqn:Es; [|done].
    destruct (gc_run latest pod ttl s evs) as [[s' a']|] eqn:Er; [|done].
    injection Hrun as <- <-. destruct (IH _ _ Er) as [Hann Hdel].
    apply gc_step_actions in Es as [[Hnd Ha]|[-> Hstop]].
    + split; [by apply announced_app|].
      destruct Hdel as [?|(b & -> & ? & ?)]; [left; by apply Forall_app|right].
      exists (a ++ b). rewrite app_assoc. split_and!; auto. by apply Forall_app.
    + assert (s' = s /\ a' = []) as [-> ->].
      { destruct evs as [|[e v] evs]; simpl in Er; [by simplify_eq|].
        by rewrite stopped_stays in Er. }
      split; [done|right]. exists []. split_and!; auto.
Qed.

(** C28: a refresh whose requests to the API server succeed always moves the
    deadline to a full time to live from now, and the client receives the ticket
    that says so. *)
Theorem gc_refresh_extends `{!ChronoLaws D} (t : KeepAliveTicket D) (env : gc_env D)
  (Httl : 0 <= ttl < 2 ^ 63)
  (Hutc : 0 <= timestamp (env_utc env)) (Hmax : timestamp (env_utc env) + ttl <= LATEST_TIMESTAMP)
  (Hinst : env_instant env + from_secs ttl <= latest) (Hpatch : env_patch env = Ok tt) :
  exists t', gc_step latest pod ttl (Countdown t) env (RefreshRequest (Some true)) =
      Some (Countdown t', [GcReply t' true; GcPatch pod (pod_patch t')]) /\
    execution_instant t' = env_instant env + from_secs ttl /\
    execution_date t' = timestamp (env_utc env) + ttl /\
    gc_refresh true (Some t') = Ok t'.
Proof.
  assert (Hi : as_i64 ttl = ttl) by (unfold as_i64; destruct (Z.ltb_spec ttl (2 ^ 63)); lia).
  destruct (law_plus_total (env_utc env) ttl) as [then_ Ht]; [lia..|].
  cbn [gc_step]. unfold ticket_new, instant_add. rewrite Hi, Ht. cbn [run_bind].
  rewrite (proj2 (Z.leb_le _ _) Hinst). cbn [run_bind].
  eexists. split_and!; [unfold patch_then; by rewrite Hpatch|done| |done].
  simpl. by apply law_plus.
Qed.

(** A time to live of 2^63 seconds or more wraps to a negative number of
    seconds: the published execution date lies before the time of issue,
    although the timer of the same ticket lies after it. *)
Theorem ticket_ttl_wraps `{!ChronoLaws D} (now : D) (instant : Z) (t : KeepAliveTicket D)
  (Httl : 2 ^ 63 <= ttl < 2 ^ 64)
  (Hnew : ticket_new latest pod ttl now instant = Done t) :
  execution_date t = timestamp now + ttl - 2 ^ 64 /\ execution_date t < timestamp now /\
  instant < execution_instant t.
Proof.
  apply ticket_new_Done in Hnew as (_ & Hi & then_ & Hp & Hd).
  apply law_plus in Hp. unfold as_i64 in Hp. destruct (Z.ltb_spec ttl (2 ^ 63)); [lia|].
  rewrite Hd, Hi, Hp. unfold from_secs, NANOS. lia.
Qed.

(** One failed request to record a ticket ends the daemon without
    deleting the pod, and nothing it could still receive makes it delete the
    pod later: the pod has lost its time to live. *)
Theorem gc_patch_failure_disarms (t : KeepAliveTicket D) (env : gc_env D) (o : bool) (e : kube_error)
  (evs : list (gc_env D * GcEvent)) (st : gc_state D) (acts : list (gc_action D))
  (Hpatch : env_patch env = Err e)
  (Hrun : gc_run latest pod ttl (Countdown t) ((env, RefreshRequest (Some o)) :: evs) = Some (st, acts)) :
  st = GcPanicked /\ evs = [] /\ Forall (fun a => is_delete a = false) acts.
Proof.
  cbn [gc_run gc_step] in Hrun.
  destruct (ticket_new _ _ _ _ _) as [t'|m]; unfold patch_then in Hrun; rewrite ?Hpatch in Hrun;
    destruct evs as [|[? ?] ?]; simpl in Hrun; simplify_eq; by repeat constructor.
Qed.
End DaemonTheorems.

(** ** An instance of the clock, and witnesses *)

(** Dates as seconds since the epoch, in the range of the crate. *)
#[export] Instance Z_Chrono : Chrono Z := {|
  plus_seconds t s := if Z.abs (t + s) <=? LATEST_TIMESTAMP then Done (t + s)
                      else Panic "`DateTime + Duration` overflowed";
  timestamp t := t;
|}.

#[export] Instance Z_ChronoLaws : ChronoLaws Z.
Proof.
  split; simpl.
  - intros t s t'. destruct (_ <=? _); congruence.
  - intros t s ? ? ?. destruct (Z.leb_spec (Z.abs (t + s)) LATEST_TIMESTAMP); [eauto|lia].
Qed.

Definition example_env (utc instant : Z) : gc_env Z :=
  {| env_utc := utc; env_instant := instant; env_connect := Ok tt; env_patch := Ok tt;
     env_delete := Ok tt |}.

Definition far_future : Z := 2 ^ 63 * NANOS.

(** Started at instant 0, refreshed a minute later, collected half an hour
    after that. *)
Definition example_life : list (gc_env Z * GcEvent) :=
  [ (example_env 1000 0, PodEvent (Some (StatusRunning example_pod)));
    (example_env 1060 (from_secs 60), RefreshRequest (Some true)) ].

Lemma gc_never_early_witness :
  exists pre env0 ev0 post, example_life = pre ++ (env0, ev0) :: post /\ issues ev0 = true /\
    Forall (fun e => refreshes e.2 = false) post /\
    env_instant env0 + from_secs DEFAULT_TTL <= from_secs 1860.
Proof.
  eapply (gc_never_early far_future "p" DEFAULT_TTL example_life (example_env 2860 (from_secs 1860))).
  vm_compute. reflexivity.
Defined.

Lemma gc_deadline_exact_witness :
  exists pre env0 ev0 post, example_life = pre ++ (env0, ev0) :: post /\ issues ev0 = true /\
    Forall (fun e => refreshes e.2 = false) post.
Proof.
  destruct (gc_run far_future "p" DEFAULT_TTL AwaitingRunning example_life) as [[st acts]|] eqn:E;
    [|vm_compute in E; discriminate].
  destruct st as [|t| |]; try (vm_compute in E; discriminate).
  destruct (gc_deadline_exact far_future "p" DEFAULT_TTL example_life t acts E)
    as (pre & env0 & ev0 & post & He & Hi & Hp & _).
  exists pre, env0, ev0, post. split; [exact He|]. split; [exact Hi|exact Hp].
Defined.

Lemma gc_deletes_once_witness :
  exists acts, announced (D := Z) "p" acts = true /\ length acts = 4%nat.
Proof.
  destruct (gc_run far_future "p" DEFAULT_TTL AwaitingRunning
     (example_life ++ [(example_env 2860 (from_secs 1860), ExecutionDateReached)]))
    as [[st acts]|] eqn:E; [|vm_compute in E; discriminate].
  exists acts. split; [exact (proj1 (gc_deletes_once far_future "p" DEFAULT_TTL _ _ _ _ E))|].
  vm_compute in E. by injection E as <- <-.
Defined.

Definition example_ticket : KeepAliveTicket Z :=
  {| ticket := "p"; execution_date := 2800; ticket_now := 1000; ticket_then := 2800;
     execution_instant := from_secs 1800 |}.

Lemma gc_refresh_extends_witness :
  exists t', gc_step far_future "p" DEFAULT_TTL (Countdown example_ticket)
      (example_env 1060 (from_secs 60)) (RefreshRequest (Some true)) =
      Some (Countdown t', [GcReply t' true; GcPatch "p" (pod_patch t')]) /\
    execution_instant t' = env_instant (example_env 1060 (from_secs 60)) + from_secs DEFAULT_TTL /\
    execution_date t' = timestamp (env_utc (example_env 1060 (from_secs 60))) + DEFAULT_TTL /\
    gc_refresh true (Some t') = Ok t'.
Proof.
  apply (gc_refresh_extends far_future "p" DEFAULT_TTL example_ticket (example_env 1060 (from_secs 60)));
    first [reflexivity | vm_compute; intuition congruence].
Defined.

Lemma ticket_ttl_wraps_witness :
  exists t : KeepAliveTicket Z,
    ticket_new (2 * far_future) "p" (2 ^ 64 - 1) 1000 5 = Done t /\ execution_date t < 1000.
Proof.
  destruct (ticket_new (2 * far_future) "p" (2 ^ 64 - 1) (1000 : Z) 5) as [t|] eqn:E;
    [|vm_compute in E; discriminate].
  exists t. split; [done|].
  refine (proj1 (proj2 (ticket_ttl_wraps (2 * far_future) "p" (2 ^ 64 - 1) (1000 : Z) 5 t _ E))). lia.
Defined.

Definition failing_env : gc_env Z :=
  {| env_utc := 1060; env_instant := from_secs 60; env_connect := Ok tt;
     env_patch := Err (KConnection "connection reset"); env_delete := Ok tt |}.

Lemma gc_patch_failure_disarms_witness :
  exists st acts, gc_run far_future "p" DEFAULT_TTL (Countdown example_ticket)
      [(failing_env, RefreshRequest (Some true))] = Some (st, acts) /\ st = GcPanicked.
Proof.
  eexists _, _. split; [vm_compute; reflexivity|].
  eapply (gc_patch_failure_disarms far_future "p" DEFAULT_TTL example_ticket failing_env true
    (KConnection "connection reset") []); vm_compute; reflexivity.
Defined.
