(* ===== verification/TermColors.v ===== *)
(** * Colours of log messages

    [library/term_colors/src/lib.rs], and the [Display] of a ticket in
    [garbage_collector.rs], which uses it.  How a terminal is told to use a style
    ([paint] of the crate [ansi_term]) and how a date is written
    ([to_rfc2822] of [chrono]) are parameters. *)

From S2P Require Import Prelude RustStr Json Errors Names Pod Kube Backoff GarbageCollector.

Inductive Color := Cyan | Red | Green | Blue | Purple | RGB (r g b : Z).
Inductive Style := Bold | Foreground (c : Color).

Section TermColors.
Context (paint : Style -> string -> string).

Definition bold (input : string) : string := paint Bold input.
Definition cyan (input : string) : string := paint (Foreground Cyan) input.
Definition red (input : string) : string := paint (Foreground Red) input.
Definition green (input : string) : string := paint (Foreground Green) input.
Definition blue (input : string) : string := paint (Foreground Blue) input.
Definition purple (input : string) : string := paint (Foreground Purple) input.
Definition orange (input : string) : string := paint (Foreground (RGB 243 113 33)) input.

Context {D : Type} `{Chrono D} (to_rfc2822 : D -> string).

(** [impl Display for KeepAliveTicket]. *)
Definition ticket_fmt (t : KeepAliveTicket D) : string :=
  "Ticket created on " +:+ green (to_rfc2822 (ticket_now t)) +:+ " (Unix " +:+ fmt_int (timestamp (ticket_now t)) +:+
  ") is good until " +:+ red (to_rfc2822 (ticket_then t)) +:+ " (Unix " +:+ fmt_int (timestamp (ticket_then t)) +:+ ")".
End TermColors.

(** ** Removing the colours again *)

(** The escape sequence of a colour ends with an [m]. *)
Definition ESC : ascii := Ascii.ascii_of_nat 27.

Fixpoint uncoloured (inside : bool) (s : string) : string :=
  match s with
  | EmptyString => ""
  | String a s =>
      if inside then uncoloured (negb (Ascii.eqb a "m")) s
      else if Ascii.eqb a ESC then uncoloured true s
      else String a (uncoloured false s)
  end.

Fixpoint escapeless (s : string) : bool :=
  match s with
  | EmptyString => true
  | String a s => negb (Ascii.eqb a ESC) && escapeless s
  end.

Lemma uncoloured_app s t : escapeless s = true -> uncoloured false (s +:+ t) = s +:+ uncoloured false t.
Proof.
  induction s as [|a s IH]; [done|]. simpl. intros [Ha Hs]%andb_true_iff. apply negb_true_iff in Ha.
  rewrite !append_cons. simpl. by rewrite Ha, IH.
Qed.

(** What [paint] promises: the text within escape sequences. *)
Class PaintLaws (paint : Style -> string -> string) := {
  law_paint st s t : escapeless s = true ->
    uncoloured false (paint st s +:+ t) = s +:+ uncoloured false t;
}.

Lemma digits_escapeless n : escapeless (fmt_int n) = true.
Proof.
  assert (Hchar : forall x, Ascii.eqb (pretty_N_char x) ESC = false)
    by (intros x; unfold pretty_N_char; repeat case_match; reflexivity).
  assert (Hnat : forall m s, escapeless s = true -> escapeless (pretty_N_go m s) = true).
  { intros m. induction (N.lt_wf_0 m) as [m _ IH]. intros s Hs.
    destruct (decide (0 < m)%N) as [Hm|Hm].
    - rewrite pretty_N_go_step by done. apply IH; [apply N.div_lt; lia|].
      cbn [escapeless]. by rewrite Hchar, Hs.
    - assert (m = 0%N) as -> by lia. by rewrite pretty_N_go_0. }
  assert (HN : forall m : N, escapeless (pretty m) = true).
  { intros m. unfold pretty, pretty_N. destruct (decide (m = 0%N)); [done|]. by apply Hnat. }
  unfold fmt_int. destruct n as [|p|p]; [done|apply HN|].
  change (pretty (Z.neg p)) with (String "-" (pretty (N.pos p))). simpl. apply HN.
Qed.

(** The [Display] of a ticket names both moments as dates and as Unix times,
    whatever the colours are: without the escape sequences it is plain text. *)
Theorem ticket_fmt_plain (paint : Style -> string -> string) `{!PaintLaws paint} {D : Type} `{Chrono D}
  (to_rfc2822 : D -> string) (t : KeepAliveTicket D)
  (Hdates : forall d, escapeless (to_rfc2822 d) = true) :
  uncoloured false (ticket_fmt paint to_rfc2822 t) =
  "Ticket created on " +:+ to_rfc2822 (ticket_now t) +:+ " (Unix " +:+ fmt_int (timestamp (ticket_now t)) +:+
  ") is good until " +:+ to_rfc2822 (ticket_then t) +:+ " (Unix " +:+ fmt_int (timestamp (ticket_then t)) +:+ ")".
Proof.
  unfold ticket_fmt, green, red.
  repeat first [rewrite law_paint by apply Hdates
               |rewrite uncoloured_app by first [reflexivity|apply digits_escapeless]].
  reflexivity.
Qed.

(** ** Witness *)

(** ANSI sequences for two of the colours; the others are not painted. *)
Definition ansi_code (st : Style) : string :=
  match st with
  | Foreground Green => String ESC "[32m"
  | Foreground Red => String ESC "[31m"
  | _ => ""
  end.
Definition ansi_paint (st : Style) (s : string) : string := ansi_code st +:+ s +:+ String ESC "[0m".

#[export] Instance ansi_laws : PaintLaws ansi_paint.
Proof.
  split. intros st s t Hs. unfold ansi_paint. rewrite <- !str_app_assoc.
  assert (Hcode : forall u, uncoloured false (ansi_code st +:+ u) = uncoloured false u)
    by (intros u; by destruct st as [|[]]).
  rewrite Hcode, uncoloured_app by done. done.
Qed.

#[local] Instance seconds_chrono : Chrono Z := {| plus_seconds t s := Done (t + s); timestamp t := t |}.

Lemma ticket_fmt_plain_witness :
  uncoloured false (ticket_fmt ansi_paint (fun _ => "Thu, 1 Jan 1970 00:00:00 +0000")
    {| ticket := "oracle"; execution_date := 150; ticket_now := 0; ticket_then := 150; execution_instant := 0 |}) =
  "Ticket created on Thu, 1 Jan 1970 00:00:00 +0000 (Unix 0) is good until Thu, 1 Jan 1970 00:00:00 +0000 (Unix 150)".
Proof.
  rewrite (ticket_fmt_plain ansi_paint (fun _ => "Thu, 1 Jan 1970 00:00:00 +0000")
    {| ticket := "oracle"; execution_date := 150; ticket_now := 0; ticket_then := 150; execution_instant := 0 |}
    (fun _ => eq_refl)).
  vm_compute. reflexivity.
Defined.
