(* ===== verification/ExternalHandle.v ===== *)
(** * The handle between clients and the event watcher

    [service/acm/src/podmanager/external_handle.rs]: the event watcher posts its
    result through the lower handle; a client collects it with [wait] on the
    upper handle; in between a shim coroutine takes the result and meets the
    client at a barrier of two, with sixty seconds of patience.

    The state below is shared by the three parties, and an event is one atomic
    move of one of them.  An event that is not enabled (a receive from an empty
    channel whose sender lives, a wait at the barrier) is undefined.

    The sources do not say whether an arrival at [tokio]'s barrier counts after
    the waiting future is dropped; that is the argument [cancel_undoes]. *)

From S2P Require Import Prelude RustStr Errors Names Pod Backoff.

(** ** Errors *)

Inductive HandleError :=
| InboundResultChannelDropped
| OutboundResultChannelDropped
| PhantomError.

Definition deallocated_text : string :=
  "In internal datastructure was deallocated before a result was ever placed into. This is a severe state machine violation from within the ACM (Alation Connector Manager). Please try this operation again, but please also report this as a bug to Alation.".

#[export] Instance HandleError_AcmError : AcmError HandleError := {|
  acm_error := {|
    display e := match e with
      | InboundResultChannelDropped | OutboundResultChannelDropped => deallocated_text
      | PhantomError => ""
      end;
    source _ := None |};
  acm_code e := match e with
    | InboundResultChannelDropped | OutboundResultChannelDropped => Status.InternalServerError
    | PhantomError => Status.BadRequest
    end;
  acm_kind e := match e with
    | InboundResultChannelDropped => "InboundResultChannelDropped"
    | OutboundResultChannelDropped => "OutboundResultChannelDropped"
    | PhantomError => "PhantomError"
    end;
|}.

(** ** State *)

(** The shim: receiving from the lower handle; at the barrier with the result
    and the end of its patience, released or not; gone. *)
Inductive shim_state :=
| ShimReceiving
| ShimAtBarrier (r : Result Pod) (deadline : Z) (released : bool)
| ShimGone.

(** The client inside [wait]: none, at the barrier, or receiving. *)
Inductive upper_state := UpperIdle | UpperAtBarrier | UpperReceiving.

Record handle := {
  lower_alive : bool;
  inbox : list (Result Pod);       (* [tx1]/[rx1], capacity 1 *)
  shim : shim_state;
  arrived : bool;                  (* one party waits at the barrier *)
  outbox : list (Result Pod);      (* [tx2]/[rx2], capacity 1 *)
  upper : upper_state;
  phantom : option (Result Pod);
}.

(** [PodManagerUpperHandle::new]. *)
Definition handle_new : handle := {|
  lower_alive := true; inbox := []; shim := ShimReceiving; arrived := false; outbox := [];
  upper := UpperIdle; phantom := None |}.

Definition SHIM_PATIENCE : Z := from_secs 60.

Inductive handle_event :=
| LowerSend (r : Result Pod)   (* [PodManagerLowerHandle::send] *)
| LowerDrop                    (* the event watcher ends *)
| ShimTake (now : Z)           (* [rx1.recv()] returns, the shim arrives at the barrier *)
| ShimPatience (now : Z)       (* [select!] picks [patience] *)
| ShimPass                     (* [select!] picks [barrier], the result is sent on *)
| WaitCall                     (* a client calls [wait] *)
| WaitReceive.                 (* [self.result.recv()] returns *)

(** ** Moves *)

(** [PodManagerLowerHandle::send]: fails when the shim has dropped the
    receiver; has to wait while the buffer is full. *)
Definition lower_send (r : Result Pod) (s : handle) : option (handle * bool) :=
  match shim s with
  | ShimGone => Some (s, false)
  | _ =>
      match inbox s with
      | [] => Some ({| lower_alive := lower_alive s; inbox := [r]; shim := shim s;
                       arrived := arrived s; outbox := outbox s; upper := upper s;
                       phantom := phantom s |}, true)
      | _ => None
      end
  end.

(** The shim with a result in hand arrives at the barrier: it is released at
    once, together with a client that waits there. *)
Definition shim_arrives (r : Result Pod) (rest : list (Result Pod)) (now : Z) (s : handle) : handle :=
  if arrived s then
    {| lower_alive := lower_alive s; inbox := rest;
       shim := ShimAtBarrier r (now + SHIM_PATIENCE) true;
       arrived := false; outbox := outbox s; upper := UpperReceiving; phantom := phantom s |}
  else
    {| lower_alive := lower_alive s; inbox := rest;
       shim := ShimAtBarrier r (now + SHIM_PATIENCE) false;
       arrived := true; outbox := outbox s; upper := upper s; phantom := phantom s |}.

(** A client arrives at the barrier. *)
Definition upper_arrives (s : handle) : handle :=
  if arrived s then
    {| lower_alive := lower_alive s; inbox := inbox s;
       shim := match shim s with
               | ShimAtBarrier r d _ => ShimAtBarrier r d true
               | sh => sh
               end;
       arrived := false; outbox := outbox s; upper := UpperReceiving; phantom := phantom s |}
  else
    {| lower_alive := lower_alive s; inbox := inbox s; shim := shim s; arrived := true;
       outbox := outbox s; upper := UpperAtBarrier; phantom := phantom s |}.

(** The end of [wait]: the result is remembered, an error only as a fact. *)
Definition wait_returns (r : Result Pod) (rest : list (Result Pod)) (s : handle) : handle :=
  {| lower_alive := lower_alive s; inbox := inbox s; shim := shim s; arrived := arrived s;
     outbox := rest; upper := UpperIdle;
     phantom := Some match r with
                     | Ok pod => Ok pod
                     | Err _ => Err (into_box PhantomError)
                     end |}.

Section Moves.
Context (cancel_undoes : bool).

Definition shim_leaves (released : bool) (sent : list (Result Pod)) (s : handle) : handle :=
  {| lower_alive := lower_alive s; inbox := []; shim := ShimGone;
     arrived := if released then arrived s else if cancel_undoes then false else arrived s;
     outbox := outbox s ++ sent; upper := upper s; phantom := phantom s |}.

(** One move, and what [wait] returned by it, if anything. *)
Definition handle_step (s : handle) (ev : handle_event) : option (handle * option (Result Pod)) :=
  match ev with
  | LowerSend r =>
      if lower_alive s then
        match lower_send r s with Some (s', _) => Some (s', None) | None => None end
      else None
  | LowerDrop =>
      if lower_alive s then
        Some ({| lower_alive := false; inbox := inbox s; shim := shim s; arrived := arrived s;
                 outbox := outbox s; upper := upper s; phantom := phantom s |}, None)
      else None
  | ShimTake now =>
      match shim s with
      | ShimReceiving =>
          match inbox s with
          | r :: rest => Some (shim_arrives r rest now s, None)
          | [] =>
              if lower_alive s then None
              else Some (shim_arrives (Err (into_box InboundResultChannelDropped)) [] now s, None)
          end
      | _ => None
      end
  | ShimPatience now =>
      match shim s with
      | ShimAtBarrier r deadline released =>
          if deadline <=? now then Some (shim_leaves released [] s, None) else None
      | _ => None
      end
  | ShimPass =>
      match shim s with
      | ShimAtBarrier r _ true => Some (shim_leaves true [r] s, None)
      | _ => None
      end
  | WaitCall =>
      match upper s with
      | UpperIdle =>
          match phantom s with
          | Some (Ok pod) => Some (s, Some (Ok pod))
          | Some (Err _) => Some (s, Some (Err (into_box PhantomError)))
          | None => Some (upper_arrives s, None)
          end
      | _ => None
      end
  | WaitReceive =>
      match upper s with
      | UpperReceiving =>
          match outbox s with
          | r :: rest => Some (wait_returns r rest s, Some r)
          | [] =>
              match shim s with
              | ShimGone =>
                  let r := Err (into_box InboundResultChannelDropped) in
                  Some (wait_returns r [] s, Some r)
              | _ => None
              end
          end
      | _ => None
      end
  end.

(** A sequence of moves, with everything that calls of [wait] returned. *)
Fixpoint handle_run (s : handle) (evs : list handle_event) : option (handle * list (Result Pod)) :=
  match evs with
  | [] => Some (s, [])
  | ev :: rest =>
      match handle_step s ev with
      | None => None
      | Some (s', out) =>
          match handle_run s' rest with
          | None => None
          | Some (s'', outs) => Some (s'', option_list out ++ outs)
          end
      end
  end.
End Moves.

(** The results that the event watcher posted, in order. *)
Definition posts (evs : list handle_event) : list (Result Pod) :=
  omap (fun ev => match ev with LowerSend r => Some r | _ => None end) evs.

(** The first result posted, after [f] was the first so far. *)
Definition first_post (f : option (Result Pod)) (ev : handle_event) : option (Result Pod) :=
  match f, ev with
  | Some r, _ => Some r
  | None, LowerSend r => Some r
  | None, _ => None
  end.

(** A result that may travel to the client: the first one posted, or the report
    that none ever came. *)
Definition legitimate (f : option (Result Pod)) (r : Result Pod) : Prop :=
  f = Some r \/ r = Err (into_box InboundResultChannelDropped).

(** What [wait] may return. *)
Definition answer (f : option (Result Pod)) (r : Result Pod) : Prop :=
  legitimate f r \/ r = Err (into_box PhantomError).

(** The invariant of the handle, with the first result posted. *)
Record handle_inv (f : option (Result Pod)) (s : handle) : Prop := {
  inv_inbox : shim s = ShimReceiving ->
    outbox s = [] /\ phantom s = None /\ upper s <> UpperReceiving /\
    ((inbox s = [] /\ f = None) \/ exists r, inbox s = [r] /\ f = Some r);
  inv_shim : forall r d rel, shim s = ShimAtBarrier r d rel ->
    legitimate f r /\ outbox s = [] /\ phantom s = None /\
    (rel = true /\ upper s = UpperReceiving /\ arrived s = false \/
     rel = false /\ upper s = UpperIdle /\ arrived s = true);
  inv_outbox : Forall (legitimate f) (outbox s);
  inv_phantom : phantom s = None \/ phantom s = Some (Err (into_box PhantomError)) \/
    exists p, phantom s = Some (Ok p) /\ f = Some (Ok p);
  inv_upper : upper s = UpperAtBarrier -> arrived s = true;
  inv_arrived : shim s = ShimReceiving -> arrived s = true -> upper s = UpperAtBarrier;
}.

(** Nothing is left for a client: the shim is gone, nothing is in the box, and
    no success was remembered. *)
Definition late (s : handle) : Prop :=
  shim s = ShimGone /\ outbox s = [] /\ forall p, phantom s <> Some (Ok p).

(** A timed move of the shim that falls into the time from [lo] to [hi]. *)
Definition within (lo hi : Z) (ev : handle_event) : Prop :=
  match ev with
  | ShimTake now | ShimPatience now => lo <= now < hi
  | _ => True
  end.

(** The stages of the delivery of [r], posted at [now], to a client that waits:
    the shim has yet to take it, both have met, or it is in the client's box. *)
Definition delivering (now : Z) (r : Result Pod) (s : handle) : Prop :=
  match shim s with
  | ShimReceiving => inbox s = [r] /\ arrived s = true /\ upper s = UpperAtBarrier /\ outbox s = []
  | ShimAtBarrier r' deadline released =>
      r' = r /\ now + from_secs 60 <= deadline /\ released = true /\ upper s = UpperReceiving /\ outbox s = []
  | ShimGone => upper s = UpperReceiving /\ outbox s = [r]
  end.

(** The shim of a handle that no client has got: it arrives at the barrier
    alone, and leaves it when its patience is over. *)
Definition unclaimed (evs : list handle_event) (s : handle) : Prop :=
  upper s = UpperIdle /\
  match shim s with
  | ShimReceiving => arrived s = false
  | ShimAtBarrier _ deadline released => released = false /\ ShimTake (deadline - from_secs 60) ∈ evs
  | ShimGone => exists t t', ShimTake t ∈ evs /\ ShimPatience t' ∈ evs /\ t + from_secs 60 <= t'
  end.

(** ** Lemmas *)

Lemma legitimate_first f ev r : legitimate f r -> legitimate (first_post f ev) r.
Proof. unfold legitimate. intros [->| ->]; auto. Qed.

Lemma Forall_legitimate_first f ev l :
  Forall (legitimate f) l -> Forall (legitimate (first_post f ev)) l.
Proof. intros H. eapply Forall_impl; [exact H|]. intros r. apply legitimate_first. Qed.

Lemma handle_inv_first f ev s :
  handle_inv f s -> shim s <> ShimReceiving \/ first_post f ev = f -> handle_inv (first_post f ev) s.
Proof.
  intros [Hi Hs Ho Hp Hu Ha] Hne. split; auto using Forall_legitimate_first.
  - intros E. destruct Hne as [?| ->]; [done|]. by apply Hi.
  - intros r d rel E. destruct (Hs r d rel E) as (? & ? & ? & ?). auto using legitimate_first.
  - destruct Hp as [?|[?|(p & ? & ->)]]; eauto.
Qed.

Lemma first_post_other f ev : (forall r, ev <> LowerSend r) -> first_post f ev = f.
Proof. intros Hev. destruct f, ev; try done. by destruct (Hev r). Qed.

Lemma handle_new_inv : handle_inv None handle_new.
Proof. split; simpl; try done; auto. intros _. split_and!; auto. Qed.

Section HandleLemmas.
Context (cu : bool).
Notation step := (handle_step cu).
Notation run_h := (handle_run cu).

(** The invariant is kept by each kind of move. *)
Lemma lower_send_inv f s r s' out :
  handle_inv f s -> step s (LowerSend r) = Some (s', out) ->
  handle_inv (first_post f (LowerSend r)) s' /\ out = None.
Proof.
  intros HI Hs. pose proof HI as [Hin Hsh Hout Hph Hup Har]. simpl in Hs.
  destruct (lower_alive s); [|done]. unfold lower_send in Hs.
  destruct (shim s) as [|r' d rel|] eqn:Esh.
  - destruct (inbox s) eqn:Ein; [|done]. simplify_eq. split; [|done].
    destruct (Hin eq_refl) as (Ho & Hp & Hu & Hi).
    destruct Hi as [[_ ->]|(r0 & ? & _)]; [|done].
    split; simpl; rewrite ?Ho, ?Hp; auto; try done. intros _. eauto 10.
  - destruct (inbox s) eqn:Ein; [|done]. simplify_eq. split; [|done].
    destruct (Hsh _ _ _ eq_refl) as (? & ? & ? & ?).
    apply (handle_inv_first f (LowerSend r)) in HI; [|left; congruence].
    destruct HI as [? Hsh' ? ? ? ?]. rewrite ?Esh in *.
    split; simpl; auto; try done.
  - simplify_eq. split; [|done]. apply handle_inv_first; [done|left; congruence].
Qed.

Lemma shim_arrives_inv f s r rest now :
  handle_inv f s -> shim s = ShimReceiving -> legitimate f r ->
  handle_inv f (shim_arrives r rest now s).
Proof.
  intros [Hin Hsh Hout Hph Hup Har] Esh Hr. destruct (Hin Esh) as (Ho & Hp & Hu & Hi).
  unfold shim_arrives. destruct (arrived s) eqn:Ea; split; simpl;
    rewrite ?Ho, ?Hp; auto; try done.
  - intros r' d rel [= <- <- <-]. auto 10.
  - intros r' d rel [= <- <- <-]. split_and!; auto. right. split_and!; auto.
    destruct (upper s) eqn:Eu; auto; [|done]. discriminate (Hup eq_refl).
Qed.

Lemma shim_take_inv f s now s' out :
  handle_inv f s -> step s (ShimTake now) = Some (s', out) -> handle_inv f s' /\ out = None.
Proof.
  intros HI Hs. simpl in Hs. destruct (shim s) eqn:Esh; try done.
  destruct (inv_inbox _ _ HI Esh) as (_ & _ & _ & Hi).
  destruct (inbox s) as [|r rest].
  - destruct (lower_alive s); [done|]. simplify_eq. split; [|done].
    apply shim_arrives_inv; auto. by right.
  - simplify_eq. split; [|done]. apply shim_arrives_inv; auto.
    destruct Hi as [[? _]|(r0 & ? & ->)]; simplify_eq. by left.
Qed.

Lemma shim_leaves_inv f s ev s' out :
  (exists now, ev = ShimPatience now) \/ ev = ShimPass ->
  handle_inv f s -> step s ev = Some (s', out) -> handle_inv f s' /\ out = None.
Proof.
  intros Hev [Hin Hsh Hout Hph Hup Har] Hs.
  destruct Hev as [[now ->]| ->]; simpl in Hs; destruct (shim s) as [|r d rel|] eqn:Esh; try done.
  - destruct (d <=? now); [|done]. simplify_eq. split; [|done].
    destruct (Hsh _ _ _ eq_refl) as (Hr & Ho & Hp & Hrel).
    split; simpl; rewrite ?Ho, ?Hp; auto; try done.
    destruct Hrel as [(-> & -> & _)|(-> & -> & _)]; done.
  - destruct rel; [|done]. simplify_eq. split; [|done].
    destruct (Hsh _ _ _ eq_refl) as (Hr & Ho & Hp & Hrel).
    split; simpl; rewrite ?Ho, ?Hp; auto; try done. by apply Forall_singleton.
Qed.

Lemma upper_arrives_inv f s :
  handle_inv f s -> upper s = UpperIdle -> phantom s = None -> handle_inv f (upper_arrives s).
Proof.
  intros [Hin Hsh Hout Hph Hup Har] Eu Ep. unfold upper_arrives. destruct (arrived s) eqn:Ea.
  - destruct (shim s) as [|r d rel|] eqn:Esh.
    + specialize (Har eq_refl eq_refl). congruence.
    + destruct (Hsh _ _ _ eq_refl) as (Hr & Ho & Hp & _).
      split; simpl; rewrite ?Ep; auto; try done.
      intros r' d' rel' [= <- <- <-]. auto 10.
    + split; simpl; rewrite ?Ep; auto; try done.
  - destruct (shim s) as [|r d rel|] eqn:Esh.
    + destruct (Hin eq_refl) as (Ho & Hp & _ & Hi).
      split; simpl; rewrite ?Ep, ?Esh; auto; try done.
    + destruct (Hsh _ _ _ eq_refl) as (_ & _ & _ & [(_ & ? & _)|(_ & _ & ?)]); congruence.
    + split; simpl; rewrite ?Ep, ?Esh; auto; try done.
Qed.

Lemma wait_call_inv f s s' out :
  handle_inv f s -> step s WaitCall = Some (s', out) ->
  handle_inv f s' /\ forall r, out = Some r -> answer f r.
Proof.
  intros HI Hs. simpl in Hs. destruct (upper s) eqn:Eu; try done.
  destruct (phantom s) as [[p|e]|] eqn:Ep; simplify_eq.
  - split; [done|]. intros r [= <-]. left; left.
    destruct (inv_phantom _ _ HI) as [?|[?|(p' & ? & ->)]]; naive_solver.
  - split; [done|]. intros r [= <-]. by right.
  - split; [by apply upper_arrives_inv|done].
Qed.

Lemma wait_receive_inv f s s' out :
  handle_inv f s -> step s WaitReceive = Some (s', out) ->
  handle_inv f s' /\ forall r, out = Some r -> answer f r.
Proof.
  intros [Hin Hsh Hout Hph Hup Har] Hs. simpl in Hs.
  destruct (upper s) eqn:Eu; try done. destruct (outbox s) as [|r rest] eqn:Eo.
  - destruct (shim s) eqn:Esh; try done. simplify_eq.
    split; [|intros r [= <-]; left; by right].
    split; simpl; rewrite ?Esh; auto; done.
  - simplify_eq. apply Forall_cons in Hout as [Hr Hrest].
    split; [|intros r' [= <-]; by left].
    destruct (shim s) as [|r' d rel|] eqn:Esh.
    + destruct (Hin eq_refl) as (? & _). done.
    + destruct (Hsh _ _ _ eq_refl) as (_ & ? & _). done.
    + split; simpl; rewrite ?Esh; auto; try done. destruct r as [p|e]; auto.
      destruct Hr as [->|?]; [eauto|done].
Qed.

Lemma handle_step_inv f s ev s' out :
  handle_inv f s -> step s ev = Some (s', out) ->
  handle_inv (first_post f ev) s' /\ forall r, out = Some r -> answer (first_post f ev) r.
Proof.
  intros HI Hs. destruct ev as [r| |now|now| | |];
    [destruct (lower_send_inv _ _ _ _ _ HI Hs) as [? ->]; by split|..];
    rewrite (first_post_other f) by done.
  - simpl in Hs. destruct (lower_alive s); [|done]. simplify_eq. split; [|done].
    destruct HI. by split.
  - destruct (shim_take_inv _ _ _ _ _ HI Hs) as [? ->]. by split.
  - destruct (shim_leaves_inv f s _ s' out (or_introl (ex_intro _ now eq_refl)) HI Hs) as [? ->].
    by split.
  - destruct (shim_leaves_inv f s _ s' out (or_intror eq_refl) HI Hs) as [? ->]. by split.
  - by apply (wait_call_inv f s).
  - by apply (wait_receive_inv f s).
Qed.

Lemma answer_run f evs r : answer f r -> answer (foldl first_post f evs) r.
Proof.
  revert f; induction evs as [|ev evs IH]; intros f Hr; simpl; [done|].
  apply IH. destruct Hr as [Hr| ->]; [left; by apply legitimate_first|by right].
Qed.

Lemma handle_run_inv f s evs s' outs :
  handle_inv f s -> run_h s evs = Some (s', outs) ->
  handle_inv (foldl first_post f evs) s' /\
  Forall (answer (foldl first_post f evs)) outs.
Proof.
  revert f s outs; induction evs as [|ev evs IH]; intros f s outs HI Hr; simpl in *.
  - injection Hr as <- <-. auto.
  - destruct (step s ev) as [[s1 out]|] eqn:E; [|done].
    destruct (run_h s1 evs) as [[s2 outs2]|] eqn:E2; [|done]. injection Hr as <- <-.
    destruct (handle_step_inv _ _ _ _ _ HI E) as [HI1 Hout].
    destruct (IH _ _ _ HI1 E2) as [HI2 Houts]. split; [done|].
    apply Forall_app. split; [|done]. destruct out as [r|]; [|constructor].
    apply Forall_singleton, answer_run. by apply Hout.
Qed.

Lemma handle_run_app s evs evs' s' outs :
  run_h s (evs ++ evs') = Some (s', outs) ->
  exists s1 outs1 outs2, run_h s evs = Some (s1, outs1) /\ run_h s1 evs' = Some (s', outs2) /\
    outs = outs1 ++ outs2.
Proof.
  revert s outs; induction evs as [|ev evs IH]; intros s outs Hr; simpl in *; [by exists s, [], outs|].
  destruct (step s ev) as [[s1 out]|]; [|done].
  destruct (run_h s1 (evs ++ evs')) as [[s2 outs']|] eqn:E; [|done]. injection Hr as <- <-.
  destruct (IH _ _ E) as (s3 & o1 & o2 & -> & ? & ->).
  exists s3, (option_list out ++ o1), o2. by rewrite app_assoc.
Qed.

Lemma first_post_posts evs f :
  foldl first_post f evs = match f with Some r => Some r | None => head (posts evs) end.
Proof.
  revert f; induction evs as [|ev evs IH]; intros f; simpl; [by destruct f|].
  rewrite IH. by destruct f, ev.
Qed.

Lemma late_step s ev s' out :
  late s -> step s ev = Some (s', out) -> late s' /\ forall p, out <> Some (Ok p).
Proof.
  intros (Hs & Ho & Hp) Hst. unfold late. destruct ev; simpl in Hst; unfold lower_send in Hst;
    rewrite ?Hs, ?Ho in Hst; try done.
  - destruct (lower_alive s); simplify_eq; auto.
  - destruct (lower_alive s); simplify_eq; simpl; auto.
  - destruct (upper s); try done. destruct (phantom s) as [[p|e]|] eqn:Ep; simplify_eq.
    + by destruct (Hp p).
    + rewrite Ep. auto.
    + unfold upper_arrives. destruct (arrived s); simpl; rewrite ?Hs, ?Ep; auto.
  - destruct (upper s); try done. simplify_eq. simpl. auto.
Qed.

Lemma late_run s evs s' outs :
  late s -> run_h s evs = Some (s', outs) -> Forall (fun r => is_ok r = false) outs.
Proof.
  revert s outs; induction evs as [|ev evs IH]; intros s outs Hl Hr; simpl in Hr.
  - by injection Hr as <- <-.
  - destruct (step s ev) as [[s1 out]|] eqn:E; [|done].
    destruct (run_h s1 evs) as [[s2 outs2]|] eqn:E2; [|done]. injection Hr as <- <-.
    destruct (late_step _ _ _ _ Hl E) as [Hl1 Hout]. apply Forall_app. split; [|by eapply IH].
    destruct out as [[p|e]|]; [by destruct (Hout p)|by repeat constructor|constructor].
Qed.

(** Before anybody waits, nothing is remembered and nothing is returned. *)
Lemma no_wait_run f s evs s' outs :
  handle_inv f s -> upper s = UpperIdle -> phantom s = None -> outbox s = [] ->
  WaitCall ∉ evs -> run_h s evs = Some (s', outs) ->
  outs = [] /\ upper s' = UpperIdle /\ phantom s' = None /\ outbox s' = [].
Proof.
  revert f s outs; induction evs as [|ev evs IH]; intros f s outs HI Hu Hp Ho Hw Hr; simpl in Hr.
  - by injection Hr as <- <-.
  - apply not_elem_of_cons in Hw as [Hev Hw].
    destruct (step s ev) as [[s1 out]|] eqn:E; [|done].
    destruct (run_h s1 evs) as [[s2 outs2]|] eqn:E2; [|done]. injection Hr as <- <-.
    destruct (handle_step_inv _ _ _ _ _ HI E) as [HI1 _].
    assert (out = None /\ upper s1 = UpperIdle /\ phantom s1 = None /\ outbox s1 = []) as (-> & ? & ? & ?).
    { destruct ev; simpl in E; unfold lower_send, shim_arrives in E; rewrite ?Hu in E; try done;
        repeat case_match; simplify_eq; simpl; rewrite ?Hu, ?Hp, ?Ho; try done.
      - destruct HI as [? ? ? ? ? Ha]. by rewrite (Ha ltac:(done) ltac:(done)) in Hu.
      - destruct HI as [? ? ? ? ? Ha]. by rewrite (Ha ltac:(done) ltac:(done)) in Hu.
      - destruct HI as [? Hsh ? ? ? ?]. destruct (Hsh _ _ _ ltac:(done)) as (_ & _ & _ & [(_ & ? & _)|(? & _)]);
          congruence. }
    eapply IH in E2; eauto.
Qed.

(** A delivery goes on, or is complete. *)
Lemma delivering_step now r s ev s' out :
  delivering now r s -> within now (now + from_secs 60) ev -> step s ev = Some (s', out) ->
  (out = None /\ delivering now r s') \/ out = Some r.
Proof.
  unfold delivering. destruct s as [al ib sh ar ob up ph]. simpl. destruct sh as [|r' d rel|];
    [intros (-> & -> & -> & ->)|intros (-> & Hd & -> & -> & ->)|intros [-> ->]];
    destruct ev as [r0| |t|t| | |]; intros Hw Hs; simpl in Hs, Hw; unfold lower_send, shim_arrives in Hs;
    try done; simpl in Hs; destruct al; try done; try (destruct ib; try done); try (destruct (Z.leb_spec d t); [lia|done]);
    simplify_eq; try (by right); left; simpl; split_and!; try done; unfold SHIM_PATIENCE; lia.
Qed.

Lemma delivering_run now r s evs s' outs :
  delivering now r s -> Forall (within now (now + from_secs 60)) evs -> run_h s evs = Some (s', outs) ->
  (outs = [] /\ delivering now r s') \/ head outs = Some r.
Proof.
  revert s outs; induction evs as [|ev evs IH]; intros s outs Hd Hw Hr; simpl in Hr.
  - injection Hr as <- <-. by left.
  - apply Forall_cons in Hw as [Hev Hw]. destruct (step s ev) as [[s1 out]|] eqn:E; [|done].
    destruct (run_h s1 evs) as [[s2 outs2]|] eqn:E2; [|done]. injection Hr as <- <-.
    destruct (delivering_step _ _ _ _ _ _ Hd Hev E) as [[-> Hd1]| ->]; [by eapply IH|by right].
Qed.

(** What is left of a delivery. *)
Lemma delivering_ends now r s :
  delivering now r s ->
  exists k s', run_h s (drop k [ShimTake now; ShimPass; WaitReceive]) = Some (s', [r]) /\
    upper s' = UpperIdle /\
    phantom s' = Some match r with Ok pod => Ok pod | Err _ => Err (into_box PhantomError) end.
Proof.
  unfold delivering. destruct s as [al ib sh ar ob up ph]. simpl. destruct sh as [|r' d rel|].
  - intros (-> & -> & -> & ->). exists 0%nat. eexists. split_and!; reflexivity.
  - intros (-> & _ & -> & -> & ->). exists 1%nat. eexists. split_and!; reflexivity.
  - intros [-> ->]. exists 2%nat. eexists. split_and!; reflexivity.
Qed.

Lemma unclaimed_step evs s ev s' out :
  unclaimed evs s -> ev <> WaitCall -> step s ev = Some (s', out) -> unclaimed (evs ++ [ev]) s'.
Proof.
  unfold unclaimed. destruct s as [al ib sh ar ob up ph]. simpl. destruct sh as [|r d rel|];
    [intros [-> ->]|intros [-> [-> Hd]]|intros [-> (t0 & t1 & ? & ? & ?)]];
    destruct ev as [r0| |t|t| | |]; intros Hev Hs; simpl in Hs; unfold lower_send, shim_arrives, shim_leaves in Hs;
    try done; simpl in Hs; destruct al; try done; try (destruct ib; try done); try (destruct (Z.leb_spec d t); [|done]);
    simplify_eq; simpl; (split; [done|]); try done;
    try (split; [done|]; unfold SHIM_PATIENCE; replace (t + from_secs 60 - from_secs 60) with t by lia);
    try (exists t0, t1; split_and!; [..|done]);
    try (exists (d - from_secs 60), t; split_and!; [..|lia]); try (split; [done|]); set_solver.
Qed.

Lemma unclaimed_run pre s evs s' outs :
  unclaimed pre s -> WaitCall ∉ evs -> run_h s evs = Some (s', outs) -> unclaimed (pre ++ evs) s'.
Proof.
  revert pre s outs; induction evs as [|ev evs IH]; intros pre s outs Hd Hw Hr; simpl in Hr.
  - injection Hr as <- <-. by rewrite app_nil_r.
  - apply not_elem_of_cons in Hw as [Hev Hw]. destruct (step s ev) as [[s1 out]|] eqn:E; [|done].
    destruct (run_h s1 evs) as [[s2 outs2]|] eqn:E2; [|done]. injection Hr as <- <-.
    rewrite cons_middle, app_assoc. eapply IH; [|done|done]. by eapply unclaimed_step.
Qed.
End HandleLemmas.

(** ** Theorems *)

Section HandleTheorems.
Context (cu : bool).

(** C19: whatever the order in which the event watcher, the shim and the
    clients move, a pod that [wait] returns is the one that the event watcher
    posted first, and an error that it returns is the one posted first, the
    report that the channel was dropped, or the phantom of an earlier error.  A
    result posted later never reaches a client. *)
Theorem wait_returns_first_post (evs : list handle_event) (s : handle) (outs : list (Result Pod))
  (Hrun : handle_run cu handle_new evs = Some (s, outs)) :
  Forall (fun r => head (posts evs) = Some r \/
                   r = Err (into_box InboundResultChannelDropped) \/
                   r = Err (into_box PhantomError)) outs.
Proof.
  apply (handle_run_inv cu None) in Hrun as [_ Houts]; [|exact handle_new_inv].
  rewrite first_post_posts in Houts. eapply Forall_impl; [exact Houts|].
  intros r [[?|?]|?]; auto.
Qed.

(** A client that begins to wait only after the shim has lost its patience
    (sixty seconds after the result was posted) never obtains the pod, however
    often it asks and whichever way the barrier treats the abandoned arrival. *)
Theorem late_wait_never_succeeds (evs evs' : list handle_event) (now : Z) (s : handle)
  (outs : list (Result Pod)) (Hnone : WaitCall ∉ evs)
  (Hrun : handle_run cu handle_new (evs ++ ShimPatience now :: evs') = Some (s, outs)) :
  Forall (fun r => is_ok r = false) outs.
Proof.
  apply handle_run_app in Hrun as (s1 & outs1 & outs2 & H1 & H2 & ->).
  pose proof (handle_run_inv cu None _ _ _ _ handle_new_inv H1) as [HI _].
  destruct (no_wait_run cu None _ _ _ _ handle_new_inv eq_refl eq_refl eq_refl Hnone H1)
    as (-> & Hu & Hp & Ho).
  simpl in H2. destruct (shim s1) as [|r d rel|] eqn:Esh; try done.
  destruct (d <=? now); [|done].
  destruct (handle_run cu (shim_leaves cu rel [] s1) evs') as [[s2 outs']|] eqn:E2; [|done].
  injection H2 as <- <-. simpl. eapply late_run; [|exact E2].
  split_and!; simpl; rewrite ?Ho, ?Hp; done.
Qed.

(** C32: a client that waits at the barrier when a result is posted receives
    it.  Whatever the event watcher, the shim and the clients do in the sixty
    seconds after, in whatever order, the next thing that a [wait] returns is that
    result; until then nothing is returned, and what is left of the hand-over (the
    shim takes the result, both pass the barrier, the client receives) can be done
    at once, after which the result is remembered. *)
Theorem waiting_client_is_served (evs evs' : list handle_event) (s s' : handle) (outs outs' : list (Result Pod))
  (r : Result Pod) (now : Z)
  (Hrun : handle_run cu handle_new evs = Some (s, outs))
  (Hup : upper s = UpperAtBarrier) (Hshim : shim s = ShimReceiving) (Hin : inbox s = [r])
  (Hrest : handle_run cu s evs' = Some (s', outs'))
  (Htime : Forall (within now (now + from_secs 60)) evs') :
  head outs' = Some r \/
  (outs' = [] /\
   exists k s'', handle_run cu s' (drop k [ShimTake now; ShimPass; WaitReceive]) = Some (s'', [r]) /\
     upper s'' = UpperIdle /\
     phantom s'' = Some match r with Ok pod => Ok pod | Err _ => Err (into_box PhantomError) end).
Proof.
  apply (handle_run_inv cu None) in Hrun as [HI _]; [|exact handle_new_inv].
  pose proof (inv_upper _ _ HI Hup) as Ha. destruct (inv_inbox _ _ HI Hshim) as (Ho & _ & _ & _).
  assert (Hd : delivering now r s) by (unfold delivering; by rewrite Hshim).
  destruct (delivering_run _ _ _ _ _ _ _ Hd Htime Hrest) as [[-> Hd']|Hh]; [right|by left].
  split; [done|by apply (delivering_ends cu)].
Qed.

(** As long as no client has called [wait], the shim does not end before its
    patience of sixty seconds is over: it ends at least that long after it has
    taken what the event watcher left. *)
Theorem unclaimed_shim_stays (s s' : handle) (evs : list handle_event) (outs : list (Result Pod)) :
  upper s = UpperIdle -> shim s = ShimReceiving -> arrived s = false -> WaitCall ∉ evs ->
  handle_run cu s evs = Some (s', outs) -> shim s' = ShimGone ->
  exists t t', ShimTake t ∈ evs /\ ShimPatience t' ∈ evs /\ t + from_secs 60 <= t'.
Proof.
  intros Hu Hs Ha Hw Hr Hg. apply (unclaimed_run cu []) in Hr; [|split; [done|by rewrite Hs]|done].
  destruct Hr as [_ Hr]. by rewrite Hg in Hr.
Qed.

(** Once [wait] has returned a pod, every further call returns the same
    pod at once, without meeting the shim again. *)
Theorem wait_is_idempotent (s s1 : handle) (r : Result Pod) (pod : Pod)
  (Hstep : handle_step cu s WaitReceive = Some (s1, Some r)) (Hr : r = Ok pod) (n : nat) :
  handle_run cu s1 (replicate n WaitCall) = Some (s1, replicate n (Ok pod)).
Proof.
  simpl in Hstep. destruct (upper s); try done.
  assert (Hs1 : upper s1 = UpperIdle /\ phantom s1 = Some (Ok pod)).
  { destruct (outbox s); [destruct (shim s); try done|]; simplify_eq; by split. }
  destruct Hs1 as [Hu Hp]. clear Hstep. induction n as [|n IH]; [done|].
  cbn [replicate handle_run handle_step]. by rewrite Hu, Hp, IH.
Qed.
End HandleTheorems.

(** ** Witnesses *)

(** The client waits first, then the pod comes up. *)
Definition prompt_client : list handle_event :=
  [WaitCall; LowerSend (Ok example_pod); ShimTake 0; ShimPass; WaitReceive].

Lemma wait_returns_first_post_witness :
  exists s outs, handle_run false handle_new prompt_client = Some (s, outs) /\ outs = [Ok example_pod] /\
    Forall (fun r => head (posts prompt_client) = Some r \/
                     r = Err (into_box InboundResultChannelDropped) \/
                     r = Err (into_box PhantomError)) outs.
Proof.
  eexists _, _. split; [reflexivity|]. split; [reflexivity|].
  eapply (wait_returns_first_post false prompt_client). reflexivity.
Defined.

(** The pod comes up, and the client asks a minute too late. *)
Lemma late_wait_never_succeeds_witness :
  exists s outs, handle_run false handle_new
      ([LowerSend (Ok example_pod); ShimTake 0] ++ ShimPatience SHIM_PATIENCE ::
       [WaitCall; WaitReceive; WaitCall]) = Some (s, outs) /\
    length outs = 2%nat /\ Forall (fun r => is_ok r = false) outs.
Proof.
  eexists _, _. split; [reflexivity|]. split; [reflexivity|].
  eapply (late_wait_never_succeeds false [LowerSend (Ok example_pod); ShimTake 0]
    [WaitCall; WaitReceive; WaitCall] SHIM_PATIENCE);
    [by rewrite !not_elem_of_cons; split_and!; [| |apply not_elem_of_nil]|reflexivity].
Defined.

(** The shim has taken the result; half a minute later it is still there. *)
Lemma waiting_client_is_served_witness :
  exists s s' s'' k, handle_run false handle_new [WaitCall; LowerSend (Ok example_pod)] = Some (s, []) /\
    handle_run false s [ShimTake 5; LowerDrop] = Some (s', []) /\
    handle_run false s' (drop k [ShimTake 5; ShimPass; WaitReceive]) = Some (s'', [Ok example_pod]).
Proof.
  eexists. eexists.
  edestruct (waiting_client_is_served false [WaitCall; LowerSend (Ok example_pod)] [ShimTake 5; LowerDrop])
    as [Hh|(_ & k & s'' & Hs & _)];
    [..|exists s'', k; split; [reflexivity|split; [reflexivity|exact Hs]]].
  - reflexivity.
  - reflexivity.
  - reflexivity.
  - reflexivity.
  - reflexivity.
  - repeat constructor; vm_compute; congruence.
  - discriminate Hh.
Defined.

Lemma wait_is_idempotent_witness :
  exists s, handle_run false handle_new prompt_client = Some (s, [Ok example_pod]) /\
    handle_run false s (replicate 2 WaitCall) = Some (s, [Ok example_pod; Ok example_pod]).
Proof.
  eexists. split; [reflexivity|].
  apply (wait_is_idempotent false
    {| lower_alive := true; inbox := []; shim := ShimGone; arrived := false;
       outbox := [Ok example_pod]; upper := UpperReceiving; phantom := None |} _ (Ok example_pod) example_pod);
    reflexivity.
Defined.
