(* ===== verification/EventWatcher.v ===== *)
(** * The event watcher

    [service/acm/src/podmanager/event_watcher.rs]: the daemon that follows a pod
    from its creation (phase 1), through its health check (phase 2), to its
    deletion (phase 3), and tells the garbage collector and the waiting client
    what it sees.

    The daemon is a state machine.  A step is one thing that its loop awaits:
    an item of the watch stream (or its panic, which takes the daemon with it), or
    (in phase 2) the outcome of the health check;
    with it comes the environment in which the item is handled: the time, whether
    the receivers of its two channels are alive, whether a client for the API
    server can be made.  What the step does to the world is a list of actions.

    An iteration sends at most one result and at most one status, so that the
    environment says for each send whether its receiver is there.  The awaits of
    one iteration are one step.  In [PodManager.v] this loses no behaviour: what
    the garbage collector does between two awaits of an iteration depends on its
    own channel only and could as well have been done before the iteration, and
    what the shim does after the result was sent, as well after it. *)

From S2P Require Import Prelude RustStr Errors Names Pod Kube Watcher Backoff ServerCheck GarbageCollector.

(** ** Formatting of durations: [Debug] of [std::time::Duration] *)

Fixpoint strip_zeros (l : list ascii) : list ascii :=
  match l with
  | [] => []
  | a :: l' =>
      match strip_zeros l' with
      | [] => if Ascii.eqb a "0" then [] else [a]
      | r => a :: r
      end
  end.

(** The digits of a fraction with [w] decimal places. *)
Definition fraction (w f : Z) : string :=
  let digits := fmt_int (10 ^ w + f) in
  String.string_of_list_ascii (strip_zeros (drop 1 (String.list_ascii_of_string digits))).

Definition decimal (d unit_ w : Z) (suffix : string) : string :=
  fmt_int (d / unit_) +:+
  (if d `mod` unit_ =? 0 then "" else "." +:+ fraction w (d `mod` unit_)) +:+ suffix.

Definition debug_duration (d : Z) : string :=
  if 10 ^ 9 <=? d then decimal d (10 ^ 9) 9 "s"
  else if 10 ^ 6 <=? d then decimal d (10 ^ 6) 6 "ms"
  else if 10 ^ 3 <=? d then decimal d (10 ^ 3) 3 "µs"
  else fmt_int d +:+ "ns".

Example debug_duration_examples :
  debug_duration (from_secs 900) = "900s" /\ debug_duration 1500000000 = "1.5s" /\
  debug_duration 2000000001 = "2.000000001s" /\ debug_duration 120000 = "120µs".
Proof. vm_compute. auto. Qed.

(** ** Errors *)

Inductive WatcherError :=
| SendChannelClose
| PodCrashed
| PodTerminatedBeforeStart (message reason : string)
| GarbageCollectorUnresponsive (pod : string)
| KubernetesUnresponsive (elapsed : string)
| UnexpectedCloseOfEventStream
| PodDeleted
| PodRebooted
| HealthCheckDroppedItsChannel.

#[export] Instance WatcherError_Error : Error WatcherError := {|
  display e := match e with
    | SendChannelClose => ""
    | PodCrashed =>
        "The connector has crashed. Please review its logs for additional debugging information and report any finding to the connector's development team for further analysis."
    | PodTerminatedBeforeStart message reason =>
        "The pod for this job was terminated before it ever entered the running state (perhaps it crashed immediately). The (optional) reason given by Kubernetes was '"
        +:+ reason +:+ "' and the (optional) message given was '" +:+ message +:+ "'."
    | GarbageCollectorUnresponsive pod =>
        "The garbage collector for the requested pod (" +:+ pod +:+
        ") exited earlier than expected. For the sake of safety, the pod for this job has been deleted. Please try this operation again, but please also report this as a bug to the Alation OCF development and infrastructure team."
    | KubernetesUnresponsive elapsed =>
        "The Kubernetes API server has failed to reconnect for this job's event stream for over "
        +:+ elapsed +:+
        ". The cluster appears to be too unhealthy to reasonably continue at this time."
    | UnexpectedCloseOfEventStream =>
        "The Kubernetes API server has prematurely, and permanently, close the event stream for this job's pod. The job may work if simply re-ran, however this may be indicative of an unhealthy cluster."
    | PodDeleted =>
        "The pod for this job was deleted. If this not expected, then perhaps Alation timed out and the pod was garbage collected. Or perhaps another component has deleted the pod for some reason."
    | PodRebooted =>
        "The pod for this job appears to have been rebooted. This may occur if the pod crashed and was restarted automatically. However, OCF has no tolerance for "
        +:+ dq +:+ "crashy' connectors, and as such it has been deleted. Please gather logs for this connector and report the issue to the connector's development team."
    | HealthCheckDroppedItsChannel =>
        "This job's server health check daemon shutdown prematurely, and without ever sending a status signal. This job may succeed if re-attempted, however this bug should be reported to the Alation OCF development and infrastructure team."
    end;
  source _ := None;
|}.

#[export] Instance WatcherError_HttpCode : HttpCode WatcherError := fun e =>
  match e with
  | PodCrashed | PodTerminatedBeforeStart _ _ | PodDeleted | PodRebooted => Status.ServiceUnavailable
  | _ => Status.InternalServerError
  end.

#[export] Instance WatcherError_Kind : Kind WatcherError := fun e =>
  match e with
  | SendChannelClose => "SendChannelClose"
  | PodCrashed => "PodCrashed"
  | PodTerminatedBeforeStart _ _ => "PodTerminatedBeforeStart"
  | GarbageCollectorUnresponsive _ => "GarbageCollectorUnresponsive"
  | KubernetesUnresponsive _ => "KubernetesUnresponsive"
  | UnexpectedCloseOfEventStream => "UnexpectedCloseOfEventStream"
  | PodDeleted => "PodDeleted"
  | PodRebooted => "PodRebooted"
  | HealthCheckDroppedItsChannel => "HealthCheckDroppedItsChannel"
  end.

#[export] Instance WatcherError_AcmError : AcmError WatcherError := {}.

(** ** The machine *)

(** What the loop awaits: [client.try_next()], which panics when the API server
    leaves out a version, and [outcome] ([None] when the health check dropped its
    sender). *)
Inductive ew_input :=
| FromK8s (next : result (option (Event Pod)) watch_error)
| StreamPanicked
| FromCheck (status : option (Result unit)).

Record ew_env := {
  ew_now : Z;
  gc_open : bool;
  result_open : bool;
  ew_connect : result unit kube_error;
}.

Inductive ew_state (B : Type) :=
| Phase1 (backoff : B) (pod : Pod)
| Phase2 (backoff : B) (pod : Pod)
| Phase3 (backoff : B) (pod : Pod)
| EwReturned
| EwPanicked.
Arguments Phase1 {B} backoff pod.
Arguments Phase2 {B} backoff pod.
Arguments Phase3 {B} backoff pod.
Arguments EwReturned {B}.
Arguments EwPanicked {B}.

Inductive ew_action :=
| Sleep (duration : Z)
| SpawnCheck (uri : string)
| KillCheck
| JoinCheck
| LogTermination (message reason : string)
| SendGc (s : GcStatus) (delivered : bool)
| SendResult (r : Result Pod) (delivered : bool)
| DeletePod (pod : string).

Section Daemon.
Context {B : Type} `{Backoff B}.
Context (parse_endpoint : string -> result string string).
Context (pod_id : string).

Notation outcome := (ew_state B * list ew_action)%type.

(** [kill_gc], [send_result]: the send fails when the receiver is gone. *)
Definition kill_gc (env : ew_env) : list ew_action := [SendGc StatusTerminated (gc_open env)].
Definition send_result (env : ew_env) (r : Result Pod) : list ew_action :=
  [SendResult r (result_open env)].

(** [kill_pod; return]: making the client may panic; the answer to the deletion
    is ignored. *)
Definition kill_pod (env : ew_env) (before : list ew_action) : outcome :=
  match ew_connect env with
  | Ok _ => (EwReturned, before ++ [DeletePod pod_id])
  | Err _ => (EwPanicked, before)
  end.

(** [terminate(err); return]. *)
Definition terminate (env : ew_env) (before : list ew_action) (e : dyn_AcmError) : outcome :=
  kill_pod env (before ++ send_result env (Err e) ++ kill_gc env).

(** An error of the stream: pause and go on, or give up. *)
Definition on_failure (env : ew_env) (b : B) (again : B -> ew_state B) (before : list ew_action) : outcome :=
  match next_backoff (ew_now env) b with
  | (Some d, b') => (again b', [Sleep d])
  | (None, b') =>
      terminate env before
        (into_box (KubernetesUnresponsive (debug_duration (get_elapsed_time (ew_now env) b'))))
  end.

(** Start of phase 2. *)
Definition enter_phase2 (env : ew_env) (b : B) (pod : Pod) (before : list ew_action) : outcome :=
  match server_check_new parse_endpoint pod with
  | Ok uri => (Phase2 b pod, before ++ [SpawnCheck uri])
  | Err e => terminate env before e
  end.

(** Phase 1 on an [Applied] event.  The message and the reason that are logged
    are those of [pod], the variable that is set when the pod runs. *)
Definition phase1_applied (env : ew_env) (b : B) (pod p : Pod) : outcome :=
  if running p then
    let pod := p in
    if gc_open env then enter_phase2 env b pod [SendGc (StatusRunning pod) true]
    else terminate env [SendGc (StatusRunning pod) false]
           (into_box (GarbageCollectorUnresponsive pod_id))
  else if terminated p || crashed p then
    let message := unwrap_or (terminated_message pod) "<None Given>" in
    let reason := unwrap_or (terminated_reason pod) "<None Given>" in
    terminate env [LogTermination message reason] (into_box PodCrashed)
  else if was_err_image_pull p then
    match err_image_pull p with
    | Done (Err e) => terminate env [] e
    | Done (Ok _) => (EwPanicked, [])
    | Panic _ => (EwPanicked, [])
    end
  else (Phase1 b pod, []).

Definition phase1 (env : ew_env) (b : B) (pod : Pod)
  (next : result (option (Event Pod)) watch_error) : outcome :=
  match next with
  | Err _ => on_failure env b (fun b => Phase1 b pod) []
  | Ok event =>
      let b := backoff_reset (ew_now env) b in
      match event with
      | None => terminate env [] (into_box UnexpectedCloseOfEventStream)
      | Some (Added _) => (Phase1 b pod, [])
      | Some (Deleted _) => terminate env [] (into_box PodDeleted)
      | Some (Restarted _) => (Phase1 b pod, [])
      | Some (Applied p) => phase1_applied env b pod p
      end
  end.

Definition phase2_k8s (env : ew_env) (b : B) (pod : Pod)
  (next : result (option (Event Pod)) watch_error) : outcome :=
  match next with
  | Err _ => on_failure env b (fun b => Phase2 b pod) [KillCheck]
  | Ok (Some (Deleted _)) => terminate env [KillCheck] (into_box PodDeleted)
  | Ok (Some (Restarted _)) => terminate env [KillCheck] (into_box PodRebooted)
  | Ok None => terminate env [KillCheck] (into_box UnexpectedCloseOfEventStream)
  | Ok (Some _) => (Phase2 (backoff_reset (ew_now env) b) pod, [])
  end.

Definition phase2_check (env : ew_env) (b : B) (pod : Pod) (status : option (Result unit)) : outcome :=
  match status with
  | None => terminate env [JoinCheck] (into_box HealthCheckDroppedItsChannel)
  | Some (Err e) => terminate env [JoinCheck] e
  | Some (Ok _) =>
      let acts := [JoinCheck] ++ send_result env (Ok pod) in
      if result_open env then (Phase3 b pod, acts)
      else kill_pod env (acts ++ kill_gc env)
  end.

Definition phase3 (env : ew_env) (b : B) (pod : Pod)
  (next : result (option (Event Pod)) watch_error) : outcome :=
  match next with
  | Err _ => on_failure env b (fun b => Phase3 b pod) []
  | Ok event =>
      let b := backoff_reset (ew_now env) b in
      match event with
      | None => terminate env [] (into_box UnexpectedCloseOfEventStream)
      | Some (Deleted _) => (EwReturned, kill_gc env)
      | Some (Restarted _) => terminate env [] (into_box PodRebooted)
      | Some _ => (Phase3 b pod, [])
      end
  end.

(** One iteration; [None] when the state does not await the input. *)
Definition ew_step (st : ew_state B) (env : ew_env) (input : ew_input) : option outcome :=
  match st, input with
  | Phase1 b pod, FromK8s next => Some (phase1 env b pod next)
  | Phase2 b pod, FromK8s next => Some (phase2_k8s env b pod next)
  | Phase2 b pod, FromCheck status => Some (phase2_check env b pod status)
  | Phase3 b pod, FromK8s next => Some (phase3 env b pod next)
  | (Phase1 _ _ | Phase2 _ _ | Phase3 _ _), StreamPanicked => Some (EwPanicked, [])
  | _, _ => None
  end.

(** The beginning of [watch]. *)
Definition ew_start (now : Z) (connected : result unit kube_error) : ew_state B :=
  match connected with
  | Ok _ => Phase1 (backoff_default now) Pod_default
  | Err _ => EwPanicked
  end.

(** [new_watcher] spawns [watch]. *)
Definition new_watcher (now : Z) (connected : result unit kube_error) : ew_state B := ew_start now connected.

Fixpoint ew_run (st : ew_state B) (ins : list (ew_env * ew_input)) : option outcome :=
  match ins with
  | [] => Some (st, [])
  | (env, input) :: rest =>
      match ew_step st env input with
      | None => None
      | Some (st', acts) =>
          match ew_run st' rest with
          | None => None
          | Some (st'', acts') => Some (st'', acts ++ acts')
          end
      end
  end.
End Daemon.

(** [try_next] on the stream of the watcher. *)
Definition try_next (a : api Pod) (st : State Pod)
  : awaited (result (option (Event Pod)) watch_error * State Pod * api Pod) :=
  match watcher_next pod_version a st with
  | Ready (Some (Ok e, st', a')) => Ready (Ok (Some e), st', a')
  | Ready (Some (Err e, st', a')) => Ready (Err e, st', a')
  | Ready None => Ready (Ok None, st, a)
  | Pending => Pending
  | Panicked => Panicked
  | OutOfFuel => OutOfFuel
  end.

(** ** The protocol of the daemon

    What the rest of the system can observe: messages to the garbage collector,
    results for the client, and requests to delete the pod. *)

Inductive signal :=
| SigGc (s : GcStatus) (delivered : bool)
| SigResult (r : Result Pod) (delivered : bool)
| SigDelete (pod : string).

Definition signal_of (a : ew_action) : option signal :=
  match a with
  | SendGc s d => Some (SigGc s d)
  | SendResult r d => Some (SigResult r d)
  | DeletePod p => Some (SigDelete p)
  | _ => None
  end.
Definition signals (acts : list ew_action) : list signal := omap signal_of acts.

Definition saw_applied (p : Pod) (ins : list ew_input) : Prop :=
  FromK8s (Ok (Some (Applied p))) ∈ ins.
Definition saw_deleted (ins : list ew_input) : Prop :=
  exists p, FromK8s (Ok (Some (Deleted p))) ∈ ins.

(** The pod was reported running, and later the health check succeeded. *)
Definition saw_healthy (p : Pod) (ins : list ew_input) : Prop :=
  exists l1 l2, ins = l1 ++ l2 /\ saw_applied p l1 /\ FromCheck (Some (Ok tt)) ∈ l2.

(** What may precede the final messages. *)
Inductive lawful_prefix (ins : list ew_input) : list signal -> Prop :=
| pre_nothing : lawful_prefix ins []
| pre_running p d :
    running p = true -> saw_applied p ins -> lawful_prefix ins [SigGc (StatusRunning p) d]
| pre_ready p :
    running p = true -> saw_healthy p ins ->
    lawful_prefix ins [SigGc (StatusRunning p) true; SigResult (Ok p) true].

(** What precedes the deletion of the pod: an error for the client, or the pod
    itself that no client could be given. *)
Inductive lawful_end (ins : list ew_input) : list signal -> Prop :=
| end_error pre e d d' :
    lawful_prefix ins pre ->
    lawful_end ins (pre ++ [SigResult (Err e) d; SigGc StatusTerminated d'])
| end_undeliverable p d :
    running p = true -> saw_healthy p ins ->
    lawful_end ins [SigGc (StatusRunning p) true; SigResult (Ok p) false; SigGc StatusTerminated d].

(** The states of the daemon, the inputs it has consumed, and the signals it
    has sent.  It panics with the stream, at a malformed pod, or when it cannot
    make the client, at the start or for the final deletion. *)
Inductive lawful {B} (pod_id : string) (ins : list ew_input) : ew_state B -> list signal -> Prop :=
| lawful_phase1 b : lawful pod_id ins (Phase1 b Pod_default) []
| lawful_phase2 b p :
    running p = true -> saw_applied p ins ->
    lawful pod_id ins (Phase2 b p) [SigGc (StatusRunning p) true]
| lawful_phase3 b p :
    running p = true -> saw_healthy p ins ->
    lawful pod_id ins (Phase3 b p) [SigGc (StatusRunning p) true; SigResult (Ok p) true]
| lawful_terminated sigs :
    lawful_end ins sigs -> lawful pod_id ins EwReturned (sigs ++ [SigDelete pod_id])
| lawful_deleted p d :
    running p = true -> saw_healthy p ins -> saw_deleted ins ->
    lawful pod_id ins EwReturned
      [SigGc (StatusRunning p) true; SigResult (Ok p) true; SigGc StatusTerminated d]
| lawful_panicked sigs : lawful_prefix ins sigs -> lawful pod_id ins EwPanicked sigs
| lawful_no_client sigs : lawful_end ins sigs -> lawful pod_id ins EwPanicked sigs.

(** ** Lemmas *)

Lemma signals_app a1 a2 : signals (a1 ++ a2) = signals a1 ++ signals a2.
Proof. apply omap_app. Qed.

Lemma saw_applied_app p l1 l2 : saw_applied p l1 -> saw_applied p (l1 ++ l2).
Proof. unfold saw_applied. set_solver. Qed.
Lemma saw_deleted_app l1 l2 : saw_deleted l1 -> saw_deleted (l1 ++ l2).
Proof. intros [p ?]. exists p. set_solver. Qed.
Lemma saw_healthy_app p l1 l2 : saw_healthy p l1 -> saw_healthy p (l1 ++ l2).
Proof.
  intros (a & b & -> & ? & ?). exists a, (b ++ l2). rewrite app_assoc. set_solver.
Qed.
Lemma saw_healthy_snoc p l : saw_applied p l -> saw_healthy p (l ++ [FromCheck (Some (Ok tt))]).
Proof. intros. eexists l, _. split_and!; [done|done|set_solver]. Qed.
Create HintDb ew.
#[export] Hint Resolve saw_applied_app saw_deleted_app saw_healthy_app saw_healthy_snoc : ew.
#[export] Hint Constructors lawful lawful_prefix lawful_end : ew.

Lemma lawful_prefix_app l1 l2 sigs : lawful_prefix l1 sigs -> lawful_prefix (l1 ++ l2) sigs.
Proof. destruct 1; eauto with ew. Qed.

#[export] Hint Resolve lawful_prefix_app : ew.

Section Protocol.
Context {B : Type} `{Backoff B}.
Context (parse_endpoint : string -> result string string).
Context (pod_id : string).
Notation step := (ew_step parse_endpoint pod_id).
Notation run_ew := (ew_run parse_endpoint pod_id).

(** Ending with [terminate] is lawful after a lawful prefix. *)
Lemma terminate_lawful ins pre env before e (st : ew_state B) acts :
  lawful_prefix ins (pre ++ signals before) ->
  terminate pod_id env before e = (st, acts) -> lawful pod_id ins st (pre ++ signals acts).
Proof.
  unfold terminate, kill_pod, send_result, kill_gc. intros Hp.
  pose proof (end_error ins _ e (result_open env) (gc_open env) Hp) as He.
  destruct (ew_connect env); intros [= <- <-]; rewrite ?signals_app, ?app_assoc; by constructor.
Qed.

Lemma on_failure_lawful ins pre env b again before (st : ew_state B) acts :
  (forall b', lawful pod_id ins (again b') pre) ->
  lawful_prefix ins (pre ++ signals before) ->
  on_failure pod_id env b again before = (st, acts) -> lawful pod_id ins st (pre ++ signals acts).
Proof.
  unfold on_failure. intros Hag Hp. destruct (next_backoff _ b) as [[d|] b'].
  - intros [= <- <-]. simpl. rewrite app_nil_r. apply Hag.
  - by apply terminate_lawful.
Qed.

Lemma phase1_applied_lawful ins env b p (st : ew_state B) acts :
  phase1_applied parse_endpoint pod_id env b Pod_default p = (st, acts) ->
  lawful pod_id (ins ++ [FromK8s (Ok (Some (Applied p)))]) st (signals acts).
Proof.
  set (ins' := ins ++ _). assert (Hsaw : saw_applied p ins') by (unfold saw_applied, ins'; set_solver).
  unfold phase1_applied. destruct (running p) eqn:Er.
  - destruct (gc_open env).
    + unfold enter_phase2. destruct (server_check_new parse_endpoint p).
      * intros [= <- <-]. simpl. eauto with ew.
      * apply (terminate_lawful ins' []); simpl; eauto with ew.
    + apply (terminate_lawful ins' []); simpl; eauto with ew.
  - destruct (terminated p || crashed p); [apply (terminate_lawful ins' []); simpl; eauto with ew|].
    destruct (was_err_image_pull p).
    + destruct (err_image_pull p) as [[u|e]|]; try (intros [= <- <-]; simpl; eauto with ew).
      apply (terminate_lawful ins' []); simpl; eauto with ew.
    + intros [= <- <-]. constructor.
Qed.

Lemma phase1_lawful ins env b next (st : ew_state B) acts :
  phase1 parse_endpoint pod_id env b Pod_default next = (st, acts) ->
  lawful pod_id (ins ++ [FromK8s next]) st (signals acts).
Proof.
  unfold phase1. destruct next as [[[p|p|p|ps]|]|e];
    try (apply (terminate_lawful _ []); simpl; by eauto with ew); try (intros [= <- <-]; simpl; eauto with ew).
  - apply phase1_applied_lawful.
  - apply (on_failure_lawful _ []); simpl; eauto with ew.
Qed.

Lemma phase2_lawful ins env b p input (st : ew_state B) acts sigs :
  lawful pod_id ins (Phase2 b p) sigs -> step (Phase2 b p) env input = Some (st, acts) ->
  lawful pod_id (ins ++ [input]) st (sigs ++ signals acts).
Proof.
  inversion 1 as [|?? Hr Hs| | | | |]; subst. intros Hst.
  destruct input as [next| |status]; simpl in Hst; [injection Hst as Hst| |injection Hst as Hst].
  - unfold phase2_k8s in Hst. destruct next as [[[q|q|q|qs]|]|e];
      try (refine (terminate_lawful _ _ _ _ _ _ _ _ Hst); cbn; by eauto with ew);
      try (injection Hst as <- <-; simpl; eauto with ew).
    refine (on_failure_lawful _ _ _ _ _ _ _ _ _ _ Hst); simpl; eauto with ew.
  - injection Hst as <- <-. simpl. eauto with ew.
  - unfold phase2_check in Hst. destruct status as [[[]|e]|];
      try (refine (terminate_lawful _ _ _ _ _ _ _ _ Hst); cbn; by eauto with ew).
    unfold send_result, kill_pod, kill_gc in Hst. destruct (result_open env).
    + injection Hst as <- <-. simpl. eauto with ew.
    + assert (He : lawful_end (ins ++ [FromCheck (Some (Ok ()))])
        [SigGc (StatusRunning p) true; SigResult (Ok p) false; SigGc StatusTerminated (gc_open env)])
        by eauto with ew.
      destruct (ew_connect env); injection Hst as <- <-; [exact (lawful_terminated _ _ _ He)|by apply lawful_no_client].
Qed.

Lemma phase3_lawful ins env b p input (st : ew_state B) acts sigs :
  lawful pod_id ins (Phase3 b p) sigs -> step (Phase3 b p) env input = Some (st, acts) ->
  lawful pod_id (ins ++ [input]) st (sigs ++ signals acts).
Proof.
  inversion 1 as [| |?? Hr Hs| | | |]; subst. intros Hst.
  destruct input as [next| |status]; simpl in Hst; [|injection Hst as <- <-; simpl; eauto with ew|done].
  injection Hst as Hst. unfold phase3 in Hst. destruct next as [[[q|q|q|qs]|]|e];
    try (refine (terminate_lawful _ _ _ _ _ _ _ _ Hst); cbn; by eauto with ew);
    try (injection Hst as <- <-; simpl; eauto with ew).
  - constructor; eauto with ew. exists q. set_solver.
  - refine (on_failure_lawful _ _ _ _ _ _ _ _ _ _ Hst); simpl; eauto with ew.
Qed.

Lemma step_lawful ins st env input (st' : ew_state B) acts sigs :
  lawful pod_id ins st sigs -> step st env input = Some (st', acts) ->
  lawful pod_id (ins ++ [input]) st' (sigs ++ signals acts).
Proof.
  intros Hl Hs. destruct st as [b p|b p|b p| |]; [| | |done|done].
  - inversion Hl; subst. destruct input as [next| |]; [| |done].
    + injection Hs as Hs. by eapply phase1_lawful.
    + injection Hs as <- <-. simpl. eauto with ew.
  - by eapply phase2_lawful.
  - by eapply phase3_lawful.
Qed.

Lemma run_lawful ins0 sigs st ins (st' : ew_state B) acts :
  lawful pod_id ins0 st sigs -> run_ew st ins = Some (st', acts) ->
  lawful pod_id (ins0 ++ map snd ins) st' (sigs ++ signals acts).
Proof.
  revert ins0 sigs st acts; induction ins as [|[env i] ins IH]; intros ins0 sigs st acts Hl Hr; simpl in Hr.
  - injection Hr as <- <-. simpl. by rewrite !app_nil_r.
  - destruct (step st env i) as [[st1 a1]|] eqn:E; [|done].
    destruct (run_ew st1 ins) as [[st2 a2]|] eqn:E2; [|done]. injection Hr as <- <-.
    apply (step_lawful ins0 _ _ _ _ _ sigs) in E; [|done].
    specialize (IH _ _ _ _ E E2). rewrite <- !app_assoc in IH. by rewrite signals_app.
Qed.
End Protocol.

(** ** Reading the protocol *)

Definition is_terminated_signal (s : signal) : bool :=
  match s with SigGc StatusTerminated _ => true | _ => false end.
Definition is_gc_signal (s : signal) : bool :=
  match s with SigGc _ _ => true | _ => false end.
Definition is_result_signal (s : signal) : bool :=
  match s with SigResult _ _ => true | _ => false end.
Definition count_signals (f : signal -> bool) (l : list signal) : nat := length (List.filter f l).

Lemma count_signals_app f l1 l2 :
  count_signals f (l1 ++ l2) = (count_signals f l1 + count_signals f l2)%nat.
Proof. unfold count_signals. by rewrite List.filter_app, length_app. Qed.

Ltac case_lawful :=
  match goal with H : lawful _ _ _ _ |- _ =>
    destruct H as [| | |? [? ? ? ? [| |]|]| |? [| |]|? [? ? ? ? [| |]|]]
  end.

Lemma lawful_ready {B} pod_id ins (st : ew_state B) sigs p d :
  lawful pod_id ins st sigs -> SigResult (Ok p) d ∈ sigs -> running p = true /\ saw_healthy p ins.
Proof. intros Hl Hin. case_lawful; set_solver. Qed.

Lemma lawful_counts {B} pod_id ins (st : ew_state B) sigs :
  lawful pod_id ins st sigs ->
  (count_signals is_gc_signal sigs <= 2)%nat /\ (count_signals is_result_signal sigs <= 2)%nat.
Proof. intros Hl. case_lawful; vm_compute; lia. Qed.

Lemma lawful_cleanup {B} pod_id ins sigs :
  lawful (B := B) pod_id ins EwReturned sigs ->
  count_signals is_terminated_signal sigs = 1%nat /\
  (1 <= count_signals is_result_signal sigs)%nat /\
  (last sigs = Some (SigDelete pod_id) \/ saw_deleted ins).
Proof.
  inversion 1 as [| | |? [? ? ? ? [| |]|]| | |]; subst; split_and!; try reflexivity; eauto;
    vm_compute; lia.
Qed.

(** ** Theorems *)

Section WatchTheorems.
Context {B : Type} `{Backoff B}.
Context (parse_endpoint : string -> result string string).
Context (pod_id : string).

Lemma start_lawful now connected : lawful pod_id [] (ew_start (B := B) now connected) [].
Proof. destruct connected; simpl; eauto with ew. Qed.

Lemma watch_lawful now connected ins (st : ew_state B) acts :
  ew_run parse_endpoint pod_id (ew_start now connected) ins = Some (st, acts) ->
  lawful pod_id (map snd ins) st (signals acts).
Proof. intros Hr. exact (run_lawful parse_endpoint pod_id [] [] _ _ _ _ (start_lawful now connected) Hr). Qed.

(** C15: the daemon keeps to its protocol in every run: first [Running] to the
    garbage collector, for a pod that was reported running; then the pod to the
    client, after its health check; and at the end one result, [Terminated] and
    the deletion of the pod, or [Terminated] alone when the pod is gone. *)
Theorem watch_protocol (now : Z) (connected : result unit kube_error)
  (ins : list (ew_env * ew_input)) (st : ew_state B) (acts : list ew_action)
  (Hrun : ew_run parse_endpoint pod_id (ew_start now connected) ins = Some (st, acts)) :
  lawful pod_id (map snd ins) st (signals acts).
Proof. by eapply watch_lawful. Qed.

(** A client is only ever told that a pod is ready when Kubernetes has
    reported that very pod as running and, afterwards, the health check has
    succeeded. *)
Theorem ready_means_healthy (now : Z) (connected : result unit kube_error)
  (ins : list (ew_env * ew_input)) (st : ew_state B) (acts : list ew_action) (p : Pod) (d : bool)
  (Hrun : ew_run parse_endpoint pod_id (ew_start now connected) ins = Some (st, acts))
  (Hready : SigResult (Ok p) d ∈ signals acts) :
  running p = true /\ saw_healthy p (map snd ins).
Proof. eapply lawful_ready; [by eapply watch_lawful|done]. Qed.

(** C24: a daemon that returns has told the garbage collector exactly once to
    stop, has tried to give the client a result, and has asked for the deletion
    of the pod unless it saw the pod deleted. *)
Theorem watch_cleans_up (now : Z) (connected : result unit kube_error)
  (ins : list (ew_env * ew_input)) (acts : list ew_action)
  (Hrun : ew_run parse_endpoint pod_id (ew_start (B := B) now connected) ins = Some (EwReturned, acts)) :
  count_signals is_terminated_signal (signals acts) = 1%nat /\
  (1 <= count_signals is_result_signal (signals acts))%nat /\
  (last (signals acts) = Some (SigDelete pod_id) \/ saw_deleted (map snd ins)).
Proof. apply (lawful_cleanup (B := B)). by eapply watch_lawful. Qed.

(** Only phase 1 logs a termination. *)
Lemma terminate_log env before e (st : ew_state B) acts message reason :
  terminate pod_id env before e = (st, acts) -> LogTermination message reason ∈ acts ->
  LogTermination message reason ∈ before.
Proof.
  unfold terminate, kill_pod, send_result, kill_gc.
  destruct (ew_connect env); intros [= <- <-]; set_solver.
Qed.

Lemma on_failure_log env b again before (st : ew_state B) acts message reason :
  on_failure pod_id env b again before = (st, acts) -> LogTermination message reason ∈ acts ->
  LogTermination message reason ∈ before.
Proof.
  unfold on_failure. destruct (next_backoff _ b) as [[d|] b']; [|apply terminate_log].
  intros [= <- <-]. set_solver.
Qed.

Ltac logs_in H Hin :=
  first [ eapply terminate_log in H; [|exact Hin]; set_solver
        | eapply on_failure_log in H; [|exact Hin]; set_solver
        | injection H as <- <-; set_solver ].

Lemma phase1_applied_log env b p (st : ew_state B) acts message reason :
  phase1_applied parse_endpoint pod_id env b Pod_default p = (st, acts) ->
  LogTermination message reason ∈ acts -> message = "<None Given>" /\ reason = "<None Given>".
Proof.
  unfold phase1_applied, enter_phase2. intros Hs Hin.
  destruct (running p).
  - destruct (gc_open env); [destruct (server_check_new _ _)|]; logs_in Hs Hin.
  - destruct (terminated p || crashed p); [logs_in Hs Hin|].
    destruct (was_err_image_pull p); [|logs_in Hs Hin].
    destruct (err_image_pull p) as [[|]|]; logs_in Hs Hin.
Qed.

Lemma blank_step st env input (st' : ew_state B) acts message reason :
  (forall b p, st = Phase1 b p -> p = Pod_default) ->
  ew_step parse_endpoint pod_id st env input = Some (st', acts) ->
  LogTermination message reason ∈ acts -> message = "<None Given>" /\ reason = "<None Given>".
Proof.
  intros Hb Hs Hin. destruct st as [b p|b p|b p| |], input as [next| |status]; try done;
    try (by injection Hs as <- <-; set_solver); injection Hs as Hs.
  - rewrite (Hb b p eq_refl) in Hs. unfold phase1 in Hs.
    destruct next as [[[q|q|q|qs]|]|e]; try logs_in Hs Hin. by eapply phase1_applied_log.
  - unfold phase2_k8s in Hs. destruct next as [[[q|q|q|qs]|]|e]; logs_in Hs Hin.
  - unfold phase2_check, kill_pod, send_result, kill_gc in Hs. destruct status as [[[]|e]|]; try logs_in Hs Hin.
    destruct (result_open env), (ew_connect env); logs_in Hs Hin.
  - unfold phase3, kill_gc in Hs. destruct next as [[[q|q|q|qs]|]|e]; logs_in Hs Hin.
Qed.

Lemma lawful_blank ins (st : ew_state B) sigs :
  lawful pod_id ins st sigs -> forall b p, st = Phase1 b p -> p = Pod_default.
Proof. by destruct 1; intros ?? [=]. Qed.

Lemma blank_run ins0 sigs st ins (st' : ew_state B) acts message reason :
  lawful pod_id ins0 st sigs -> ew_run parse_endpoint pod_id st ins = Some (st', acts) ->
  LogTermination message reason ∈ acts -> message = "<None Given>" /\ reason = "<None Given>".
Proof.
  revert ins0 sigs st acts; induction ins as [|[env i] ins IH]; intros ins0 sigs st acts Hl Hr Hin; simpl in Hr.
  - injection Hr as <- <-. set_solver.
  - destruct (ew_step _ _ st env i) as [[st1 a1]|] eqn:E; [|done].
    destruct (ew_run _ _ st1 ins) as [[st2 a2]|] eqn:E2; [|done]. injection Hr as <- <-.
    apply elem_of_app in Hin as [Hin|Hin].
    + eapply blank_step; [by eapply lawful_blank|done|done].
    + eapply IH; [by eapply step_lawful|done|done].
Qed.

(** One failure of the stream: the daemon pauses and stays, or gives up. *)
Definition awaiting (b : B) (st : ew_state B) : Prop :=
  exists p, st = Phase1 b p \/ st = Phase2 b p \/ st = Phase3 b p.

Lemma failure_step b (st : ew_state B) env e :
  awaiting b st -> ew_connect env = Ok tt ->
  match next_backoff (ew_now env) b with
  | (Some d, b') => exists st', ew_step parse_endpoint pod_id st env (FromK8s (Err e)) = Some (st', [Sleep d]) /\
      awaiting b' st'
  | (None, b') => exists acts, ew_step parse_endpoint pod_id st env (FromK8s (Err e)) = Some (EwReturned, acts) /\
      signals acts =
        [SigResult (Err (into_box (KubernetesUnresponsive
            (debug_duration (get_elapsed_time (ew_now env) b'))))) (result_open env);
         SigGc StatusTerminated (gc_open env); SigDelete pod_id]
  end.
Proof.
  intros [p Hst] Hc. destruct Hst as [-> | [-> | ->]]; simpl; unfold phase1, phase2_k8s, phase3, on_failure;
    (destruct (next_backoff (ew_now env) b) as [[d|] b'];
     [eexists; split; [done|]; exists p; auto|]);
    unfold terminate, kill_pod; rewrite Hc; eexists; split; reflexivity.
Qed.

(** C31: an outage of the API server ends the daemon, in whatever phase it is:
    when the stream has done nothing but fail since its last event (the last reset
    of the backoff), and the latest failure comes later after that event than the
    limit of the backoff, fifteen minutes, then the daemon has returned by then; the
    client was sent [KubernetesUnresponsive], the garbage collector was told to
    stop, and the deletion of the pod was requested. *)
Theorem watch_outage `{!BackoffLaws B} (b : B) (st : ew_state B) (ins : list (ew_env * ew_input))
  (env : ew_env) (input : ew_input)
  (Hst : awaiting b st)
  (Hfail : Forall (fun i => ew_connect i.1 = Ok tt /\ exists e, i.2 = FromK8s (Err e)) ins)
  (Hlast : last ins = Some (env, input)) (Hlate : limit b < ew_now env - started b) :
  exists n acts elapsed d d',
    (n <= length ins)%nat /\ ew_run parse_endpoint pod_id st (take n ins) = Some (EwReturned, acts) /\
    signals acts = [SigResult (Err (into_box (KubernetesUnresponsive elapsed))) d;
                    SigGc StatusTerminated d'; SigDelete pod_id].
Proof.
  revert b st Hst Hlast Hlate. induction Hfail as [|[env1 i1] rest [Hc [e He]] _ IH]; [done|].
  intros b st Hst Hlast Hlate. simpl in Hc, He. subst i1.
  pose proof (failure_step b st env1 e Hst Hc) as Hs. pose proof (law_next_keeps (ew_now env1) b) as [Hk1 Hk2].
  pose proof (law_gives_up (ew_now env1) b) as Hg.
  destruct (next_backoff (ew_now env1) b) as [[dur|] b']; simpl in Hk1, Hk2, Hg.
  - destruct Hs as (st' & Hs & Hst'). destruct rest as [|i2 rest].
    { injection Hlast as -> _. by specialize (Hg Hlate). }
    destruct (IH b' st' Hst') as (n & acts & el & d & d' & Hn & Hrun & Hsig); [done|lia|].
    exists (S n), (Sleep dur :: acts), el, d, d'. split_and!; [simpl in *; lia| |done].
    cbn [take ew_run]. by rewrite Hs, Hrun.
  - destruct Hs as (acts & Hs & Hsig). exists 1%nat, acts. do 3 eexists. split_and!; [simpl; lia| |exact Hsig].
    cbn [take ew_run]. rewrite Hs. simpl. by rewrite app_nil_r.
Qed.

(** The limit is counted from the last event and not from the first failure: after
    fifteen minutes without an event, as a healthy pod has them, the first failure
    of the stream ends the daemon, and the pod is deleted. *)
Theorem one_failure_after_silence `{!BackoffLaws B} (b0 : B) (p : Pod) (quiet_since : Z) (env : ew_env)
  (e : watch_error)
  (Hlimit : limit b0 = DEFAULT_MAX_ELAPSED_TIME)
  (Hquiet : quiet_since + from_secs 900 < ew_now env) (Hconn : ew_connect env = Ok tt) :
  exists acts elapsed d d',
    ew_step parse_endpoint pod_id (Phase3 (backoff_reset quiet_since b0) p) env (FromK8s (Err e)) =
      Some (EwReturned, acts) /\
    signals acts = [SigResult (Err (into_box (KubernetesUnresponsive elapsed))) d;
                    SigGc StatusTerminated d'; SigDelete pod_id].
Proof.
  pose proof (failure_step (backoff_reset quiet_since b0) (Phase3 (backoff_reset quiet_since b0) p) env e
    (ex_intro _ p (or_intror (or_intror eq_refl))) Hconn) as Hs.
  pose proof (law_gives_up (ew_now env) (backoff_reset quiet_since b0)) as Hg.
  rewrite law_reset_limit, law_reset_started, Hlimit in Hg. unfold DEFAULT_MAX_ELAPSED_TIME in Hg.
  destruct (next_backoff _ _) as [[dur|] b']; [by discriminate (Hg ltac:(lia))|].
  destruct Hs as (acts & Hs & Hsig). eauto 10.
Qed.

(** C39: a re-list of the watcher is taken for a reboot.  When the API server
    ends the watch of a healthy pod because its version is too old, the watcher
    yields an error and then [Restarted]; the daemon, serving a client in phase
    3, then ends with [PodRebooted] and requests the deletion of the pod. *)
Theorem relist_kills_healthy_pod (a : api Pod) (l : object_list Pod)
  (ls : list (result (object_list Pod) kube_error)) (err : ErrorResponse)
  (rest : list (result (WatchEvent Pod) kube_error)) (o : bool) (v v' : string)
  (b b' : B) (p : Pod) (env1 env2 : ew_env) (d : Z)
  (Herr : er_code err = 410) (Hls : lists a = Ok l :: ls) (Hv : list_version l = Some v')
  (Hb : next_backoff (ew_now env1) b = (Some d, b')) (Hc : ew_connect env2 = Ok tt) :
  exists evs st' a',
    pulls pod_version 2 a (Watching v {| items := Ok (WError err) :: rest; stays_open := o |}) =
      Ready (evs, st', a') /\
    ew_run parse_endpoint pod_id (Phase3 b p)
      (zip [env1; env2] (map (fun ev => FromK8s (match ev with Ok e => Ok (Some e) | Err e => Err e end)) evs)) =
    Some (EwReturned,
      [Sleep d; SendResult (Err (into_box PodRebooted)) (result_open env2);
       SendGc StatusTerminated (gc_open env2); DeletePod pod_id]).
Proof.
  do 3 eexists. split; [by apply relist|].
  cbn. unfold phase3, on_failure. rewrite Hb. cbn. unfold terminate, kill_pod. by rewrite Hc.
Qed.

(** A pod that really crashes after it was handed to the client goes
    unnoticed: in phase 3 no update of the pod, whatever its containers report,
    has any effect beyond the reset of the backoff. *)
Theorem phase3_ignores_crashes (b : B) (p : Pod) (updates : list (ew_env * Pod)) :
  exists b', ew_run parse_endpoint pod_id (Phase3 b p)
    (map (fun u => (u.1, FromK8s (Ok (Some (Applied u.2))))) updates) = Some (Phase3 b' p, []).
Proof.
  revert b; induction updates as [|[env q] us IH]; intros b; [by exists b|].
  destruct (IH (backoff_reset (ew_now env) b)) as [b' Hb']. exists b'. simpl in *. by rewrite Hb'.
Qed.

(** What the daemon logs about a pod that terminates before it runs is
    never what Kubernetes said: both the message and the reason are always the
    placeholder, because they are looked up in the pod variable that is only set
    when a pod runs. *)
Theorem termination_log_blank (now : Z) (connected : result unit kube_error)
  (ins : list (ew_env * ew_input)) (st : ew_state B) (acts : list ew_action) (message reason : string)
  (Hrun : ew_run parse_endpoint pod_id (ew_start now connected) ins = Some (st, acts))
  (Hlog : LogTermination message reason ∈ acts) :
  message = "<None Given>" /\ reason = "<None Given>".
Proof.
  by eapply blank_run; [apply (start_lawful now connected)|exact Hrun|].
Qed.

(** The stream of the watcher never ends, so the daemon never reports
    [UnexpectedCloseOfEventStream] when it reads from it. *)
Theorem stream_never_closes (a a' : api Pod) (st st' : State Pod) :
  try_next a st <> Ready (Ok None, st', a').
Proof.
  unfold try_next. pose proof (watcher_never_ends pod_version a st) as Hn.
  by destruct (watcher_next pod_version a st) as [[[[[e|e] s] a0]|]| | |].
Qed.
End WatchTheorems.

(** ** Witnesses *)

Definition calm (now : Z) : ew_env :=
  {| ew_now := now; gc_open := true; result_open := true; ew_connect := Ok tt |}.

(** A pod that is queued, starts, passes its health check, and is deleted. *)
Definition example_life : list (ew_env * ew_input) :=
  [ (calm 1, FromK8s (Ok (Some (Restarted []))));
    (calm 2, FromK8s (Ok (Some (Added Pod_default))));
    (calm 3, FromK8s (Ok (Some (Applied Pod_default))));
    (calm 4, FromK8s (Ok (Some (Applied example_pod))));
    (calm 5, FromCheck (Some (Ok tt)));
    (calm 6, FromK8s (Ok (Some (Deleted example_pod)))) ].

Definition example_watch := ew_run (B := simple_backoff) Ok "oracle-0a1b" (ew_start 0 (Ok tt)).

Definition example_acts : list ew_action :=
  [SendGc (StatusRunning example_pod) true; SpawnCheck "http://10-0-0-7.ocf.pod:8080"; JoinCheck;
   SendResult (Ok example_pod) true; SendGc StatusTerminated true].

Example example_life_runs : example_watch example_life = Some (EwReturned, example_acts).
Proof. vm_compute. reflexivity. Qed.

Lemma watch_protocol_witness :
  lawful (B := simple_backoff) "oracle-0a1b" (map snd example_life) EwReturned (signals example_acts).
Proof. apply (watch_protocol Ok "oracle-0a1b" 0 (Ok tt)). vm_compute. reflexivity. Defined.

Lemma ready_means_healthy_witness :
  running example_pod = true /\ saw_healthy example_pod (map snd example_life).
Proof.
  apply (ready_means_healthy (B := simple_backoff) Ok "oracle-0a1b" 0 (Ok tt) example_life EwReturned
    example_acts example_pod true).
  - vm_compute. reflexivity.
  - apply list_elem_of_In. vm_compute. auto.
Defined.

Lemma watch_cleans_up_witness :
  count_signals is_terminated_signal (signals example_acts) = 1%nat /\
  (1 <= count_signals is_result_signal (signals example_acts))%nat /\
  (last (signals example_acts) = Some (SigDelete "oracle-0a1b") \/ saw_deleted (map snd example_life)).
Proof.
  apply (watch_cleans_up (B := simple_backoff) Ok "oracle-0a1b" 0 (Ok tt) example_life).
  vm_compute. reflexivity.
Defined.

(** The API server is down for twenty minutes. *)
Definition failure (now : Z) : ew_env * ew_input :=
  (calm now, FromK8s (Err (WatchFailed (KConnection "connection refused")))).

Lemma watch_outage_witness :
  exists n acts elapsed d d',
    (n <= 3)%nat /\
    ew_run (B := simple_backoff) Ok "oracle-0a1b" (Phase1 (backoff_default 0) Pod_default)
      (take n [failure 0; failure (from_secs 600); failure (from_secs 1200)]) = Some (EwReturned, acts) /\
    signals acts = [SigResult (Err (into_box (KubernetesUnresponsive elapsed))) d;
                    SigGc StatusTerminated d'; SigDelete "oracle-0a1b"].
Proof.
  apply (watch_outage Ok "oracle-0a1b" (backoff_default 0) (Phase1 (backoff_default 0) Pod_default)
    [failure 0; failure (from_secs 600); failure (from_secs 1200)]
    (calm (from_secs 1200)) (FromK8s (Err (WatchFailed (KConnection "connection refused"))))).
  - exists Pod_default. left. reflexivity.
  - repeat (apply List.Forall_cons; [split; [reflexivity|eexists; reflexivity]|]). apply List.Forall_nil.
  - reflexivity.
  - vm_compute. reflexivity.
Defined.

Lemma relist_kills_healthy_pod_witness :
  exists evs st' a',
    pulls pod_version 2 example_api
      (Watching "5" {| items := [Ok (WError gone_response)]; stays_open := true |}) = Ready (evs, st', a') /\
    ew_run (B := simple_backoff) Ok "oracle-0a1b" (Phase3 (backoff_default 0) example_pod)
      (zip [calm 1; calm 2] (map (fun ev => FromK8s (match ev with Ok e => Ok (Some e) | Err e => Err e end)) evs)) =
    Some (EwReturned,
      [Sleep 500000000; SendResult (Err (into_box PodRebooted)) true;
       SendGc StatusTerminated true; DeletePod "oracle-0a1b"]).
Proof.
  eapply (relist_kills_healthy_pod (B := simple_backoff) Ok "oracle-0a1b" example_api
    {| list_items := [example_pod]; list_version := Some "12" |} [] gone_response [] true "5" "12"
    (backoff_default 0) _ example_pod (calm 1) (calm 2) 500000000); vm_compute; reflexivity.
Defined.

(** A pod whose container ends at once, with a message. *)
Definition dead_pod : Pod := {|
  metadata := ObjectMeta_default; spec := None;
  status := Some {| pod_ip := None; container_statuses := Some [{| cs_state := Some {|
    state_running := None; state_waiting := None;
    state_terminated := Some {| terminated_state_reason := Some "OOMKilled";
                                terminated_state_message := Some "out of memory" |} |} |}] |} |}.

Lemma termination_log_blank_witness :
  terminated_reason dead_pod = Some "OOMKilled" /\
  ("<None Given>" : string) = "<None Given>" /\ ("<None Given>" : string) = "<None Given>".
Proof.
  split; [reflexivity|].
  eapply (termination_log_blank (B := simple_backoff) Ok "oracle-0a1b" 0 (Ok tt)
    [(calm 1, FromK8s (Ok (Some (Applied dead_pod))))]).
  - vm_compute. reflexivity.
  - apply list_elem_of_In. simpl. auto.
Defined.
