(* ===== verification/PodManager.v ===== *)
(** * The pod manager

    [service/acm/src/podmanager/mod.rs]: a pod manager is the event watcher, the
    garbage collector and the shim of the handle, spawned together by
    [new_podmanager] and connected by channels, with a task that removes the
    manager from the cache when all three have ended.

    [pm_state] is the state of the three coroutines of one manager and of what
    lies in their channels.  An event is one iteration of one of them, or one
    move of a client; the coroutines interleave freely.  The messages that one
    iteration of the event watcher sends are sent together: by
    [watcher_waits_only_for_shim] it never waits for the garbage collector, and
    for the shim only when the shim itself can move. *)

From S2P Require Import Prelude RustStr Errors Names Pod Kube Watcher Backoff ServerCheck GarbageCollector ExternalHandle EventWatcher.

(** ** One manager *)

Record pm_state (B D : Type) := {
  pm_watcher : ew_state B;
  pm_channel : list GcStatus;     (* [ew_to_gc_send]/[ew_to_gc_recv] *)
  pm_collector : gc_state D;
  pm_handle : handle;
}.
Arguments pm_watcher {B D} _.
Arguments pm_channel {B D} _.
Arguments pm_collector {B D} _.
Arguments pm_handle {B D} _.

Definition CHANNEL_CAPACITY : nat := 100.

Definition ew_ended {B} (w : ew_state B) : bool :=
  match w with EwReturned | EwPanicked => true | _ => false end.
Definition gc_alive {D} (g : gc_state D) : bool :=
  match g with AwaitingRunning | Countdown _ => true | _ => false end.
Definition shim_gone (h : handle) : bool :=
  match shim h with ShimGone => true | _ => false end.

Inductive pm_event (D : Type) :=
| PmWatcher (now : Z) (connect : result unit kube_error) (input : ew_input)
| PmPull (env : gc_env D)                             (* [status.recv()] returns *)
| PmTimeout (env : gc_env D)
| PmRefresh (env : gc_env D) (request : option bool)
| PmShim (ev : handle_event)
| PmClient (ev : handle_event).
Arguments PmWatcher {D} now connect input.
Arguments PmPull {D} env.
Arguments PmTimeout {D} env.
Arguments PmRefresh {D} env request.
Arguments PmShim {D} ev.
Arguments PmClient {D} ev.

Inductive pm_effect (D : Type) :=
| WatcherDid (a : ew_action)
| CollectorDid (a : gc_action D)
| WaitReturned (r : Result Pod).
Arguments WatcherDid {D} a.
Arguments CollectorDid {D} a.
Arguments WaitReturned {D} r.

(** The messages of an iteration that reach the garbage collector's channel. *)
Definition sent_to_gc (sigs : list signal) : list GcStatus :=
  omap (fun s => match s with SigGc st true => Some st | _ => None end) sigs.
(** The results that it hands to the lower handle. *)
Definition results_of (sigs : list signal) : list (Result Pod) :=
  omap (fun s => match s with SigResult r _ => Some r | _ => None end) sigs.

(** What the iteration does to the handle; the lower handle is dropped with the
    coroutine that owns it. *)
Definition handle_moves {B} (w : ew_state B) (acts : list ew_action) : list handle_event :=
  map LowerSend (results_of (signals acts)) ++ if ew_ended w then [LowerDrop] else [].

Definition is_shim_move (ev : handle_event) : bool :=
  match ev with ShimTake _ | ShimPatience _ | ShimPass => true | _ => false end.
Definition is_client_move (ev : handle_event) : bool :=
  match ev with WaitCall | WaitReceive => true | _ => false end.

Section Manager.
Context {B D : Type} `{Backoff B} `{Chrono D}.
Context (parse_endpoint : string -> result string string).
Context (latest : Z) (cancel_undoes : bool).
Context (pod_id : string) (ttl : Z).

(** [new_podmanager]: the three coroutines at their beginning. *)
Definition pm_new (now : Z) (connected : result unit kube_error) : pm_state B D :=
  let w := new_watcher now connected in
  {| pm_watcher := w; pm_channel := []; pm_collector := gc_new;
     pm_handle := if ew_ended w
       then {| lower_alive := false; inbox := []; shim := ShimReceiving; arrived := false;
               outbox := []; upper := UpperIdle; phantom := None |}
       else handle_new |}.

(** The environment of the event watcher inside the manager: a channel is open
    while the coroutine that holds its receiver is there. *)
Definition watcher_env (s : pm_state B D) (now : Z) (connect : result unit kube_error) : ew_env :=
  {| ew_now := now; gc_open := gc_alive (pm_collector s);
     result_open := negb (shim_gone (pm_handle s)); ew_connect := connect |}.

Definition watcher_moves (s : pm_state B D) (now : Z) (connect : result unit kube_error)
  (input : ew_input) : option (pm_state B D * list (pm_effect D)) :=
  match ew_step parse_endpoint pod_id (pm_watcher s) (watcher_env s now connect) input with
  | None => None
  | Some (w, acts) =>
      let channel := pm_channel s ++ sent_to_gc (signals acts) in
      match handle_run cancel_undoes (pm_handle s) (handle_moves w acts) with
      | Some (h, _) =>
          if bool_decide (length channel <= CHANNEL_CAPACITY)%nat then
            Some ({| pm_watcher := w; pm_channel := channel; pm_collector := pm_collector s;
                     pm_handle := h |}, map WatcherDid acts)
          else None
      | None => None
      end
  end.

Definition collector_moves (s : pm_state B D) (channel : list GcStatus) (env : gc_env D) (ev : GcEvent)
  : option (pm_state B D * list (pm_effect D)) :=
  match gc_step latest pod_id ttl (pm_collector s) env ev with
  | None => None
  | Some (g, acts) =>
      Some ({| pm_watcher := pm_watcher s; pm_channel := channel; pm_collector := g;
               pm_handle := pm_handle s |}, map CollectorDid acts)
  end.

Definition handle_moves_on (s : pm_state B D) (ev : handle_event)
  : option (pm_state B D * list (pm_effect D)) :=
  match handle_step cancel_undoes (pm_handle s) ev with
  | None => None
  | Some (h, out) =>
      Some ({| pm_watcher := pm_watcher s; pm_channel := pm_channel s;
               pm_collector := pm_collector s; pm_handle := h |},
            map WaitReturned (option_list out))
  end.

Definition pm_step (s : pm_state B D) (ev : pm_event D) : option (pm_state B D * list (pm_effect D)) :=
  match ev with
  | PmWatcher now connect input => watcher_moves s now connect input
  | PmPull env =>
      match pm_channel s with
      | st :: rest => collector_moves s rest env (PodEvent (Some st))
      | [] => if ew_ended (pm_watcher s) then collector_moves s [] env (PodEvent None) else None
      end
  | PmTimeout env => collector_moves s (pm_channel s) env ExecutionDateReached
  | PmRefresh env request => collector_moves s (pm_channel s) env (RefreshRequest request)
  | PmShim ev => if is_shim_move ev then handle_moves_on s ev else None
  | PmClient ev => if is_client_move ev then handle_moves_on s ev else None
  end.

Fixpoint pm_run (s : pm_state B D) (evs : list (pm_event D)) : option (pm_state B D * list (pm_effect D)) :=
  match evs with
  | [] => Some (s, [])
  | ev :: rest =>
      match pm_step s ev with
      | None => None
      | Some (s', effs) =>
          match pm_run s' rest with
          | None => None
          | Some (s'', effs') => Some (s'', effs ++ effs')
          end
      end
  end.
End Manager.

(** [join!(watcher_handle, gc_handle, shim)] returns. *)
Definition pm_joined {B D} (s : pm_state B D) : bool :=
  ew_ended (pm_watcher s) && negb (gc_alive (pm_collector s)) && shim_gone (pm_handle s).

(** What the event watcher was given, and what it did. *)
Definition inputs_of {D} (evs : list (pm_event D)) : list ew_input :=
  omap (fun ev => match ev with PmWatcher _ _ i => Some i | _ => None end) evs.
Definition watcher_did {D} (effs : list (pm_effect D)) : list ew_action :=
  omap (fun e => match e with WatcherDid a => Some a | _ => None end) effs.

(** Requests to delete the pod. *)
Definition deletes_pod {D} (e : pm_effect D) : bool :=
  match e with
  | WatcherDid (DeletePod _) | CollectorDid (GcDelete _) => true
  | _ => false
  end.

(** The moves that the manager makes by itself. *)
Definition internal {D} (ev : pm_event D) : bool :=
  match ev with PmPull _ | PmShim _ => true | _ => false end.

(** How many of them are left. *)
Definition pm_measure {B D} (s : pm_state B D) : nat :=
  (if gc_alive (pm_collector s) then S (length (pm_channel s)) else 0) +
  match shim (pm_handle s) with ShimReceiving => 2 | ShimAtBarrier _ _ _ => 1 | ShimGone => 0 end.

(** ** The invariant

    [sigs] is what the event watcher has signalled so far, and [ins] what it has
    been given. *)

(** What the garbage collector has taken from its channel. *)
Inductive taken {D} : list GcStatus -> gc_state D -> Prop :=
| taken_nothing : taken [] AwaitingRunning
| taken_running p t : taken [StatusRunning p] (Countdown t)
| taken_dead l g : gc_alive g = false -> taken l g.

Definition all_delivered (sigs : list signal) : Prop :=
  forall st d, SigGc st d ∈ sigs -> d = true.

(** While the event watcher lives, its first result is in the inbox until the
    shim takes it. *)
Definition inbox_ok (f : option (Result Pod)) (h : handle) : Prop :=
  (shim h = ShimReceiving /\ inbox h = option_list f) \/
  (shim h <> ShimReceiving /\ inbox h = [] /\ is_Some f).

Record pm_inv {B D} (pod_id : string) (ins : list ew_input) (sigs : list signal) (s : pm_state B D)
  : Prop := {
  pm_lawful : lawful pod_id ins (pm_watcher s) sigs;
  pm_handle_inv : handle_inv (head (results_of sigs)) (pm_handle s);
  pm_lower : lower_alive (pm_handle s) = negb (ew_ended (pm_watcher s));
  pm_inbox : ew_ended (pm_watcher s) = false -> inbox_ok (head (results_of sigs)) (pm_handle s);
  pm_taken : exists l, sent_to_gc sigs = l ++ pm_channel s /\ taken l (pm_collector s);
  pm_delivered : gc_alive (pm_collector s) = true -> all_delivered sigs;
}.

(** ** Lemmas *)

Lemma sent_to_gc_app l1 l2 : sent_to_gc (l1 ++ l2) = sent_to_gc l1 ++ sent_to_gc l2.
Proof. apply omap_app. Qed.
Lemma results_of_app l1 l2 : results_of (l1 ++ l2) = results_of l1 ++ results_of l2.
Proof. apply omap_app. Qed.

Lemma head_app_results (l1 l2 : list (Result Pod)) :
  head (l1 ++ l2) = match head l1 with Some r => Some r | None => head l2 end.
Proof. by destruct l1. Qed.

Lemma foldl_first_post f rs tail :
  (tail = [] \/ tail = [LowerDrop]) ->
  foldl first_post f (map LowerSend rs ++ tail) = match f with Some r => Some r | None => head rs end.
Proof.
  intros Ht. rewrite first_post_posts. destruct f; [done|]. destruct rs; [|done].
  by destruct Ht as [->| ->].
Qed.

(** What a lawful watcher may have sent. *)
Lemma lawful_sent {B} pod_id ins (st : ew_state B) sigs :
  lawful pod_id ins st sigs ->
  (exists p, sent_to_gc sigs = [] \/ sent_to_gc sigs = [StatusRunning p] \/
     sent_to_gc sigs = [StatusTerminated] \/ sent_to_gc sigs = [StatusRunning p; StatusTerminated]).
Proof.
  intros Hl. case_lawful; repeat match goal with d : bool |- _ => destruct d end;
    first [exists Pod_default; cbn; by auto 6 | eexists; cbn; by eauto 6].
Qed.

Lemma lawful_results {B} pod_id ins (st : ew_state B) sigs :
  lawful pod_id ins st sigs -> ew_ended st = false -> (length (results_of sigs) <= 1)%nat.
Proof. destruct 1; simpl; try done; lia. Qed.

(** A daemon that returned and whose signals were all delivered has told the
    garbage collector to stop. *)
Lemma returned_sent {B} pod_id ins sigs :
  lawful (B := B) pod_id ins EwReturned sigs -> all_delivered sigs -> StatusTerminated ∈ sent_to_gc sigs.
Proof.
  intros Hl Hd.
  assert (Hin : exists d, SigGc StatusTerminated d ∈ sigs).
  { inversion Hl as [| | |? [? ? ? ? ?|]| | |]; subst;
      match goal with |- context [SigGc StatusTerminated ?d] => exists d end; set_solver. }
  destruct Hin as [d Hin]. pose proof (Hd _ _ Hin); subst. apply list_elem_of_omap. eauto.
Qed.

(** The delivery flags of an iteration are those of its environment. *)
Lemma terminate_flags {B} pod_id env before e (w : ew_state B) acts st d :
  terminate pod_id env before e = (w, acts) -> SigGc st d ∈ signals acts ->
  SigGc st d ∈ signals before \/ d = gc_open env.
Proof.
  unfold terminate, kill_pod, send_result, kill_gc.
  destruct (ew_connect env); intros [= <- <-]; rewrite !signals_app; set_solver.
Qed.

Lemma on_failure_flags {B} `{Backoff B} pod_id env b again before (w : ew_state B) acts st d :
  on_failure pod_id env b again before = (w, acts) -> SigGc st d ∈ signals acts ->
  SigGc st d ∈ signals before \/ d = gc_open env.
Proof.
  unfold on_failure. destruct (next_backoff _ b) as [[?|] b']; [|apply terminate_flags].
  intros [= <- <-]. set_solver.
Qed.

Ltac flags_in H Hin :=
  first [ eapply terminate_flags in H; [|exact Hin]; set_solver
        | eapply on_failure_flags in H; [|exact Hin]; set_solver
        | injection H as <- <-; set_solver ].

Lemma step_flags {B} `{Backoff B} parse pod_id w env input (w' : ew_state B) acts st d :
  ew_step parse pod_id w env input = Some (w', acts) -> SigGc st d ∈ signals acts -> d = gc_open env.
Proof.
  intros Hs Hin. destruct w as [b p|b p|b p| |], input as [next| |status]; try done;
    try (by injection Hs as <- <-; simpl in *; first [lia|set_solver]); injection Hs as Hs.
  - unfold phase1, phase1_applied, enter_phase2 in Hs. destruct next as [[[q|q|q|qs]|]|e]; try flags_in Hs Hin.
    destruct (running q).
    { destruct (gc_open env) eqn:Eg; [destruct (server_check_new _ _)|];
        rewrite <- ?Eg in Hs |- *; rewrite ?Eg in *; flags_in Hs Hin. }
    destruct (terminated q || crashed q); [flags_in Hs Hin|].
    destruct (was_err_image_pull q); [|flags_in Hs Hin].
    destruct (err_image_pull q) as [[|]|]; flags_in Hs Hin.
  - unfold phase2_k8s in Hs. destruct next as [[[q|q|q|qs]|]|e]; flags_in Hs Hin.
  - unfold phase2_check, kill_pod, send_result, kill_gc in Hs. destruct status as [[[]|e]|]; try flags_in Hs Hin.
    destruct (result_open env), (ew_connect env); flags_in Hs Hin.
  - unfold phase3, kill_gc in Hs. destruct next as [[[q|q|q|qs]|]|e]; flags_in Hs Hin.
Qed.

Section ManagerLemmas.
Context {B D : Type} `{Backoff B} `{Chrono D}.
Context (parse_endpoint : string -> result string string).
Context (latest : Z) (cu : bool).
Context (pod_id : string) (ttl : Z).
Notation step := (pm_step (B := B) parse_endpoint latest cu pod_id ttl).
Notation run_pm := (pm_run (B := B) parse_endpoint latest cu pod_id ttl).

Lemma pm_new_inv now connected : pm_inv pod_id [] [] (pm_new (B := B) (D := D) now connected).
Proof.
  assert (Hd : all_delivered []) by (intros ? ? ?; set_solver).
  assert (Ht : exists l, [] = l ++ [] /\ taken (D := D) l AwaitingRunning) by (exists []; split; [done|constructor]).
  assert (Hi : inbox_ok None handle_new) by (left; done).
  pose proof handle_new_inv as Hh.
  unfold pm_new, gc_new, new_watcher. destruct connected as [u|e]; split; simpl; eauto with ew.
  by destruct Hh.
Qed.

(** Results posted while the event watcher lives. *)
Lemma post_inbox f h r h' out :
  handle_step cu h (LowerSend r) = Some (h', out) -> inbox_ok f h -> f = None ->
  inbox_ok (Some r) h'.
Proof.
  intros Hs Hin ->. destruct Hin as [[Hsh Hi]|(_ & _ & [? ?])]; [|done].
  simpl in Hs. destruct (lower_alive h); [|done]. unfold lower_send in Hs. rewrite Hsh, Hi in Hs.
  injection Hs as <- _. left. simpl. auto.
Qed.

(** Sends do not change whether the lower handle is alive. *)
Lemma posts_lower rs h h' outs :
  handle_run cu h (map LowerSend rs) = Some (h', outs) -> lower_alive h' = lower_alive h.
Proof.
  revert h outs; induction rs as [|r rs IH]; intros h outs Hr; cbn [map handle_run] in Hr.
  - by injection Hr as <- _.
  - destruct (handle_step cu h (LowerSend r)) as [[h1 o1]|] eqn:E; [|done].
    destruct (handle_run cu h1 (map LowerSend rs)) as [[h2 o2]|] eqn:E2; [|done].
    injection Hr as <- _. rewrite (IH _ _ E2). simpl in E. destruct (lower_alive h) eqn:El; [|done].
    unfold lower_send in E. by destruct (shim h), (inbox h); simplify_eq.
Qed.

Lemma moves_lower (w : ew_state B) acts h h' outs :
  handle_run cu h (handle_moves w acts) = Some (h', outs) ->
  lower_alive h = true -> lower_alive h' = negb (ew_ended w).
Proof.
  unfold handle_moves. intros (h1 & o1 & o2 & Hp & Hd & _)%handle_run_app Hl.
  pose proof (posts_lower _ _ _ _ Hp) as Hl1. rewrite Hl in Hl1.
  destruct (ew_ended w); simpl in Hd; [rewrite Hl1 in Hd|]; injection Hd as <- _; by rewrite ?Hl1.
Qed.

Lemma moves_inbox f (w : ew_state B) acts h h' outs :
  handle_run cu h (handle_moves w acts) = Some (h', outs) -> ew_ended w = false ->
  inbox_ok f h -> (length (option_list f ++ results_of (signals acts)) <= 1)%nat ->
  inbox_ok (match f with Some r => Some r | None => head (results_of (signals acts)) end) h'.
Proof.
  unfold handle_moves. intros Hr He Hin Hlen. rewrite He, app_nil_r in Hr.
  destruct (results_of (signals acts)) as [|r [|r' rs]].
  - simpl in Hr. injection Hr as <- _. by destruct f.
  - destruct f; [simpl in Hlen; lia|]. cbn [map handle_run] in Hr.
    destruct (handle_step cu h (LowerSend r)) as [[h1 o1]|] eqn:E; [|done].
    injection Hr as <- _. by eapply post_inbox.
  - rewrite length_app in Hlen. simpl in Hlen. lia.
Qed.

Lemma ended_stays (w : ew_state B) env input : ew_ended w = true -> ew_step parse_endpoint pod_id w env input = None.
Proof. by destruct w, input. Qed.

Lemma watcher_moves_inv ins sigs s now connect input s' effs :
  pm_inv pod_id ins sigs s ->
  watcher_moves (D := D) parse_endpoint cu pod_id s now connect input = Some (s', effs) ->
  pm_inv pod_id (ins ++ [input]) (sigs ++ signals (watcher_did effs)) s'.
Proof.
  intros [Hl Hh Hlo Hin Ht Hd] Hs. unfold watcher_moves in Hs.
  destruct (ew_step _ _ _ _ _) as [[w acts]|] eqn:E; [|done].
  destruct (handle_run _ _ _) as [[h outs]|] eqn:Eh; [|done].
  case_bool_decide; [|done]. injection Hs as <- <-.
  assert (Hw : watcher_did (D := D) (map WatcherDid acts) = acts).
  { clear. induction acts as [|a acts IH]; [done|]. cbn. by rewrite <- IH at 2. }
  rewrite Hw. clear Hw.
  assert (He : ew_ended (pm_watcher s) = false).
  { destruct (ew_ended (pm_watcher s)) eqn:He; [|done]. by rewrite ended_stays in E. }
  rewrite He in Hlo. pose proof (step_lawful _ _ _ _ _ _ _ _ _ Hl E) as Hl'.
  assert (Hhead : head (results_of (sigs ++ signals acts)) =
    match head (results_of sigs) with Some r => Some r | None => head (results_of (signals acts)) end).
  { by rewrite results_of_app, head_app_results. }
  split; cbn [pm_watcher pm_channel pm_collector pm_handle].
  - done.
  - destruct (handle_run_inv _ _ _ _ _ _ Hh Eh) as [Hh' _]. unfold handle_moves in Hh'.
    rewrite foldl_first_post in Hh' by (destruct (ew_ended w); auto). by rewrite Hhead.
  - eapply moves_lower; [exact Eh|done].
  - intros He'. rewrite Hhead. eapply moves_inbox; [done|done|by apply Hin|].
    pose proof (lawful_results _ _ _ _ Hl' He') as Hlen. rewrite results_of_app in Hlen.
    destruct (results_of sigs) as [|r rs]; [done|]. rewrite length_app in Hlen. simpl in *.
    destruct (results_of (signals acts)); simpl in *; lia.
  - destruct Ht as (l & Hl0 & Ht). exists l. rewrite sent_to_gc_app, Hl0, app_assoc. done.
  - intros Hg st d. rewrite elem_of_app. intros [?|Hi]; [by eapply Hd|].
    by rewrite (step_flags _ _ _ _ _ _ _ _ _ E Hi).
Qed.

Lemma gc_step_alive g env ev g' acts :
  gc_step (D := D) latest pod_id ttl g env ev = Some (g', acts) -> gc_alive g = true.
Proof. by destruct g. Qed.

(** One message taken from the channel. *)
Lemma taken_step l st rest (g g' : gc_state D) env acts sigs (w : ew_state B) ins :
  lawful pod_id ins w sigs -> sent_to_gc sigs = l ++ st :: rest -> taken l g ->
  gc_step latest pod_id ttl g env (PodEvent (Some st)) = Some (g', acts) -> taken (l ++ [st]) g'.
Proof.
  intros Hl Hs Ht Hg. destruct (gc_alive g') eqn:Ea; [|by constructor].
  pose proof (gc_step_alive _ _ _ _ _ Hg) as Hga. inversion Ht; subst; [| |congruence].
  - destruct st; simpl in Hg; [|by injection Hg as <- _]. simpl.
    destruct g' as [|t| |]; try done; [|constructor].
    unfold begin_countdown, patch_then in Hg. repeat case_match; simplify_eq.
  - destruct st; simpl in Hg; [|by injection Hg as <- _].
    destruct (lawful_sent _ _ _ _ Hl) as (q & Hq). rewrite Hs in Hq. simpl in Hq. naive_solver.
Qed.

Lemma other_step (g g' : gc_state D) env ev acts l :
  (ev = ExecutionDateReached \/ exists req, ev = RefreshRequest req) ->
  gc_step latest pod_id ttl g env ev = Some (g', acts) -> taken l g -> taken l g'.
Proof.
  intros Hev Hg Ht. destruct (gc_alive g') eqn:Ea; [|by constructor].
  pose proof (gc_step_alive _ _ _ _ _ Hg) as Hga. inversion Ht; subst; [| |congruence].
  - by destruct Hev as [->|[req ->]].
  - destruct g' as [|t'| |]; try done; [|constructor].
    exfalso. destruct Hev as [->|[[o|] ->]]; simpl in Hg; unfold patch_then, delete_and_return in Hg;
      repeat case_match; simplify_eq.
Qed.

Lemma collector_moves_inv ins sigs s channel env ev s' effs l :
  pm_inv pod_id ins sigs s ->
  collector_moves (B := B) latest pod_id ttl s channel env ev = Some (s', effs) ->
  sent_to_gc sigs = l ++ channel ->
  (forall g acts, gc_step latest pod_id ttl (pm_collector s) env ev = Some (g, acts) -> taken l g) ->
  pm_inv pod_id ins (sigs ++ signals (watcher_did effs)) s'.
Proof.
  intros [Hl Hh Hlo Hin Ht Hd] Hs Hch Htk. unfold collector_moves in Hs.
  destruct (gc_step _ _ _ _ _ _) as [[g acts]|] eqn:E; [|done]. injection Hs as <- <-.
  assert (Hw : watcher_did (map CollectorDid acts) = []) by (clear; by induction acts).
  rewrite Hw. cbn. rewrite app_nil_r. split; simpl; eauto.
  intros _. apply Hd. by eapply gc_step_alive.
Qed.

Lemma shim_client_keeps h ev h' out f :
  is_shim_move ev = true \/ is_client_move ev = true ->
  handle_inv f h -> handle_step cu h ev = Some (h', out) ->
  lower_alive h' = lower_alive h /\ (lower_alive h = true -> inbox_ok f h -> inbox_ok f h').
Proof.
  intros Hev HI Hs. unfold inbox_ok.
  destruct ev as [r| |now|now| | |]; simpl in Hs; try (by destruct Hev).
  - destruct (shim h) eqn:Esh; try done. destruct (inbox h) as [|r rest] eqn:Ein.
    + destruct (lower_alive h) eqn:El; [done|]. unfold shim_arrives in Hs.
      destruct (arrived h); injection Hs as <- _; simpl; split; auto; congruence.
    + destruct (inv_inbox _ _ HI Esh) as (_ & _ & _ & [[? _]|(r0 & Hr0 & ->)]); [congruence|].
      rewrite Ein in Hr0. injection Hr0 as -> ->. unfold shim_arrives in Hs.
      destruct (arrived h); injection Hs as <- _; simpl; split; auto; intros _ _; right; eauto.
  - destruct (shim h) eqn:Esh; try done. destruct (_ <=? _); [|done]. injection Hs as <- _. simpl.
    split; [done|]. intros _ [[? _]|(_ & _ & ?)]; [done|]. right. eauto.
  - destruct (shim h) as [|? ? []|] eqn:Esh; try done. injection Hs as <- _. simpl.
    split; [done|]. intros _ [[? _]|(_ & _ & ?)]; [done|]. right. eauto.
  - destruct (upper h); try done. unfold upper_arrives in Hs.
    destruct (phantom h) as [[]|], (arrived h), (shim h) eqn:Esh; injection Hs as <- _; simpl;
      rewrite ?Esh; split; auto; intros _ [[? ?]|(? & ? & ?)]; auto; by right.
  - destruct (upper h); try done. destruct (outbox h); [destruct (shim h) eqn:Esh; try done|];
      injection Hs as <- _; simpl; rewrite ?Esh; auto.
Qed.

Lemma handle_moves_on_inv ins sigs s ev s' effs :
  is_shim_move ev = true \/ is_client_move ev = true ->
  pm_inv pod_id ins sigs s ->
  handle_moves_on (B := B) (D := D) cu s ev = Some (s', effs) ->
  pm_inv pod_id ins (sigs ++ signals (watcher_did effs)) s' /\
  forall r, WaitReturned r ∈ effs -> answer (head (results_of sigs)) r.
Proof.
  intros Hev [Hl Hh Hlo Hin Ht Hd] Hs. unfold handle_moves_on in Hs.
  destruct (handle_step _ _ _) as [[h out]|] eqn:E; [|done]. injection Hs as <- <-.
  assert (Hw : watcher_did (D := D) (map WaitReturned (option_list out)) = []) by by destruct out.
  rewrite Hw. cbn. rewrite app_nil_r.
  destruct (handle_step_inv _ _ _ _ _ _ Hh E) as [Hh' Hout].
  rewrite first_post_other in Hh', Hout by (intros r ->; by destruct Hev).
  destruct (shim_client_keeps _ _ _ _ _ Hev Hh E) as [Hlo' Hin'].
  split.
  - split; simpl; auto; [congruence|]. intros He. apply Hin'; [by rewrite Hlo, He|auto].
  - intros r Hr. apply Hout. destruct out; set_solver.
Qed.

Lemma pm_step_inv ins sigs s ev s' effs :
  pm_inv pod_id ins sigs s -> step s ev = Some (s', effs) ->
  pm_inv pod_id (ins ++ inputs_of [ev]) (sigs ++ signals (watcher_did effs)) s' /\
  forall r, WaitReturned r ∈ effs -> answer (head (results_of sigs)) r.
Proof.
  intros HI Hs. pose proof HI as [Hl Hh Hlo Hin (l & Hch & Ht) Hd].
  assert (Hno : (exists ch env gev, collector_moves latest pod_id ttl s ch env gev = Some (s', effs)) ->
    forall r, WaitReturned r ∈ effs -> answer (head (results_of sigs)) r).
  { intros (ch & env & gev & Hc). unfold collector_moves in Hc.
    destruct (gc_step _ _ _ _ _ _) as [[g acts]|]; [|done]. injection Hc as <- <-. set_solver. }
  destruct ev as [now connect input|env|env|env req|hev|hev]; simpl in Hs |- *; rewrite ?app_nil_r.
  - split; [by eapply watcher_moves_inv|]. unfold watcher_moves in Hs. repeat case_match; simplify_eq. set_solver.
  - destruct (pm_channel s) as [|st rest] eqn:Ec.
    + destruct (ew_ended (pm_watcher s)) eqn:Ee; [|done]. split; [|by eauto].
      eapply (collector_moves_inv _ _ _ _ _ _ _ _ l); [done|done|done|].
      intros g acts Hg. constructor. destruct (pm_collector s); simpl in Hg; simplify_eq; try done.
      unfold delete_and_return in Hg. repeat case_match; by simplify_eq.
    + split; [|by eauto].
      eapply (collector_moves_inv _ _ _ _ _ _ _ _ (l ++ [st])); [done|done|by rewrite Hch, <- app_assoc|].
      intros g acts Hg. by eapply taken_step.
  - split; [|by eauto]. eapply collector_moves_inv; [done|done|done|].
    intros g acts Hg. eapply other_step; [|done|done]. auto.
  - split; [|by eauto]. eapply collector_moves_inv; [done|done|done|].
    intros g acts Hg. eapply other_step; [|done|done]. eauto.
  - destruct (is_shim_move hev) eqn:E; [|done]. eapply handle_moves_on_inv; eauto.
  - destruct (is_client_move hev) eqn:E; [|done]. eapply handle_moves_on_inv; eauto.
Qed.

Lemma inputs_of_cons ev (evs : list (pm_event D)) : inputs_of (ev :: evs) = inputs_of [ev] ++ inputs_of evs.
Proof. exact (omap_app _ [ev] evs). Qed.

Lemma watcher_did_app (e1 e2 : list (pm_effect D)) : watcher_did (e1 ++ e2) = watcher_did e1 ++ watcher_did e2.
Proof. apply omap_app. Qed.

Lemma answer_more f l r : answer f r -> answer (match f with Some r => Some r | None => l end) r.
Proof. destruct f as [f|]; [done|]. intros [[?| ->]|?]; [done| |by right]. left. by right. Qed.

Lemma pm_run_inv ins sigs s evs s' effs :
  pm_inv pod_id ins sigs s -> run_pm s evs = Some (s', effs) ->
  pm_inv pod_id (ins ++ inputs_of evs) (sigs ++ signals (watcher_did effs)) s' /\
  forall r, WaitReturned r ∈ effs -> answer (head (results_of (sigs ++ signals (watcher_did effs)))) r.
Proof.
  revert ins sigs s effs; induction evs as [|ev evs IH]; intros ins sigs s effs HI Hr; simpl in Hr.
  - injection Hr as <- <-. simpl. rewrite !app_nil_r. split; [done|]. set_solver.
  - destruct (step s ev) as [[s1 e1]|] eqn:E; [|done].
    destruct (run_pm s1 evs) as [[s2 e2]|] eqn:E2; [|done]. injection Hr as <- <-.
    destruct (pm_step_inv _ _ _ _ _ _ HI E) as [HI1 Ho1].
    destruct (IH _ _ _ _ HI1 E2) as [HI2 Ho2].
    rewrite inputs_of_cons, watcher_did_app, signals_app, !app_assoc. split; [done|].
    intros r [Hr|Hr]%elem_of_app; [|by apply Ho2].
    rewrite <- app_assoc, results_of_app, head_app_results. apply answer_more. by apply Ho1.
Qed.

Lemma pm_reachable now connected evs s effs :
  run_pm (pm_new now connected) evs = Some (s, effs) ->
  pm_inv pod_id (inputs_of evs) (signals (watcher_did effs)) s /\
  forall r, WaitReturned r ∈ effs -> answer (head (results_of (signals (watcher_did effs)))) r.
Proof. apply (pm_run_inv [] []). apply pm_new_inv. Qed.
End ManagerLemmas.

(** An iteration posts at most one result. *)
Lemma terminate_results {B} pod_id env before e (w : ew_state B) acts :
  terminate pod_id env before e = (w, acts) ->
  results_of (signals acts) = results_of (signals before) ++ [Err e].
Proof.
  unfold terminate, kill_pod, send_result, kill_gc.
  destruct (ew_connect env); intros [= <- <-]; rewrite !signals_app, !results_of_app; simpl;
    by rewrite ?app_nil_r.
Qed.

Lemma on_failure_results {B} `{Backoff B} pod_id env b again before (w : ew_state B) acts :
  on_failure pod_id env b again before = (w, acts) -> results_of (signals before) = [] ->
  (length (results_of (signals acts)) <= 1)%nat.
Proof.
  unfold on_failure. destruct (next_backoff _ b) as [[?|] b']; [intros [= <- <-]; simpl; lia|].
  intros ->%terminate_results ->. simpl. lia.
Qed.

Ltac one_result H :=
  first [ apply terminate_results in H; rewrite H; simpl; lia
        | apply on_failure_results in H; [exact H|reflexivity]
        | injection H as <- <-; simpl; lia ].

Lemma step_one_result {B} `{Backoff B} parse pod_id w env input (w' : ew_state B) acts :
  ew_step parse pod_id w env input = Some (w', acts) -> (length (results_of (signals acts)) <= 1)%nat.
Proof.
  intros Hs. destruct w as [b p|b p|b p| |], input as [next| |status]; try done;
    try (by injection Hs as <- <-; simpl in *; first [lia|set_solver]); injection Hs as Hs.
  - unfold phase1, phase1_applied, enter_phase2 in Hs. destruct next as [[[q|q|q|qs]|]|e]; try one_result Hs.
    destruct (running q); [destruct (gc_open env); [destruct (server_check_new _ _)|]; one_result Hs|].
    destruct (terminated q || crashed q); [one_result Hs|].
    destruct (was_err_image_pull q); [|one_result Hs].
    destruct (err_image_pull q) as [[|]|]; one_result Hs.
  - unfold phase2_k8s in Hs. destruct next as [[[q|q|q|qs]|]|e]; one_result Hs.
  - unfold phase2_check, kill_pod, send_result, kill_gc in Hs. destruct status as [[[]|e]|]; try one_result Hs.
    destruct (result_open env), (ew_connect env); one_result Hs.
  - unfold phase3, kill_gc in Hs. destruct next as [[[q|q|q|qs]|]|e]; one_result Hs.
Qed.

(** ** Progress *)

Section Progress.
Context {B D : Type} `{Backoff B} `{Chrono D}.
Context (parse_endpoint : string -> result string string).
Context (latest : Z) (cu : bool).
Context (pod_id : string) (ttl : Z).
Notation step := (pm_step (B := B) parse_endpoint latest cu pod_id ttl).
Notation run_pm := (pm_run (B := B) parse_endpoint latest cu pod_id ttl).

Lemma handle_step_shim h ev h' out :
  handle_step cu h ev = Some (h', out) ->
  (is_client_move ev = true -> match shim h, shim h' with
     | ShimReceiving, ShimReceiving | ShimAtBarrier _ _ _, ShimAtBarrier _ _ _ | ShimGone, ShimGone => True
     | _, _ => False end) /\
  (is_shim_move ev = true -> match shim h, shim h' with
     | ShimReceiving, ShimAtBarrier _ _ _ | ShimAtBarrier _ _ _, ShimGone => True
     | _, _ => False end).
Proof.
  intros Hs. destruct ev; simpl in Hs; split; try done; intros _.
  - unfold shim_arrives in Hs. repeat case_match; simplify_eq; simpl in *; simplify_eq; done.
  - repeat case_match; simplify_eq; simpl; done.
  - repeat case_match; simplify_eq; simpl; done.
  - destruct (upper h); try done. unfold upper_arrives in Hs.
    destruct (phantom h) as [[]|], (arrived h), (shim h) eqn:Esh; injection Hs as <- _; simpl; by rewrite ?Esh.
  - destruct (upper h); try done. destruct (outbox h), (shim h) eqn:Esh; try done;
      injection Hs as <- _; simpl; by rewrite ?Esh.
Qed.

Lemma gc_measure (g : gc_state D) env ev g' acts (ch : list GcStatus) :
  gc_step latest pod_id ttl g env ev = Some (g', acts) ->
  ((if gc_alive g' then S (length ch) else 0) <= S (length ch))%nat /\ gc_alive g = true.
Proof. intros Hg. split; [destruct (gc_alive g'); lia|by eapply gc_step_alive]. Qed.

(** After the event watcher has ended, an internal move brings the end nearer,
    and no other move puts it off. *)
Lemma ended_step s ev s' effs :
  ew_ended (pm_watcher s) = true -> step s ev = Some (s', effs) ->
  ew_ended (pm_watcher s') = true /\
  (pm_measure s' + (if internal ev then 1 else 0) <= pm_measure s)%nat.
Proof.
  intros He Hs. unfold pm_measure. destruct ev as [now connect input|env|env|env req|hev|hev]; simpl in Hs.
  - unfold watcher_moves in Hs. by rewrite ended_stays in Hs.
  - unfold collector_moves in Hs. rewrite He in Hs. destruct (pm_channel s) as [|st rest];
      destruct (gc_step _ _ _ _ _ _) as [[g acts]|] eqn:E; try done; injection Hs as <- _; simpl; split; auto.
    + destruct (pm_collector s); simpl in E; unfold delete_and_return in E; repeat case_match; simplify_eq; simpl; lia.
    + destruct (gc_measure _ _ _ _ _ rest E) as [Hg ->]. simpl. lia.
  - unfold collector_moves in Hs. destruct (gc_step _ _ _ _ _ _) as [[g acts]|] eqn:E; [|done].
    injection Hs as <- _; simpl; split; auto. destruct (gc_measure _ _ _ _ _ (pm_channel s) E) as [Hg ->]. lia.
  - unfold collector_moves in Hs. destruct (gc_step _ _ _ _ _ _) as [[g acts]|] eqn:E; [|done].
    injection Hs as <- _; simpl; split; auto. destruct (gc_measure _ _ _ _ _ (pm_channel s) E) as [Hg ->]. lia.
  - destruct (is_shim_move hev) eqn:Em; [|done]. unfold handle_moves_on in Hs.
    destruct (handle_step _ _ _) as [[h out]|] eqn:E; [|done]. injection Hs as <- _. simpl. split; auto.
    destruct (handle_step_shim _ _ _ _ E) as [_ Hsh]. specialize (Hsh Em).
    destruct (shim (pm_handle s)), (shim h); try done; lia.
  - destruct (is_client_move hev) eqn:Em; [|done]. unfold handle_moves_on in Hs.
    destruct (handle_step _ _ _) as [[h out]|] eqn:E; [|done]. injection Hs as <- _. simpl. split; auto.
    destruct (handle_step_shim _ _ _ _ E) as [Hsh _]. specialize (Hsh Em).
    destruct (shim (pm_handle s)), (shim h); try done; lia.
Qed.

Definition count_internal (evs : list (pm_event D)) : nat := length (List.filter internal evs).

Lemma ended_run s evs s' effs :
  ew_ended (pm_watcher s) = true -> run_pm s evs = Some (s', effs) ->
  ew_ended (pm_watcher s') = true /\ (pm_measure s' + count_internal evs <= pm_measure s)%nat.
Proof.
  unfold count_internal. revert s effs; induction evs as [|ev evs IH]; intros s effs He Hr; simpl in Hr.
  - injection Hr as <- <-. simpl. split; [done|lia].
  - destruct (step s ev) as [[s1 e1]|] eqn:E; [|done].
    destruct (run_pm s1 evs) as [[s2 e2]|] eqn:E2; [|done]. injection Hr as <- <-.
    destruct (ended_step _ _ _ _ He E) as [He1 Hm]. destruct (IH _ _ He1 E2) as [He2 Hm2].
    split; [done|]. simpl. destruct (internal ev); simpl; lia.
Qed.

(** The garbage collector answers every pull. *)
Lemma pull_enabled s env :
  ew_ended (pm_watcher s) = true -> gc_alive (pm_collector s) = true ->
  is_Some (step s (PmPull env)).
Proof.
  intros He Hg. simpl. rewrite He. unfold collector_moves.
  destruct (pm_channel s) as [|[p|] rest], (pm_collector s); try done; simpl; eauto.
  destruct (begin_countdown _ _ _ _). eauto.
Qed.

(** The shim can always move, at the latest when its patience is over. *)
Lemma shim_enabled s :
  lower_alive (pm_handle s) = false -> shim_gone (pm_handle s) = false ->
  exists ev, is_shim_move ev = true /\ is_Some (step s (PmShim ev)).
Proof.
  unfold shim_gone. intros Hl Hs. destruct (shim (pm_handle s)) as [|r d rel|] eqn:E; [| |done].
  - exists (ShimTake 0). split; [done|]. simpl. unfold handle_moves_on. simpl. rewrite E, Hl.
    destruct (inbox (pm_handle s)); eauto.
  - exists (ShimPatience d). split; [done|]. simpl. unfold handle_moves_on. simpl.
    rewrite E, Z.leb_refl. eauto.
Qed.

Lemma measure_joined (s : pm_state B D) :
  ew_ended (pm_watcher s) = true -> pm_joined s = false ->
  gc_alive (pm_collector s) = true \/ shim_gone (pm_handle s) = false.
Proof.
  unfold pm_joined. intros ->. destruct (gc_alive _), (shim_gone _); simpl; auto.
Qed.

Lemma channel_short ins sigs (s : pm_state B D) :
  pm_inv pod_id ins sigs s -> (length (sent_to_gc sigs) <= 2)%nat /\ (length (pm_channel s) <= 2)%nat.
Proof.
  intros [Hl _ _ _ (l & Hch & _) _]. destruct (lawful_sent _ _ _ _ Hl) as (p & Hp).
  assert (length (sent_to_gc sigs) <= 2)%nat as Hlen
    by (destruct Hp as [->|[->|[->| ->]]]; simpl; lia).
  split; [done|]. rewrite Hch, length_app in Hlen. lia.
Qed.

Lemma measure_bound ins sigs (s : pm_state B D) : pm_inv pod_id ins sigs s -> (pm_measure s <= 5)%nat.
Proof.
  intros HI. destruct (channel_short _ _ _ HI) as [_ Hc]. unfold pm_measure.
  destruct (gc_alive _), (shim _); lia.
Qed.

(** The messages of one iteration find room in their channels. *)
Lemma moves_enabled (w : ew_state B) acts h :
  (length (results_of (signals acts)) <= 1)%nat -> lower_alive h = true ->
  inbox h = [] \/ shim h = ShimGone ->
  is_Some (handle_run cu h (handle_moves w acts)).
Proof.
  intros Hlen Hl Hroom. unfold handle_moves. destruct (results_of (signals acts)) as [|r [|]];
    [| |simpl in Hlen; lia].
  - destruct (ew_ended w); simpl; rewrite ?Hl; eauto.
  - cbn [map handle_run handle_step app]. rewrite Hl. unfold lower_send.
    destruct (shim h), (inbox h), Hroom; try done; destruct (ew_ended w); simpl; rewrite ?Hl; eauto.
Qed.

Lemma watcher_enabled ins sigs s now connect input w acts :
  pm_inv pod_id ins sigs s ->
  ew_step parse_endpoint pod_id (pm_watcher s) (watcher_env s now connect) input = Some (w, acts) ->
  inbox (pm_handle s) = [] \/ shim (pm_handle s) = ShimGone ->
  is_Some (step s (PmWatcher now connect input)).
Proof.
  intros [Hl Hh Hlo _ (l & Hch & _) _] E Hroom. simpl. unfold watcher_moves. rewrite E.
  assert (Hal : lower_alive (pm_handle s) = true).
  { rewrite Hlo. destruct (ew_ended (pm_watcher s)) eqn:He; [|done]. by rewrite ended_stays in E. }
  destruct (moves_enabled w acts _ (step_one_result _ _ _ _ _ _ _ E) Hal Hroom) as [[h outs] ->].
  pose proof (step_lawful _ _ _ _ _ _ _ _ _ Hl E) as Hl'.
  destruct (lawful_sent _ _ _ _ Hl') as (p & Hp). rewrite sent_to_gc_app, Hch, <- app_assoc in Hp.
  rewrite bool_decide_true; [eauto|].
  assert (length (l ++ pm_channel s ++ sent_to_gc (signals acts)) <= 2)%nat as Hlen
    by (destruct Hp as [->|[->|[->| ->]]]; simpl; lia).
  unfold CHANNEL_CAPACITY. rewrite length_app in Hlen. lia.
Qed.

(** The event watcher is held up only by a result that the shim has not taken. *)
Lemma watcher_unblocked ins sigs s now connect input :
  pm_inv pod_id ins sigs s ->
  is_Some (ew_step parse_endpoint pod_id (pm_watcher s) (watcher_env s now connect) input) ->
  is_Some (step s (PmWatcher now connect input)) \/
  exists s1 effs1, step s (PmShim (ShimTake now)) = Some (s1, effs1) /\ pm_watcher s1 = pm_watcher s /\
    is_Some (step s1 (PmWatcher now connect input)).
Proof.
  intros HI [[w acts] Hstep].
  assert (He : ew_ended (pm_watcher s) = false).
  { destruct (ew_ended (pm_watcher s)) eqn:He; [|done]. by rewrite ended_stays in Hstep. }
  destruct (pm_inbox _ _ _ _ HI He) as [[Hsh Hib]|(_ & Hib & _)];
    [|left; eapply watcher_enabled; eauto].
  destruct (head (results_of _)) as [r|]; [right|left; eapply watcher_enabled; eauto].
  assert (Ht : exists h, step s (PmShim (ShimTake now)) =
      Some ({| pm_watcher := pm_watcher s; pm_channel := pm_channel s; pm_collector := pm_collector s;
               pm_handle := h |}, []) /\ inbox h = [] /\ shim_gone h = false).
  { simpl. unfold handle_moves_on. simpl. rewrite Hsh, Hib. simpl. unfold shim_arrives.
    destruct (arrived _); eexists; split_and!; reflexivity. }
  destruct Ht as (h & Ht & Hih & Hg). eexists _, _. split; [exact Ht|]. split; [done|].
  destruct (pm_step_inv _ _ _ _ _ _ _ _ _ _ _ HI Ht) as [HI1 _].
  eapply watcher_enabled; [exact HI1| |by left].
  unfold watcher_env in Hstep |- *. unfold shim_gone in Hstep at 1. rewrite Hsh in Hstep. cbn. by rewrite Hg.
Qed.

(** While a pod runs under a living garbage collector, the countdown is on, or
    its start is the one message in the channel. *)
Lemma running_is_timed ins sigs (s : pm_state B D) b p :
  pm_inv pod_id ins sigs s -> pm_watcher s = Phase2 b p \/ pm_watcher s = Phase3 b p ->
  gc_alive (pm_collector s) = true ->
  (exists t, pm_collector s = Countdown t /\ pm_channel s = []) \/
  (pm_collector s = AwaitingRunning /\ pm_channel s = [StatusRunning p]).
Proof.
  intros [Hl _ _ _ (l & Hch & Ht) _] Hw Ha.
  assert (Hs : sent_to_gc sigs = [StatusRunning p]).
  { destruct Hw as [Hw|Hw]; rewrite Hw in Hl; by inversion Hl. }
  rewrite Hs in Hch. inversion Ht; subst; simpl in *; [right|left|congruence]; simplify_eq; eauto.
Qed.
End Progress.

(** ** Theorems *)

Section ManagerTheorems.
Context {B D : Type} `{Backoff B} `{Chrono D}.
Context (parse_endpoint : string -> result string string).
Context (latest : Z) (cu : bool).
Context (pod_id : string) (ttl : Z).
Notation step := (pm_step (B := B) parse_endpoint latest cu pod_id ttl).
Notation run_pm := (pm_run (B := B) parse_endpoint latest cu pod_id ttl).

(** The promise of the wait endpoint, end to end: in every interleaving of
    event watcher, garbage collector, shim and clients, a pod that [wait] returns
    was reported running by Kubernetes and then answered its health check. *)
Theorem wait_ok_means_healthy (now : Z) (connected : result unit kube_error)
  (evs : list (pm_event D)) (s : pm_state B D) (effs : list (pm_effect D)) (p : Pod)
  (Hrun : run_pm (pm_new now connected) evs = Some (s, effs))
  (Hwait : WaitReturned (Ok p) ∈ effs) :
  running p = true /\ saw_healthy p (inputs_of evs).
Proof.
  apply pm_reachable in Hrun as [[Hl _ _ _ _ _] Ho].
  destruct (Ho _ Hwait) as [[Hh|?]|?]; [|done|done].
  assert (Hin : Ok p ∈ results_of (signals (watcher_did effs)))
    by (destruct (results_of _); simplify_eq/=; set_solver).
  apply list_elem_of_omap in Hin as ([|r d|] & Hin & Hr); simplify_eq. by eapply lawful_ready.
Qed.

(** C14: once the event watcher of a manager has ended, for whatever reason, the
    manager winds down: at most five internal moves are left, no move of a client
    adds to them, and until all three coroutines have ended one of them can
    always move; then the manager is removed from the cache. *)
Theorem manager_winds_down (now : Z) (connected : result unit kube_error)
  (evs evs' : list (pm_event D)) (s s' : pm_state B D) (effs effs' : list (pm_effect D))
  (Hrun : run_pm (pm_new now connected) evs = Some (s, effs))
  (Hend : ew_ended (pm_watcher s) = true)
  (Hrest : run_pm s evs' = Some (s', effs')) :
  (count_internal evs' <= 5)%nat /\
  (pm_joined s' = true \/
   (forall env, is_Some (step s' (PmPull env))) \/
   exists ev, is_shim_move ev = true /\ is_Some (step s' (PmShim ev))).
Proof.
  apply pm_reachable in Hrun as [HI _].
  pose proof (measure_bound _ _ _ _ HI) as Hb.
  destruct (ended_run _ _ _ _ _ _ _ _ _ Hend Hrest) as [He' Hm]. split; [lia|].
  destruct (pm_joined s') eqn:Ej; [by left|right].
  destruct (pm_run_inv _ _ _ _ _ _ _ _ _ _ _ HI Hrest) as [[_ _ Hlo _ _ _] _]. rewrite He' in Hlo.
  destruct (measure_joined _ He' Ej) as [Hg|Hs].
  - left. intros env. by apply pull_enabled.
  - right. by apply shim_enabled.
Qed.

(** C26: the event watcher never waits for the garbage collector, and for the
    shim only when a result is still in its inbox: then the shim can take it, and
    the event watcher can go on. *)
Theorem watcher_waits_only_for_shim (now0 : Z) (connected : result unit kube_error)
  (evs : list (pm_event D)) (s : pm_state B D) (effs : list (pm_effect D))
  (now : Z) (connect : result unit kube_error) (input : ew_input)
  (Hrun : run_pm (pm_new now0 connected) evs = Some (s, effs))
  (Hstep : is_Some (ew_step parse_endpoint pod_id (pm_watcher s) (watcher_env s now connect) input)) :
  is_Some (step s (PmWatcher now connect input)) \/
  exists s1 effs1, step s (PmShim (ShimTake now)) = Some (s1, effs1) /\
    is_Some (step s1 (PmWatcher now connect input)).
Proof.
  apply pm_reachable in Hrun as [HI _].
  destruct (watcher_unblocked parse_endpoint latest cu pod_id ttl _ _ _ _ _ _ HI Hstep) as [?|(s1 & effs1 & ? & _ & ?)]; eauto.
Qed.

(** C27: a pod that is with a client is on the clock: while the event watcher
    is in its last phase, and unless the garbage collector has died, the garbage
    collector counts down or is about to read that this pod runs. *)
Theorem handed_out_pod_is_timed (now : Z) (connected : result unit kube_error)
  (evs : list (pm_event D)) (s : pm_state B D) (effs : list (pm_effect D)) (b : B) (p : Pod)
  (Hrun : run_pm (pm_new now connected) evs = Some (s, effs))
  (Hphase : pm_watcher s = Phase3 b p) (Halive : gc_alive (pm_collector s) = true) :
  (exists t, pm_collector s = Countdown t /\ pm_channel s = []) \/
  (pm_collector s = AwaitingRunning /\ pm_channel s = [StatusRunning p]).
Proof.
  apply pm_reachable in Hrun as [HI _]. eapply running_is_timed; eauto.
Qed.

(** C40: a failure to connect at the wrong moment leaks the pod.  The event
    watcher stops the garbage collector before it makes the client for the
    deletion; when that client cannot be made, it panics, and both daemons are
    gone although neither has asked for the deletion of the pod. *)
Theorem failed_connection_leaks_pod (s : pm_state B D) (b : B) (p : Pod)
  (t : KeepAliveTicket D) (now : Z) (e : kube_error) (pods : list Pod) (env : gc_env D)
  (Hphase : pm_watcher s = Phase3 b p) (Hgc : pm_collector s = Countdown t)
  (Hch : pm_channel s = []) (Hlower : lower_alive (pm_handle s) = true)
  (Hinbox : inbox (pm_handle s) = []) :
  exists s' effs,
    run_pm s [PmWatcher now (Err e) (FromK8s (Ok (Some (Restarted pods)))); PmPull env] = Some (s', effs) /\
    pm_watcher s' = EwPanicked /\ pm_collector s' = GcReturned /\
    Forall (fun x => deletes_pod x = false) effs.
Proof.
  destruct s as [w ch g [al ib sh ar ob up ph]]. simpl in *. subst.
  destruct sh; do 2 eexists; (split; [reflexivity|]); by repeat constructor.
Qed.
End ManagerTheorems.

(** ** Witnesses *)

Definition calm_gc (now : Z) : gc_env Z :=
  {| env_utc := now; env_instant := from_secs now; env_connect := Ok tt; env_patch := Ok tt;
     env_delete := Ok tt |}.

(** A client that waits while its pod starts, and deletes it in the end. *)
Definition example_session : list (pm_event Z) :=
  [ PmClient WaitCall;
    PmWatcher 1 (Ok tt) (FromK8s (Ok (Some (Added Pod_default))));
    PmWatcher 2 (Ok tt) (FromK8s (Ok (Some (Applied example_pod))));
    PmPull (calm_gc 2);
    PmWatcher 3 (Ok tt) (FromCheck (Some (Ok tt)));
    PmShim (ShimTake 3); PmShim ShimPass; PmClient WaitReceive;
    PmRefresh (calm_gc 3) (Some true) ].

Definition example_pm_run :=
  pm_run (B := simple_backoff) Ok (from_secs 4000000000) false "oracle-0a1b" 1800.

Lemma wait_ok_means_healthy_witness :
  running example_pod = true /\ saw_healthy example_pod (inputs_of example_session).
Proof.
  eapply (wait_ok_means_healthy (B := simple_backoff) Ok (from_secs 4000000000) false "oracle-0a1b" 1800
    0 (Ok tt) example_session).
  - vm_compute. reflexivity.
  - apply list_elem_of_In. simpl. auto 10.
Defined.

(** The pod is deleted, and everybody goes home. *)
Definition example_farewell : list (pm_event Z) :=
  example_session ++ [PmWatcher 9 (Ok tt) (FromK8s (Ok (Some (Deleted example_pod))))].

Lemma manager_winds_down_witness :
  exists s effs s' effs',
    example_pm_run (pm_new 0 (Ok tt)) example_farewell = Some (s, effs) /\
    example_pm_run s [PmPull (calm_gc 10)] = Some (s', effs') /\ pm_joined s' = true /\
    (count_internal (D := Z) [PmPull (calm_gc 10)] <= 5)%nat.
Proof.
  do 4 eexists. split; [vm_compute; reflexivity|]. split; [vm_compute; reflexivity|]. split; [reflexivity|].
  eapply (manager_winds_down (B := simple_backoff) Ok (from_secs 4000000000) false "oracle-0a1b" 1800
    0 (Ok tt) example_farewell [PmPull (calm_gc 10)]); vm_compute; reflexivity.
Defined.

Lemma watcher_waits_only_for_shim_witness :
  exists s effs,
    example_pm_run (pm_new 0 (Ok tt)) (take 5 example_session) = Some (s, effs) /\
    (is_Some (pm_step Ok (from_secs 4000000000) false "oracle-0a1b" 1800 s
                (PmWatcher 4 (Ok tt) (FromK8s (Ok (Some (Restarted [])))))) \/
     exists s1 effs1,
       pm_step Ok (from_secs 4000000000) false "oracle-0a1b" 1800 s (PmShim (ShimTake 4)) = Some (s1, effs1) /\
       is_Some (pm_step Ok (from_secs 4000000000) false "oracle-0a1b" 1800 s1
                  (PmWatcher 4 (Ok tt) (FromK8s (Ok (Some (Restarted []))))))).
Proof.
  do 2 eexists. split; [vm_compute; reflexivity|].
  eapply (watcher_waits_only_for_shim (B := simple_backoff) Ok (from_secs 4000000000) false "oracle-0a1b" 1800
    0 (Ok tt) (take 5 example_session)).
  - vm_compute. reflexivity.
  - vm_compute. eexists. reflexivity.
Defined.

Lemma handed_out_pod_is_timed_witness :
  exists s effs, example_pm_run (pm_new 0 (Ok tt)) example_session = Some (s, effs) /\
    ((exists t, pm_collector s = Countdown t /\ pm_channel s = []) \/
     (pm_collector s = AwaitingRunning /\ pm_channel s = [StatusRunning example_pod])).
Proof.
  do 2 eexists. split; [vm_compute; reflexivity|].
  eapply (handed_out_pod_is_timed (B := simple_backoff) Ok (from_secs 4000000000) false "oracle-0a1b" 1800
    0 (Ok tt) example_session); vm_compute; reflexivity.
Defined.

Lemma failed_connection_leaks_pod_witness :
  exists s effs s' effs', example_pm_run (pm_new 0 (Ok tt)) example_session = Some (s, effs) /\
    example_pm_run s [PmWatcher 9 (Err (KConnection "refused")) (FromK8s (Ok (Some (Restarted []))));
                      PmPull (calm_gc 9)] = Some (s', effs') /\
    pm_watcher s' = EwPanicked /\ pm_collector s' = GcReturned /\
    Forall (fun x => deletes_pod x = false) effs'.
Proof.
  do 2 eexists.
  edestruct (failed_connection_leaks_pod (B := simple_backoff) Ok (from_secs 4000000000) false "oracle-0a1b" 1800)
    as (s' & effs' & Hrun & H'); [..|exists s', effs'; split; [vm_compute; reflexivity|split; [exact Hrun|exact H']]].
  all: vm_compute; reflexivity.
Defined.
