(* ===== verification/Live.v ===== *)
(** * A running manager

    The composition of [PodManager.v] with the two components whose answers are
    free inputs there: the stream of [library/k8s/src/watcher.rs], which the event
    watcher polls ([client.try_next()]), and the health check of
    [podmanager/server_check.rs], which it spawns, awaits, kills and joins.

    What remains free is the environment: the answers of the API server (a
    script), the timers and the network during a round of the health check, and
    the interleaving.  The signal that ends the health check is the event
    watcher's: [kill], or the end of its coroutine, which drops the sender. *)

From S2P Require Import Prelude RustStr Errors Names Pod Kube Watcher Backoff ServerCheck GarbageCollector ExternalHandle EventWatcher PodManager.

(** ** The machine *)

Record live (B D : Type) := {
  lv_pm : pm_state B D;
  lv_api : api Pod;
  lv_stream : State Pod;
  lv_check : option (task B);
}.
Arguments lv_pm {B D} _.
Arguments lv_api {B D} _.
Arguments lv_stream {B D} _.
Arguments lv_check {B D} _.

Inductive live_event (D : Type) :=
(** [client.try_next()] returns; [last] are the rounds that the health check
    makes while it is killed, if it is. *)
| LvPoll (now : Z) (connect : result unit kube_error) (last : list round)
(** [outcome] is ready. *)
| LvOutcome (now : Z) (connect : result unit kube_error)
(** A round of the health check. *)
| LvRound (r : round)
(** A move of another party of the manager. *)
| LvOther (ev : pm_event D).
Arguments LvPoll {D} now connect last.
Arguments LvOutcome {D} now connect.
Arguments LvRound {D} r.
Arguments LvOther {D} ev.

(** What an iteration of the event watcher does to the health check. *)
Inductive check_order := OrderSpawn (uri : string) | OrderKill | OrderJoin.
Definition order_of (a : ew_action) : option check_order :=
  match a with
  | SpawnCheck uri => Some (OrderSpawn uri)
  | KillCheck => Some OrderKill
  | JoinCheck => Some OrderJoin
  | _ => None
  end.
Definition orders (acts : list ew_action) : list check_order := omap order_of acts.

(** [outcome], as the event watcher sees it: a coroutine that panicked, or
    returned without a result, has dropped its sender. *)
Definition outcome_input {B} (t : task B) : option ew_input :=
  match t_exit t with
  | Polling => None
  | Returned sent => Some (FromCheck sent)
  | CheckPanicked => Some (FromCheck None)
  end.

Definition is_watcher_event {D} (ev : pm_event D) : bool :=
  match ev with PmWatcher _ _ _ => true | _ => false end.

Section Live.
Context {B D : Type} `{Backoff B} `{Chrono D}.
Context (parse_endpoint : string -> result string string).
Context (latest : Z) (cancel_undoes : bool).
Context (pod_id : string) (ttl : Z).

Notation moves := (pm_step (B := B) (D := D) parse_endpoint latest cancel_undoes pod_id ttl).

(** The orders are carried out; an iteration that waits for a task that still
    polls is not over. *)
Fixpoint follow (now : Z) (last : list round) (os : list check_order) (c : option (task B))
  : option (option (task B)) :=
  match os with
  | [] => match last with [] => Some c | _ => None end
  | OrderSpawn uri :: rest => follow now last rest (Some (spawn_check uri now))
  | OrderKill :: rest =>
      match c with
      | Some t => match check_kill now t last with
                  | Some t' => follow now [] rest (Some t')
                  | None => None
                  end
      | None => None
      end
  | OrderJoin :: rest =>
      match c with
      | Some t => match check_join t with Some t' => follow now last rest (Some t') | None => None end
      | None => None
      end
  end.

(** One iteration of the event watcher, after which the stream is in the state
    [st] over the script [a]. *)
Definition iterate (s : live B D) (now : Z) (connect : result unit kube_error) (input : ew_input)
  (last : list round) (a : api Pod) (st : State Pod) : option (live B D * list (pm_effect D)) :=
  match moves (lv_pm s) (PmWatcher now connect input) with
  | None => None
  | Some (pm, effs) =>
      match follow now last (orders (watcher_did effs)) (lv_check s) with
      | Some c =>
          (* with its coroutine the [ServerCheck], and so the sender, is dropped *)
          let c := if ew_ended (pm_watcher pm) then signal_task now <$> c else c in
          Some ({| lv_pm := pm; lv_api := a; lv_stream := st; lv_check := c |}, effs)
      | None => None
      end
  end.

Definition live_step (s : live B D) (ev : live_event D) : option (live B D * list (pm_effect D)) :=
  match ev with
  | LvPoll now connect last =>
      match try_next (lv_api s) (lv_stream s) with
      | Ready (next, st, a) => iterate s now connect (FromK8s next) last a st
      | Panicked => iterate s now connect StreamPanicked last (lv_api s) (lv_stream s)
      | Pending | OutOfFuel => None
      end
  | LvOutcome now connect =>
      match lv_check s ≫= outcome_input with
      | Some input => iterate s now connect input [] (lv_api s) (lv_stream s)
      | None => None
      end
  | LvRound r =>
      let alive := negb (ew_ended (pm_watcher (lv_pm s))) in
      match lv_check s ≫= fun t => task_round alive t r with
      | Some t => Some ({| lv_pm := lv_pm s; lv_api := lv_api s; lv_stream := lv_stream s;
                           lv_check := Some t |}, [])
      | None => None
      end
  | LvOther ev =>
      if is_watcher_event ev then None
      else match moves (lv_pm s) ev with
           | Some (pm, effs) =>
               Some ({| lv_pm := pm; lv_api := lv_api s; lv_stream := lv_stream s;
                        lv_check := lv_check s |}, effs)
           | None => None
           end
  end.

Fixpoint live_run (s : live B D) (evs : list (live_event D)) : option (live B D * list (pm_effect D)) :=
  match evs with
  | [] => Some (s, [])
  | ev :: rest =>
      match live_step s ev with
      | None => None
      | Some (s', effs) =>
          match live_run s' rest with
          | None => None
          | Some (s'', effs') => Some (s'', effs ++ effs')
          end
      end
  end.

(** [new_podmanager], with the stream at its beginning and no health check. *)
Definition live_new (a : api Pod) (now : Z) (connected : result unit kube_error) : live B D :=
  {| lv_pm := pm_new now connected; lv_api := a; lv_stream := Empty; lv_check := None |}.
End Live.

(** The rounds of the health check in a run. *)
Definition rounds_in {D} (ev : live_event D) : list round :=
  match ev with LvPoll _ _ last => last | LvRound r => [r] | _ => [] end.
Definition rounds_of {D} (evs : list (live_event D)) : list round := mjoin (map rounds_in evs).

(** A modification of the pod that one of the watches of the script delivers. *)
Definition served (a : api Pod) (p : Pod) : Prop :=
  exists s, Ok s ∈ watches a /\ Ok (WModified p) ∈ items s.

(** What was true of a pod that is handed to a client: the API server delivered
    it as running, and its health check [c], on the pod's own address, was refused
    in all its rounds until it connected, within the polling time. *)
Definition healthy {B D} (parse_endpoint : string -> result string string) (a : api Pod)
  (evs : list (live_event D)) (c : option (task B)) (p : Pod) : Prop :=
  running p = true /\ served a p /\
  exists addr t,
    address p = Ok addr /\ parse_endpoint ("http://" +:+ addr) = Ok (t_uri t) /\ c = Some t /\
    connected_in_time (t_start t) (l_attempts (t_loop t)) /\
    map a_round (l_attempts (t_loop t)) = rounds_of evs.

(** What [try_next] makes of an event of the stream, and the items of the stream
    among the inputs of the event watcher. *)
Definition as_next (r : result (Event Pod) watch_error) : result (option (Event Pod)) watch_error :=
  match r with Ok e => Ok (Some e) | Err e => Err e end.
Definition k8s_items (ins : list ew_input) : list (result (option (Event Pod)) watch_error) :=
  omap (fun i => match i with FromK8s next => Some next | _ => None end) ins.

(** ** Lemmas *)

(** *** The stream only delivers what is in the script *)

Definition upcoming (a : api Pod) (st : State Pod) (p : Pod) : Prop :=
  served a p \/ exists v s, st = Watching v s /\ Ok (WModified p) ∈ items s.

Lemma trampolined_upcoming a st r st' a' :
  step_trampolined pod_version a st = Ready (r, st', a') ->
  (forall p, upcoming a' st' p -> upcoming a st p) /\ (forall p, r = Some (Ok (Applied p)) -> upcoming a st p).
Proof.
  unfold upcoming, served. destruct a as [ls ws cs], st as [|v|v [its o]]; simpl.
  - destruct ls as [|[l|e] ls]; [done| |]; [destruct (list_version l); [|done]|];
      intros [= <- <- <-]; simpl; split; [|naive_solver| |naive_solver]; intros p [?|(? & ? & ? & ?)]; naive_solver.
  - destruct ws as [|[s|e] ws]; [done| |]; intros [= <- <- <-]; simpl; split; try naive_solver;
      intros p [(s' & ? & ?)|(? & ? & ? & ?)]; simplify_eq; left; eexists; split; eauto; set_solver.
  - destruct its as [|[[q|q|q|v'|err]|e] its]; simpl; unfold on_object.
    + destruct o; intros [= <- <- <-]. simpl. split; [|naive_solver]. intros p [?|(? & ? & ? & ?)]; naive_solver.
    + destruct (pod_version q); intros [= <- <- <-]; split; [|naive_solver].
      intros p [?|(? & ? & [= <- <-] & ?)]; [by left|right]. do 2 eexists. split; [done|]. simpl in *. set_solver.
    + destruct (pod_version q); intros [= <- <- <-]; split.
      * intros p [?|(? & ? & [= <- <-] & ?)]; [by left|right]. do 2 eexists. split; [done|]. simpl in *. set_solver.
      * intros p [= <-]. right. do 2 eexists. split; [done|]. simpl. set_solver.
    + destruct (pod_version q); intros [= <- <- <-]; split; [|naive_solver].
      intros p [?|(? & ? & [= <- <-] & ?)]; [by left|right]. do 2 eexists. split; [done|]. simpl in *. set_solver.
    + intros [= <- <- <-]; split; [|naive_solver].
      intros p [?|(? & ? & [= <- <-] & ?)]; [by left|right]. do 2 eexists. split; [done|]. simpl in *. set_solver.
    + intros [= <- <- <-]; split; [|naive_solver]. destruct (er_code err =? 410);
        intros p [?|(? & ? & [= <- <-] & ?)]; try (by left); right. do 2 eexists. split; [done|]. simpl in *. set_solver.
    + intros [= <- <- <-]; split; [|naive_solver].
      intros p [?|(? & ? & [= <- <-] & ?)]; [by left|right]. do 2 eexists. split; [done|]. simpl in *. set_solver.
Qed.

Lemma step_fuel_upcoming n a st r st' a' :
  step_fuel pod_version n a st = Ready (r, st', a') ->
  (forall p, upcoming a' st' p -> upcoming a st p) /\ (forall p, r = Ok (Applied p) -> upcoming a st p).
Proof.
  revert a st; induction n as [|n IH]; intros a st Hs; simpl in Hs; [done|].
  destruct (step_trampolined pod_version a st) as [[[r1 st1] a1]| | |] eqn:E; try done.
  destruct (trampolined_upcoming _ _ _ _ _ E) as [Hb Ha]. destruct r1 as [r1|].
  - injection Hs as -> -> ->. split; [done|]. intros p ->. by apply Ha.
  - destruct (IH _ _ Hs) as [Hb1 Ha1]. split; eauto.
Qed.

Lemma try_next_upcoming a st next st' a' :
  try_next a st = Ready (next, st', a') ->
  (forall p, upcoming a' st' p -> upcoming a st p) /\ (forall p, next = Ok (Some (Applied p)) -> upcoming a st p).
Proof.
  unfold try_next, watcher_next, Watcher.step. intros Hs.
  destruct (step_fuel pod_version _ a st) as [[[r s1] a1]| | |] eqn:E; try done.
  destruct (step_fuel_upcoming _ _ _ _ _ _ E) as [Hb Ha].
  destruct r as [ev|e]; injection Hs as <- <- <-; (split; [done|]).
  - intros p [= ->]. by apply Ha.
  - done.
Qed.

(** *** The iterations of the event watcher, as the health check sees them *)

Inductive phase_step {B} (parse_endpoint : string -> result string string)
  : ew_state B -> ew_input -> ew_state B -> list check_order -> Prop :=
| ps_stay1 b b' q i : phase_step parse_endpoint (Phase1 b q) i (Phase1 b' q) []
| ps_running b b' q p uri :
    server_check_new parse_endpoint p = Ok uri ->
    phase_step parse_endpoint (Phase1 b q) (FromK8s (Ok (Some (Applied p)))) (Phase2 b' p) [OrderSpawn uri]
| ps_stay2 b b' p i : phase_step parse_endpoint (Phase2 b p) i (Phase2 b' p) []
| ps_ready b b' p u :
    phase_step parse_endpoint (Phase2 b p) (FromCheck (Some (Ok u))) (Phase3 b' p) [OrderJoin]
| ps_stay3 b b' p i : phase_step parse_endpoint (Phase3 b p) i (Phase3 b' p) []
| ps_end1 b q i w : ew_ended w = true -> phase_step parse_endpoint (Phase1 b q) i w []
| ps_crash2 b p : phase_step parse_endpoint (Phase2 b p) StreamPanicked EwPanicked []
| ps_kill2 b p next w :
    ew_ended w = true -> phase_step parse_endpoint (Phase2 b p) (FromK8s next) w [OrderKill]
| ps_join2 b p status w :
    ew_ended w = true -> phase_step parse_endpoint (Phase2 b p) (FromCheck status) w [OrderJoin]
| ps_end3 b p i w : ew_ended w = true -> phase_step parse_endpoint (Phase3 b p) i w [].

Lemma orders_app a1 a2 : orders (a1 ++ a2) = orders a1 ++ orders a2.
Proof. apply omap_app. Qed.

Lemma terminate_orders {B} pod_id env before e (w : ew_state B) acts :
  terminate pod_id env before e = (w, acts) -> ew_ended w = true /\ orders acts = orders before.
Proof.
  unfold terminate, kill_pod, send_result, kill_gc.
  destruct (ew_connect env); intros [= <- <-]; rewrite !orders_app; simpl; by rewrite ?app_nil_r.
Qed.

Lemma on_failure_orders {B} `{Backoff B} pod_id env b again before (w : ew_state B) acts :
  on_failure pod_id env b again before = (w, acts) ->
  (exists b', w = again b' /\ orders acts = []) \/ (ew_ended w = true /\ orders acts = orders before).
Proof.
  unfold on_failure. destruct (next_backoff _ b) as [[d|] b'].
  - intros [= <- <-]. left. eauto.
  - intros ?%terminate_orders. by right.
Qed.

(** Closes a branch of an iteration. *)
Ltac phase_end H :=
  first [ apply terminate_orders in H as [? ->]; cbn; by econstructor
        | apply on_failure_orders in H as [(? & -> & ->)|[? ->]]; cbn; by econstructor
        | injection H as <- <-; cbn; by econstructor ].

Lemma ew_step_phases {B} `{Backoff B} parse_endpoint pod_id w env input (w' : ew_state B) acts :
  ew_step parse_endpoint pod_id w env input = Some (w', acts) ->
  phase_step parse_endpoint w input w' (orders acts).
Proof.
  intros Hs. destruct w as [b p|b p|b p| |], input as [next| |status]; try done;
    try (injection Hs as <- <-; by constructor); injection Hs as Hs.
  - unfold phase1, phase1_applied, enter_phase2 in Hs. destruct next as [[[q|q|q|qs]|]|e]; try phase_end Hs.
    destruct (running q).
    { destruct (gc_open env); [destruct (server_check_new _ _) eqn:E|]; phase_end Hs. }
    destruct (terminated q || crashed q); [phase_end Hs|].
    destruct (was_err_image_pull q); [|phase_end Hs].
    destruct (err_image_pull q) as [[|]|]; phase_end Hs.
  - unfold phase2_k8s in Hs. destruct next as [[[q|q|q|qs]|]|e]; phase_end Hs.
  - unfold phase2_check, kill_pod, send_result, kill_gc in Hs. destruct status as [[[]|e]|]; try phase_end Hs.
    destruct (result_open env), (ew_connect env); phase_end Hs.
  - unfold phase3, kill_gc in Hs. destruct next as [[[q|q|q|qs]|]|e]; phase_end Hs.
Qed.

(** A pod is only handed over on the success of its health check. *)
Lemma terminate_ready {B} pod_id env before e (w : ew_state B) acts p d :
  terminate pod_id env before e = (w, acts) -> SigResult (Ok p) d ∈ signals acts ->
  SigResult (Ok p) d ∈ signals before.
Proof.
  unfold terminate, kill_pod, send_result, kill_gc.
  destruct (ew_connect env); intros [= <- <-]; rewrite !signals_app; set_solver.
Qed.

Lemma on_failure_ready {B} `{Backoff B} pod_id env b again before (w : ew_state B) acts p d :
  on_failure pod_id env b again before = (w, acts) -> SigResult (Ok p) d ∈ signals acts ->
  SigResult (Ok p) d ∈ signals before.
Proof.
  unfold on_failure. destruct (next_backoff _ b) as [[?|] b']; [|apply terminate_ready].
  intros [= <- <-]. set_solver.
Qed.

Ltac not_ready H Hin :=
  first [ eapply terminate_ready in H; [|exact Hin]; set_solver
        | eapply on_failure_ready in H; [|exact Hin]; set_solver
        | injection H as <- <-; set_solver ].

Lemma ew_step_ready {B} `{Backoff B} parse_endpoint pod_id w env input (w' : ew_state B) acts p d :
  ew_step parse_endpoint pod_id w env input = Some (w', acts) -> SigResult (Ok p) d ∈ signals acts ->
  exists b, w = Phase2 b p /\ input = FromCheck (Some (Ok tt)).
Proof.
  intros Hs Hin. destruct w as [b q|b q|b q| |], input as [next| |status]; try done;
    try (by injection Hs as <- <-; set_solver); injection Hs as Hs.
  - exfalso. unfold phase1, phase1_applied, enter_phase2 in Hs. destruct next as [[[r|r|r|rs]|]|e]; try not_ready Hs Hin.
    destruct (running r).
    { destruct (gc_open env); [destruct (server_check_new _ _)|]; not_ready Hs Hin. }
    destruct (terminated r || crashed r); [not_ready Hs Hin|].
    destruct (was_err_image_pull r); [|not_ready Hs Hin].
    destruct (err_image_pull r) as [[|]|]; not_ready Hs Hin.
  - exfalso. unfold phase2_k8s in Hs. destruct next as [[[r|r|r|rs]|]|e]; not_ready Hs Hin.
  - unfold phase2_check, kill_pod, send_result, kill_gc in Hs. destruct status as [[[]|e]|]; try (exfalso; not_ready Hs Hin).
    exists b. destruct (result_open env), (ew_connect env); injection Hs as <- <-; set_solver.
  - exfalso. unfold phase3, kill_gc in Hs. destruct next as [[[r|r|r|rs]|]|e]; not_ready Hs Hin.
Qed.

(** A pod that [wait] has returned was posted by the event watcher. *)
Lemma waited_was_posted {D} sigs (effs : list (pm_effect D)) p :
  (forall r, WaitReturned r ∈ effs -> answer (head (results_of sigs)) r) ->
  WaitReturned (Ok p) ∈ effs -> exists d, SigResult (Ok p) d ∈ sigs.
Proof.
  intros Ho Hin. destruct (Ho _ Hin) as [[Hh|?]|?]; [|done|done].
  assert (Hin' : Ok p ∈ results_of sigs) by (destruct (results_of _); simplify_eq/=; set_solver).
  apply list_elem_of_omap in Hin' as ([|r d|] & Hi & Hr); simplify_eq. eauto.
Qed.
(** *** Moves of the manager *)

Section LiveLemmas.
Context {B D : Type} `{Backoff B} `{Chrono D}.
Context (parse_endpoint : string -> result string string).
Context (latest : Z) (cu : bool).
Context (pod_id : string) (ttl : Z).
Notation moves := (pm_step (B := B) (D := D) parse_endpoint latest cu pod_id ttl).
Notation step := (live_step (B := B) (D := D) parse_endpoint latest cu pod_id ttl).
Notation run_live := (live_run (B := B) (D := D) parse_endpoint latest cu pod_id ttl).

Lemma watcher_did_map (acts : list ew_action) : watcher_did (D := D) (map WatcherDid acts) = acts.
Proof. induction acts as [|a acts IH]; [done|]. cbn. by rewrite <- IH at 2. Qed.

Lemma moves_watcher pm now connect input pm' effs :
  moves pm (PmWatcher now connect input) = Some (pm', effs) ->
  ew_step parse_endpoint pod_id (pm_watcher pm) (watcher_env pm now connect) input =
    Some (pm_watcher pm', watcher_did effs).
Proof.
  simpl. unfold watcher_moves. destruct (ew_step _ _ _ _ _) as [[w acts]|]; [|done].
  destruct (handle_run _ _ _) as [[h outs]|]; [|done]. case_bool_decide; [|done].
  intros [= <- <-]. by rewrite watcher_did_map.
Qed.

Lemma moves_other pm ev pm' effs :
  is_watcher_event ev = false -> moves pm ev = Some (pm', effs) ->
  pm_watcher pm' = pm_watcher pm /\ watcher_did effs = [].
Proof.
  assert (Hgc : forall l, watcher_did (D := D) (map CollectorDid l) = []) by (induction l; done).
  assert (Hw : forall l, watcher_did (D := D) (map WaitReturned (option_list l)) = []) by (by intros []).
  destruct ev as [now connect input|env|env|env req|hev|hev]; simpl; intros Hev Hs; try done;
    unfold collector_moves, handle_moves_on in Hs; repeat case_match; simplify_eq; auto.
Qed.

(** The manager of a running manager moves as [PodManager.v] says. *)
Lemma live_step_pm s ev s' effs :
  step s ev = Some (s', effs) ->
  (lv_pm s' = lv_pm s /\ effs = [] /\ exists r, ev = LvRound r) \/
  exists pev, moves (lv_pm s) pev = Some (lv_pm s', effs) /\
    match ev with LvOther ev => pev = ev | _ => is_watcher_event pev = true end.
Proof.
  destruct ev as [now connect last|now connect|r|pev]; simpl.
  - unfold iterate. destruct (try_next _ _) as [[[next st] a]| | |]; try done; intros Hs; right;
      (destruct (moves _ _) as [[pm es]|] eqn:E; [|done]);
      (destruct (follow _ _ _ _); [|done]); injection Hs as <- <-; eauto.
  - destruct (_ ≫= _); [|done]. unfold iterate. intros Hs. right.
    destruct (moves _ _) as [[pm es]|] eqn:E; [|done].
    destruct (follow _ _ _ _); [|done]. injection Hs as <- <-; eauto.
  - destruct (_ ≫= _); [|done]. intros [= <- <-]. left. eauto.
  - destruct (is_watcher_event pev); [done|]. destruct (moves _ _) as [[pm es]|] eqn:E; [|done].
    intros [= <- <-]. right. eauto.
Qed.

(** The stream of a running manager is that of [Watcher.v]. *)
Lemma live_step_stream s ev s' effs :
  step s ev = Some (s', effs) ->
  exists pevs n rs, pm_run (B := B) parse_endpoint latest cu pod_id ttl (lv_pm s) pevs = Some (lv_pm s', effs) /\
    pulls pod_version n (lv_api s) (lv_stream s) = Ready (rs, lv_stream s', lv_api s') /\
    k8s_items (inputs_of pevs) = map as_next rs.
Proof.
  assert (Hq : forall pm pev pm' es, moves pm pev = Some (pm', es) -> k8s_items (inputs_of [pev]) = [] ->
    exists pevs n rs, pm_run (B := B) parse_endpoint latest cu pod_id ttl pm pevs = Some (pm', es) /\
    pulls pod_version n (lv_api s) (lv_stream s) = Ready (rs, lv_stream s, lv_api s) /\
    k8s_items (inputs_of pevs) = map as_next rs).
  { intros pm pev pm' es Hm Hi. exists [pev], 0%nat, []. cbn [pm_run]. rewrite Hm, app_nil_r. done. }
  destruct ev as [now connect last|now connect|r|pev]; simpl.
  - unfold iterate, try_next. destruct (watcher_next _ _ _) as [[[[r st] a]|]| | |] eqn:Ew; try done.
    + intros Hs. assert (Hm : exists pm, moves (lv_pm s) (PmWatcher now connect (FromK8s (as_next r))) = Some (pm, effs) /\
        s' = {| lv_pm := pm; lv_api := a; lv_stream := st; lv_check := lv_check s' |}).
      { destruct r; (destruct (moves _ _) as [[pm es]|] eqn:E; [|done]);
          (destruct (follow _ _ _ _); [|done]); injection Hs as <- <-; eauto. }
      destruct Hm as (pm & Hm & ->). exists [PmWatcher now connect (FromK8s (as_next r))], 1%nat, [r].
      cbn [pm_run pulls]. rewrite Hm, Ew, app_nil_r. done.
    + exfalso. by eapply watcher_never_ends.
    + destruct (moves _ _) as [[pm es]|] eqn:E; [|done]. destruct (follow _ _ _ _); [|done].
      intros [= <- <-]. by eapply Hq.
  - destruct (lv_check s) as [t|]; [|done]. simpl. unfold outcome_input, iterate.
    destruct (t_exit t); try done; (destruct (moves _ _) as [[pm es]|] eqn:E; [|done]);
      (destruct (follow _ _ _ _); [|done]); intros [= <- <-]; by eapply Hq.
  - destruct (_ ≫= _); [|done]. intros [= <- <-]. by exists [], 0%nat, [].
  - destruct (is_watcher_event pev) eqn:Hw; [done|]. destruct (moves _ _) as [[pm es]|] eqn:E; [|done].
    intros [= <- <-]. eapply Hq; [done|]. by destruct pev.
Qed.

Lemma pulls_app n m a st rs st' a' rs' st'' a'' :
  pulls pod_version n a st = Ready (rs, st', a') -> pulls pod_version m a' st' = Ready (rs', st'', a'') ->
  pulls pod_version (n + m) a st = Ready (rs ++ rs', st'', a'').
Proof.
  revert a st rs; induction n as [|n IH]; intros a st rs Hn Hm; simpl in Hn.
  - by injection Hn as <- -> ->.
  - cbn [pulls Nat.add]. destruct (watcher_next pod_version a st) as [[[[r s1] a1]|]| | |] eqn:E; try done.
    + destruct (pulls pod_version n a1 s1) as [[[rs1 s2] a2]| | |] eqn:En; try done.
      injection Hn as <- -> ->. by rewrite (IH _ _ _ En Hm).
    + exfalso. by eapply watcher_never_ends.
Qed.

Lemma pm_run_app s l1 l2 s1 e1 s2 e2 :
  pm_run (B := B) parse_endpoint latest cu pod_id ttl s l1 = Some (s1, e1) ->
  pm_run (B := B) parse_endpoint latest cu pod_id ttl s1 l2 = Some (s2, e2) ->
  pm_run (B := B) parse_endpoint latest cu pod_id ttl s (l1 ++ l2) = Some (s2, e1 ++ e2).
Proof.
  revert s e1; induction l1 as [|ev l1 IH]; intros s e1 H1 H2; cbn [pm_run app] in *.
  - by injection H1 as -> <-.
  - destruct (moves s ev) as [[s0 e0]|]; [|done].
    destruct (pm_run _ _ _ _ _ s0 l1) as [[s3 e3]|] eqn:E; [|done]. injection H1 as -> <-.
    by rewrite (IH _ _ E H2), app_assoc.
Qed.

Lemma live_run_stream s evs s' effs :
  run_live s evs = Some (s', effs) ->
  exists pevs n rs, pm_run (B := B) parse_endpoint latest cu pod_id ttl (lv_pm s) pevs = Some (lv_pm s', effs) /\
    pulls pod_version n (lv_api s) (lv_stream s) = Ready (rs, lv_stream s', lv_api s') /\
    k8s_items (inputs_of pevs) = map as_next rs.
Proof.
  revert s effs; induction evs as [|ev evs IH]; intros s effs Hr; simpl in Hr.
  - injection Hr as <- <-. by exists [], 0%nat, [].
  - destruct (step s ev) as [[s1 e1]|] eqn:E; [|done].
    destruct (run_live s1 evs) as [[s2 e2]|] eqn:E2; [|done]. injection Hr as <- <-.
    apply live_step_stream in E as (p1 & n1 & r1 & Hp1 & Hn1 & Hi1).
    destruct (IH _ _ E2) as (p2 & n2 & r2 & Hp2 & Hn2 & Hi2).
    exists (p1 ++ p2), (n1 + n2)%nat, (r1 ++ r2). split_and!.
    + by eapply pm_run_app.
    + by eapply pulls_app.
    + unfold inputs_of, k8s_items in *. rewrite !omap_app, Hi1, Hi2. by rewrite map_app.
Qed.

Lemma live_run_moves s evs s' effs :
  run_live s evs = Some (s', effs) ->
  exists pevs, pm_run (B := B) parse_endpoint latest cu pod_id ttl (lv_pm s) pevs = Some (lv_pm s', effs).
Proof. intros (pevs & _ & _ & Hp & _)%live_run_stream. eauto. Qed.

(** *** The invariant *)

(** The health check of the pod [p]: its endpoint, and its rounds. *)
Record checks (evs : list (live_event D)) (p : Pod) (t : task B) : Prop := {
  checks_uri : server_check_new parse_endpoint p = Ok (t_uri t);
  checks_rounds : t_rounds t = rounds_of evs;
  checks_ok : task_ok t;
}.

(** The rounds of a task keep their time, and the first of them is prompt. *)
Definition prompt_and_timely (t : task B) (rounds : list round) : Prop :=
  (forall r rest, rounds = r :: rest -> t_start t <= r_now r /\
     r_now r - t_start t + LONGEST_FIRST_PAUSE <= from_secs MAXIMUM_POLLING_TIME) /\
  timely None (backoff_new (B := B) (from_secs MAXIMUM_POLLING_TIME) (t_start t)) (t_start t) rounds.

Record live_inv (a0 : api Pod) (evs : list (live_event D)) (sigs : list signal) (s : live B D) : Prop := {
  li_stream : forall p, upcoming (lv_api s) (lv_stream s) p -> served a0 p;
  li_none : lv_check s = None -> rounds_of evs = [];
  li_phase1 : forall b q, pm_watcher (lv_pm s) = Phase1 b q -> lv_check s = None;
  li_phase2 : forall b p, pm_watcher (lv_pm s) = Phase2 b p -> served a0 p /\
    exists t, lv_check s = Some t /\ checks evs p t;
  li_phase3 : forall b p, pm_watcher (lv_pm s) = Phase3 b p -> exists t, lv_check s = Some t /\ t_exit t <> Polling;
  li_ready : forall p d, SigResult (Ok p) d ∈ sigs -> served a0 p /\
    exists t, lv_check s = Some t /\ checks evs p t /\ t_exit t = Returned (Some (Ok tt));
}.

Lemma rounds_of_snoc evs ev : rounds_of (D := D) (evs ++ [ev]) = rounds_of evs ++ rounds_in ev.
Proof. unfold rounds_of. rewrite map_app, join_app. simpl. by rewrite app_nil_r. Qed.

Lemma live_new_inv a0 now connected : live_inv a0 [] [] (live_new a0 now connected).
Proof.
  split; simpl; try done.
  - intros p [?|(v & s & [=] & _)]. done.
  - destruct connected; by intros.
  - destruct connected; by intros.
  - set_solver.
Qed.

(** A task that has ended is not changed any more. *)
Lemma follow_ended now last os t c :
  t_exit t <> Polling -> (forall uri, OrderSpawn uri ∉ os) ->
  follow (B := B) now last os (Some t) = Some c -> c = Some t /\ last = [].
Proof.
  revert last; induction os as [|o os IH]; intros last Ht Hno Hf; simpl in Hf.
  - destruct last; [|done]. by injection Hf as <-.
  - destruct o as [uri| |].
    + exfalso. apply (Hno uri). set_solver.
    + destruct (check_kill now t last) as [t'|] eqn:E; [|done]. apply check_kill_ended in E as [-> ->]; [|done].
      apply IH in Hf as [-> _]; [done|done|set_solver].
    + destruct (check_join t) as [t'|] eqn:E; [|done]. apply check_join_Some in E as [-> _].
      apply IH; [done|set_solver|done].
Qed.

Lemma phase_step_no_spawn w i w' os uri :
  phase_step (B := B) parse_endpoint w i w' os -> OrderSpawn uri ∈ os -> exists b q, w = Phase1 b q.
Proof. destruct 1; set_solver. Qed.

Lemma follow_None now last os c :
  follow (B := B) now last os c = Some None -> c = None /\ last = [].
Proof.
  revert last c; induction os as [|[uri| |] os IH]; intros last c Hf; simpl in Hf.
  - destruct last; [|done]. by injection Hf as ->.
  - by apply IH in Hf as [? _].
  - destruct c as [t|]; [|done]. destruct (check_kill now t last); [|done]. by apply IH in Hf as [? _].
  - destruct c as [t|]; [|done]. destruct (check_join t); [|done]. by apply IH in Hf as [? _].
Qed.

Lemma checks_silent evs ev p t : checks evs p t -> rounds_in ev = [] -> checks (evs ++ [ev]) p t.
Proof. intros [? ? ?] Hev. split; try done. by rewrite rounds_of_snoc, Hev, app_nil_r. Qed.

(** What an iteration needs to know of its input. *)
Record honest (s : live B D) (input : ew_input) (a : api Pod) (st : State Pod) : Prop := {
  honest_stream : forall p, upcoming a st p -> upcoming (lv_api s) (lv_stream s) p;
  honest_applied : forall p, input = FromK8s (Ok (Some (Applied p))) -> upcoming (lv_api s) (lv_stream s) p;
  honest_check : forall status, input = FromCheck status ->
    exists t, lv_check s = Some t /\ outcome_input t = Some (FromCheck status);
}.

Lemma outcome_ready (t : task B) : outcome_input t = Some (FromCheck (Some (Ok tt))) -> t_exit t = Returned (Some (Ok tt)).
Proof. unfold outcome_input. destruct (t_exit t); congruence. Qed.

(** The task of a pod that was handed over stays as it is. *)
Lemma iterate_ready a0 evs sigs s now last input (w' : ew_state B) acts c ev p d env :
  live_inv a0 evs sigs s -> rounds_in ev = last ->
  (forall status, input = FromCheck status ->
    exists t, lv_check s = Some t /\ outcome_input t = Some (FromCheck status)) ->
  ew_step parse_endpoint pod_id (pm_watcher (lv_pm s)) env input = Some (w', acts) ->
  follow (B := B) now last (orders acts) (lv_check s) = Some c ->
  SigResult (Ok p) d ∈ sigs ++ signals acts ->
  served a0 p /\ exists t, c = Some t /\ checks (evs ++ [ev]) p t /\ t_exit t = Returned (Some (Ok tt)).
Proof.
  intros HI Hev Hck Hew Hf Hin. pose proof (ew_step_phases _ _ _ _ _ _ _ Hew) as Hps.
  assert (Ht : served a0 p /\ exists t, lv_check s = Some t /\ checks evs p t /\ t_exit t = Returned (Some (Ok tt))).
  { apply elem_of_app in Hin as [Hin|Hin]; [by eapply li_ready|].
    destruct (ew_step_ready _ _ _ _ _ _ _ _ _ Hew Hin) as (b & Hw & ->).
    destruct (li_phase2 _ _ _ _ HI _ _ Hw) as (Hsv & t & Hc & Hk).
    destruct (Hck _ eq_refl) as (t' & Hc' & Ho). simplify_eq. split; [done|]. exists t. auto using outcome_ready. }
  destruct Ht as (Hsv & t & Hc & Hk & Hx). split; [done|]. exists t. rewrite Hc in Hf.
  assert (Hno : forall uri, OrderSpawn uri ∉ orders acts).
  { intros uri Hi. destruct (phase_step_no_spawn _ _ _ _ _ Hps Hi) as (b & q & Hw).
    pose proof (li_phase1 _ _ _ _ HI _ _ Hw). congruence. }
  apply follow_ended in Hf as [-> Hl]; [|congruence|done].
  split_and!; [done| |done]. apply checks_silent; [done|congruence].
Qed.

Lemma iterate_inv a0 evs sigs s now connect input last a st ev s' effs :
  live_inv a0 evs sigs s -> honest s input a st -> rounds_in ev = last ->
  iterate parse_endpoint latest cu pod_id ttl s now connect input last a st = Some (s', effs) ->
  live_inv a0 (evs ++ [ev]) (sigs ++ signals (watcher_did effs)) s'.
Proof.
  intros HI [Hst Hap Hck] Hev Hs. unfold iterate in Hs.
  destruct (moves _ _) as [[pm es]|] eqn:E; [|done]. apply moves_watcher in E.
  destruct (follow _ _ _ _) as [c|] eqn:Hf; [|done]. injection Hs as <- <-.
  pose proof (fun p d => iterate_ready _ _ _ _ _ _ _ _ _ _ _ p d _ HI Hev Hck E Hf) as Hready.
  apply ew_step_phases in E. remember (pm_watcher (lv_pm s)) as w eqn:Hw. remember (pm_watcher pm) as w' eqn:Hw'.
  remember (orders (watcher_did es)) as os eqn:Hos. clear Hos.
  assert (Hstay : os = [] -> c = lv_check s /\ rounds_in ev = []).
  { intros ->. simpl in Hf. destruct last; [|done]. injection Hf as <-. by rewrite Hev. }
  split; simpl; rewrite <- ?Hw'.
  - intros p Hp. eapply li_stream; eauto.
  - intros Hc. assert (c = None) as -> by (destruct (ew_ended w'), c; done).
    apply follow_None in Hf as [Hn ->]. rewrite rounds_of_snoc, Hev, app_nil_r. by eapply li_none.
  - intros b q ->. inversion E; subst; try done. destruct (Hstay eq_refl) as [-> _].
    eapply li_phase1; [done|done].
  - intros b p ->. inversion E; subst; try done.
    + split; [by eapply li_stream, Hap|]. simpl in Hf. destruct (rounds_in ev) eqn:Er; [|done]. injection Hf as <-.
      eexists. split; [done|]. split; [done| |apply spawn_check_ok].
      rewrite rounds_of_snoc, Er, app_nil_r. symmetry. eapply li_none, li_phase1; eauto.
    + destruct (Hstay eq_refl) as [-> Hr]. destruct (li_phase2 _ _ _ _ HI b0 p) as (Hsv & t & ? & ?); [done|].
      split; [done|]. exists t. split; [done|by apply checks_silent].
  - intros b p ->. inversion E; subst; try done.
    + destruct (Hck _ eq_refl) as (t & Hc & Ho). exists t. rewrite Hc in Hf. simpl in Hf.
      destruct (check_join t) as [t'|] eqn:Ej; [|done]. apply check_join_Some in Ej as [-> ?].
      destruct (rounds_in ev); [|done]. by injection Hf as <-.
    + destruct (Hstay eq_refl) as [-> _]. eapply li_phase3; [done|done].
  - intros p d Hin. destruct (Hready p d Hin) as (Hsv & t & -> & Hk & Hx). split; [done|]. exists t.
    split_and!; [|done|done]. destruct (ew_ended w'); [|done]. simpl. rewrite signal_task_ended; [done|congruence].
Qed.

Lemma round_inv a0 evs sigs s r t t' :
  live_inv a0 evs sigs s -> lv_check s = Some t ->
  task_round (negb (ew_ended (pm_watcher (lv_pm s)))) t r = Some t' ->
  live_inv a0 (evs ++ [LvRound r]) sigs
    {| lv_pm := lv_pm s; lv_api := lv_api s; lv_stream := lv_stream s; lv_check := Some t' |}.
Proof.
  intros [Hst Hn H1 H2 H3 Hr] Hc Ht.
  destruct (task_round_Some _ _ _ _ Ht) as (Hp & Hu & _ & Hro).
  split; simpl; try done.
  - intros b q Hw. specialize (H1 _ _ Hw). congruence.
  - intros b p Hw. destruct (H2 _ _ Hw) as (Hsv & t0 & Hc0 & [Hk1 Hk2 Hk3]).
    rewrite Hc in Hc0. injection Hc0 as <-. rewrite Hw in Ht. simpl in Ht.
    split; [done|]. exists t'. split; [done|].
    split; [by rewrite Hu| |by eapply task_round_ok]. by rewrite Hro, rounds_of_snoc, Hk2.
  - intros b p Hw. destruct (H3 _ _ Hw) as (t0 & Hc0 & ?). congruence.
  - intros p d Hin. destruct (Hr _ _ Hin) as (_ & t0 & Hc0 & _ & ?). congruence.
Qed.

Lemma live_step_inv a0 evs sigs s ev s' effs :
  live_inv a0 evs sigs s -> step s ev = Some (s', effs) ->
  live_inv a0 (evs ++ [ev]) (sigs ++ signals (watcher_did effs)) s'.
Proof.
  intros HI Hs. destruct ev as [now connect last|now connect|r|pev]; simpl in Hs.
  - destruct (try_next _ _) as [[[next st] a]| | |] eqn:E; try done.
    + apply try_next_upcoming in E as [Hb Ha]. eapply iterate_inv; [done| |done|exact Hs].
      split; [done| |done]. intros p [= ->]. by apply Ha.
    + eapply iterate_inv; [done| |done|exact Hs]. by split.
  - destruct (lv_check s) as [t|] eqn:Hc; [|done]. simpl in Hs.
    destruct (outcome_input t) as [input|] eqn:Ho; [|done].
    eapply iterate_inv; [done| |done|exact Hs]. split; [done| |].
    + intros p ->. unfold outcome_input in Ho. by destruct (t_exit t).
    + intros status ->. eauto.
  - destruct (lv_check s) as [t|] eqn:Hc; [|done]. simpl in Hs.
    destruct (task_round _ t r) as [t'|] eqn:Ht; [|done]. injection Hs as <- <-. cbn. rewrite app_nil_r.
    by eapply round_inv.
  - destruct (is_watcher_event pev) eqn:Hw; [done|].
    destruct (moves _ _) as [[pm es]|] eqn:E; [|done]. injection Hs as <- <-.
    apply moves_other in E as [Hpw ->]; [|done]. cbn. rewrite app_nil_r.
    destruct HI as [Hst Hn H1 H2 H3 Hr]. split; simpl; rewrite ?Hpw; try done.
    + rewrite rounds_of_snoc, app_nil_r. done.
    + intros b p Hp. destruct (H2 _ _ Hp) as (? & t & ? & ?). split; [done|]. exists t. auto using checks_silent.
    + intros p d Hin. destruct (Hr _ _ Hin) as (? & t & ? & ? & ?). split; [done|]. exists t. auto using checks_silent.
Qed.

Lemma live_run_inv a0 evs0 sigs s evs s' effs :
  live_inv a0 evs0 sigs s -> run_live s evs = Some (s', effs) ->
  live_inv a0 (evs0 ++ evs) (sigs ++ signals (watcher_did effs)) s'.
Proof.
  revert evs0 sigs s effs; induction evs as [|ev evs IH]; intros evs0 sigs s effs HI Hr; simpl in Hr.
  - injection Hr as <- <-. cbn. by rewrite !app_nil_r.
  - destruct (step s ev) as [[s1 e1]|] eqn:E; [|done].
    destruct (run_live s1 evs) as [[s2 e2]|] eqn:E2; [|done]. injection Hr as <- <-.
    apply (IH _ _ _ _ (live_step_inv _ _ _ _ _ _ _ HI E)) in E2.
    by rewrite watcher_did_app, signals_app, app_assoc, <- (app_assoc evs0 [ev]) in *.
Qed.

Lemma live_reachable a0 now connected evs s effs :
  run_live (live_new a0 now connected) evs = Some (s, effs) ->
  live_inv a0 evs (signals (watcher_did effs)) s.
Proof. apply (live_run_inv a0 [] []). apply live_new_inv. Qed.

Lemma live_reachable_pm a0 now connected evs s effs :
  run_live (live_new a0 now connected) evs = Some (s, effs) ->
  exists ins, pm_inv pod_id ins (signals (watcher_did effs)) (lv_pm s) /\
    forall r, WaitReturned r ∈ effs -> answer (head (results_of (signals (watcher_did effs)))) r.
Proof.
  intros Hr. apply live_run_moves in Hr as [pevs Hp]. apply pm_reachable in Hp. eauto.
Qed.

End LiveLemmas.

(** *** Progress *)

Section LiveProgress.
Context {B D : Type} `{BackoffLaws B} `{Chrono D}.
Context (parse_endpoint : string -> result string string).
Context (latest : Z) (cu : bool).
Context (pod_id : string) (ttl : Z).

(** A pod that was returned by [wait] was healthy. *)
Lemma live_healthy a now connected evs (s : live B D) effs p :
  live_run parse_endpoint latest cu pod_id ttl (live_new a now connected) evs = Some (s, effs) ->
  WaitReturned (Ok p) ∈ effs -> healthy parse_endpoint a evs (lv_check s) p.
Proof.
  intros Hrun Hwait. destruct (live_reachable_pm _ _ _ _ _ _ _ _ _ _ _ Hrun) as (ins & [Hl _ _ _ _ _] & Ho).
  destruct (waited_was_posted _ _ _ Ho Hwait) as [d Hin].
  destruct (lawful_ready _ _ _ _ _ _ Hl Hin) as [Hr _]. split; [done|].
  apply live_reachable in Hrun as HI. destruct (li_ready _ _ _ _ _ HI _ _ Hin) as (Hsv & t & Hc & [Hu Hro Hok] & Hx).
  split; [done|]. unfold server_check_new in Hu. apply try_bind_Ok in Hu as (addr & Ha & Hu%map_err_Ok).
  destruct (task_Ok _ _ Hok Hx) as [Ht Hrs]. exists addr, t. split_and!; try done. by rewrite Hrs.
Qed.

(** An iteration on an item of the stream waits for no more than a task that
    has been told to end: the round under way, and one that starts after. *)
Lemma iterate_enabled a0 evs sigs s pm input now connect a st r1 r2 :
  live_inv (B := B) (D := D) parse_endpoint a0 evs sigs s ->
  pm_watcher pm = pm_watcher (lv_pm s) -> (forall status, input <> FromCheck status) -> now <= r_now r2 ->
  is_Some (pm_step parse_endpoint latest cu pod_id ttl pm (PmWatcher now connect input)) ->
  exists n, (n <= 2)%nat /\ is_Some (iterate (B := B) (D := D) parse_endpoint latest cu pod_id ttl
    {| lv_pm := pm; lv_api := lv_api s; lv_stream := lv_stream s; lv_check := lv_check s |}
    now connect input (take n [r1; r2]) a st).
Proof.
  intros HI Hpw Hni Hr [[pm' es] Hm]. unfold iterate. simpl lv_pm. rewrite Hm.
  apply moves_watcher, ew_step_phases in Hm. rewrite Hpw in Hm.
  generalize dependent (orders (watcher_did es)). intros os Hps.
  inversion Hps; subst; try (exists 0%nat; split; [lia|]; simpl; by eauto); try (exfalso; by eapply Hni).
  destruct (li_phase2 _ _ _ _ _ HI b p) as (_ & t & Hc & [_ _ [Hs _ _]]); [congruence|].
  destruct (kill_possible now t r1 r2 Hs Hr) as (n & Hn & t' & Ht).
  exists n. split; [done|]. cbn [follow lv_check]. rewrite Hc, Ht. simpl. eauto.
Qed.

(** The outcome of a health check is taken at once. *)
Lemma outcome_taken ins sigs (s : live B D) b p t r now connect :
  pm_inv pod_id ins sigs (lv_pm s) -> pm_watcher (lv_pm s) = Phase2 b p -> lv_check s = Some t ->
  t_exit t = Returned (Some r) ->
  exists s' effs', live_step parse_endpoint latest cu pod_id ttl s (LvOutcome now connect) = Some (s', effs') /\
    match r with
    | Ok _ => if shim_gone (pm_handle (lv_pm s)) then ew_ended (pm_watcher (lv_pm s')) = true
              else exists b', pm_watcher (lv_pm s') = Phase3 b' p
    | Err e => ew_ended (pm_watcher (lv_pm s')) = true
    end.
Proof.
  intros HP Hphase Hcheck Hr. simpl. rewrite Hcheck. simpl. unfold outcome_input. rewrite Hr. unfold iterate.
  assert (He : exists w acts, ew_step parse_endpoint pod_id (pm_watcher (lv_pm s)) (watcher_env (lv_pm s) now connect)
    (FromCheck (Some r)) = Some (w, acts) /\ orders acts = [OrderJoin] /\
    match r with
    | Ok _ => if shim_gone (pm_handle (lv_pm s)) then ew_ended w = true else exists b', w = Phase3 b' p
    | Err e => ew_ended w = true
    end).
  { rewrite Hphase. simpl. unfold phase2_check, terminate, kill_pod, kill_gc, send_result. simpl.
    destruct r, (shim_gone (pm_handle (lv_pm s))), connect; simpl; do 2 eexists; split_and!; eauto. }
  destruct He as (w & acts & He & Hos & Hw).
  destruct (watcher_enabled parse_endpoint latest cu pod_id ttl _ _ _ now connect _ _ _ HP He) as [[pm es] Hm].
  { destruct (pm_inbox _ _ _ _ HP) as [[_ Hib]|(_ & Hib & _)]; [by rewrite Hphase| |by left]. left. rewrite Hib.
    pose proof (pm_lawful _ _ _ _ HP) as Hl. rewrite Hphase in Hl. by inversion Hl. }
  rewrite Hm. apply moves_watcher in Hm. rewrite He in Hm. injection Hm as Hw' Hacts.
  rewrite <- Hacts, Hos. simpl. rewrite ?Hcheck. unfold check_join. rewrite Hr.
  do 2 eexists. split; [done|]. simpl. by rewrite <- Hw'.
Qed.
End LiveProgress.

(** ** Theorems *)

Section LiveTheorems.
Context {B D : Type} `{BackoffLaws B} `{Chrono D}.
Context (parse_endpoint : string -> result string string).
Context (latest : Z) (cu : bool).
Context (pod_id : string) (ttl : Z).
Notation step := (live_step (B := B) (D := D) parse_endpoint latest cu pod_id ttl).
Notation run_live := (live_run (B := B) (D := D) parse_endpoint latest cu pod_id ttl).

(** C4: a running manager is the manager of [PodManager.v] reading the stream of
    [Watcher.v]: every run of the composition is a run of the manager with the
    same effects, in which the items that the event watcher reads are the events
    of the watcher, in order, none lost and none read twice. *)
Theorem live_refines_manager (a : api Pod) (now : Z) (connected : result unit kube_error)
  (evs : list (live_event D)) (s : live B D) (effs : list (pm_effect D))
  (Hrun : run_live (live_new a now connected) evs = Some (s, effs)) :
  exists pevs n rs,
    pm_run (B := B) parse_endpoint latest cu pod_id ttl (pm_new now connected) pevs = Some (lv_pm s, effs) /\
    pulls pod_version n a Empty = Ready (rs, lv_stream s, lv_api s) /\
    k8s_items (inputs_of pevs) = map as_next rs.
Proof. by apply live_run_stream in Hrun. Qed.

(** The promise of [wait] in terms of what happened outside of the service: a
    pod that it returns was delivered by a watch of the API server as modified and
    running, and the health check connected to that pod's own address, at the
    latest thirty seconds after its start, after nothing but refused
    connections. *)
Theorem live_wait_ok (a : api Pod) (now : Z) (connected : result unit kube_error)
  (evs : list (live_event D)) (s : live B D) (effs : list (pm_effect D)) (p : Pod)
  (Hrun : run_live (live_new a now connected) evs = Some (s, effs))
  (Hwait : WaitReturned (Ok p) ∈ effs) :
  healthy parse_endpoint a evs (lv_check s) p.
Proof. by eapply live_healthy. Qed.

(** C12: phase 2 ends, when the rounds of the health check keep their time (each
    starts after the pause of the one before) and the first is prompt (the backoff
    does not give up at once).  Then the health check of the pod makes at most 122
    rounds; until it has an answer it can make another, whatever the network does;
    and it does get an answer, never a dropped channel, which the event watcher
    can take at once.  On a success it goes on to phase 3, unless nobody can take
    the pod any more; on that, and on a failure, it ends. *)
Theorem phase2_decides (a : api Pod) (now : Z) (connected : result unit kube_error)
  (evs : list (live_event D)) (s : live B D) (effs : list (pm_effect D)) (b : B) (p : Pod)
  (Hrun : run_live (live_new a now connected) evs = Some (s, effs))
  (Hphase : pm_watcher (lv_pm s) = Phase2 b p) :
  exists t, lv_check s = Some t /\
  (prompt_and_timely t (rounds_of evs) ->
   (length (rounds_of evs) <= 122)%nat /\
   ((t_exit t = Polling /\ forall r, is_Some (step s (LvRound r))) \/
    exists r, t_exit t = Returned (Some r) /\
    forall now' connect, exists s' effs', step s (LvOutcome now' connect) = Some (s', effs') /\
      match r with
      | Ok _ => if shim_gone (pm_handle (lv_pm s)) then ew_ended (pm_watcher (lv_pm s')) = true
                else exists b', pm_watcher (lv_pm s') = Phase3 b' p
      | Err e => ew_ended (pm_watcher (lv_pm s')) = true
      end)).
Proof.
  apply live_reachable in Hrun as HI. destruct (live_reachable_pm _ _ _ _ _ _ _ _ _ _ _ Hrun) as (ins & HP & _).
  destruct (li_phase2 _ _ _ _ _ HI _ _ Hphase) as (_ & t & Hc & [Hu Hro Hok]).
  exists t. split; [done|]. rewrite <- Hro. intros [Hfirst Htimely].
  split; [by apply (task_bounded (B := B))|].
  destruct (check_unsignalled (B := B) (t_uri t) (t_start t) (t_rounds t) Hfirst) as [Hp|[r Hr]];
    rewrite <- (task_loop _ Hok) in *; [left|right].
  - split; [done|]. intros r. simpl. rewrite Hc. simpl. unfold task_round, t_exit. rewrite Hp. eauto.
  - exists r. split; [done|]. intros now' connect. by apply (outcome_taken _ _ _ _ _ ins (signals (watcher_did effs)) s b p t).
Qed.

(** C25: the event watcher is never held up by the health check: whatever the
    stream gives it, and whatever the network does in the round [r1] that is under
    way and in the round [r2] after it, its iteration completes once the task, if
    it is to be killed, has made none, one or both of these rounds, at the latest
    after the shim has taken a result. *)
Theorem poll_never_blocked (a : api Pod) (now0 : Z) (connected : result unit kube_error)
  (evs : list (live_event D)) (s : live B D) (effs : list (pm_effect D))
  (now : Z) (connect : result unit kube_error) (r1 r2 : round)
  (Hrun : run_live (live_new a now0 connected) evs = Some (s, effs))
  (Halive : ew_ended (pm_watcher (lv_pm s)) = false)
  (Hready : try_next (lv_api s) (lv_stream s) <> Pending /\ try_next (lv_api s) (lv_stream s) <> OutOfFuel)
  (Hafter : now <= r_now r2) :
  exists n, (n <= 2)%nat /\
    (is_Some (step s (LvPoll now connect (take n [r1; r2]))) \/
     exists s1 effs1, step s (LvOther (PmShim (ShimTake now))) = Some (s1, effs1) /\
       is_Some (step s1 (LvPoll now connect (take n [r1; r2])))).
Proof.
  apply live_reachable in Hrun as HI. destruct (live_reachable_pm _ _ _ _ _ _ _ _ _ _ _ Hrun) as (ins & HP & _).
  set (input := match try_next (lv_api s) (lv_stream s) with
                | Ready (next, _, _) => FromK8s next | _ => StreamPanicked end).
  set (at_ := match try_next (lv_api s) (lv_stream s) with
              | Ready (_, st, a) => (a, st) | _ => (lv_api s, lv_stream s) end).
  assert (Hpoll : forall pm l, step {| lv_pm := pm; lv_api := lv_api s; lv_stream := lv_stream s; lv_check := lv_check s |}
      (LvPoll now connect l) =
    iterate parse_endpoint latest cu pod_id ttl {| lv_pm := pm; lv_api := lv_api s; lv_stream := lv_stream s;
      lv_check := lv_check s |} now connect input l at_.1 at_.2).
  { intros pm l. unfold input, at_. simpl. destruct Hready. by destruct (try_next _ _) as [[[]]| | |]. }
  assert (He : is_Some (ew_step parse_endpoint pod_id (pm_watcher (lv_pm s))
    (watcher_env (lv_pm s) now connect) input)).
  { unfold input. destruct (try_next _ _) as [[[next st] aa]| | |], (pm_watcher (lv_pm s)); try done; simpl; eauto. }
  assert (Hni : forall st, input <> FromCheck st) by (unfold input; by destruct (try_next _ _) as [[[]]| | |]).
  destruct (watcher_unblocked parse_endpoint latest cu pod_id ttl _ _ _ _ _ _ HP He) as [Hm|(pm1 & e1 & Ht & Hpw & Hm)].
  - destruct (iterate_enabled parse_endpoint latest cu pod_id ttl _ _ _ _ _ _ now connect at_.1 at_.2 r1 r2 HI eq_refl Hni
      Hafter Hm) as (n & Hn & Hi). exists n. split; [done|left]. rewrite <- Hpoll in Hi. by destruct s.
  - destruct (iterate_enabled parse_endpoint latest cu pod_id ttl _ _ _ _ _ _ now connect at_.1 at_.2 r1 r2 HI Hpw Hni
      Hafter Hm) as (n & Hn & Hi). exists n. split; [done|right]. rewrite <- Hpoll in Hi.
    simpl in Ht |- *. rewrite Ht. do 2 eexists. by split.
Qed.

(** C13: a panic of the stream does not leave the pod behind: when the API server
    leaves out a version while the pod runs, the event watcher dies without a
    word, and the garbage collector, if it lives, deletes the pod as soon as it
    notices, after at most one other message. *)
Theorem crash_is_cleaned_up (a : api Pod) (now0 : Z) (connected : result unit kube_error)
  (evs : list (live_event D)) (s : live B D) (effs : list (pm_effect D)) (b : B) (p : Pod)
  (now : Z) (connect : result unit kube_error) (env : gc_env D) (t : KeepAliveTicket D)
  (Hrun : run_live (live_new a now0 connected) evs = Some (s, effs))
  (Hphase : pm_watcher (lv_pm s) = Phase2 b p \/ pm_watcher (lv_pm s) = Phase3 b p)
  (Hgc : gc_alive (pm_collector (lv_pm s)) = true)
  (Hpanic : try_next (lv_api s) (lv_stream s) = Panicked)
  (Henv : env_connect env = Ok tt /\ env_patch env = Ok tt)
  (Hticket : ticket_new latest pod_id ttl (env_utc env) (env_instant env) = Done t) :
  exists n s' effs', (n <= 2)%nat /\
    run_live s (LvPoll now connect [] :: replicate n (LvOther (PmPull env))) = Some (s', effs') /\
    pm_watcher (lv_pm s') = EwPanicked /\ gc_alive (pm_collector (lv_pm s')) = false /\
    last effs' = Some (CollectorDid (GcDelete pod_id)).
Proof.
  destruct (live_reachable_pm _ _ _ _ _ _ _ _ _ _ _ Hrun) as (ins & HP & _).
  pose proof (running_is_timed _ _ _ _ _ _ HP Hphase Hgc) as Ht.
  pose proof (pm_lower _ _ _ _ HP) as Hlo. destruct Henv as [Hc Hp].
  destruct s as [[w ch g [al ib sh ar ob up ph]] aa st c]. simpl in *.
  assert (Hal : al = true) by (destruct Hphase as [-> | ->]; done). subst al.
  destruct Ht as [(k & -> & ->)|[-> ->]]; [exists 1%nat|exists 2%nat];
    destruct Hphase as [-> | ->]; do 2 eexists; (split; [lia|]);
    cbn [live_run live_step lv_api lv_stream]; rewrite Hpanic; unfold iterate, pm_step, watcher_moves; cbn;
    rewrite ?(bool_decide_true (1 <= CHANNEL_CAPACITY)%nat) by (unfold CHANNEL_CAPACITY; lia); cbn;
    unfold collector_moves; cbn; unfold begin_countdown; rewrite ?Hc, ?Hticket; cbn; unfold patch_then; rewrite ?Hp; cbn;
    (split; [reflexivity|]); destruct (env_delete env); by split_and!.
Qed.
End LiveTheorems.

(** ** Witnesses *)

(** A server that has no pod at first, then queues and starts one, and later
    forgets a version. *)
Definition example_script : api Pod := {|
  lists := [Ok {| list_items := []; list_version := Some "1" |}];
  watches := [Ok {| items := [Ok (WAdded example_pod); Ok (WModified example_pod); Ok (WModified dead_pod)];
                    stays_open := true |}];
  calls := [] |}.

Definition example_start : list (live_event Z) :=
  [ LvOther (PmClient WaitCall);
    LvPoll 0 (Ok tt) []; LvPoll 0 (Ok tt) []; LvPoll 0 (Ok tt) [];
    LvRound (dial_at 0 3000000 (Err "connection refused"));
    LvRound (dial_at 503000000 2000000 (Ok tt)) ].

Definition example_visit : list (live_event Z) :=
  example_start ++
  [ LvOutcome 1260000000 (Ok tt); LvOther (PmPull (calm_gc 2)); LvOther (PmShim (ShimTake 2));
    LvOther (PmShim ShimPass); LvOther (PmClient WaitReceive) ].

Definition example_live :=
  live_run (B := simple_backoff) Ok (from_secs 4000000000) false "oracle-0a1b" 1800
    (live_new example_script 0 (Ok tt)).

Lemma live_wait_ok_witness :
  exists s effs, example_live example_visit = Some (s, effs) /\
    healthy Ok example_script example_visit (lv_check s) example_pod.
Proof.
  do 2 eexists. split; [vm_compute; reflexivity|].
  eapply (live_wait_ok (B := simple_backoff) Ok (from_secs 4000000000) false "oracle-0a1b" 1800
    example_script 0 (Ok tt) example_visit).
  - vm_compute. reflexivity.
  - apply list_elem_of_In. simpl. auto 10.
Defined.

(** The state in which the health check has its answer. *)
Lemma phase2_decides_witness :
  exists s effs t r, example_live example_start = Some (s, effs) /\ lv_check s = Some t /\
  (length (rounds_of example_start) <= 122)%nat /\ t_exit t = Returned (Some r) /\
  exists s' effs', live_step Ok (from_secs 4000000000) false "oracle-0a1b" 1800 s (LvOutcome 2000000000 (Ok tt)) =
    Some (s', effs').
Proof.
  do 2 eexists.
  edestruct (phase2_decides (B := simple_backoff) Ok (from_secs 4000000000) false "oracle-0a1b" 1800
    example_script 0 (Ok tt) example_start) as (t & Hc & Ht); [vm_compute; reflexivity|vm_compute; reflexivity|].
  vm_compute in Hc. injection Hc as <-.
  destruct Ht as (Hlen & [[Hp _]|(r & Hr & Hs)]).
  - split; [intros r rest [= <- <-]; split; vm_compute; discriminate|].
    vm_compute. repeat split; discriminate.
  - discriminate Hp.
  - destruct (Hs 2000000000 (Ok tt)) as (s' & effs' & Hs' & _).
    eexists _, r. split; [vm_compute; reflexivity|]. split; [reflexivity|]. split; [exact Hlen|].
    split; [exact Hr|]. exists s', effs'. exact Hs'.
Defined.

(** The pod is deleted while its first connection hangs: the task is killed in
    that round. *)
Definition deleting_script : api Pod := {|
  lists := [Ok {| list_items := []; list_version := Some "1" |}];
  watches := [Ok {| items := [Ok (WAdded example_pod); Ok (WModified example_pod); Ok (WDeleted example_pod)];
                    stays_open := true |}];
  calls := [] |}.

Definition hanging_at (now : Z) : round :=
  {| r_now := now; r_late := 0; r_grace := 0; r_connection := None;
     r_tie_pause := false; r_tie_dial := false; r_tie_connection := false |}.

Lemma poll_never_blocked_witness :
  exists s effs n, live_run (B := simple_backoff) (D := Z) Ok (from_secs 4000000000) false "oracle-0a1b" 1800
      (live_new deleting_script 0 (Ok tt)) (take 4 example_start) = Some (s, effs) /\ (n <= 2)%nat /\
    (is_Some (live_step Ok (from_secs 4000000000) false "oracle-0a1b" 1800 s
      (LvPoll 600000000 (Ok tt) (take n [hanging_at 0; hanging_at 700000000]))) \/
     exists s1 effs1,
       live_step Ok (from_secs 4000000000) false "oracle-0a1b" 1800 s (LvOther (PmShim (ShimTake 600000000))) =
         Some (s1, effs1) /\
       is_Some (live_step Ok (from_secs 4000000000) false "oracle-0a1b" 1800 s1
         (LvPoll 600000000 (Ok tt) (take n [hanging_at 0; hanging_at 700000000])))).
Proof.
  do 2 eexists.
  edestruct (poll_never_blocked (B := simple_backoff) Ok (from_secs 4000000000) false "oracle-0a1b" 1800
    deleting_script 0 (Ok tt) (take 4 example_start)) as (n & Hn & H');
    [..|exists n; split; [vm_compute; reflexivity|split; [exact Hn|exact H']]].
  - vm_compute. reflexivity.
  - reflexivity.
  - vm_compute. split; discriminate.
  - vm_compute. discriminate.
Defined.

Lemma crash_is_cleaned_up_witness :
  exists s effs n s' effs', example_live (take 4 example_start) = Some (s, effs) /\ (n <= 2)%nat /\
    live_run Ok (from_secs 4000000000) false "oracle-0a1b" 1800 s
      (LvPoll 9 (Ok tt) [] :: replicate n (LvOther (PmPull (calm_gc 9)))) = Some (s', effs') /\
    pm_watcher (lv_pm s') = EwPanicked /\ gc_alive (pm_collector (lv_pm s')) = false /\
    last effs' = Some (CollectorDid (GcDelete "oracle-0a1b")).
Proof.
  do 2 eexists.
  edestruct (crash_is_cleaned_up (B := simple_backoff) Ok (from_secs 4000000000) false "oracle-0a1b" 1800
    example_script 0 (Ok tt) (take 4 example_start)) as (n & s' & effs' & H');
    [..|exists n, s', effs'; split; [vm_compute; reflexivity|exact H']].
  - vm_compute. reflexivity.
  - left. vm_compute. reflexivity.
  - reflexivity.
  - vm_compute. reflexivity.
  - split; reflexivity.
  - vm_compute. reflexivity.
Defined.

Lemma live_refines_manager_witness :
  exists s effs pevs n rs, example_live example_visit = Some (s, effs) /\
    pm_run (B := simple_backoff) Ok (from_secs 4000000000) false "oracle-0a1b" 1800 (pm_new 0 (Ok tt)) pevs =
      Some (lv_pm s, effs) /\
    pulls pod_version n example_script Empty = Ready (rs, lv_stream s, lv_api s) /\
    k8s_items (inputs_of pevs) = map as_next rs.
Proof.
  do 2 eexists.
  edestruct (live_refines_manager (B := simple_backoff) Ok (from_secs 4000000000) false "oracle-0a1b" 1800
    example_script 0 (Ok tt) example_visit) as (pevs & n & rs & H');
    [|exists pevs, n, rs; split; [vm_compute; reflexivity|exact H']].
  vm_compute. reflexivity.
Defined.
