(* ===== verification/Acm.v ===== *)
(** * The connector manager's cache and endpoints

    [service/acm/src/podmanager/mod.rs] (the cache of pod managers) and
    [service/acm/src/main.rs] (the four HTTP handlers).

    The cache holds [Arc]s: a manager is an object of a heap, the cache maps the
    name of a pod to its address, and a handler keeps the address it was given
    whatever happens to the cache.  What a manager does behind its mutex is the
    interface [Manager]; [PodManager.v] is about its coroutines, and [Service.v] about
    the same handlers when they interleave.  The standard
    library's environment variables are arguments. *)

From S2P Require Import Prelude RustStr Json Errors Names Pod Kube Backoff GarbageCollector.

(** ** Errors and payloads *)

Inductive AcmMainError := PodManagerNotFound (id : string).

#[export] Instance AcmMainError_AcmError : AcmError AcmMainError := {|
  acm_error := {|
    display e := match e with
      | PodManagerNotFound id =>
          "The pod manager for " +:+ id +:+
          " could not be found. If an error occurred in the requested pod then the caller has one hour to consume the message before the record is dropped. This message may also only be consumed once. Alternatively, the calling client may have been configured for the incorrect ACM (Alation Connection Manager) that was not in possession of the requested pod manager."
      end;
    source _ := None |};
  acm_code _ := Status.NotFound;
  acm_kind _ := "PodManagerNotFound";
|}.

Record PodTicket (D : Type) := { ticket_pod : Pod; ticket_ticket : KeepAliveTicket D }.
Arguments ticket_pod {D} _.
Arguments ticket_ticket {D} _.
#[export] Instance kind_PodTicket {D} : Kind (PodTicket D) := fun _ => "PodTicket".
#[export] Instance serialize_PodTicket {D} `{Serialize Pod} : Serialize (PodTicket D) := fun t =>
  JObj [("pod", serialize (ticket_pod t)); ("ticket", serialize (ticket_ticket t))].

(** ** Managers *)

(** What a handler can do with the manager that it has locked: [wait] and
    [refresh] return a result and leave the manager in a new state; [spawn] is
    the state that [new_podmanager] starts from. *)
Class Manager (D M : Type) := {
  spawn : string -> Z -> M;
  manager_wait : M -> Result Pod * M;
  manager_refresh : M -> Result (KeepAliveTicket D) * M;
}.

Record acm_state (W M : Type) := {
  world : W;
  cache : gmap string nat;
  heap : list M;
}.
Arguments world {W M} _.
Arguments cache {W M} _.
Arguments heap {W M} _.

Section Handlers.
Context {D M W : Type} `{Manager D M} `{PodApi W}.
Context (simple : Z -> string) (to_kebab : string -> string) (ua : Z -> bool).
Context (from_value : json -> result Pod string).

Notation S := (acm_state W M).

(** ** The cache *)

(** [PodManager::get]. *)
Definition get (id : string) (s : S) : Result nat :=
  ok_or (cache s !! id) (into_box (PodManagerNotFound id)).

(** [PodManager::new_podmanager]: the manager is inserted under its name. *)
Definition new_podmanager (id : string) (ttl : Z) (s : S) : S :=
  {| world := world s; cache := <[id := length (heap s)]> (cache s);
     heap := heap s ++ [spawn id ttl] |}.

(** The last task of [new_podmanager], after the coroutines have been joined:
    the number of managers that are still alive is logged. *)
Definition cleanup (id : string) (s : S) : S * nat :=
  let managers := delete id (cache s) in
  ({| world := world s; cache := managers; heap := heap s |}, size managers).

(** The mutex: an operation on the manager at an address.  The address comes
    from the cache, so that the object exists. *)
Definition locked {A} (addr : nat) (op : M -> A * M) (s : S) : run A * S :=
  match heap s !! addr with
  | Some m =>
      let '(a, m') := op m in
      (Done a, {| world := world s; cache := cache s; heap := <[addr := m']> (heap s) |})
  | None => (Panic "dangling", s)
  end.

(** ** The handlers *)

Definition image_reference (registry repository : option string) (tag : string) : string :=
  unwrap_or registry "registry.kurl" +:+ "/" +:+ unwrap_or repository "ocf" +:+ ":" +:+ tag.

(** [POST /deploy]. *)
Definition deploy_endpoint (registry repository : option string) (random : Z)
  (tag name : string) (ttl : option Z) (s : S) : run (Result (Response Pod)) * S :=
  let reference := image_reference registry repository tag in
  let ttl := unwrap_or ttl DEFAULT_TTL in
  let '(r, w) := deploy simple to_kebab ua from_value random reference name ttl (world s) in
  let s := {| world := w; cache := cache s; heap := heap s |} in
  match r with
  | Panic m => (Panic m, s)
  | Done (Err e) => (Done (Err e), s)
  | Done (Ok pod) =>
      match pod_name pod with
      | Panic m => (Panic m, s)
      | Done n => (Done (Ok (into_response pod)), new_podmanager n ttl s)
      end
  end.

(** [GET /wait]. *)
Definition wait_endpoint (id : string) (s : S) : run (Result (Response (PodTicket D))) * S :=
  match get id s with
  | Err e => (Done (Err e), s)
  | Ok addr =>
      match locked addr manager_wait s with
      | (Panic m, s) => (Panic m, s)
      | (Done (Err e), s) => (Done (Err e), s)
      | (Done (Ok pod), s) =>
          match locked addr manager_refresh s with
          | (Panic m, s) => (Panic m, s)
          | (Done (Err e), s) => (Done (Err e), s)
          | (Done (Ok t), s) =>
              (Done (Ok (into_response {| ticket_pod := pod; ticket_ticket := t |})), s)
          end
      end
  end.

(** [POST /refresh]. *)
Definition refresh_endpoint (id : string) (s : S) : run (Result (Response (KeepAliveTicket D))) * S :=
  match get id s with
  | Err e => (Done (Err e), s)
  | Ok addr =>
      match locked addr manager_refresh s with
      | (Panic m, s) => (Panic m, s)
      | (Done (Err e), s) => (Done (Err e), s)
      | (Done (Ok t), s) => (Done (Ok (into_response t)), s)
      end
  end.

(** [DELETE /delete]; the two kinds of success are logged differently. *)
Definition delete_endpoint (id : string) (s : S) : run (Result (Response unit)) * S :=
  let '(r, w) := k8s_delete id (world s) in
  let s := {| world := w; cache := cache s; heap := heap s |} in
  match r with
  | Panic m => (Panic m, s)
  | Done (Err e) => (Done (Err e), s)
  | Done (Ok (inl pod)) =>
      match pod_name pod with
      | Panic m => (Panic m, s)
      | Done _ => (Done (Ok (into_response tt)), s)
      end
  | Done (Ok (inr _)) => (Done (Ok (into_response tt)), s)
  end.

(** ** [adoption.rs]

    The pods of the namespace [ocf] whose servicing ACM is not among the running
    ones; a pod without the label panics. *)
Definition servicer_of (p : Pod) : run string :=
  let! labels := unwrap (meta_labels (metadata p)) unwrap_none in
  unwrap (assoc "servicer" labels) unwrap_none.

Fixpoint orphans (acms : gset string) (pods : list Pod) : run (list Pod) :=
  match pods with
  | [] => Done []
  | pod :: rest =>
      let! servicer := servicer_of pod in
      let! rest := orphans acms rest in
      Done (if decide (servicer ∈ acms) then rest else pod :: rest)
  end.

Definition find_orphans (pods acms : result (list Pod) kube_error) : run (list Pod) :=
  let! pods := unwrap_result pods unwrap_none in
  let! acms := unwrap_result acms unwrap_none in
  let! names := foldr (fun acm names => let! n := pod_name acm in let! ns := names in Done ({[ n ]} ∪ ns))
                  (Done (∅ : gset string)) acms in
  orphans names pods.

(** ** The specification

    Abstractly the cache is a map from the names of pods to managers. *)
Definition manager_of (s : S) (id : string) : option M := cache s !! id ≫= (heap s !!.).

(** Every address of the cache is that of an object, and no two names share
    one. *)
Record acm_wf (s : S) : Prop := {
  wf_alive : forall id addr, cache s !! id = Some addr -> (addr < length (heap s))%nat;
  wf_unshared : forall id id' addr, cache s !! id = Some addr -> cache s !! id' = Some addr -> id = id';
}.

(** One thing that happens to the service. *)
Inductive acm_op :=
| OpDeploy (registry repository : option string) (random : Z) (tag name : string) (ttl : option Z)
| OpWait (id : string)
| OpRefresh (id : string)
| OpDelete (id : string)
| OpCleanup (id : string).

Definition acm_exec (op : acm_op) (s : S) : S :=
  match op with
  | OpDeploy registry repository random tag name ttl =>
      (deploy_endpoint registry repository random tag name ttl s).2
  | OpWait id => (wait_endpoint id s).2
  | OpRefresh id => (refresh_endpoint id s).2
  | OpDelete id => (delete_endpoint id s).2
  | OpCleanup id => (cleanup id s).1
  end.
End Handlers.

(** What the map of managers becomes: a successful deployment adds a fresh
    manager under the name of its pod, the client's calls change the manager they
    name, and the clean-up removes it. *)
Definition waited {D M} `{Manager D M} (m : M) : M :=
  match manager_wait m with
  | (Ok _, m') => (manager_refresh m').2
  | (Err _, m') => m'
  end.

(** ** Lemmas *)

Section Lemmas.
Context {D M W : Type} `{Manager D M} `{PodApi W}.
Context (simple : Z -> string) (to_kebab : string -> string) (ua : Z -> bool).
Context (from_value : json -> result Pod string).
Notation S := (acm_state W M).

Lemma manager_of_lookup (s : S) id addr :
  acm_wf s -> cache s !! id = Some addr -> exists m, heap s !! addr = Some m /\ manager_of s id = Some m.
Proof.
  intros Hwf Hc. destruct (lookup_lt_is_Some_2 (heap s) addr) as [m Hm]; [by eapply wf_alive|].
  exists m. split; [done|]. unfold manager_of. by rewrite Hc.
Qed.

(** An operation under the lock changes one manager. *)
Lemma locked_spec {A} (s : S) id addr (op : M -> A * M) :
  acm_wf s -> cache s !! id = Some addr ->
  exists m s', manager_of s id = Some m /\ locked addr op s = (Done (op m).1, s') /\
    acm_wf s' /\ cache s' = cache s /\ world s' = world s /\
    forall id', manager_of s' id' = if decide (id' = id) then Some (op m).2 else manager_of s id'.
Proof.
  intros Hwf Hc. destruct (manager_of_lookup s id addr Hwf Hc) as (m & Hm & Hof).
  exists m. unfold locked. rewrite Hm. destruct (op m) as [a m'] eqn:Eop. eexists. split_and!; [done|done| |done|done|].
  - split; simpl; [|apply Hwf]. intros id' addr' Hc'. rewrite length_insert. by apply (wf_alive s Hwf id').
  - intros id'. unfold manager_of. cbn [cache heap snd]. case_decide as Heq; [subst id'|].
    + rewrite Hc. simpl. apply list_lookup_insert_eq. by eapply wf_alive.
    + destruct (cache s !! id') as [addr'|] eqn:Hc'; [|done]. simpl.
      rewrite list_lookup_insert_ne; [done|]. intros <-. apply Heq. by eapply wf_unshared.
Qed.

Lemma new_podmanager_spec id ttl (s : S) :
  acm_wf s -> acm_wf (new_podmanager id ttl s) /\
  forall id', manager_of (new_podmanager id ttl s) id' =
    if decide (id' = id) then Some (spawn id ttl) else manager_of s id'.
Proof.
  intros [Ha Hu]. split; [split; simpl|].
  - intros id' addr. rewrite length_app. simpl. destruct (decide (id' = id)) as [->|Hne].
    + rewrite lookup_insert_eq. intros [= <-]. lia.
    + rewrite lookup_insert_ne by done. intros ?%Ha. lia.
  - intros i i' addr. destruct (decide (i = id)) as [->|Hi], (decide (i' = id)) as [->|Hi'];
      rewrite ?lookup_insert_eq, ?lookup_insert_ne by done; try done.
    + intros [= <-] ?%Ha. lia.
    + intros ?%Ha [= <-]. lia.
    + apply Hu.
  - intros id'. unfold manager_of. simpl. case_decide as Heq; [subst id'|].
    + rewrite lookup_insert_eq. simpl. rewrite lookup_app_r by done. by rewrite Nat.sub_diag.
    + rewrite lookup_insert_ne by done. destruct (cache s !! id') as [addr|] eqn:Hc; [|done]. simpl.
      apply lookup_app_l. by eapply Ha.
Qed.

Lemma get_None id (s : S) : cache s !! id = None -> get id s = Err (into_box (PodManagerNotFound id)).
Proof. unfold get. by intros ->. Qed.

Lemma manager_of_None id (s : S) : acm_wf s -> manager_of s id = None -> cache s !! id = None.
Proof.
  intros Hwf Hn. destruct (cache s !! id) as [addr|] eqn:E; [|done].
  destruct (manager_of_lookup s id addr Hwf E) as (m & _ & ?). congruence.
Qed.
End Lemmas.

(** ** Refinement: the cache and the heap implement a map of managers *)

Section Refinement.
Context {D M W : Type} `{Manager D M} `{PodApi W}.
Context (simple : Z -> string) (to_kebab : string -> string) (ua : Z -> bool).
Context (from_value : json -> result Pod string).
Notation S := (acm_state W M).
Notation exec := (acm_exec (D := D) (M := M) simple to_kebab ua from_value).

Definition spec_exec (op : acm_op) (a : W * gmap string M) : W * gmap string M :=
  let '(w, g) := a in
  match op with
  | OpDeploy registry repository random tag name ttl =>
      let ttl := unwrap_or ttl DEFAULT_TTL in
      let '(r, w') := deploy simple to_kebab ua from_value random
                        (image_reference registry repository tag) name ttl w in
      (w', match r with
           | Done (Ok pod) =>
               match pod_name pod with Done n => <[n := spawn n ttl]> g | Panic _ => g end
           | _ => g
           end)
  | OpWait id => (w, alter waited id g)
  | OpRefresh id => (w, alter (fun m => (manager_refresh m).2) id g)
  | OpDelete id => ((k8s_delete id w).2, g)
  | OpCleanup id => (w, delete id g)
  end.

Definition refines (s : S) (a : W * gmap string M) : Prop :=
  acm_wf s /\ world s = a.1 /\ forall id, manager_of s id = a.2 !! id.

Lemma refines_world (s : S) w g w' :
  refines s (w, g) -> refines {| world := w'; cache := cache s; heap := heap s |} (w', g).
Proof. intros ([Ha Hu] & _ & Hm). split_and!; [by split|done|exact Hm]. Qed.

Lemma refines_spawn (s : S) w g n ttl :
  refines s (w, g) -> refines (new_podmanager n ttl s) (w, <[n := spawn n ttl]> g).
Proof.
  intros (Hwf & Hw & Hm). destruct (new_podmanager_spec n ttl s Hwf) as [Hwf' Hs].
  split_and!; [done|done|]. intros id. rewrite Hs. simpl in *. case_decide; [subst|].
  - by rewrite lookup_insert_eq.
  - by rewrite lookup_insert_ne.
Qed.

(** An operation under the lock alters one entry of the map. *)
Lemma refines_locked {A} (s : S) w g id m (op : M -> A * M) :
  refines s (w, g) -> g !! id = Some m ->
  exists addr s', cache s !! id = Some addr /\ cache s' = cache s /\
    locked addr op s = (Done (op m).1, s') /\ refines s' (w, <[id := (op m).2]> g).
Proof.
  intros (Hwf & Hw & Hm) Hg. simpl in *. specialize (Hm id) as Hid. rewrite Hg in Hid.
  destruct (cache s !! id) as [addr|] eqn:Hc; [|unfold manager_of in Hid; by rewrite Hc in Hid].
  destruct (locked_spec s id addr op Hwf Hc) as (m1 & s1 & Hm1 & Hl & Hwf1 & Hc1 & Hw1 & Ho1).
  assert (m1 = m) as -> by congruence. exists addr, s1. split_and!; [done|done|done|].
  split_and!; [done|simpl; congruence|]. intros id'. rewrite Ho1. simpl.
  case_decide; [subst; by rewrite lookup_insert_eq|by rewrite lookup_insert_ne].
Qed.

(** Nothing under the name: 404, and nothing happens. *)
Lemma refines_missing (s : S) w g id :
  refines s (w, g) -> g !! id = None -> get id s = Err (into_box (PodManagerNotFound id)).
Proof.
  intros (Hwf & _ & Hm) Hg. apply get_None, manager_of_None; [done|]. by rewrite Hm.
Qed.

Lemma alter_known (g : gmap string M) id m (f : M -> M) : g !! id = Some m -> alter f id g = <[id := f m]> g.
Proof.
  intros Hg. apply map_eq. intros i. rewrite lookup_alter. destruct (decide (i = id)) as [->|Hne].
  - rewrite decide_True by done. by rewrite Hg, lookup_insert_eq.
  - rewrite decide_False by done. by rewrite lookup_insert_ne.
Qed.

Definition wait_answer (m : M) : Result (Response (PodTicket D)) :=
  match manager_wait m with
  | (Err e, _) => Err e
  | (Ok pod, m') =>
      match (manager_refresh m').1 with
      | Err e => Err e
      | Ok t => Ok (into_response {| ticket_pod := pod; ticket_ticket := t |})
      end
  end.

Lemma wait_endpoint_some (s : S) w g id m :
  refines s (w, g) -> g !! id = Some m ->
  exists s', wait_endpoint id s = (Done (wait_answer m), s') /\ refines s' (w, alter waited id g).
Proof.
  intros Hr Hg. rewrite (alter_known g id m) by done.
  destruct (refines_locked s w g id m manager_wait Hr Hg) as (addr & s1 & Hc & Hc1 & Hl & Hr1).
  unfold wait_endpoint, get, wait_answer, waited. rewrite Hc. simpl. rewrite Hl.
  destruct (manager_wait m) as [[pod|e] m']; simpl in *; [|eauto].
  destruct (refines_locked s1 w _ id m' manager_refresh Hr1 (lookup_insert_eq g id m'))
    as (addr' & s2 & Hc' & _ & Hl2 & Hr2).
  assert (addr' = addr) as -> by congruence. rewrite insert_insert_eq in Hr2.
  rewrite Hl2. exists s2. split; [by destruct (manager_refresh m').1|done].
Qed.

Lemma refresh_endpoint_some (s : S) w g id m :
  refines s (w, g) -> g !! id = Some m ->
  exists s', refresh_endpoint id s =
    (Done (match (manager_refresh m).1 with Err e => Err e | Ok t => Ok (into_response t) end), s') /\
    refines s' (w, alter (fun m => (manager_refresh m).2) id g).
Proof.
  intros Hr Hg. rewrite (alter_known g id m) by done.
  destruct (refines_locked s w g id m manager_refresh Hr Hg) as (addr & s1 & Hc & Hc1 & Hl & Hr1).
  unfold refresh_endpoint, get. rewrite Hc. simpl. rewrite Hl. exists s1.
  split; [by destruct (manager_refresh m).1|done].
Qed.

Lemma alter_missing (g : gmap string M) id (f : M -> M) : g !! id = None -> alter f id g = g.
Proof.
  intros Hg. apply map_eq. intros i. rewrite lookup_alter. case_decide as Hi; [|done].
  subst. by rewrite Hg.
Qed.

Lemma exec_refines op s a : refines s a -> refines (exec op s) (spec_exec op a).
Proof.
  destruct a as [w g]. intros Hr. pose proof Hr as (Hwf & Hw & Hm). simpl in Hw.
  destruct op as [reg repo rnd tag name ttl|id|id|id|id]; simpl.
  - unfold deploy_endpoint. rewrite Hw. destruct (deploy _ _ _ _ _ _ _ _ w) as [[[pod|e]|m] w'];
      try (by apply (refines_world s w)).
    destruct (pod_name pod); simpl; [apply refines_spawn|]; by apply (refines_world s w).
  - destruct (g !! id) as [m|] eqn:Hg.
    + by destruct (wait_endpoint_some s w g id m Hr Hg) as (s' & -> & ?).
    + rewrite alter_missing by done. unfold wait_endpoint. by rewrite (refines_missing s w g id).
  - destruct (g !! id) as [m|] eqn:Hg.
    + by destruct (refresh_endpoint_some s w g id m Hr Hg) as (s' & -> & ?).
    + rewrite alter_missing by done. unfold refresh_endpoint. by rewrite (refines_missing s w g id).
  - unfold delete_endpoint. rewrite Hw. destruct (k8s_delete id w) as [[[[pod|st]|e]|m] w'];
      try (by apply (refines_world s w)).
    destruct (pod_name pod); by apply (refines_world s w).
  - destruct Hwf as [Ha Hu]. split_and!; [split; simpl|done|]; simpl.
    + intros id' addr [_ ?]%lookup_delete_Some. eauto.
    + intros i i' addr [_ ?]%lookup_delete_Some [_ ?]%lookup_delete_Some. eauto.
    + intros id'. unfold manager_of. simpl. destruct (decide (id' = id)) as [->|Hne].
      * by rewrite !lookup_delete_eq.
      * rewrite !lookup_delete_ne by done. apply Hm.
Qed.

Lemma run_refines ops s a :
  refines s a -> refines (foldl (fun s op => exec op s) s ops) (foldl (fun a op => spec_exec op a) a ops).
Proof. revert s a; induction ops as [|op ops IH]; intros s a Hr; simpl; [done|]. by apply IH, exec_refines. Qed.

Lemma init_refines (w : W) : refines {| world := w; cache := ∅; heap := [] |} (w, ∅).
Proof. split_and!; [split; simpl; intros *; rewrite lookup_empty; done|done|done]. Qed.

(** ** Theorems *)

(** C18: whatever sequence of requests and clean-ups the service handles, its
    cache of shared managers behaves as a map from the names of pods to managers:
    a request changes the one manager it names, a deployment adds a fresh one,
    and a clean-up removes one. *)
Theorem service_refines_map (ops : list acm_op) (w : W) :
  refines (foldl (fun s op => exec op s) {| world := w; cache := ∅; heap := [] |} ops)
          (foldl (fun a op => spec_exec op a) (w, ∅) ops).
Proof. apply run_refines, init_refines. Qed.

(** The wait endpoint never panics: it answers [PodManagerNotFound] with
    404, and changes nothing, exactly when no manager has the name; an error of
    the manager's [wait] is passed on without a refresh; otherwise the pod comes
    with the ticket of a refresh made after the wait. *)
Theorem wait_endpoint_answers (s : S) (w : W) (g : gmap string M) (id : string)
  (Hs : refines s (w, g)) :
  match g !! id with
  | None => wait_endpoint id s = (Done (Err (into_box (PodManagerNotFound id))), s) /\
            dyn_code (into_box (PodManagerNotFound id)) = Status.NotFound
  | Some m => exists s', wait_endpoint id s = (Done (wait_answer m), s') /\
                refines s' (w, <[id := waited m]> g)
  end.
Proof.
  destruct (g !! id) as [m|] eqn:Hg.
  - rewrite <- (alter_known g id m) by done. by apply wait_endpoint_some.
  - split; [|done]. unfold wait_endpoint. by rewrite (refines_missing s w g id).
Qed.

(** A successful deployment is at once available to [wait] and [refresh]
    under the name of the pod that it answers with, as a fresh manager with the
    requested TTL; a deployment that fails leaves the managers as they were. *)
Theorem deploy_endpoint_registers (s : S) (w : W) (g : gmap string M)
  (registry repository : option string) (random : Z) (tag name : string) (ttl : option Z)
  (Hs : refines s (w, g)) :
  let '(r, s') := deploy_endpoint simple to_kebab ua from_value registry repository random tag name ttl s in
  match r with
  | Done (Ok resp) => exists n, pod_name (payload resp) = Done n /\
      refines s' (world s', <[n := spawn n (unwrap_or ttl DEFAULT_TTL)]> g)
  | _ => refines s' (world s', g) /\ cache s' = cache s /\ heap s' = heap s
  end.
Proof.
  unfold deploy_endpoint. destruct (deploy _ _ _ _ _ _ _ _ (world s)) as [[[pod|e]|m] w'];
    try (split_and!; [by apply (refines_world s w)|done|done]).
  destruct (pod_name pod) as [n|m] eqn:En.
  - exists n. split; [done|]. apply refines_spawn. by apply (refines_world s w).
  - split_and!; [by apply (refines_world s w)|done|done].
Qed.
End Refinement.

(** ** Witnesses *)

(** A manager that is ready at once and issues one ticket after the other. *)
Record eager := { eager_pod : string; eager_ttl : Z; eager_refreshes : Z }.

#[export] Instance eager_Manager : Manager Z eager := {|
  spawn id ttl := {| eager_pod := id; eager_ttl := ttl; eager_refreshes := 0 |};
  manager_wait m := (Ok example_pod, m);
  manager_refresh m :=
    (Ok {| ticket := eager_pod m; execution_date := eager_ttl m; ticket_now := 0;
           ticket_then := eager_ttl m; execution_instant := from_secs (eager_ttl m) |},
     {| eager_pod := eager_pod m; eager_ttl := eager_ttl m; eager_refreshes := eager_refreshes m + 1 |});
|}.

Definition eager_state : acm_state mem_server eager :=
  acm_exec hex_simple space_kebab no_unicode name_from_value
    (OpDeploy None None 0 "t" "Oracle" (Some 150)) {| world := mem_example; cache := ∅; heap := [] |}.

Definition eager_map : gmap string eager :=
  {[ example_name := {| eager_pod := example_name; eager_ttl := 150; eager_refreshes := 0 |} ]}.

Lemma eager_refines : refines eager_state (world eager_state, eager_map).
Proof.
  pose proof (run_refines hex_simple space_kebab no_unicode name_from_value
    [OpDeploy None None 0 "t" "Oracle" (Some 150)] _ _ (init_refines (M := eager) mem_example)) as Hr.
  cbn [foldl] in Hr. fold eager_state in Hr. destruct Hr as (Hwf & Hw & Hm).
  split_and!; [done|done|]. intros id. rewrite Hm. vm_compute. reflexivity.
Qed.

Lemma wait_endpoint_answers_witness :
  exists s', wait_endpoint example_name eager_state =
      (Done (wait_answer {| eager_pod := example_name; eager_ttl := 150; eager_refreshes := 0 |}), s') /\
    refines s' (world eager_state,
      <[example_name := waited {| eager_pod := example_name; eager_ttl := 150; eager_refreshes := 0 |}]> eager_map).
Proof. exact (wait_endpoint_answers eager_state (world eager_state) eager_map example_name eager_refines). Defined.

Lemma deploy_endpoint_registers_witness :
  let '(r, s') := deploy_endpoint hex_simple space_kebab no_unicode name_from_value
    None None 1 "u" "Mongo" None eager_state in
  match r with
  | Done (Ok resp) => exists n, pod_name (payload resp) = Done n /\
      refines s' (world s', <[n := spawn n (unwrap_or None DEFAULT_TTL)]> eager_map)
  | _ => refines s' (world s', eager_map) /\ cache s' = cache eager_state /\ heap s' = heap eager_state
  end.
Proof.
  exact (deploy_endpoint_registers hex_simple space_kebab no_unicode name_from_value eager_state
    (world eager_state) eager_map None None 1 "u" "Mongo" None eager_refines).
Defined.
