(* ===== verification/Service.v ===== *)
(** * The connector manager under concurrent requests

    [service/acm/src/main.rs] and [podmanager/mod.rs] again, now as a system in
    which requests, the coroutines of many managers and the clean-up tasks
    interleave.  A request is a thread that moves from one [await] of its handler
    to the next: it looks its manager up in the cache, waits for the mutex of the
    manager, calls [wait] and [refresh] on it and releases the mutex when its
    handler returns.  ([Acm.v] is about the same handlers when each of them runs
    without interruption.)

    A manager is known through the interface [Machine]; [Live.v] discharges it at
    the end of the file. *)

From S2P Require Import Prelude RustStr Json Errors Names Pod Kube Watcher Backoff ServerCheck GarbageCollector ExternalHandle EventWatcher PodManager Live Acm.

(** ** Managers *)

(** What the service sees of a manager: [N] is what the environment contributes
    to a new one, [E] an event of its coroutines. *)
Class Machine (M E N D : Type) := {
  (** [new_podmanager(id, ttl)]. *)
  m_new : string -> Z -> N -> M;
  (** A move of its coroutines; [None] when it is not possible. *)
  m_step : M -> E -> option M;
  (** [wait()] up to its first [await], or to its end. *)
  m_wait_call : M -> option (M * option (Result Pod));
  (** The rest of [wait()]. *)
  m_wait_receive : M -> option (M * Result Pod);
  (** Whether the garbage collector still holds its end of the refresh channel. *)
  m_request_open : M -> bool;
  (** The garbage collector takes a request: the ticket that it answers with. *)
  m_refresh : M -> gc_env D -> option (M * option (KeepAliveTicket D));
  (** [join!] of its coroutines has returned. *)
  m_joined : M -> bool;
}.

(** What it promises. *)
Class MachineLaws (M E N D : Type) `{Machine M E N D} := {
  (** The invariant of the manager of a pod. *)
  m_ok : string -> M -> Prop;
  (** It has given its word for a pod. *)
  m_vouches : M -> Pod -> Prop;
  (** No client is inside [wait]. *)
  m_idle : M -> bool;
  (** Its event watcher has ended; how far it then is from its end; the moves
      that it makes by itself. *)
  m_ended : M -> bool;
  m_measure : M -> nat;
  m_internal : E -> bool;
  law_new id ttl n : m_ok id (m_new id ttl n) /\ m_idle (m_new id ttl n) = true;
  law_step id m e m' : m_ok id m -> m_step m e = Some m' ->
    m_ok id m' /\ m_idle m' = m_idle m /\ (forall p, m_vouches m p -> m_vouches m' p) /\
    (m_ended m = true -> m_ended m' = true /\
      (m_measure m' + (if m_internal e then 1 else 0) <= m_measure m)%nat);
  law_call id m : m_ok id m -> m_idle m = true -> exists m' r, m_wait_call m = Some (m', r) /\
    m_ok id m' /\ m_idle m' = bool_decide (is_Some r) /\ (forall p, m_vouches m p -> m_vouches m' p) /\
    (forall p, r = Some (Ok p) -> m_vouches m' p) /\
    (m_ended m = true -> m_ended m' = true /\ (m_measure m' <= m_measure m)%nat);
  law_receive id m m' r : m_ok id m -> m_wait_receive m = Some (m', r) ->
    m_ok id m' /\ m_idle m' = true /\ (forall p, m_vouches m p -> m_vouches m' p) /\
    (forall p, r = Ok p -> m_vouches m' p) /\
    (m_ended m = true -> m_ended m' = true /\ (m_measure m' <= m_measure m)%nat);
  law_refresh id m env m' t : m_ok id m -> m_refresh m env = Some (m', t) ->
    m_ok id m' /\ m_idle m' = m_idle m /\ (forall p, m_vouches m p -> m_vouches m' p) /\
    (forall k, t = Some k -> ticket k = id) /\
    (m_ended m = true -> m_ended m' = true /\ (m_measure m' <= m_measure m)%nat);
  law_bound id m : m_ok id m -> (m_measure m <= 5)%nat;
  law_progress id m : m_ok id m -> m_ended m = true -> m_joined m = false ->
    exists e, m_internal e = true /\ is_Some (m_step m e);
}.

(** ** The state of the service *)

(** A manager behind its mutex; [c_cleaned] when its last task has run. *)
Record cell (M : Type) := {
  c_id : string;
  c_machine : M;
  c_owner : option nat;
  c_cleaned : bool;
}.
Arguments c_id {M} _.
Arguments c_machine {M} _.
Arguments c_owner {M} _.
Arguments c_cleaned {M} _.

Inductive request :=
| ReqDeploy (registry repository : option string) (random : Z) (tag name : string) (ttl : option Z)
| ReqWait (id : string)
| ReqRefresh (id : string)
| ReqDelete (id : string).

Inductive response (D : Type) :=
| DeployAnswer (r : Result (Response Pod))
| WaitAnswer (r : Result (Response (PodTicket D)))
| RefreshAnswer (r : Result (Response (KeepAliveTicket D)))
| DeleteAnswer (r : Result (Response unit))
| HandlerPanicked (msg : string).
Arguments DeployAnswer {D} r.
Arguments WaitAnswer {D} r.
Arguments RefreshAnswer {D} r.
Arguments DeleteAnswer {D} r.
Arguments HandlerPanicked {D} msg.

(** Where a handler stands. *)
Inductive place (D : Type) :=
| AtRegister (pod : Pod) (name : string) (ttl : Z)   (* [new_podmanager(..).await] *)
| AtLock (addr : nat)                                (* [lock.lock().await] *)
| AtWait (addr : nat)                                (* [manager.wait()] *)
| AtReceive (addr : nat)                             (* inside [wait] *)
| AtRefresh (addr : nat) (pod : option Pod)          (* [manager.refresh()] *)
| AtReply (addr : nat) (pod : option Pod)            (* inside [refresh] *)
| Answered (r : response D).
Arguments AtRegister {D} pod name ttl.
Arguments AtLock {D} addr.
Arguments AtWait {D} addr.
Arguments AtReceive {D} addr.
Arguments AtRefresh {D} addr pod.
Arguments AtReply {D} addr pod.
Arguments Answered {D} r.

Record thread (D : Type) := { t_request : request; t_place : place D }.
Arguments t_request {D} _.
Arguments t_place {D} _.

Record service (W M D : Type) := {
  sv_world : W;
  sv_cache : gmap string nat;
  sv_heap : list (cell M);
  sv_threads : list (thread D);
}.
Arguments sv_world {W M D} _.
Arguments sv_cache {W M D} _.
Arguments sv_heap {W M D} _.
Arguments sv_threads {W M D} _.

Inductive sv_event (E N D : Type) :=
| EvRequest (r : request)
(** A thread goes on; [n] and [env] are what the environment answers. *)
| EvThread (tid : nat) (n : N) (env : gc_env D)
| EvManager (addr : nat) (e : E)
| EvCleanup (addr : nat).
Arguments EvRequest {E N D} r.
Arguments EvThread {E N D} tid n env.
Arguments EvManager {E N D} addr e.
Arguments EvCleanup {E N D} addr.

Section Service.
Context {W M E N D : Type} `{PodApi W} `{Machine M E N D}.
Context (simple : Z -> string) (to_kebab : string -> string) (ua : Z -> bool).
Context (from_value : json -> result Pod string).

Notation S := (service W M D).

(** ** Requests *)

(** The beginning of a handler, up to its first [await] that can block. *)
Definition arrive (r : request) (s : S) : W * place D :=
  let lookup id missing :=
    match sv_cache s !! id with
    | Some addr => AtLock addr
    | None => Answered (missing (into_box (PodManagerNotFound id)))
    end in
  match r with
  | ReqDeploy registry repository random tag name ttl =>
      let ttl := unwrap_or ttl DEFAULT_TTL in
      let '(o, w) := deploy simple to_kebab ua from_value random
                       (image_reference registry repository tag) name ttl (sv_world s) in
      (w, match o with
          | Panic m => Answered (HandlerPanicked m)
          | Done (Err e) => Answered (DeployAnswer (Err e))
          | Done (Ok pod) =>
              match pod_name pod with
              | Panic m => Answered (HandlerPanicked m)
              | Done n => AtRegister pod n ttl
              end
          end)
  | ReqWait id => (sv_world s, lookup id (fun e => WaitAnswer (Err e)))
  | ReqRefresh id => (sv_world s, lookup id (fun e => RefreshAnswer (Err e)))
  | ReqDelete id =>
      let '(o, w) := k8s_delete id (sv_world s) in
      (w, match o with
          | Panic m => Answered (HandlerPanicked m)
          | Done (Err e) => Answered (DeleteAnswer (Err e))
          | Done (Ok (inl pod)) =>
              match pod_name pod with
              | Panic m => Answered (HandlerPanicked m)
              | Done _ => Answered (DeleteAnswer (Ok (into_response tt)))
              end
          | Done (Ok (inr _)) => Answered (DeleteAnswer (Ok (into_response tt)))
          end)
  end.

(** ** Threads *)

(** The thread moves to [p], and its manager becomes [m], locked by [owner]. *)
Definition proceed (tid : nat) (th : thread D) (addr : nat) (c : cell M) (m : M) (owner : option nat)
  (p : place D) (s : S) : S :=
  {| sv_world := sv_world s; sv_cache := sv_cache s;
     sv_heap := <[addr := {| c_id := c_id c; c_machine := m; c_owner := owner; c_cleaned := c_cleaned c |}]>
                  (sv_heap s);
     sv_threads := <[tid := {| t_request := t_request th; t_place := p |}]> (sv_threads s) |}.

(** The end of the handlers of [wait] (with the pod) and [refresh]. *)
Definition ticket_answer (pod : option Pod) (r : Result (KeepAliveTicket D)) : response D :=
  match pod with
  | Some pod => WaitAnswer (let? t := r in Ok (into_response {| ticket_pod := pod; ticket_ticket := t |}))
  | None => RefreshAnswer (let? t := r in Ok (into_response t))
  end.

(** The rest of the handler of [wait], after [manager.wait().await?]. *)
Definition after_wait (tid : nat) (th : thread D) (addr : nat) (c : cell M) (m : M) (r : Result Pod) (s : S) : S :=
  match r with
  | Ok pod => proceed tid th addr c m (Some tid) (AtRefresh addr (Some pod)) s
  | Err e => proceed tid th addr c m None (Answered (WaitAnswer (Err e))) s
  end.

(** One move of a thread that stands before an operation on its manager. *)
Definition thread_on_cell (tid : nat) (th : thread D) (addr : nat) (c : cell M) (env : gc_env D) (s : S) : option S :=
  let m := c_machine c in
  match t_place th with
  | AtLock _ =>
      match c_owner c with
      | Some _ => None
      | None =>
          Some (proceed tid th addr c m (Some tid)
                  (match t_request th with ReqWait _ => AtWait addr | _ => AtRefresh addr None end) s)
      end
  | AtWait _ =>
      match m_wait_call m with
      | None => None
      | Some (m', None) => Some (proceed tid th addr c m' (Some tid) (AtReceive addr) s)
      | Some (m', Some r) => Some (after_wait tid th addr c m' r s)
      end
  | AtReceive _ =>
      match m_wait_receive m with
      | None => None
      | Some (m', r) => Some (after_wait tid th addr c m' r s)
      end
  | AtRefresh _ pod =>
      if m_request_open m then Some (proceed tid th addr c m (Some tid) (AtReply addr pod) s)
      else Some (proceed tid th addr c m None (Answered (ticket_answer pod (gc_refresh false None))) s)
  | AtReply _ pod =>
      match m_refresh m env with
      | Some (m', Some t) => Some (proceed tid th addr c m' None (Answered (ticket_answer pod (gc_refresh true (Some t)))) s)
      | Some (m', None) => Some (proceed tid th addr c m' (Some tid) (AtReply addr pod) s)
      | None =>
          if m_request_open m then None
          else Some (proceed tid th addr c m None (Answered (ticket_answer pod (gc_refresh true None))) s)
      end
  | AtRegister _ _ _ | Answered _ => None
  end.

Definition address_of (p : place D) : option nat :=
  match p with
  | AtLock addr | AtWait addr | AtReceive addr | AtRefresh addr _ | AtReply addr _ => Some addr
  | AtRegister _ _ _ | Answered _ => None
  end.

(** [new_podmanager], up to the spawn of the task that removes the manager from
    the cache when its coroutines have joined. *)
Definition register_spawn (name : string) (ttl : Z) (n : N) (s : S) : S :=
  {| sv_world := sv_world s; sv_cache := sv_cache s;
     sv_heap := sv_heap s ++ [{| c_id := name; c_machine := m_new name ttl n; c_owner := None; c_cleaned := false |}];
     sv_threads := sv_threads s |}.

(** [POD_MANAGER_CACHE.write().await.insert(..)], and the answer of the handler. *)
Definition register_insert (tid : nat) (r : request) (pod : Pod) (name : string) (addr : nat) (s : S) : S :=
  {| sv_world := sv_world s; sv_cache := <[name := addr]> (sv_cache s); sv_heap := sv_heap s;
     sv_threads := <[tid := {| t_request := r; t_place := Answered (DeployAnswer (Ok (into_response pod))) |}]>
                     (sv_threads s) |}.

(** One move of a thread.  The registration of a manager is one move although
    the task is spawned before the insertion: the task waits for the shim, and a
    shim whose upper handle nobody has got yet, as before the insertion, stays for
    at least [SHIM_PATIENCE] ([unclaimed_shim_stays] in [ExternalHandle.v]). *)
Definition thread_step (tid : nat) (n : N) (env : gc_env D) (s : S) : option S :=
  match sv_threads s !! tid with
  | None => None
  | Some th =>
      match t_place th with
      | AtRegister pod name ttl =>
          Some (register_insert tid (t_request th) pod name (length (sv_heap s)) (register_spawn name ttl n s))
      | p =>
          match address_of p with
          | None => None
          | Some addr =>
              match sv_heap s !! addr with
              | None => None
              | Some c => thread_on_cell tid th addr c env s
              end
          end
      end
  end.

(** ** The system *)

Definition sv_step (s : S) (ev : sv_event E N D) : option S :=
  match ev with
  | EvRequest r =>
      let '(w, p) := arrive r s in
      Some {| sv_world := w; sv_cache := sv_cache s; sv_heap := sv_heap s;
              sv_threads := sv_threads s ++ [{| t_request := r; t_place := p |}] |}
  | EvThread tid n env => thread_step tid n env s
  | EvManager addr e =>
      match sv_heap s !! addr with
      | None => None
      | Some c =>
          match m_step (c_machine c) e with
          | None => None
          | Some m =>
              Some {| sv_world := sv_world s; sv_cache := sv_cache s;
                      sv_heap := <[addr := {| c_id := c_id c; c_machine := m; c_owner := c_owner c;
                                              c_cleaned := c_cleaned c |}]> (sv_heap s);
                      sv_threads := sv_threads s |}
          end
      end
  | EvCleanup addr =>
      match sv_heap s !! addr with
      | None => None
      | Some c =>
          if m_joined (c_machine c) && negb (c_cleaned c) then
            Some {| sv_world := sv_world s; sv_cache := delete (c_id c) (sv_cache s);
                    sv_heap := <[addr := {| c_id := c_id c; c_machine := c_machine c; c_owner := c_owner c;
                                            c_cleaned := true |}]> (sv_heap s);
                    sv_threads := sv_threads s |}
          else None
      end
  end.

Fixpoint sv_run (s : S) (evs : list (sv_event E N D)) : option S :=
  match evs with
  | [] => Some s
  | ev :: rest => match sv_step s ev with Some s' => sv_run s' rest | None => None end
  end.

Definition sv_init (w : W) : S :=
  {| sv_world := w; sv_cache := ∅; sv_heap := []; sv_threads := [] |}.
End Service.

(** ** The invariant *)

Section Invariant.
Context {W M E N D : Type} `{PodApi W} `{MachineLaws M E N D}.
Notation S := (service W M D).

(** The thread holds the mutex of the manager at [addr]. *)
Definition inside (addr : nat) (p : place D) : bool :=
  match p with
  | AtWait a | AtReceive a | AtRefresh a _ | AtReply a _ => bool_decide (a = addr)
  | _ => false
  end.
Definition receiving (p : place D) : bool := match p with AtReceive _ => true | _ => false end.

(** The manager at [addr] is that of the pod [id]. *)
Definition named (heap : list (cell M)) (addr : nat) (id : string) : Prop :=
  exists c, heap !! addr = Some c /\ c_id c = id.
(** It has vouched for [p]. *)
Definition vouched (heap : list (cell M)) (addr : nat) (p : Pod) : Prop :=
  exists c, heap !! addr = Some c /\ m_vouches (c_machine c) p.

(** A manager that was asked for a pod: of the right name, and good for it. *)
Definition asked (heap : list (cell M)) (r : request) (addr : nat) (pod : option Pod) : Prop :=
  match pod with
  | Some p => exists id, r = ReqWait id /\ named heap addr id /\ vouched heap addr p
  | None => exists id, r = ReqRefresh id /\ named heap addr id
  end.

(** What a thread may rely on. *)
Definition thread_ok (heap : list (cell M)) (th : thread D) : Prop :=
  match t_place th with
  | AtRegister _ _ _ => True
  | AtLock addr => exists id, (t_request th = ReqWait id \/ t_request th = ReqRefresh id) /\ named heap addr id
  | AtWait addr | AtReceive addr => exists id, t_request th = ReqWait id /\ named heap addr id
  | AtRefresh addr pod | AtReply addr pod => asked heap (t_request th) addr pod
  | Answered (WaitAnswer (Ok resp)) =>
      exists id addr, t_request th = ReqWait id /\ named heap addr id /\
        vouched heap addr (ticket_pod (payload resp)) /\ ticket (ticket_ticket (payload resp)) = id
  | Answered (RefreshAnswer (Ok resp)) =>
      exists id addr, t_request th = ReqRefresh id /\ named heap addr id /\ ticket (payload resp) = id
  | Answered _ => True
  end.

(** The mutex of a manager agrees with the threads, and the manager with it. *)
Definition owner_ok (threads : list (thread D)) (addr : nat) (c : cell M) : Prop :=
  match c_owner c with
  | Some tid => exists th, threads !! tid = Some th /\ inside addr (t_place th) = true /\
      m_idle (c_machine c) = negb (receiving (t_place th))
  | None => m_idle (c_machine c) = true
  end.

Record service_wf (s : S) : Prop := {
  wf_cell : forall addr c, sv_heap s !! addr = Some c -> m_ok (c_id c) (c_machine c);
  wf_owner : forall addr c, sv_heap s !! addr = Some c -> owner_ok (sv_threads s) addr c;
  wf_inside : forall tid th addr, sv_threads s !! tid = Some th -> inside addr (t_place th) = true ->
    exists c, sv_heap s !! addr = Some c /\ c_owner c = Some tid;
  wf_thread : forall tid th, sv_threads s !! tid = Some th -> thread_ok (sv_heap s) th;
  wf_cache : forall id addr, sv_cache s !! id = Some addr ->
    exists c, sv_heap s !! addr = Some c /\ c_id c = id /\ c_cleaned c = false;
}.

(** ** Lemmas *)

(** The managers of [heap] live on in [heap']. *)
Definition evolves (heap heap' : list (cell M)) : Prop :=
  forall addr c, heap !! addr = Some c -> exists c', heap' !! addr = Some c' /\ c_id c' = c_id c /\
    forall p, m_vouches (c_machine c) p -> m_vouches (c_machine c') p.

Lemma evolves_insert heap addr c c' :
  heap !! addr = Some c -> c_id c' = c_id c ->
  (forall p, m_vouches (c_machine c) p -> m_vouches (c_machine c') p) -> evolves heap (<[addr := c']> heap).
Proof.
  intros Hc Hid Hv a ca Ha. destruct (decide (a = addr)) as [->|Hne].
  - rewrite Hc in Ha. injection Ha as <-. exists c'.
    split; [|done]. apply list_lookup_insert_eq. by eapply lookup_lt_Some.
  - exists ca. rewrite list_lookup_insert_ne by done. done.
Qed.

Lemma evolves_app heap cs : evolves heap (heap ++ cs).
Proof. intros a c Ha. exists c. split; [|done]. by apply lookup_app_l_Some. Qed.

Lemma named_evolves heap heap' addr id : evolves heap heap' -> named heap addr id -> named heap' addr id.
Proof. intros He (c & Hc & <-). destruct (He _ _ Hc) as (c' & ? & ? & _). by exists c'. Qed.

Lemma vouched_evolves heap heap' addr p : evolves heap heap' -> vouched heap addr p -> vouched heap' addr p.
Proof. intros He (c & Hc & Hv). destruct (He _ _ Hc) as (c' & ? & _ & ?). exists c'. auto. Qed.

Lemma thread_ok_evolves heap heap' th : evolves heap heap' -> thread_ok heap th -> thread_ok heap' th.
Proof.
  intros He. unfold thread_ok, asked.
  destruct (t_place th) as [pod n ttl|a|a|a|a [pod|]|a [pod|]|[r|[resp|e]|[resp|e]|r|m]]; try done;
    naive_solver eauto using named_evolves, vouched_evolves.
Qed.

Lemma inside_unique a a' (p : place D) : inside a p = true -> inside a' p = true -> a = a'.
Proof. destruct p; simpl; try done; intros ?%bool_decide_eq_true ?%bool_decide_eq_true; congruence. Qed.

(** The mutex after a move, and the place of the thread that moved. *)
Definition owned (tid addr : nat) (m : M) (owner : option nat) (p : place D) : Prop :=
  match owner with
  | Some t => t = tid /\ inside addr p = true /\ m_idle m = negb (receiving p)
  | None => (forall a, inside a p = false) /\ m_idle m = true
  end.

Lemma proceed_wf (s : S) tid th addr c m owner p :
  service_wf s -> sv_threads s !! tid = Some th -> sv_heap s !! addr = Some c ->
  c_owner c = None \/ c_owner c = Some tid ->
  (forall a, inside a (t_place th) = true -> a = addr) ->
  m_ok (c_id c) m -> (forall q, m_vouches (c_machine c) q -> m_vouches m q) -> owned tid addr m owner p ->
  thread_ok (sv_heap (proceed tid th addr c m owner p s)) {| t_request := t_request th; t_place := p |} ->
  service_wf (proceed tid th addr c m owner p s).
Proof.
  intros [Hcell Howner Hinside Hthread Hcache] Hth Hc Hfree Hat Hok Hv Ho Ht.
  set (c' := {| c_id := c_id c; c_machine := m; c_owner := owner; c_cleaned := c_cleaned c |}).
  set (th' := {| t_request := t_request th; t_place := p |}).
  assert (Hne : forall a, a <> addr -> <[addr := c']> (sv_heap s) !! a = sv_heap s !! a)
    by (intros; by rewrite list_lookup_insert_ne).
  assert (Heq : <[addr := c']> (sv_heap s) !! addr = Some c')
    by (apply list_lookup_insert_eq; by eapply lookup_lt_Some).
  assert (Htne : forall t, t <> tid -> <[tid := th']> (sv_threads s) !! t = sv_threads s !! t)
    by (intros; by rewrite list_lookup_insert_ne).
  assert (Hteq : <[tid := th']> (sv_threads s) !! tid = Some th')
    by (apply list_lookup_insert_eq; by eapply lookup_lt_Some).
  split; cbn [proceed sv_heap sv_threads sv_cache]; fold c' th'.
  - intros a ca. destruct (decide (a = addr)) as [->|Hna]; [rewrite Heq; by intros [= <-]|].
    rewrite Hne by done. apply Hcell.
  - intros a ca. destruct (decide (a = addr)) as [->|Hna].
    + rewrite Heq. intros [= <-]. unfold owner_ok, owned in *. simpl. destruct owner as [t|]; [|by destruct Ho].
      destruct Ho as (-> & ? & ?). exists th'. by rewrite Hteq.
    + rewrite Hne by done. intros Ha. specialize (Howner _ _ Ha). unfold owner_ok in *.
      destruct (c_owner ca) as [t|] eqn:Et; [|done]. destruct Howner as (th0 & Hth0 & Hi & Hid).
      assert (t <> tid) by (intros ->; rewrite Hth in Hth0; injection Hth0 as <-; by apply Hna, Hat).
      exists th0. by rewrite Htne.
  - intros t t0 a. destruct (decide (t = tid)) as [->|Hnt].
    + rewrite Hteq. intros [= <-] Hi. simpl in Hi. unfold owned in Ho. destruct owner as [o|].
      * destruct Ho as (-> & Hi' & _). rewrite (inside_unique _ _ _ Hi Hi'). exists c'. by rewrite Heq.
      * destruct Ho as [Ho _]. by rewrite Ho in Hi.
    + rewrite Htne by done. intros Ht0 Hi. destruct (Hinside _ _ _ Ht0 Hi) as (ca & Ha & Hoa).
      assert (a <> addr) by (intros ->; rewrite Hc in Ha; injection Ha as <-; destruct Hfree; congruence).
      exists ca. by rewrite Hne.
  - intros t t0. destruct (decide (t = tid)) as [->|Hnt].
    + rewrite Hteq. intros [= <-]. exact Ht.
    + rewrite Htne by done. intros Ht0. eapply thread_ok_evolves; [|by eapply Hthread].
      by eapply evolves_insert.
  - intros id a Ha. destruct (Hcache _ _ Ha) as (ca & Hca & ? & ?).
    destruct (decide (a = addr)) as [->|Hna]; [|exists ca; by rewrite Hne].
    exists c'. rewrite Hc in Hca. injection Hca as <-. by rewrite Heq.
Qed.

(** The same for a move of the manager itself. *)
Lemma cell_wf (s : S) addr c m cleaned cache :
  service_wf s -> sv_heap s !! addr = Some c ->
  m_ok (c_id c) m -> (forall q, m_vouches (c_machine c) q -> m_vouches m q) ->
  m_idle m = m_idle (c_machine c) ->
  let c' := {| c_id := c_id c; c_machine := m; c_owner := c_owner c; c_cleaned := cleaned |} in
  (forall id a, cache !! id = Some a -> exists ca, <[addr := c']> (sv_heap s) !! a = Some ca /\
     c_id ca = id /\ c_cleaned ca = false) ->
  service_wf {| sv_world := sv_world s; sv_cache := cache; sv_heap := <[addr := c']> (sv_heap s);
                sv_threads := sv_threads s |}.
Proof.
  intros [Hcell Howner Hinside Hthread Hcache] Hc Hok Hv Hidle c' Hca.
  assert (Hne : forall a, a <> addr -> <[addr := c']> (sv_heap s) !! a = sv_heap s !! a)
    by (intros; by rewrite list_lookup_insert_ne).
  assert (Heq : <[addr := c']> (sv_heap s) !! addr = Some c')
    by (apply list_lookup_insert_eq; by eapply lookup_lt_Some).
  split; cbn [sv_heap sv_threads sv_cache].
  - intros a ca. destruct (decide (a = addr)) as [->|Hna]; [rewrite Heq; by intros [= <-]|].
    rewrite Hne by done. apply Hcell.
  - intros a ca. destruct (decide (a = addr)) as [->|Hna]; [|rewrite Hne by done; apply Howner].
    rewrite Heq. intros [= <-]. specialize (Howner _ _ Hc). unfold owner_ok in *. simpl. by rewrite Hidle.
  - intros t th a Ht Hi. destruct (Hinside _ _ _ Ht Hi) as (ca & Ha & Hoa).
    destruct (decide (a = addr)) as [->|Hna]; [|exists ca; by rewrite Hne].
    rewrite Hc in Ha. injection Ha as <-. exists c'. by rewrite Heq.
  - intros t th Ht. eapply thread_ok_evolves; [|by eapply Hthread]. by eapply evolves_insert.
  - exact Hca.
Qed.
End Invariant.

Section Preservation.
Context {W M E N D : Type} `{PodApi W} `{MachineLaws M E N D}.
Context (simple : Z -> string) (to_kebab : string -> string) (ua : Z -> bool).
Context (from_value : json -> result Pod string).
Notation S := (service W M D).
Notation step := (sv_step (M := M) (E := E) (N := N) (D := D) simple to_kebab ua from_value).
Notation run_sv := (sv_run (M := M) (E := E) (N := N) (D := D) simple to_kebab ua from_value).

(** A thread that holds a mutex: its manager belongs to it. *)
Lemma holder (s : S) tid th addr c :
  service_wf s -> sv_threads s !! tid = Some th -> sv_heap s !! addr = Some c ->
  inside addr (t_place th) = true ->
  c_owner c = Some tid /\ m_idle (c_machine c) = negb (receiving (t_place th)) /\
  (forall a, inside a (t_place th) = true -> a = addr).
Proof.
  intros Hwf Hth Hc Hi. destruct (wf_inside _ Hwf _ _ _ Hth Hi) as (c0 & Hc0 & Ho).
  rewrite Hc in Hc0. injection Hc0 as <-. pose proof (wf_owner _ Hwf _ _ Hc) as Hown. unfold owner_ok in Hown.
  rewrite Ho in Hown. destruct Hown as (th0 & Hth0 & _ & Hid). rewrite Hth in Hth0. injection Hth0 as <-.
  split_and!; [done|done|]. intros a Ha. by eapply inside_unique.
Qed.

Lemma proceed_vouched (s : S) tid th addr c m owner p q :
  sv_heap s !! addr = Some c -> m_vouches m q -> vouched (sv_heap (proceed tid th addr c m owner p s)) addr q.
Proof.
  intros Hc Hv. eexists. split; [apply list_lookup_insert_eq; by eapply lookup_lt_Some|done].
Qed.

(** The end of [wait], in either of its two places. *)
Lemma after_wait_wf (s : S) tid th addr c m r id :
  service_wf s -> sv_threads s !! tid = Some th -> sv_heap s !! addr = Some c ->
  c_owner c = Some tid -> (forall a, inside a (t_place th) = true -> a = addr) ->
  m_ok (c_id c) m -> m_idle m = true -> (forall q, m_vouches (c_machine c) q -> m_vouches m q) ->
  (forall p, r = Ok p -> m_vouches m p) ->
  t_request th = ReqWait id -> named (sv_heap s) addr id ->
  service_wf (after_wait tid th addr c m r s).
Proof.
  intros Hwf Hth Hc Ho Hat Hok Hidle Hv Hr Hreq Hn. destruct r as [p|e]; simpl.
  - apply proceed_wf; auto.
    + split_and!; [done|simpl; by rewrite bool_decide_true|done].
    + exists id. split_and!; [done| |].
      * eapply named_evolves; [|exact Hn]. by eapply evolves_insert.
      * apply proceed_vouched; auto.
  - apply proceed_wf; auto; [by split|done].
Qed.

(** The end of a handler with a ticket or without. *)
Lemma ticket_answer_ok (s : S) tid th addr c m pod r :
  sv_heap s !! addr = Some c -> (forall q, m_vouches (c_machine c) q -> m_vouches m q) ->
  asked (sv_heap s) (t_request th) addr pod -> (forall k, r = Ok k -> ticket k = c_id c) ->
  let p := Answered (ticket_answer pod r) in
  thread_ok (sv_heap (proceed tid th addr c m None p s)) {| t_request := t_request th; t_place := p |}.
Proof.
  intros Hc Hv Ha Hk. assert (Hid : forall id, named (sv_heap s) addr id -> id = c_id c).
  { intros id (c0 & Hc0 & <-). congruence. }
  destruct pod as [pod|], r as [t|e]; simpl; try done; unfold thread_ok; cbn [t_place t_request].
  - destruct Ha as (id & Hreq & Hn & Hvo). exists id, addr. split_and!; [done| | |].
    + eapply named_evolves; [|exact Hn]. by eapply evolves_insert.
    + eapply vouched_evolves; [|exact Hvo]. by eapply evolves_insert.
    + simpl. rewrite (Hk t eq_refl). symmetry. by apply Hid.
  - destruct Ha as (id & Hreq & Hn). exists id, addr. split_and!; [done| |].
    + eapply named_evolves; [|exact Hn]. by eapply evolves_insert.
    + simpl. rewrite (Hk t eq_refl). symmetry. by apply Hid.
Qed.

Lemma asked_evolves (s : S) heap' r addr pod :
  evolves (sv_heap s) heap' -> asked (sv_heap s) r addr pod -> asked heap' r addr pod.
Proof. intros He. destruct pod; simpl; naive_solver eauto using named_evolves, vouched_evolves. Qed.

Lemma thread_on_cell_wf (s : S) tid th addr c env s' :
  service_wf s -> sv_threads s !! tid = Some th -> sv_heap s !! addr = Some c ->
  address_of (t_place th) = Some addr -> thread_on_cell tid th addr c env s = Some s' -> service_wf s'.
Proof.
  intros Hwf Hth Hc Haddr Hs. pose proof (wf_thread _ Hwf _ _ Hth) as Hok.
  pose proof (wf_cell _ Hwf _ _ Hc) as Hm.
  assert (Hin : bool_decide (addr = addr) = true) by by rewrite bool_decide_true.
  pose proof (fun Hi => holder s tid th addr c Hwf Hth Hc Hi) as Hh.
  unfold thread_on_cell in Hs. unfold thread_ok in Hok.
  destruct (t_place th) as [pod n ttl|a|a|a|a pod|a pod|r] eqn:Ep; try done; simpl in Haddr; injection Haddr as ->;
    simpl in Hh.
  - destruct (c_owner c) eqn:Ho; [done|]. injection Hs as <-.
    pose proof (wf_owner _ Hwf _ _ Hc) as Hown. unfold owner_ok in Hown. rewrite Ho in Hown.
    destruct Hok as (id & Hreq & Hn). apply proceed_wf; auto; [by rewrite Ep| |].
    + split_and!; [done|destruct Hreq as [-> | ->]; done|by destruct Hreq as [-> | ->]].
    + unfold thread_ok. cbn [t_place t_request].
      eapply (named_evolves _ (sv_heap (proceed tid th addr c (c_machine c) (Some tid)
        (match t_request th with ReqWait _ => AtWait addr | _ => AtRefresh addr None end) s))) in Hn;
        [|by eapply evolves_insert].
      destruct Hreq as [Hreq|Hreq]; rewrite Hreq in *; by exists id.
  - destruct (Hh Hin) as (Ho & Hidle & Hat). destruct Hok as (id & Hreq & Hn).
    destruct (law_call (c_id c) (c_machine c) Hm Hidle) as (m' & r & Hcall & Hm' & Hi' & Hv & Hr & _).
    rewrite Hcall in Hs. destruct r as [r|]; injection Hs as <-.
    + eapply after_wait_wf; eauto; [by rewrite Ep|]. intros p ->. by apply Hr.
    + apply proceed_wf; auto; [by rewrite Ep|done|]. exists id. split; [done|].
      eapply named_evolves; [|exact Hn]. by eapply evolves_insert.
  - destruct (Hh Hin) as (Ho & Hidle & Hat). destruct Hok as (id & Hreq & Hn).
    destruct (m_wait_receive (c_machine c)) as [[m' r]|] eqn:Em; [|done]. injection Hs as <-.
    destruct (law_receive _ _ _ _ Hm Em) as (Hm' & Hi' & Hv & Hr & _).
    eapply after_wait_wf; eauto. by rewrite Ep.
  - destruct (Hh Hin) as (Ho & Hidle & Hat).
    destruct (m_request_open (c_machine c)); injection Hs as <-.
    + apply proceed_wf; auto; [by rewrite Ep|done|]. eapply asked_evolves; [|exact Hok]. by eapply evolves_insert.
    + apply proceed_wf; auto; [by rewrite Ep|by split|]. by apply ticket_answer_ok.
  - destruct (Hh Hin) as (Ho & Hidle & Hat).
    destruct (m_refresh (c_machine c) env) as [[m' [t|]]|] eqn:Em.
    + injection Hs as <-. destruct (law_refresh _ _ _ _ _ Hm Em) as (Hm' & Hi' & Hv & Ht & _).
      apply proceed_wf; auto; [by rewrite Ep|split; [done|by rewrite Hi', Hidle]|]. apply ticket_answer_ok; auto.
      intros k [= ->]. by apply Ht.
    + injection Hs as <-. destruct (law_refresh _ _ _ _ _ Hm Em) as (Hm' & Hi' & Hv & _).
      apply proceed_wf; auto; [by rewrite Ep|split_and!; [done|done|by rewrite Hi', Hidle]|].
      eapply asked_evolves; [|exact Hok]. by eapply evolves_insert.
    + destruct (m_request_open (c_machine c)); [done|]. injection Hs as <-.
      apply proceed_wf; auto; [by rewrite Ep|by split|]. by apply ticket_answer_ok.
Qed.

(** A handler begins outside of every mutex. *)
Lemma arrive_ok (s : S) r :
  service_wf s ->
  let p := (arrive simple to_kebab ua from_value r s).2 in
  thread_ok (sv_heap s) {| t_request := r; t_place := p |} /\ forall a, inside a p = false.
Proof.
  intros Hwf. destruct r as [reg repo rnd tag name ttl|id|id|id]; simpl.
  - destruct (deploy _ _ _ _ _ _ _ _ _) as [[[pod|e]|m] w]; [destruct (pod_name pod)| |]; done.
  - destruct (sv_cache s !! id) as [addr|] eqn:Ec; [|done]. split; [|done].
    destruct (wf_cache _ Hwf _ _ Ec) as (c & Hc & Hid & _). exists id. split; [by left|]. by exists c.
  - destruct (sv_cache s !! id) as [addr|] eqn:Ec; [|done]. split; [|done].
    destruct (wf_cache _ Hwf _ _ Ec) as (c & Hc & Hid & _). exists id. split; [by right|]. by exists c.
  - destruct (k8s_delete id (sv_world s)) as [[[[pod|st]|e]|m] w]; [destruct (pod_name pod)| | |]; done.
Qed.

Lemma request_wf (s : S) (w : W) th :
  service_wf s -> thread_ok (sv_heap s) th -> (forall a, inside a (t_place th) = false) ->
  service_wf {| sv_world := w; sv_cache := sv_cache s; sv_heap := sv_heap s; sv_threads := sv_threads s ++ [th] |}.
Proof.
  intros [Hcell Howner Hinside Hthread Hcache] Hok Hout. split; simpl; try done.
  - intros a c Hc. specialize (Howner _ _ Hc). unfold owner_ok in *. destruct (c_owner c); [|done].
    destruct Howner as (th0 & Hth0 & ? & ?). exists th0. split; [by apply lookup_app_l_Some|done].
  - intros t th0 a [Ht|[_ Ht]]%lookup_app_Some Hi; [by eapply Hinside|].
    destruct (t - _)%nat; [|done]. injection Ht as <-. by rewrite Hout in Hi.
  - intros t th0 [Ht|[_ Ht]]%lookup_app_Some; [by eapply Hthread|].
    destruct (t - _)%nat; [|done]. by injection Ht as <-.
Qed.

Lemma register_wf (s : S) tid th pod name ttl n :
  service_wf s -> sv_threads s !! tid = Some th -> t_place th = AtRegister pod name ttl ->
  service_wf (register_insert tid (t_request th) pod name (length (sv_heap s)) (register_spawn name ttl n s)).
Proof.
  intros [Hcell Howner Hinside Hthread Hcache] Hth Hp. destruct (law_new (D := D) name ttl n) as [Hok Hidle].
  assert (Hne : forall a t th0, sv_threads s !! t = Some th0 -> inside a (t_place th0) = true -> t <> tid).
  { intros a t th0 Ht Hi ->. rewrite Hth in Ht. injection Ht as <-. by rewrite Hp in Hi. }
  split; simpl.
  - intros a c [Hc|[_ Hc]]%lookup_app_Some; [by eapply Hcell|].
    destruct (a - _)%nat; [|done]. by injection Hc as <-.
  - intros a c [Hc|[_ Hc]]%lookup_app_Some.
    + specialize (Howner _ _ Hc). unfold owner_ok in *. destruct (c_owner c); [|done].
      destruct Howner as (th0 & Hth0 & Hi & ?). exists th0. rewrite list_lookup_insert_ne; [done|].
      apply not_eq_sym. by eapply Hne.
    + destruct (a - _)%nat; [|done]. by injection Hc as <-.
  - intros t th0 a [(-> & <- & _)|[_ Ht]]%list_lookup_insert_Some Hi; [done|].
    destruct (Hinside _ _ _ Ht Hi) as (c & Hc & ?). exists c. split; [by apply lookup_app_l_Some|done].
  - intros t th0 [(-> & <- & _)|[_ Ht]]%list_lookup_insert_Some; [done|].
    eapply thread_ok_evolves; [apply evolves_app|by eapply Hthread].
  - intros id a. destruct (decide (id = name)) as [->|Hn].
    + rewrite lookup_insert_eq. intros [= <-].
      eexists. split; [by rewrite lookup_app_r, Nat.sub_diag by done|done].
    + rewrite lookup_insert_ne by done. intros Ha. destruct (Hcache _ _ Ha) as (c & Hc & ?).
      exists c. split; [by apply lookup_app_l_Some|done].
Qed.

Lemma manager_wf (s : S) addr c e m :
  service_wf s -> sv_heap s !! addr = Some c -> m_step (c_machine c) e = Some m ->
  service_wf {| sv_world := sv_world s; sv_cache := sv_cache s;
    sv_heap := <[addr := {| c_id := c_id c; c_machine := m; c_owner := c_owner c; c_cleaned := c_cleaned c |}]>
                 (sv_heap s); sv_threads := sv_threads s |}.
Proof.
  intros Hwf Hc Hm. destruct (law_step (c_id c) _ _ _ (wf_cell _ Hwf _ _ Hc) Hm) as (Hok & Hidle & Hv & _).
  eapply cell_wf; [done|done|done|done|done|]. intros id a Ha. destruct (wf_cache _ Hwf _ _ Ha) as (ca & Hca & Hid & Hcl).
  destruct (decide (a = addr)) as [->|Hna]; [|exists ca; by rewrite list_lookup_insert_ne].
  rewrite Hc in Hca. injection Hca as <-. eexists. rewrite list_lookup_insert_eq; [done|by eapply lookup_lt_Some].
Qed.

Lemma cleanup_wf (s : S) addr c :
  service_wf s -> sv_heap s !! addr = Some c ->
  service_wf {| sv_world := sv_world s; sv_cache := delete (c_id c) (sv_cache s);
    sv_heap := <[addr := {| c_id := c_id c; c_machine := c_machine c; c_owner := c_owner c; c_cleaned := true |}]>
                 (sv_heap s); sv_threads := sv_threads s |}.
Proof.
  intros Hwf Hc. pose proof (wf_cell _ Hwf _ _ Hc) as Hok.
  eapply cell_wf; [done|done|done|done|done|]. intros id a [Hne Ha]%lookup_delete_Some.
  destruct (wf_cache _ Hwf _ _ Ha) as (ca & Hca & Hid & Hcl). exists ca.
  rewrite list_lookup_insert_ne; [done|]. intros ->. congruence.
Qed.

Lemma sv_step_wf (s s' : S) ev : service_wf s -> step s ev = Some s' -> service_wf s'.
Proof.
  intros Hwf. destruct ev as [r|tid n env|addr e|addr]; simpl.
  - pose proof (arrive_ok s r Hwf) as [Hok Hout]. destruct (arrive _ _ _ _ r s) as [w p]. intros [= <-].
    by apply request_wf.
  - unfold thread_step. destruct (sv_threads s !! tid) as [th|] eqn:Hth; [|done].
    destruct (address_of (t_place th)) as [addr|] eqn:Ha.
    + assert (Hx : match sv_heap s !! addr with Some c => thread_on_cell tid th addr c env s | None => None end =
        Some s' -> service_wf s').
      { destruct (sv_heap s !! addr) as [c|] eqn:Hc; [|done]. by apply thread_on_cell_wf. }
      destruct (t_place th); simpl in *; simplify_eq; exact Hx.
    + destruct (t_place th) as [pod name ttl| | | | | |] eqn:Hp; try done. intros [= <-]. by apply register_wf.
  - destruct (sv_heap s !! addr) as [c|] eqn:Hc; [|done].
    destruct (m_step (c_machine c) e) as [m|] eqn:Hm; [|done]. intros [= <-]. by eapply manager_wf.
  - destruct (sv_heap s !! addr) as [c|] eqn:Hc; [|done]. destruct (_ && _); [|done].
    intros [= <-]. by apply cleanup_wf.
Qed.

Lemma sv_run_wf (s s' : S) evs : service_wf s -> run_sv s evs = Some s' -> service_wf s'.
Proof.
  revert s; induction evs as [|ev evs IH]; intros s Hwf; simpl; [by intros [= <-]|].
  destruct (step s ev) as [s1|] eqn:Es; [|done]. apply IH. by eapply sv_step_wf.
Qed.

Lemma sv_init_wf (w : W) : service_wf (sv_init w : S).
Proof. by split. Qed.

Lemma sv_reachable w evs (s : S) : run_sv (sv_init w) evs = Some s -> service_wf s.
Proof. apply sv_run_wf, sv_init_wf. Qed.

(** A thread that stands before an operation on its manager. *)
Lemma blocked_or_moves (s : S) tid th addr n env :
  service_wf s -> sv_threads s !! tid = Some th -> address_of (t_place th) = Some addr ->
  is_Some (step s (EvThread tid n env)) \/
  exists addr c, address_of (t_place th) = Some addr /\ sv_heap s !! addr = Some c /\
    match t_place th with
    | AtLock _ => exists tid' th', tid' <> tid /\ sv_threads s !! tid' = Some th' /\ inside addr (t_place th') = true
    | AtReceive _ => m_wait_receive (c_machine c) = None
    | AtReply _ _ => m_refresh (c_machine c) env = None /\ m_request_open (c_machine c) = true
    | _ => False
    end.
Proof.
  intros Hwf Hth Ha.
  assert (Hex : exists c, sv_heap s !! addr = Some c).
  { pose proof (wf_thread _ Hwf _ _ Hth) as Hok. unfold thread_ok in Hok.
    destruct (t_place th) as [| | | |? [|]|? [|]|]; simpl in Ha; simplify_eq;
      unfold asked, named in Hok; naive_solver. }
  destruct Hex as [c Hc].
  assert (Hs : step s (EvThread tid n env) = thread_on_cell tid th addr c env s).
  { simpl. unfold thread_step. rewrite Hth. destruct (t_place th); simpl in Ha; simplify_eq; simpl; by rewrite Hc. }
  assert (Hin : bool_decide (addr = addr) = true) by by rewrite bool_decide_true.
  pose proof (fun Hi => holder s tid th addr c Hwf Hth Hc Hi) as Hh.
  pose proof (wf_cell _ Hwf _ _ Hc) as Hm. rewrite Hs. unfold thread_on_cell.
  destruct (t_place th) as [pod nm ttl|a|a|a|a pod|a pod|r] eqn:Ep; simpl in Ha; simplify_eq; simpl in Hh.
  - pose proof (wf_owner _ Hwf _ _ Hc) as Hown. unfold owner_ok in Hown.
    destruct (c_owner c) as [t|]; [right|by eauto]. destruct Hown as (th' & Hth' & Hi & _).
    exists addr, c. split_and!; [done|done|]. exists t, th'. split_and!; [|done|done].
    intros ->. rewrite Hth in Hth'. injection Hth' as <-. by rewrite Ep in Hi.
  - left. destruct (Hh Hin) as (_ & Hidle & _).
    destruct (law_call _ _ Hm Hidle) as (m' & r & -> & _). destruct r; eauto.
  - destruct (m_wait_receive (c_machine c)) as [[m' r]|] eqn:Em; [by eauto|right]. by exists addr, c.
  - left. destruct (m_request_open (c_machine c)); eauto.
  - destruct (m_refresh (c_machine c) env) as [[m' [t|]]|] eqn:Em; [by eauto|by eauto|].
    destruct (m_request_open (c_machine c)) eqn:Eo; [right|by eauto]. by exists addr, c.
Qed.
End Preservation.

(** ** Winding down *)

Section Idle.
Context {W M E N D : Type} `{PodApi W} `{MachineLaws M E N D}.
Context (simple : Z -> string) (to_kebab : string -> string) (ua : Z -> bool).
Context (from_value : json -> result Pod string).
Notation S := (service W M D).
Notation step := (sv_step (M := M) (E := E) (N := N) (D := D) simple to_kebab ua from_value).
Notation run_sv := (sv_run (M := M) (E := E) (N := N) (D := D) simple to_kebab ua from_value).

(** The event watcher of every manager has ended. *)
Definition all_ended (s : S) : Prop := Forall (fun c => m_ended (c_machine c) = true) (sv_heap s).

(** What is left to do for a manager, and for all of them. *)
Definition cell_measure (c : cell M) : nat := m_measure (c_machine c) + (if c_cleaned c then 0 else 1).
Definition sv_measure (s : S) : nat := sum_list_with cell_measure (sv_heap s).

(** The moves that the service makes by itself. *)
Definition sv_internal (ev : sv_event E N D) : bool :=
  match ev with EvManager _ e => m_internal e | EvCleanup _ => true | _ => false end.
Definition sv_count (evs : list (sv_event E N D)) : nat := length (List.filter sv_internal evs).

Lemma sum_insert (l : list (cell M)) i c c' :
  l !! i = Some c ->
  (sum_list_with cell_measure (<[i := c']> l) + cell_measure c =
   sum_list_with cell_measure l + cell_measure c')%nat.
Proof.
  revert i; induction l as [|x l IH]; intros [|i] Hl; simpl in *; try done.
  - injection Hl as ->. lia.
  - specialize (IH i Hl). lia.
Qed.

(** A cell that is replaced by one that is nearer to its end. *)
Lemma nearer (s : S) addr c c' k cache w threads :
  all_ended s -> sv_heap s !! addr = Some c ->
  m_ended (c_machine c') = true -> (cell_measure c' + k <= cell_measure c)%nat ->
  let s' := {| sv_world := w : W; sv_cache := cache; sv_heap := <[addr := c']> (sv_heap s);
               sv_threads := threads |} : S in
  all_ended s' /\ (sv_measure s' + k <= sv_measure s)%nat.
Proof.
  intros He Hc Hm Hk s'. split.
  - by apply Forall_insert.
  - unfold sv_measure, s'. simpl. pose proof (sum_insert _ _ _ c' Hc). lia.
Qed.

Lemma thread_on_cell_idle (s s' : S) tid th addr c env :
  service_wf s -> sv_threads s !! tid = Some th -> sv_heap s !! addr = Some c ->
  address_of (t_place th) = Some addr -> all_ended s -> thread_on_cell tid th addr c env s = Some s' ->
  all_ended s' /\ (sv_measure s' <= sv_measure s)%nat.
Proof.
  intros Hwf Hth Hc Ha He Hs. pose proof (wf_cell _ Hwf _ _ Hc) as Hok.
  assert (Hend : m_ended (c_machine c) = true) by (by eapply Forall_lookup_1 in He).
  assert (Hp : forall m owner p, (m_ended (c_machine c) = true -> m_ended m = true /\
    (m_measure m <= m_measure (c_machine c))%nat) ->
    all_ended (proceed tid th addr c m owner p s) /\
    (sv_measure (proceed tid th addr c m owner p s) <= sv_measure s)%nat).
  { intros m owner p Hm. destruct (Hm Hend) as [Hm1 Hm2].
    destruct (nearer s addr c {| c_id := c_id c; c_machine := m; c_owner := owner; c_cleaned := c_cleaned c |} 0
      (sv_cache s) (sv_world s) (<[tid := {| t_request := t_request th; t_place := p |}]> (sv_threads s)))
      as [? ?]; [done|done|done|unfold cell_measure; simpl; lia|]. split; [done|]. unfold proceed. lia. }
  assert (Hsame : m_ended (c_machine c) = true ->
    m_ended (c_machine c) = true /\ (m_measure (c_machine c) <= m_measure (c_machine c))%nat) by (split; [done|lia]).
  assert (Hin : bool_decide (addr = addr) = true) by by rewrite bool_decide_true.
  pose proof (fun Hi => holder s tid th addr c Hwf Hth Hc Hi) as Hh.
  unfold thread_on_cell in Hs.
  destruct (t_place th) as [pod n ttl|a|a|a|a pod|a pod|r]; try done; simpl in Ha; injection Ha as ->; simpl in Hh.
  - destruct (c_owner c); [done|]. injection Hs as <-. by apply Hp.
  - destruct (Hh Hin) as (_ & Hidle & _).
    destruct (law_call _ _ Hok Hidle) as (m' & r & Hcall & _ & _ & _ & _ & Hm). rewrite Hcall in Hs.
    destruct r as [[p|e]|]; injection Hs as <-; by apply Hp.
  - destruct (m_wait_receive (c_machine c)) as [[m' r]|] eqn:Em; [|done].
    destruct (law_receive _ _ _ _ Hok Em) as (_ & _ & _ & _ & Hm). destruct r; injection Hs as <-; by apply Hp.
  - destruct (m_request_open (c_machine c)); injection Hs as <-; by apply Hp.
  - destruct (m_refresh (c_machine c) env) as [[m' t]|] eqn:Em.
    + destruct (law_refresh _ _ _ _ _ Hok Em) as (_ & _ & _ & _ & Hm). destruct t; injection Hs as <-; by apply Hp.
    + destruct (m_request_open (c_machine c)); [done|]. injection Hs as <-. by apply Hp.
Qed.

Lemma heap_grows (s s' : S) ev : step s ev = Some s' ->
  length (sv_heap s') = length (sv_heap s) \/ length (sv_heap s') = Datatypes.S (length (sv_heap s)).
Proof.
  destruct ev as [r|tid n env|addr e|addr]; simpl.
  - destruct (arrive _ _ _ _ r s). intros [= <-]. by left.
  - unfold thread_step, thread_on_cell, after_wait, proceed.
    repeat case_match; intros; simplify_eq; simpl; rewrite ?length_insert, ?length_app; simpl; (by left) || (right; lia).
  - repeat case_match; intros; simplify_eq; simpl. rewrite length_insert. by left.
  - repeat case_match; intros; simplify_eq; simpl. rewrite length_insert. by left.
Qed.

Lemma idle_step (s s' : S) ev :
  service_wf s -> all_ended s -> step s ev = Some s' -> length (sv_heap s') = length (sv_heap s) ->
  all_ended s' /\ (sv_measure s' + (if sv_internal ev then 1 else 0) <= sv_measure s)%nat.
Proof.
  intros Hwf He Hs Hlen. destruct ev as [r|tid n env|addr e|addr]; simpl in Hs.
  - destruct (arrive _ _ _ _ r s). injection Hs as <-. unfold sv_measure. simpl. split; [done|lia].
  - unfold thread_step in Hs. destruct (sv_threads s !! tid) as [th|] eqn:Hth; [|done].
    destruct (address_of (t_place th)) as [addr|] eqn:Ha.
    + assert (Hx : exists c, sv_heap s !! addr = Some c /\ thread_on_cell tid th addr c env s = Some s').
      { destruct (t_place th); simpl in *; simplify_eq; (destruct (sv_heap s !! addr); [eauto|done]). }
      destruct Hx as (c & Hc & Hx). simpl. rewrite Nat.add_0_r. by eapply thread_on_cell_idle.
    + destruct (t_place th); try done. injection Hs as <-. simpl in Hlen. rewrite length_app in Hlen. simpl in Hlen. lia.
  - destruct (sv_heap s !! addr) as [c|] eqn:Hc; [|done]. destruct (m_step (c_machine c) e) as [m|] eqn:Hm; [|done].
    injection Hs as <-. destruct (law_step (c_id c) _ _ _ (wf_cell _ Hwf _ _ Hc) Hm) as (_ & _ & _ & Hd).
    destruct Hd as [Hd1 Hd2]; [by eapply Forall_lookup_1 in He|].
    eapply nearer; [done|done|done|]. unfold cell_measure. simpl. lia.
  - destruct (sv_heap s !! addr) as [c|] eqn:Hc; [|done]. destruct (_ && _) eqn:Hj; [|done]. injection Hs as <-.
    apply andb_prop in Hj as [_ Hcl]. eapply nearer; [done|done|exact (Forall_lookup_1 _ _ _ _ He Hc)|].
    unfold cell_measure. simpl. destruct (c_cleaned c); simpl in *; [done|lia].
Qed.

Lemma heap_run_grows (s s' : S) evs : run_sv s evs = Some s' -> (length (sv_heap s) <= length (sv_heap s'))%nat.
Proof.
  revert s; induction evs as [|ev evs IH]; intros s; simpl; [intros [= <-]; lia|].
  destruct (step s ev) as [s1|] eqn:Es; [|done]. intros Hr%IH. destruct (heap_grows _ _ _ Es); lia.
Qed.

Lemma idle_run (s s' : S) evs :
  service_wf s -> all_ended s -> run_sv s evs = Some s' -> length (sv_heap s') = length (sv_heap s) ->
  all_ended s' /\ (sv_measure s' + sv_count evs <= sv_measure s)%nat.
Proof.
  unfold sv_count. revert s; induction evs as [|ev evs IH]; intros s Hwf He Hr Hlen; simpl in Hr.
  - injection Hr as <-. simpl. split; [done|lia].
  - destruct (step s ev) as [s1|] eqn:Es; [|done].
    pose proof (heap_run_grows _ _ _ Hr). pose proof (heap_grows _ _ _ Es).
    destruct (idle_step _ _ _ Hwf He Es) as [He1 Hm1]; [lia|].
    destruct (IH s1) as [He2 Hm2]; [by eapply sv_step_wf|done|done|lia|]. split; [done|].
    simpl. destruct (sv_internal ev); simpl; lia.
Qed.

Lemma measure_bounded (s : S) : service_wf s -> (sv_measure s <= 6 * length (sv_heap s))%nat.
Proof.
  intros Hwf. assert (Hall : Forall (fun c => (cell_measure c <= 6)%nat) (sv_heap s)).
  { apply Forall_lookup_2. intros i c Hc. pose proof (law_bound _ _ (wf_cell _ Hwf _ _ Hc)).
    unfold cell_measure. destruct (c_cleaned c); lia. }
  unfold sv_measure. induction Hall; simpl; lia.
Qed.

(** A manager in the cache has something to do. *)
Lemma cached_moves (s : S) id addr :
  service_wf s -> all_ended s -> sv_cache s !! id = Some addr ->
  exists ev, sv_internal ev = true /\ is_Some (step s ev).
Proof.
  intros Hwf He Hc. destruct (wf_cache _ Hwf _ _ Hc) as (c & Hcell & _ & Hcl).
  destruct (m_joined (c_machine c)) eqn:Hj.
  - exists (EvCleanup addr). split; [done|]. simpl. rewrite Hcell, Hj, Hcl. simpl. eauto.
  - destruct (law_progress _ _ (wf_cell _ Hwf _ _ Hcell)) as (e & Hi & [m Hm]); [by eapply Forall_lookup_1 in He|done|].
    exists (EvManager addr e). split; [done|]. simpl. rewrite Hcell, Hm. eauto.
Qed.
End Idle.

(** ** The managers of [Live.v] *)

(** A running manager with its history. *)
Record run_of (B D : Type) := {
  ro_id : string;
  ro_ttl : Z;
  ro_api : api Pod;
  ro_now : Z;
  ro_connected : result unit kube_error;
  ro_events : list (live_event D);
  ro_state : live B D;
  ro_effects : list (pm_effect D);
}.
Arguments ro_id {B D} _.
Arguments ro_ttl {B D} _.
Arguments ro_api {B D} _.
Arguments ro_now {B D} _.
Arguments ro_connected {B D} _.
Arguments ro_events {B D} _.
Arguments ro_state {B D} _.
Arguments ro_effects {B D} _.

(** The script of the API server, the time, and the client of a new manager. *)
Definition birth : Type := api Pod * Z * result unit kube_error.

(** Moves that are not those of a client. *)
Definition daemon_event {D} (ev : live_event D) : bool :=
  match ev with LvOther (PmClient _) | LvOther (PmRefresh _ _) => false | _ => true end.
Definition internal_event {D} (ev : live_event D) : bool :=
  match ev with LvOther (PmPull _) | LvOther (PmShim _) => true | _ => false end.

Definition returned {D} (effs : list (pm_effect D)) : option (Result Pod) :=
  head (omap (fun e => match e with WaitReturned r => Some r | _ => None end) effs).
Definition replied {D} (effs : list (pm_effect D)) : option (KeepAliveTicket D) :=
  head (omap (fun e => match e with CollectorDid (GcReply t _) => Some t | _ => None end) effs).

Definition upper_idle (h : handle) : bool := match upper h with UpperIdle => true | _ => false end.

Section Instance_.
Context {B D : Type} `{BackoffLaws B} `{Chrono D}.
Context (parse_endpoint : string -> result string string).
Context (latest : Z) (cu : bool).

Notation M := (run_of B D).
Notation live_step_of m :=
  (live_step (B := B) (D := D) parse_endpoint latest cu (ro_id m) (ro_ttl m)).

(** One more event. *)
Definition advance (m : M) (ev : live_event D) : option (M * list (pm_effect D)) :=
  match live_step_of m (ro_state m) ev with
  | None => None
  | Some (s, effs) =>
      Some ({| ro_id := ro_id m; ro_ttl := ro_ttl m; ro_api := ro_api m; ro_now := ro_now m;
               ro_connected := ro_connected m; ro_events := ro_events m ++ [ev]; ro_state := s;
               ro_effects := ro_effects m ++ effs |}, effs)
  end.

#[local] Instance live_Machine : Machine M (live_event D) birth D := {|
  m_new id ttl n :=
    {| ro_id := id; ro_ttl := ttl; ro_api := n.1.1; ro_now := n.1.2; ro_connected := n.2;
       ro_events := []; ro_state := live_new n.1.1 n.1.2 n.2; ro_effects := [] |};
  m_step m e :=
    if daemon_event e then match advance m e with Some (m', _) => Some m' | None => None end else None;
  m_wait_call m :=
    match advance m (LvOther (PmClient WaitCall)) with
    | Some (m', effs) => Some (m', returned effs)
    | None => None
    end;
  m_wait_receive m :=
    match advance m (LvOther (PmClient WaitReceive)) with
    | Some (m', effs) => match returned effs with Some r => Some (m', r) | None => None end
    | None => None
    end;
  m_request_open m := gc_alive (pm_collector (lv_pm (ro_state m)));
  m_refresh m env :=
    match advance m (LvOther (PmRefresh env (Some true))) with
    | Some (m', effs) => Some (m', replied effs)
    | None => None
    end;
  m_joined m := pm_joined (lv_pm (ro_state m));
|}.

(** The manager has really lived through its history. *)
Definition lived (id : string) (m : M) : Prop :=
  ro_id m = id /\
  live_run (B := B) parse_endpoint latest cu (ro_id m) (ro_ttl m)
    (live_new (ro_api m) (ro_now m) (ro_connected m)) (ro_events m) = Some (ro_state m, ro_effects m).

Lemma live_run_snoc pod_id ttl (s : live B D) evs ev s1 e1 s2 e2 :
  live_run parse_endpoint latest cu pod_id ttl s evs = Some (s1, e1) ->
  live_step parse_endpoint latest cu pod_id ttl s1 ev = Some (s2, e2) ->
  live_run parse_endpoint latest cu pod_id ttl s (evs ++ [ev]) = Some (s2, e1 ++ e2).
Proof.
  revert s e1; induction evs as [|ev0 evs IH]; intros s e1 Hr Hs; simpl in *.
  - injection Hr as -> <-. rewrite Hs. simpl. by rewrite app_nil_r.
  - destruct (live_step _ _ _ _ _ s ev0) as [[s0 e0]|]; [|done].
    destruct (live_run _ _ _ _ _ s0 evs) as [[s3 e3]|] eqn:Er; [|done]. injection Hr as -> <-.
    by rewrite (IH _ _ Er Hs), app_assoc.
Qed.

Lemma advance_lived id m ev m' effs :
  lived id m -> advance m ev = Some (m', effs) ->
  lived id m' /\ live_step_of m (ro_state m) ev = Some (ro_state m', effs) /\
  ro_effects m' = ro_effects m ++ effs.
Proof.
  intros [Hid Hr] Ha. unfold advance in Ha. destruct (live_step_of m (ro_state m) ev) as [[s es]|] eqn:Es; [|done].
  injection Ha as <- <-. split_and!; try done. split; [done|]. simpl. by eapply live_run_snoc.
Qed.

Lemma lived_pm id m : lived id m -> exists ins sigs, pm_inv id ins sigs (lv_pm (ro_state m)).
Proof. intros [<- Hr]. destruct (live_reachable_pm _ _ _ _ _ _ _ _ _ _ _ Hr) as (ins & HP & _). eauto. Qed.

Lemma advance_vouches id m ev m' effs p :
  lived id m -> advance m ev = Some (m', effs) -> WaitReturned (Ok p) ∈ ro_effects m ->
  WaitReturned (Ok p) ∈ ro_effects m'.
Proof. intros Hl Ha Hp. destruct (advance_lived _ _ _ _ _ Hl Ha) as (_ & _ & ->). set_solver. Qed.

Lemma returned_elem (effs : list (pm_effect D)) r : returned effs = Some r -> WaitReturned r ∈ effs.
Proof.
  unfold returned. intros Hr.
  assert (Hin : r ∈ omap (fun e => match e with WaitReturned r => Some r | _ => None end) effs).
  { destruct (omap _ effs); simplify_eq/=. set_solver. }
  apply list_elem_of_omap in Hin as ([] & Hi & ?); by simplify_eq.
Qed.

(** Only a client enters and leaves [wait]. *)
Lemma lower_moves_upper rs tail h h' outs :
  tail = [] \/ tail = [LowerDrop] ->
  handle_run cu h (map LowerSend rs ++ tail) = Some (h', outs) -> upper h' = upper h.
Proof.
  intros Ht. revert h outs; induction rs as [|r rs IH]; intros h outs; cbn [map app handle_run].
  - destruct Ht as [-> | ->]; simpl; [by intros [= <- _]|]. destruct (lower_alive h); [|done]. by intros [= <- _].
  - destruct (handle_step cu h (LowerSend r)) as [[h1 o1]|] eqn:E; [|done].
    destruct (handle_run cu h1 _) as [[h2 o2]|] eqn:E2; [|done]. intros [= <- _]. rewrite (IH _ _ E2).
    simpl in E. destruct (lower_alive h); [|done]. unfold lower_send in E.
    by destruct (shim h), (inbox h); simplify_eq.
Qed.

Lemma shim_move_idle f h ev h' out :
  handle_inv f h -> is_shim_move ev = true -> handle_step cu h ev = Some (h', out) -> upper_idle h' = upper_idle h.
Proof.
  intros HI Hev Hs. destruct ev as [r| |now|now| | |]; try done; simpl in Hs.
  - destruct (shim h) eqn:Esh; try done. unfold upper_idle.
    assert (Hsa : forall r rest, upper_idle (shim_arrives r rest now h) = upper_idle h).
    { intros r rest. unfold upper_idle, shim_arrives. destruct (arrived h) eqn:Ea; [|done]. simpl.
      by rewrite (inv_arrived _ _ HI Esh Ea). }
    destruct (inbox h); [destruct (lower_alive h); [done|]|]; injection Hs as <- _; apply Hsa.
  - destruct (shim h); try done. destruct (_ <=? _); [|done]. by injection Hs as <- _.
  - destruct (shim h) as [|r d []|]; try done. by injection Hs as <- _.
Qed.

Lemma pm_step_idle pod_id ttl ins sigs (s : pm_state B D) ev s' effs :
  pm_inv pod_id ins sigs s -> (forall h, ev <> PmClient h) ->
  pm_step parse_endpoint latest cu pod_id ttl s ev = Some (s', effs) ->
  upper_idle (pm_handle s') = upper_idle (pm_handle s).
Proof.
  intros HI Hev Hs. destruct ev as [now connect input|env|env|env req|hev|hev]; simpl in Hs.
  - unfold watcher_moves in Hs. destruct (ew_step _ _ _ _ _) as [[w acts]|]; [|done].
    destruct (handle_run _ _ _) as [[h outs]|] eqn:Eh; [|done]. case_bool_decide; [|done]. injection Hs as <- _.
    unfold upper_idle, handle_moves in *. simpl. erewrite lower_moves_upper; [done| |exact Eh].
    destruct (ew_ended w); auto.
  - unfold collector_moves in Hs. repeat case_match; by simplify_eq.
  - unfold collector_moves in Hs. repeat case_match; by simplify_eq.
  - unfold collector_moves in Hs. repeat case_match; by simplify_eq.
  - destruct (is_shim_move hev) eqn:Em; [|done]. unfold handle_moves_on in Hs.
    destruct (handle_step _ _ _) as [[h out]|] eqn:Eh; [|done]. injection Hs as <- _. simpl.
    by eapply shim_move_idle; [apply HI|done|].
  - by destruct (Hev hev).
Qed.

(** A move of a manager that lives on after its event watcher. *)
Lemma live_step_calmer pod_id ttl (s : live B D) ev s' effs :
  live_step parse_endpoint latest cu pod_id ttl s ev = Some (s', effs) ->
  ew_ended (pm_watcher (lv_pm s)) = true ->
  ew_ended (pm_watcher (lv_pm s')) = true /\
  (pm_measure (lv_pm s') + (if internal_event ev then 1 else 0) <= pm_measure (lv_pm s))%nat.
Proof.
  intros Hs He. apply live_step_pm in Hs as [(-> & _ & r & ->)|(pev & Hm & Hev)]; [simpl; split; [done|lia]|].
  destruct (ended_step _ _ _ _ _ _ _ _ _ He Hm) as [He' Hd]. split; [done|].
  destruct ev as [now connect last|now connect|r|ev]; simpl; try lia. subst pev. by destruct ev.
Qed.

Lemma live_step_idle pod_id ttl ins sigs (s : live B D) ev s' effs :
  pm_inv pod_id ins sigs (lv_pm s) -> (forall h, ev <> LvOther (PmClient h)) ->
  live_step parse_endpoint latest cu pod_id ttl s ev = Some (s', effs) ->
  upper_idle (pm_handle (lv_pm s')) = upper_idle (pm_handle (lv_pm s)).
Proof.
  intros HI Hev Hs. apply live_step_pm in Hs as [(-> & _)|(pev & Hm & Hp)]; [done|].
  eapply pm_step_idle; [done| |done]. intros h ->. destruct ev; try done. by destruct (Hev h); subst.
Qed.

(** The client's own moves. *)
Lemma wait_call_enabled m :
  upper_idle (pm_handle (lv_pm (ro_state m))) = true ->
  exists m' effs, advance m (LvOther (PmClient WaitCall)) = Some (m', effs) /\
    upper_idle (pm_handle (lv_pm (ro_state m'))) = bool_decide (is_Some (returned effs)).
Proof.
  intros Hi. unfold advance. simpl. unfold handle_moves_on. simpl.
  unfold upper_idle in Hi. destruct (upper (pm_handle (lv_pm (ro_state m)))) eqn:Eu; try done.
  destruct (phantom (pm_handle (lv_pm (ro_state m)))) as [[p|e]|]; do 2 eexists; (split; [reflexivity|]); simpl;
    unfold upper_idle; simpl; rewrite ?Eu; try done.
  unfold upper_arrives. by destruct (arrived _).
Qed.

Lemma wait_receive_idle m m' effs :
  advance m (LvOther (PmClient WaitReceive)) = Some (m', effs) ->
  upper_idle (pm_handle (lv_pm (ro_state m'))) = true.
Proof.
  unfold advance. simpl. unfold handle_moves_on. simpl.
  destruct (upper _); try done. destruct (outbox _); [destruct (shim _)|]; try done; by intros [= <- _].
Qed.

Lemma refresh_replies m env m' effs t :
  advance m (LvOther (PmRefresh env (Some true))) = Some (m', effs) -> replied effs = Some t -> ticket t = ro_id m.
Proof.
  unfold advance. simpl. unfold collector_moves. destruct (pm_collector _); try done. simpl.
  destruct (ticket_new _ _ _ _ _) as [k|] eqn:Ek; intros [= _ <-]; [|done].
  simpl. intros [= <-]. by destruct (ticket_new_Done _ _ _ _ _ _ Ek).
Qed.

#[local] Existing Instance live_Machine.

(** A manager whose event watcher has ended can go on until it has ended. *)
Lemma live_progress `{Inhabited D} id (m : M) :
  lived id m -> ew_ended (pm_watcher (lv_pm (ro_state m))) = true ->
  m_joined (N := birth) (E := live_event D) (D := D) m = false ->
  exists e, internal_event e = true /\ is_Some (m_step (N := birth) (D := D) m e).
Proof.
  simpl. intros Hl He Hj. destruct (lived_pm _ _ Hl) as (ins & sigs & HP).
  pose proof (pm_lower _ _ _ _ HP) as Hlo. rewrite He in Hlo.
  set (env := {| env_utc := inhabitant : D; env_instant := 0; env_connect := Ok tt; env_patch := Ok tt;
                 env_delete := Ok tt |}).
  destruct (measure_joined _ He Hj) as [Hg|Hs].
  - exists (LvOther (PmPull env)). split; [done|]. unfold advance.
    destruct (pull_enabled parse_endpoint latest cu (ro_id m) (ro_ttl m) _ env He Hg) as [[pm es] Hp].
    cbn [live_step is_watcher_event daemon_event]. rewrite Hp. eauto.
  - destruct (shim_enabled parse_endpoint latest cu (ro_id m) (ro_ttl m) _ Hlo Hs) as (ev & Hev & [[pm es] Hp]).
    exists (LvOther (PmShim ev)). split; [done|]. unfold advance.
    cbn [live_step is_watcher_event daemon_event]. rewrite Hp. eauto.
Qed.

#[local] Instance live_MachineLaws `{Inhabited D} : MachineLaws M (live_event D) birth D.
Proof.
  refine {|
    m_ok := lived; m_vouches m p := WaitReturned (Ok p) ∈ ro_effects m;
    m_idle m := upper_idle (pm_handle (lv_pm (ro_state m)));
    m_ended m := ew_ended (pm_watcher (lv_pm (ro_state m)));
    m_measure m := pm_measure (lv_pm (ro_state m));
    m_internal := internal_event;
  |}; simpl.
  - intros id ttl n. split; [by split|]. simpl. by destruct n as [[a now] [u|e]].
  - intros id m e m' Hl Hs. destruct (daemon_event e) eqn:Ed; [|done].
    destruct (advance m e) as [[m1 effs]|] eqn:Ea; [|done]. injection Hs as ->.
    destruct (advance_lived _ _ _ _ _ Hl Ea) as (Hl' & Hs & He). destruct (lived_pm _ _ Hl) as (ins & sigs & HP).
    pose proof Hl as [Hid _]. rewrite Hid in Hs. split_and!; [done| | |].
    + eapply live_step_idle; [done| |done]. by intros h ->.
    + intros p. by eapply advance_vouches.
    + intros Hend. by eapply live_step_calmer.
  - intros id m Hl Hi. destruct (wait_call_enabled m Hi) as (m' & effs & Ea & Hi'). rewrite Ea.
    destruct (advance_lived _ _ _ _ _ Hl Ea) as (Hl' & Hs & He).
    do 2 eexists. split; [done|]. split_and!; [done|done| | |].
    + intros p. by eapply advance_vouches.
    + intros p Hp%returned_elem. rewrite He. set_solver.
    + intros Hend. destruct (live_step_calmer _ _ _ _ _ _ Hs Hend). simpl in *. split; [done|lia].
  - intros id m m' r Hl Hs. destruct (advance m (LvOther (PmClient WaitReceive))) as [[m1 effs]|] eqn:Ea; [|done].
    destruct (returned effs) eqn:Er; [|done]. injection Hs as -> ->.
    destruct (advance_lived _ _ _ _ _ Hl Ea) as (Hl' & Hs & He). split_and!; [done| | | |].
    + by eapply wait_receive_idle.
    + intros p. by eapply advance_vouches.
    + intros p ->. apply returned_elem in Er. rewrite He. set_solver.
    + intros Hend. destruct (live_step_calmer _ _ _ _ _ _ Hs Hend). simpl in *. split; [done|lia].
  - intros id m env m' t Hl Hs. destruct (advance m _) as [[m1 effs]|] eqn:Ea; [|done]. injection Hs as -> <-.
    destruct (advance_lived _ _ _ _ _ Hl Ea) as (Hl' & Hs & He). destruct (lived_pm _ _ Hl) as (ins & sigs & HP).
    pose proof Hl as [Hid _]. split_and!; [done| | | |].
    + rewrite Hid in Hs. eapply live_step_idle; [done| |done]. done.
    + intros p. by eapply advance_vouches.
    + intros k Hk. rewrite <- Hid. by eapply refresh_replies.
    + intros Hend. destruct (live_step_calmer _ _ _ _ _ _ Hs Hend). simpl in *. split; [done|lia].
  - intros id m Hl. destruct (lived_pm _ _ Hl) as (ins & sigs & HP). by eapply measure_bound.
  - intros id m. apply live_progress.
Defined.
End Instance_.

(** ** Theorems *)

Section MutexTheorems.
Context {W M E N D : Type} `{PodApi W} `{MachineLaws M E N D}.
Context (simple : Z -> string) (to_kebab : string -> string) (ua : Z -> bool).
Context (from_value : json -> result Pod string).
Notation S := (service W M D).
Notation step := (sv_step (M := M) (E := E) (N := N) (D := D) simple to_kebab ua from_value).
Notation run_sv := (sv_run (M := M) (E := E) (N := N) (D := D) simple to_kebab ua from_value).

(** C3: a manager serves one client at a time, and nobody waits for nothing: two
    handlers are never inside the same manager, and a handler that is not done
    can go on, unless it waits for a mutex that another handler holds, or for the
    coroutines of its manager inside [wait] or [refresh]. *)
Theorem one_client_at_a_time (w : W) (evs : list (sv_event E N D)) (s : S)
  (Hrun : run_sv (sv_init w) evs = Some s) :
  (forall tid tid' th th' addr,
     sv_threads s !! tid = Some th -> sv_threads s !! tid' = Some th' ->
     inside addr (t_place th) = true -> inside addr (t_place th') = true -> tid = tid') /\
  forall tid th n env, sv_threads s !! tid = Some th ->
    (exists r, t_place th = Answered r) \/ is_Some (step s (EvThread tid n env)) \/
    exists addr c, address_of (t_place th) = Some addr /\ sv_heap s !! addr = Some c /\
      match t_place th with
      | AtLock _ => exists tid' th', tid' <> tid /\ sv_threads s !! tid' = Some th' /\ inside addr (t_place th') = true
      | AtReceive _ => m_wait_receive (c_machine c) = None
      | AtReply _ _ => m_refresh (c_machine c) env = None /\ m_request_open (c_machine c) = true
      | _ => False
      end.
Proof.
  pose proof (sv_reachable _ _ _ _ _ _ _ Hrun) as Hwf. split.
  - intros tid tid' th th' addr Ht Ht' Hi Hi'.
    destruct (wf_inside _ Hwf _ _ _ Ht Hi) as (c & Hc & Ho), (wf_inside _ Hwf _ _ _ Ht' Hi') as (c' & Hc' & Ho').
    congruence.
  - intros tid th n env Ht. destruct (address_of (t_place th)) as [addr|] eqn:Ha.
    + right. rewrite <- Ha. by eapply blocked_or_moves.
    + destruct (t_place th) as [pod name ttl| | | | | |r] eqn:Hp; try done; [right; left|by eauto].
      simpl. unfold thread_step. rewrite Ht, Hp. eauto.
Qed.

(** C20: the shared state of the service is consistent in every reachable state,
    under any interleaving of requests, handlers, managers and clean-ups: the
    cache holds under each name a manager of that name which is not cleaned up;
    a mutex is held by a handler exactly while the handler is between taking and
    releasing it; and a handler only works with, and only answers with what it got
    from, a manager of the pod that it was asked for. *)
Theorem service_well_formed (w : W) (evs : list (sv_event E N D)) (s : S)
  (Hrun : run_sv (sv_init w) evs = Some s) :
  (forall id addr, sv_cache s !! id = Some addr ->
     exists c, sv_heap s !! addr = Some c /\ c_id c = id /\ c_cleaned c = false) /\
  (forall tid addr,
     (exists c, sv_heap s !! addr = Some c /\ c_owner c = Some tid) <->
     (exists th, sv_threads s !! tid = Some th /\ inside addr (t_place th) = true)) /\
  (forall tid th, sv_threads s !! tid = Some th -> thread_ok (sv_heap s) th).
Proof.
  destruct (sv_reachable _ _ _ _ _ _ _ Hrun) as [_ Hown Hin Hth Hca]. split_and!; [done| |done].
  intros tid addr. split.
  - intros (c & Hc & Ho). specialize (Hown _ _ Hc). unfold owner_ok in Hown. rewrite Ho in Hown.
    destruct Hown as (th & ? & ? & _). by exists th.
  - intros (th & Ht & Hi). by apply (Hin tid th).
Qed.

(** C2: the service comes to rest: once the event watchers of all managers have
    ended, and as long as no new manager is registered, the service makes at most
    six moves per manager by itself, whatever the clients do; and until the cache
    is empty one of these moves is possible. *)
Theorem service_winds_down (w : W) (evs evs' : list (sv_event E N D)) (s s' : S)
  (Hrun : run_sv (sv_init w) evs = Some s) (Hended : all_ended s)
  (Hrest : run_sv s evs' = Some s') (Hnone : length (sv_heap s') = length (sv_heap s)) :
  (sv_count evs' <= 6 * length (sv_heap s))%nat /\
  (sv_cache s' = ∅ \/ exists ev, sv_internal ev = true /\ is_Some (step s' ev)).
Proof.
  pose proof (sv_reachable _ _ _ _ _ _ _ Hrun) as Hwf.
  pose proof (sv_run_wf _ _ _ _ _ _ _ Hwf Hrest) as Hwf'.
  destruct (idle_run _ _ _ _ _ _ _ Hwf Hended Hrest Hnone) as [He' Hm].
  pose proof (measure_bounded _ Hwf). split; [lia|].
  destruct (decide (sv_cache s' = ∅)) as [|Hne]; [by left|right].
  apply map_choose in Hne as (id & addr & Hc). by eapply cached_moves.
Qed.
End MutexTheorems.

(** ** The whole service *)

Section Whole.
Context {W B D : Type} `{PodApi W} `{BackoffLaws B} `{Chrono D} `{Inhabited D}.
Context (parse_endpoint : string -> result string string).
Context (latest : Z) (cu : bool).
Context (simple : Z -> string) (to_kebab : string -> string) (ua : Z -> bool).
Context (from_value : json -> result Pod string).

#[local] Instance whole_Machine : Machine (run_of B D) (live_event D) birth D :=
  live_Machine parse_endpoint latest cu.
#[local] Instance whole_MachineLaws : MachineLaws (run_of B D) (live_event D) birth D :=
  live_MachineLaws parse_endpoint latest cu.

(** The service with the managers of [Live.v]. *)
Definition acm_run : service W (run_of B D) D -> list (sv_event (live_event D) birth D) ->
  option (service W (run_of B D) D) := sv_run simple to_kebab ua from_value.

(** C1: what the wait endpoint promises its clients, for the whole service, under
    any interleaving of requests, managers and clean-ups: a successful answer for
    [id] carries a ticket for [id], and a pod that the manager of [id] has seen
    running and has connected to on its own address, at most thirty seconds after
    the health check was started (plus the delay of a timer that fires late),
    all connections before having been refused. *)
Theorem acm_wait_ok (w : W) (evs : list (sv_event (live_event D) birth D))
  (s : service W (run_of B D) D) (tid : nat) (id : string) (resp : Response (PodTicket D))
  (Hrun : acm_run (sv_init w) evs = Some s)
  (Hanswer : sv_threads s !! tid = Some {| t_request := ReqWait id; t_place := Answered (WaitAnswer (Ok resp)) |}) :
  ticket (ticket_ticket (payload resp)) = id /\
  exists addr c, sv_heap s !! addr = Some c /\ c_id c = id /\
    live_run parse_endpoint latest cu id (ro_ttl (c_machine c))
      (live_new (ro_api (c_machine c)) (ro_now (c_machine c)) (ro_connected (c_machine c)))
      (ro_events (c_machine c)) = Some (ro_state (c_machine c), ro_effects (c_machine c)) /\
    healthy parse_endpoint (ro_api (c_machine c)) (ro_events (c_machine c))
      (lv_check (ro_state (c_machine c))) (ticket_pod (payload resp)).
Proof.
  pose proof (sv_reachable _ _ _ _ _ _ _ Hrun) as Hwf.
  destruct (wf_thread _ Hwf _ _ Hanswer) as (id' & addr & [= <-] & (c & Hc & Hid) & (c' & Hc' & Hv) & Ht).
  rewrite Hc in Hc'. injection Hc' as <-. split; [done|]. exists addr, c. split_and!; [done|done| |].
  - destruct (wf_cell _ Hwf _ _ Hc) as [Hid' Hr]. by rewrite Hid', Hid in Hr.
  - destruct (wf_cell _ Hwf _ _ Hc) as [_ Hr]. by eapply live_healthy.
Qed.
End Whole.

(** ** Witnesses *)

Definition example_birth : birth := (example_script, 0, Ok tt).
Definition go (tid : nat) : sv_event (live_event Z) birth Z := EvThread tid example_birth (calm_gc 3).

(** A deployment, a client that waits for the pod while another one waits for
    the mutex, and the manager at its work. *)
Definition example_day : list (sv_event (live_event Z) birth Z) :=
  [ EvRequest (ReqDeploy None None 0 "t" "Oracle" (Some 150)); go 0;
    EvRequest (ReqWait example_name); go 1; go 1; EvRequest (ReqRefresh example_name) ] ++
  map (EvManager 0)
    (drop 1 example_start ++
     [LvOutcome 1250000000 (Ok tt); LvOther (PmPull (calm_gc 2)); LvOther (PmShim (ShimTake 2));
      LvOther (PmShim ShimPass)]) ++
  [ go 1; go 1; go 1; go 2 ].

Definition example_acm :=
  acm_run (W := mem_server) (B := simple_backoff) (D := Z) Ok (from_secs 4000000000) false
    hex_simple space_kebab no_unicode name_from_value (sv_init mem_example).

Lemma acm_wait_ok_witness :
  exists s resp, example_acm example_day = Some s /\
    sv_threads s !! 1%nat = Some {| t_request := ReqWait example_name; t_place := Answered (WaitAnswer (Ok resp)) |} /\
    ticket (ticket_ticket (payload resp)) = example_name.
Proof.
  do 2 eexists. split; [vm_compute; reflexivity|]. split; [vm_compute; reflexivity|].
  eapply (acm_wait_ok (W := mem_server) (B := simple_backoff) (D := Z) Ok (from_secs 4000000000) false
    hex_simple space_kebab no_unicode name_from_value mem_example example_day _ 1 example_name).
  - vm_compute. reflexivity.
  - vm_compute. reflexivity.
Defined.

#[local] Instance example_Machine : Machine (run_of simple_backoff Z) (live_event Z) birth Z :=
  live_Machine Ok (from_secs 4000000000) false.
#[local] Instance example_MachineLaws : MachineLaws (run_of simple_backoff Z) (live_event Z) birth Z :=
  live_MachineLaws Ok (from_secs 4000000000) false.

(** The second client has got the mutex after the first. *)
Definition example_state : service mem_server (run_of simple_backoff Z) Z :=
  match example_acm example_day with Some s => s | None => sv_init mem_example end.

Lemma one_client_at_a_time_witness :
  exists th th', sv_threads example_state !! 1%nat = Some th /\ sv_threads example_state !! 2%nat = Some th' /\
    inside 0 (t_place th') = true /\ inside 0 (t_place th) = false.
Proof.
  do 2 eexists. split; [vm_compute; reflexivity|]. split; [vm_compute; reflexivity|]. split; [reflexivity|].
  apply not_true_is_false. intros Hi.
  enough (1 = 2)%nat by discriminate.
  eapply (one_client_at_a_time (W := mem_server) hex_simple space_kebab no_unicode name_from_value
    mem_example example_day example_state).
  - vm_compute. reflexivity.
  - vm_compute. reflexivity.
  - vm_compute. reflexivity.
  - exact Hi.
  - reflexivity.
Defined.

Lemma service_well_formed_witness :
  exists c th, sv_cache example_state !! example_name = Some 0%nat /\
    sv_heap example_state !! 0%nat = Some c /\ c_id c = example_name /\ c_owner c = Some 2%nat /\
    sv_threads example_state !! 2%nat = Some th /\ inside 0 (t_place th) = true.
Proof.
  destruct (service_well_formed (W := mem_server) hex_simple space_kebab no_unicode name_from_value
    mem_example example_day example_state) as (Hcache & Hmutex & _); [vm_compute; reflexivity|].
  destruct (Hcache example_name 0%nat) as (c & Hc & Hid & _); [vm_compute; reflexivity|].
  destruct (proj1 (Hmutex 2%nat 0%nat)) as (th & Ht & Hi); [eexists; split; [vm_compute; reflexivity|reflexivity]|].
  exists c, th. split; [vm_compute; reflexivity|]. split; [exact Hc|]. split; [exact Hid|].
  split; [|split; [exact Ht|exact Hi]]. vm_compute in Hc. injection Hc as <-. reflexivity.
Defined.

(** The pod is deleted after the second client was served. *)
Definition example_evening : list (sv_event (live_event Z) birth Z) :=
  example_day ++ [ go 2; go 2; EvManager 0 (LvPoll 9 (Ok tt) []) ].
Definition example_night : list (sv_event (live_event Z) birth Z) :=
  [ EvManager 0 (LvOther (PmPull (calm_gc 10))); EvCleanup 0 ].

Lemma service_winds_down_witness :
  exists s s', example_acm example_evening = Some s /\
    sv_run (W := mem_server) hex_simple space_kebab no_unicode name_from_value s example_night = Some s' /\
    (sv_count example_night <= 6 * length (sv_heap s))%nat /\ sv_cache s' = ∅.
Proof.
  do 2 eexists. split; [vm_compute; reflexivity|]. split; [vm_compute; reflexivity|].
  split; [|reflexivity].
  eapply (service_winds_down (W := mem_server) hex_simple space_kebab no_unicode name_from_value
    mem_example example_evening example_night).
  - vm_compute. reflexivity.
  - repeat (apply List.Forall_cons; [reflexivity|]). apply List.Forall_nil.
  - vm_compute. reflexivity.
  - reflexivity.
Defined.
