(* ===== verification/Routes.v ===== *)
(** * The routes of the two services

    The attributes of the handlers and the [mount] calls in
    [service/acm/src/main.rs] and [service/aim/src/main.rs].  Rocket is not part
    of the sources: how a route is matched with a request is the interface
    [Rocket], and [RocketLaws] is what its guide says about static paths and
    query parameters.  [plain_rocket] is an instance. *)

From S2P Require Import Prelude RustStr Json Errors Names Pod Kube Watcher Backoff ServerCheck GarbageCollector ExternalHandle EventWatcher PodManager Live Acm Service.

(** ** Requests and routes *)

Inductive Method := Get | Post | Delete.
#[export] Instance Method_eq_dec : EqDecision Method.
Proof. solve_decision. Defined.

(** A request, with its query decoded into fields. *)
Record http_request := { rq_method : Method; rq_path : string; rq_query : list (string * string) }.

(** The types of the query parameters: [String] and [Option<u64>]. *)
Inductive param_type := TString | TOptionU64.
Inductive argument := AString (s : string) | AOptionU64 (n : option Z).

Record route (A : Type) := {
  rt_method : Method;
  rt_path : string;
  rt_query : list (string * param_type);
  rt_handler : A;
}.
Arguments rt_method {A} _.
Arguments rt_path {A} _.
Arguments rt_query {A} _.
Arguments rt_handler {A} _.

(** [u64::from_str]. *)
Fixpoint digits_value (acc : Z) (l : list Z) : option Z :=
  match l with
  | [] => Some acc
  | b :: l => if is_ascii_digit b then digits_value (10 * acc + (b - 48)) l else None
  end.
Definition parse_u64 (s : string) : option Z :=
  let digits := match bytes s with 43 :: l => l | l => l end in
  match digits with
  | [] => None
  | _ => match digits_value 0 digits with
         | Some n => if n <? 2 ^ 64 then Some n else None
         | None => None
         end
  end.

(** The value of a parameter; [None] when it is required and missing. *)
Definition param_value (query : list (string * string)) (p : string * param_type) : option argument :=
  match p.2, assoc p.1 query with
  | TString, Some v => Some (AString v)
  | TString, None => None
  | TOptionU64, Some v => Some (AOptionU64 (parse_u64 v))
  | TOptionU64, None => Some (AOptionU64 None)
  end.

(** Rocket: the arguments with which a route accepts a request. *)
Class Rocket := route_args : forall {A : Type}, route A -> http_request -> option (list argument).

Class RocketLaws {rocket : Rocket} := {
  law_method {A} (r : route A) q : rt_method r <> rq_method q -> route_args r q = None;
  law_path {A} (r : route A) q : rt_path r <> rq_path q -> route_args r q = None;
  law_query {A} (r : route A) q : rt_method r = rq_method q -> rt_path r = rq_path q ->
    route_args r q = mapM (param_value (rq_query q)) (rt_query r);
}.

(** ** The ACM *)

Inductive AcmHandler := Deploy | Wait | Remove | Refresh.

(** [routes![deploy, wait, delete, refresh]], mounted at the root. *)
Definition acm_routes : list (route AcmHandler) :=
  [ {| rt_method := Post; rt_path := "/deploy";
       rt_query := [("tag", TString); ("name", TString); ("ttl", TOptionU64)]; rt_handler := Deploy |};
    {| rt_method := Get; rt_path := "/wait"; rt_query := [("id", TString)]; rt_handler := Wait |};
    {| rt_method := Delete; rt_path := "/delete"; rt_query := [("id", TString)]; rt_handler := Remove |};
    {| rt_method := Post; rt_path := "/refresh"; rt_query := [("ticket", TString)]; rt_handler := Refresh |} ].

(** [main], up to [launch]: the variable of the logger, the configuration and the
    routes. *)
Definition acm_config : Config := {| Errors.address := "0.0.0.0"; limits := [] |}.
Definition acm_main (var : environment) : environment * Config * list (route AcmHandler) :=
  (set_var "RUST_LOG_STYLE" "always" var, acm_config, acm_routes).

(** The call of the handler; the variables and the random number are those that
    it finds. *)
Definition acm_call (registry repository : option string) (random : Z) (h : AcmHandler) (args : list argument)
  : option request :=
  match h, args with
  | Deploy, [AString tag; AString name; AOptionU64 ttl] => Some (ReqDeploy registry repository random tag name ttl)
  | Wait, [AString id] => Some (ReqWait id)
  | Remove, [AString id] => Some (ReqDelete id)
  | Refresh, [AString ticket] => Some (ReqRefresh ticket)
  | _, _ => None
  end.

(** ** The AIM *)

Inductive AimHandler := Install | Uninstall | List_ | GetTag.

(** [routes![install, uninstall, list, get]]; the upload is not a query
    parameter. *)
Definition aim_routes : list (route AimHandler) :=
  [ {| rt_method := Post; rt_path := "/install"; rt_query := []; rt_handler := Install |};
    {| rt_method := Delete; rt_path := "/uninstall"; rt_query := [("tag", TString)]; rt_handler := Uninstall |};
    {| rt_method := Get; rt_path := "/list"; rt_query := []; rt_handler := List_ |};
    {| rt_method := Get; rt_path := "/get"; rt_query := [("tag", TString)]; rt_handler := GetTag |} ].

(** The first route that accepts. *)
Section Dispatch.
Context {rocket : Rocket}.

Fixpoint dispatch_to {A} (rs : list (route A)) (q : http_request) : option (A * list argument) :=
  match rs with
  | [] => None
  | r :: rs =>
      match route_args r q with
      | Some args => Some (rt_handler r, args)
      | None => dispatch_to rs q
      end
  end.

Definition acm_dispatch (registry repository : option string) (random : Z) (q : http_request) : option request :=
  match dispatch_to acm_routes q with
  | Some (h, args) => acm_call registry repository random h args
  | None => None
  end.
End Dispatch.

(** ** Theorems *)

(** Two routes that accept the same request. *)
Definition overlap {A} (r r' : route A) : bool :=
  bool_decide (rt_method r = rt_method r') && (rt_path r =? rt_path r')%string.

Section Theorems.
Context {rocket : Rocket} {laws : RocketLaws}.

Lemma route_args_Some {A} (r : route A) q args :
  route_args r q = Some args ->
  rt_method r = rq_method q /\ rt_path r = rq_path q /\ mapM (param_value (rq_query q)) (rt_query r) = Some args.
Proof.
  intros Ha. destruct (decide (rt_method r = rq_method q)) as [Hm|Hm]; [|by rewrite law_method in Ha].
  destruct (decide (rt_path r = rq_path q)) as [Hp|Hp]; [|by rewrite law_path in Ha].
  by rewrite law_query in Ha.
Qed.

Lemma overlap_spec {A} (r r' : route A) q args args' :
  route_args r q = Some args -> route_args r' q = Some args' -> overlap r r' = true.
Proof.
  intros (Hm & Hp & _)%route_args_Some (Hm' & Hp' & _)%route_args_Some. unfold overlap.
  rewrite Hm, Hm', Hp, Hp'. by rewrite bool_decide_eq_true_2, String.eqb_refl.
Qed.

(** The routes of a service are told apart by method and path, so that the order
    of their mounting does not matter. *)
Lemma routes_disjoint {A} (rs : list (route A)) (i j : nat) (r r' : route A) q args args' :
  forallb (fun ir => forallb (fun jr => (ir.1 =? jr.1)%nat || negb (overlap ir.2 jr.2))
    (imap pair rs)) (imap pair rs) = true ->
  rs !! i = Some r -> rs !! j = Some r' -> route_args r q = Some args -> route_args r' q = Some args' -> i = j.
Proof.
  intros Hall Hi Hj Ha Ha'. rewrite forallb_forall in Hall.
  assert (Hin : forall k x, rs !! k = Some x -> In (k, x) (imap pair rs)).
  { intros k x Hk. apply list_elem_of_In, (list_elem_of_lookup_2 _ k). by rewrite list_lookup_imap, Hk. }
  specialize (Hall _ (Hin _ _ Hi)). rewrite forallb_forall in Hall. specialize (Hall _ (Hin _ _ Hj)). simpl in Hall.
  rewrite (overlap_spec _ _ _ _ _ Ha Ha') in Hall. simpl in Hall. rewrite orb_false_r in Hall. by apply Nat.eqb_eq.
Qed.

(** The routes other than that of [/deploy] do not accept a request for it. *)
Lemma other_routes m query :
  dispatch_to (drop 1 acm_routes) {| rq_method := m; rq_path := "/deploy"; rq_query := query |} = None.
Proof. cbn [acm_routes drop dispatch_to]. by rewrite !law_path. Qed.

(** A request to deploy becomes a deployment exactly when it has a tag and a
    name; a lifetime that is missing or is not a number of 64 bits is left to the
    default without a word. *)
Theorem deploy_requests (registry repository : option string) (random : Z) (query : list (string * string)) :
  acm_dispatch registry repository random {| rq_method := Post; rq_path := "/deploy"; rq_query := query |} =
  match assoc "tag" query, assoc "name" query with
  | Some tag, Some name => Some (ReqDeploy registry repository random tag name (assoc "ttl" query ≫= parse_u64))
  | _, _ => None
  end.
Proof.
  unfold acm_dispatch. change acm_routes with (take 1 acm_routes ++ drop 1 acm_routes).
  cbn [acm_routes take app dispatch_to]. rewrite law_query by done. cbn [rt_query rq_query].
  pose proof (other_routes Post query) as Hrest. cbn [acm_routes drop] in Hrest.
  unfold param_value. cbn -[dispatch_to]. destruct (assoc "tag" query) as [t|]; cbn -[dispatch_to]; [|by rewrite Hrest].
  destruct (assoc "name" query) as [n|]; cbn -[dispatch_to]; [|by rewrite Hrest].
  by destruct (assoc "ttl" query).
Qed.

(** The example in the documentation of the endpoint,
    [/deploy?tag=abcd1234&SuperCoolConnector&ttl=150], has no field [name]: it is
    not served. *)
Theorem documented_deploy_is_refused (registry repository : option string) (random : Z) :
  acm_dispatch registry repository random
    {| rq_method := Post; rq_path := "/deploy";
       rq_query := [("tag", "abcd1234"); ("SuperCoolConnector", ""); ("ttl", "150")] |} = None.
Proof. by rewrite deploy_requests. Qed.

(** No request is accepted by two routes of a service. *)
Theorem routes_do_not_collide (q : http_request) :
  (forall i j r r' args args', acm_routes !! i = Some r -> acm_routes !! j = Some r' ->
     route_args r q = Some args -> route_args r' q = Some args' -> i = j) /\
  (forall i j r r' args args', aim_routes !! i = Some r -> aim_routes !! j = Some r' ->
     route_args r q = Some args -> route_args r' q = Some args' -> i = j).
Proof. split; intros i j r r' args args'; by apply routes_disjoint. Qed.
End Theorems.

(** ** An instance *)

#[export] Instance plain_rocket : Rocket := fun A r q =>
  if decide (rt_method r = rq_method q) then
    if decide (rt_path r = rq_path q) then mapM (param_value (rq_query q)) (rt_query r) else None
  else None.

#[export] Instance plain_rocket_laws : RocketLaws.
Proof.
  split; intros A r q; unfold route_args, plain_rocket; intros.
  - by rewrite decide_False.
  - by destruct (decide (rt_method r = rq_method q)); [rewrite decide_False|].
  - by rewrite !decide_True.
Qed.

(** The examples of the other endpoints. *)
Example documented_requests :
  acm_dispatch None None 0 {| rq_method := Get; rq_path := "/wait"; rq_query := [("id", "super-cool-connector-abcd12345")] |} =
    Some (ReqWait "super-cool-connector-abcd12345") /\
  acm_dispatch None None 0
    {| rq_method := Post; rq_path := "/refresh"; rq_query := [("ticket", "super-cool-connector-abcd12345")] |} =
    Some (ReqRefresh "super-cool-connector-abcd12345") /\
  acm_dispatch None None 0
    {| rq_method := Delete; rq_path := "/delete"; rq_query := [("id", "super-cool-connector-abcd12345")] |} =
    Some (ReqDelete "super-cool-connector-abcd12345") /\
  dispatch_to aim_routes {| rq_method := Get; rq_path := "/get"; rq_query := [("tag", "n6f7")] |} =
    Some (GetTag, [AString "n6f7"]) /\
  acm_dispatch None None 0 {| rq_method := Post; rq_path := "/deploy"; rq_query := [("name", "Oracle"); ("ttl", "1.5"); ("tag", "t")] |} =
    Some (ReqDeploy None None 0 "t" "Oracle" None) /\
  parse_u64 "18446744073709551615" = Some (2 ^ 64 - 1) /\ parse_u64 "18446744073709551616" = None /\
  parse_u64 "" = None /\ parse_u64 "+" = None /\ parse_u64 "+7" = Some 7.
Proof. by vm_compute. Qed.
