(* ===== verification/Process.v ===== *)
(** * Running commands

    [library/os/src/process.rs]: the macro [cmd!] and [exec].  An argument of a
    command is passed to the operating system as its bytes ([AsRef<OsStr>]) and
    put into messages as its [Display]; the two differ for secrets.  What the
    operating system does with the command is the argument [child]. *)

From S2P Require Import Prelude RustStr Errors.

(** ** [String::from_utf8] and [String::from_utf8_lossy] *)

Inductive utf8_next := Valid (width : nat) | Invalid (width : nat) | Incomplete.

Definition in_range (lo hi b : Z) : bool := (lo <=? b) && (b <=? hi).

(** Continuation bytes, checked one after the other: [ok] is the width read so
    far. *)
Fixpoint continuations (n : nat) (lo hi : Z) (ok : nat) (l : list Z) : utf8_next :=
  match n with
  | O => Valid ok
  | S n' =>
      match l with
      | [] => Incomplete
      | b :: l' => if in_range lo hi b then continuations n' 128 191 (S ok) l' else Invalid ok
      end
  end.

(** The next character of a byte string, as [core::str::from_utf8] reads it. *)
Definition next_char (b : Z) (l : list Z) : utf8_next :=
  if b <? 128 then Valid 1
  else if in_range 194 223 b then continuations 1 128 191 1 l
  else if b =? 224 then continuations 2 160 191 1 l
  else if b =? 237 then continuations 2 128 159 1 l
  else if in_range 225 239 b then continuations 2 128 191 1 l
  else if b =? 240 then continuations 3 144 191 1 l
  else if in_range 241 243 b then continuations 3 128 191 1 l
  else if b =? 244 then continuations 3 128 143 1 l
  else Invalid 1.

(** Where and how a byte string stops being UTF-8; [fuel] is its length. *)
Fixpoint first_error (fuel at_ : nat) (l : list Z) : option (nat * option nat) :=
  match fuel, l with
  | S fuel', b :: l' =>
      match next_char b l' with
      | Valid w => first_error fuel' (at_ + w) (drop w l)
      | Invalid w => Some (at_, Some w)
      | Incomplete => Some (at_, None)
      end
  | _, _ => None
  end.

(** [Display] of [FromUtf8Error]. *)
Definition utf8_error_text (e : nat * option nat) : string :=
  match e with
  | (i, Some w) =>
      "invalid utf-8 sequence of " +:+ fmt_int (Z.of_nat w) +:+ " bytes from index " +:+ fmt_int (Z.of_nat i)
  | (i, None) => "incomplete utf-8 byte sequence from index " +:+ fmt_int (Z.of_nat i)
  end.

Definition from_utf8 (s : string) : result string string :=
  match first_error (String.length s) 0 (bytes s) with
  | None => Ok s
  | Some e => Err (utf8_error_text e)
  end.

Definition REPLACEMENT_CHARACTER : list Z := [239; 191; 189].

Fixpoint lossy (fuel : nat) (l : list Z) : list Z :=
  match fuel, l with
  | S fuel', b :: l' =>
      match next_char b l' with
      | Valid w => take w l ++ lossy fuel' (drop w l)
      | Invalid w => REPLACEMENT_CHARACTER ++ lossy fuel' (drop w l)
      | Incomplete => REPLACEMENT_CHARACTER
      end
  | _, _ => []
  end.
Definition from_utf8_lossy (s : string) : string := of_bytes (lossy (String.length s) (bytes s)).

Example utf8_examples :
  from_utf8 (of_bytes [104; 105]) = Ok "hi" /\
  from_utf8 (of_bytes [104; 255]) = Err "invalid utf-8 sequence of 1 bytes from index 1" /\
  from_utf8 (of_bytes [226; 130]) = Err "incomplete utf-8 byte sequence from index 0" /\
  from_utf8_lossy (of_bytes [104; 240; 159; 65]) = of_bytes [104; 239; 191; 189; 65].
Proof. vm_compute. auto. Qed.

(** ** Errors *)

Inductive ProcessError :=
| FailedToSpawn (command source : string)
| InvalidUTF8 (command output source : string)
| InvalidUTF8Stderr (command output source : string)
| FailedToRun (command source : string)
| CommandFailed (command stderr : string).

#[export] Instance ProcessError_AcmError : AcmError ProcessError := {|
  acm_error := {|
    display e := match e with
      | FailedToSpawn command _ =>
          "Failed to spawn the " +:+ dq +:+ command +:+ dq +:+
          " command. Perhaps the ACM is corrupted? Perhaps try destroying its pod?"
      | InvalidUTF8 command output _ =>
          "Stdout for " +:+ dq +:+ command +:+ dq +:+ " was not valid UTF-8, got the following (lossy) " +:+ output
      | InvalidUTF8Stderr command output _ =>
          "Stderr for " +:+ dq +:+ command +:+ dq +:+ " was not valid UTF-8, got the following (lossy) " +:+ output
      | FailedToRun command _ =>
          "Failed to execute the " +:+ dq +:+ command +:+ dq +:+
          " command. Perhaps the ACM is corrupted? Perhaps try destroying its pod?"
      | CommandFailed command stderr =>
          "Failed to execute " +:+ dq +:+ command +:+ dq +:+ ". Stderr was " +:+ stderr
      end;
    source e := match e with
      | FailedToSpawn _ s | InvalidUTF8 _ _ s | InvalidUTF8Stderr _ _ s | FailedToRun _ s => Some s
      | CommandFailed _ _ => None
      end |};
  acm_code _ := Status.InternalServerError;
  acm_kind e := match e with
    | FailedToSpawn _ _ => "FailedToSpawn"
    | InvalidUTF8 _ _ _ => "InvalidUTF8"
    | InvalidUTF8Stderr _ _ _ => "InvalidUTF8Stderr"
    | FailedToRun _ _ => "FailedToRun"
    | CommandFailed _ _ => "CommandFailed"
    end;
|}.

(** ** Commands *)

(** An argument: what the operating system gets, and what messages show. *)
Record arg := { raw : string; shown : string }.
Definition plain (s : string) : arg := {| raw := s; shown := s |}.

(** [std::process::Output]. *)
Record Output := { success : bool; stdout : string; stderr : string }.

(** What becomes of a command: it cannot be spawned; or it is, its standard
    input takes what is written or not, and waiting for it returns. *)
Inductive child :=
| NotSpawned (io_error : string)
| Spawned (stdin_taken : bool) (output : result Output string).

Fixpoint join (sep : string) (l : list string) : string :=
  match l with
  | [] => ""
  | [s] => s
  | s :: l' => s +:+ sep +:+ join sep l'
  end.

(** [exec]: [stdin] is what is to be written. *)
Definition exec (stdin : option string) (c : child) (debug_string : string) : run (Result string) :=
  match c with
  | NotSpawned err => Done (Err (into_box (FailedToSpawn debug_string err)))
  | Spawned taken output =>
      let! _ := match stdin with
                | Some _ => if taken then Done tt else Panic "called `Result::unwrap()` on an `Err` value"
                | None => Done tt
                end in
      Done (
        let? output := map_err (fun err => into_box (FailedToRun debug_string err)) output in
        if negb (success output) then
          let? stderr := map_err (fun err =>
            into_box (InvalidUTF8Stderr debug_string (from_utf8_lossy (stderr output)) err))
            (from_utf8 (stderr output)) in
          Err (into_box (CommandFailed debug_string stderr))
        else
          let? stdout := map_err (fun err =>
            into_box (InvalidUTF8 debug_string (from_utf8_lossy (stdout output)) err))
            (from_utf8 (stdout output)) in
          Ok (trim_end stdout))
  end.

(** [cmd!]: [system] is the operating system, which sees the bytes of the
    command and its arguments. *)
Definition cmd (system : list string -> child) (stdin : option string) (command : string)
  (args : list arg) : run (Result string) :=
  let debug_string := join " " (command :: map shown args) in
  exec stdin (system (command :: map raw args)) debug_string.

(** ** Lemmas *)

(** ASCII whitespace: what a shell command leaves at the end of its output. *)
Definition ascii_space (b : Z) : bool := in_range 9 13 b || (b =? 32).

Lemma drop_while_head {A} (f : A -> bool) l x r : drop_while f l = x :: r -> f x = false.
Proof. induction l as [|y l IH]; simpl; [done|]. destruct (f y) eqn:E; [done|]. by intros [= <- <-]. Qed.

(** The last byte of a character that is not whitespace. *)
Lemma encode_last c b : is_whitespace c = false -> last (encode_utf8 c) = Some b -> ascii_space b = false.
Proof.
  intros Hw. unfold encode_utf8, ascii_space, in_range.
  assert (Hc : forall x, (9 <=? 128 + Z.land x 63) && (128 + Z.land x 63 <=? 13) || (128 + Z.land x 63 =? 32) = false).
  { intros x. assert (0 <= Z.land x 63) by (apply Z.land_nonneg; lia). lia. }
  destruct (c <? 128); [|destruct (c <? 2048); [|destruct (c <? 65536)]];
    intros [= <-]; try apply Hc.
  unfold is_whitespace in Hw. rewrite !orb_false_iff in Hw. destruct Hw as [[[[[[[[[[Hw ->] _] _] _] _] _] _] _] _] _].
  by rewrite Hw.
Qed.

Lemma last_app_some {A} (l1 l2 : list A) x : last l2 = Some x -> last (l1 ++ l2) = Some x.
Proof. intros Hl. rewrite last_app. by rewrite Hl. Qed.

Lemma encode_nonempty c : exists b, last (encode_utf8 c) = Some b.
Proof. unfold encode_utf8. destruct (c <? 128), (c <? 2048), (c <? 65536); simpl; eauto. Qed.

Lemma encode_last_byte c b : 0 <= c -> last (encode_utf8 c) = Some b -> 0 <= b < 256.
Proof.
  intros Hc. assert (Hl : forall x, 0 <= Z.land x 63 < 64).
  { intros x. change 63 with (Z.ones 6). rewrite Z.land_ones by lia. apply Z.mod_pos_bound. lia. }
  unfold encode_utf8. destruct (Z.ltb_spec c 128); [|destruct (c <? 2048); [|destruct (c <? 65536)]];
    intros [= <-]; try lia; pose proof (Hl c); lia.
Qed.

Lemma cont_nonneg acc b : 0 <= acc -> 0 <= cont acc b.
Proof.
  intros. unfold cont. apply Z.lor_nonneg. split; [by apply Z.shiftl_nonneg|apply Z.land_nonneg; lia].
Qed.

Lemma decode_nonneg l : Forall (fun b => 0 <= b) l -> Forall (fun c => 0 <= c) (decode l).
Proof.
  assert (Hn : forall n l, (length l <= n)%nat -> Forall (fun b => 0 <= b) l -> Forall (fun c => 0 <= c) (decode l)).
  { induction n as [|n IH]; intros [|x r] Hlen Hl; simpl in Hlen; try lia; [constructor|constructor|].
    apply Forall_cons in Hl as [Hx Hr]. simpl. destruct (x <? 128).
    { constructor; [done|]. apply IH; [lia|done]. }
    destruct r as [|y r2]; [constructor|]. apply Forall_cons in Hr as [Hy Hr]. simpl in Hlen.
    assert (Hland : forall m, 0 <= Z.land x m) by (intros; apply Z.land_nonneg; lia).
    destruct (x <? 224). { constructor; [by apply cont_nonneg|]. apply IH; [lia|done]. }
    destruct r2 as [|z r3]; [constructor|]. apply Forall_cons in Hr as [Hz Hr]. simpl in Hlen.
    destruct (x <? 240). { constructor; [by apply cont_nonneg, cont_nonneg|]. apply IH; [lia|done]. }
    destruct r3 as [|w r4]; [constructor|]. apply Forall_cons in Hr as [Hw Hr]. simpl in Hlen.
    constructor; [by apply cont_nonneg, cont_nonneg, cont_nonneg|]. apply IH; [lia|done]. }
  by apply (Hn (length l)).
Qed.

Lemma chars_nonneg s : Forall (fun c => 0 <= c) (chars s).
Proof.
  apply decode_nonneg, Forall_forall. intros b Hb. apply list_elem_of_In, in_map_iff in Hb as (a & <- & _).
  apply byte_of_bound.
Qed.

Lemma Forall_drop_while {A} (P : A -> Prop) f l : Forall P l -> Forall P (drop_while f l).
Proof. induction 1 as [|x l Hx Hl IH]; simpl; [constructor|]. destruct (f x); [done|by constructor]. Qed.

Lemma last_bytes_of_bytes l b : last l = Some b -> 0 <= b < 256 -> last (bytes (of_bytes l)) = Some b.
Proof.
  intros Hl Hb. assert (He : bytes (of_bytes l) = map (fun z => byte_of (of_byte z)) l).
  { clear. induction l as [|z l IH]; [done|].
    change (of_bytes (z :: l)) with (String (of_byte z) (of_bytes l)). by rewrite bytes_cons, IH. }
  rewrite He. change (last ((fun z => byte_of (of_byte z)) <$> l) = Some b).
  rewrite fmap_last, Hl. simpl. by rewrite byte_of_of_byte.
Qed.

(** The output has no trailing newline or space. *)
Lemma trim_end_last s : trim_end s = "" \/ exists b, last (bytes (trim_end s)) = Some b /\ ascii_space b = false.
Proof.
  unfold trim_end. pose proof (chars_nonneg s) as Hn. apply Forall_rev in Hn.
  pose proof (Forall_drop_while _ is_whitespace _ Hn) as Hd.
  destruct (drop_while is_whitespace (rev (chars s))) as [|c r] eqn:E; [by left|right].
  apply Forall_cons in Hd as [Hc _]. apply drop_while_head in E.
  destruct (encode_nonempty c) as [b Hb]. exists b. split; [|by eapply encode_last].
  unfold of_chars. apply last_bytes_of_bytes; [|by eapply encode_last_byte]. simpl.
  rewrite map_app. rewrite join_app. simpl. rewrite app_nil_r. by apply last_app_some.
Qed.

Lemma from_utf8_same x y : from_utf8 x = Ok y -> y = x.
Proof. unfold from_utf8. by destruct (first_error _ _ _); intros [= <-]. Qed.

Lemma exec_Ok stdin c dbg s :
  exec stdin c dbg = Done (Ok s) <->
  exists taken out, c = Spawned taken (Ok out) /\ (stdin = None \/ taken = true) /\
    success out = true /\ from_utf8 (stdout out) = Ok (stdout out) /\ s = trim_end (stdout out).
Proof.
  split.
  - destruct c as [e|taken output]; simpl; [done|]. intros (u & Hin & Hout)%run_bind_Done.
    injection Hout as (out & Ho & Hs)%try_bind_Ok. apply map_err_Ok in Ho as ->.
    destruct (success out) eqn:Es; simpl in Hs.
    + apply try_bind_Ok in Hs as (o & Ho%map_err_Ok & [= <-]). apply from_utf8_same in Ho as Ho'. subst o.
      exists taken, out. split_and!; try done. destruct stdin; [right|by left]. by destruct taken.
    + apply try_bind_Ok in Hs as (? & _ & ?). done.
  - intros (taken & out & -> & Hin & Hs & Hu & ->). simpl. rewrite Hs. simpl.
    destruct Hin as [->| ->]; [|destruct stdin]; simpl; by rewrite Hu.
Qed.

(** ** Theorems *)

(** A command succeeds exactly when it was spawned, took its input, exited
    with success and wrote UTF-8; the result is its standard output without
    trailing whitespace: it is empty or does not end in a newline, a tab or a
    space. *)
Theorem cmd_output (system : list string -> child) (stdin : option string) (command : string)
  (args : list arg) (s : string) :
  cmd system stdin command args = Done (Ok s) <->
  (exists taken out, system (command :: map raw args) = Spawned taken (Ok out) /\
     (stdin = None \/ taken = true) /\ success out = true /\
     from_utf8 (stdout out) = Ok (stdout out) /\ s = trim_end (stdout out)) /\
  (s = "" \/ exists b, last (bytes s) = Some b /\ ascii_space b = false).
Proof.
  unfold cmd. rewrite exec_Ok. split; [|by intros [? _]].
  intros (taken & out & H1 & H2 & H3 & H4 & ->). split; [by eauto 10|apply trim_end_last].
Qed.

(** The failure of a command is reported with the command as it may be
    shown, and, when it ran, with its standard error. *)
Theorem cmd_failure (system : list string -> child) (stdin : option string) (command : string)
  (args : list arg) (taken : bool) (out : Output) (err : string)
  (Hchild : system (command :: map raw args) = Spawned taken (Ok out))
  (Htaken : stdin = None \/ taken = true)
  (Hfail : success out = false) (Herr : from_utf8 (stderr out) = Ok err) :
  cmd system stdin command args =
  Done (Err (into_box (CommandFailed (join " " (command :: map shown args)) err))).
Proof.
  unfold cmd, exec. rewrite Hchild.
  destruct Htaken as [->| ->]; [|destruct stdin]; simpl; rewrite Hfail; simpl; by rewrite Herr.
Qed.

(** What a message shows of a command does not depend on its secrets:
    when two argument lists are shown alike and the operating system treats the
    two commands alike, the results are the same. *)
Theorem cmd_noninterference (system : list string -> child) (stdin : option string) (command : string)
  (args args' : list arg) (Hshown : map shown args = map shown args')
  (Hsystem : system (command :: map raw args) = system (command :: map raw args')) :
  cmd system stdin command args = cmd system stdin command args'.
Proof. unfold cmd. by rewrite Hshown, Hsystem. Qed.

(** ** Witnesses *)

(** A system on which every command complains. *)
Definition grumpy (argv : list string) : child :=
  Spawned true (Ok {| success := false; stdout := ""; stderr := "no" |}).

Lemma cmd_failure_witness :
  cmd grumpy None "ctr" [plain "-u"; {| raw := "user:hunter2"; shown := "<REDACTED>" |}] =
  Done (Err (into_box (CommandFailed "ctr -u <REDACTED>" "no"))).
Proof.
  apply (cmd_failure grumpy None "ctr" [plain "-u"; {| raw := "user:hunter2"; shown := "<REDACTED>" |}]
    true {| success := false; stdout := ""; stderr := "no" |} "no"); auto.
Defined.

Lemma cmd_noninterference_witness :
  cmd grumpy None "ctr" [{| raw := "hunter2"; shown := "<REDACTED>" |}] =
  cmd grumpy None "ctr" [{| raw := "swordfish"; shown := "<REDACTED>" |}].
Proof.
  apply (cmd_noninterference grumpy None "ctr" [{| raw := "hunter2"; shown := "<REDACTED>" |}]
    [{| raw := "swordfish"; shown := "<REDACTED>" |}]); reflexivity.
Defined.
