(* ===== verification/AimEnv.v ===== *)
(** * The environment of the image manager

    [service/aim/src/env/mod.rs] and the choice of an implementation in
    [service/aim/src/registry/mod.rs].  The environment is the function
    [var], [std::env::var]: [None] for a variable that is not set (or is not
    Unicode). *)

From S2P Require Import Prelude RustStr Errors Process.

(** ** Variables with a default *)

Definition registry (var : environment) : string := unwrap_or (var "REGISTRY") "registry.kube-system".
Definition repository (var : environment) : string := unwrap_or (var "REPOSITORY") "ocf".
Definition implementation (var : environment) : string := unwrap_or (var "IMPLEMENTATION") "Minikube".

(** ** Mandatory variables *)

Definition map_empty_to_error (v : string) : option string :=
  if String.eqb v "" then None else Some v.

Definition mandatory (var : environment) (name : string) : run string :=
  unwrap (var name ≫= map_empty_to_error)
    ("The " +:+ name +:+ " environment variable is mandatory when using the ECR implementation").

Definition aws_region (var : environment) : run string := mandatory var "AWS_REGION".
Definition aws_access_key_id (var : environment) : run string := mandatory var "AWS_ACCESS_KEY_ID".
Definition aws_username (var : environment) : run string := mandatory var "AWS_USERNAME".

(** ** Secrets *)

Record Secret := { raw_secret : string }.
Definition Secret_from (s : string) : Secret := {| raw_secret := s |}.

(** Both [Display] and [Debug]. *)
Definition Secret_fmt (s : Secret) : string := "<REDACTED>".

Definition aws_secret_access_key (var : environment) : run Secret :=
  let! s := mandatory var "AWS_SECRET_ACCESS_KEY" in Done (Secret_from s).

(** A secret as an argument of a command. *)
Definition secret_arg (s : Secret) : arg := {| raw := raw_secret s; shown := Secret_fmt s |}.

(** ** The implementation *)

Inductive Implementation := Ecr | Minikube.

(** [str::to_lowercase], as far as a comparison with ASCII words can tell: the
    one character outside ASCII with a lower case inside is the Kelvin sign. *)
Definition lower_char (c : Z) : Z :=
  if is_ascii_upper c then c + 32 else if c =? 8490 then 107 else c.
Definition lowers_to (s word : string) : bool :=
  bool_decide (map lower_char (chars s) = chars word).

(** [Implementation::which]. *)
Definition which (var : environment) : run Implementation :=
  let implementation := implementation var in
  if lowers_to implementation "ecr" then Done Ecr
  else if lowers_to implementation "minikube" then Done Minikube
  else Panic ("the IMPLEMENTATION environment variable was set to " +:+ implementation +:+
              ". It can be one of either ECR or Minikube (case insensitive)").

Example which_examples :
  which (fun _ => None) = Done Minikube /\
  which (fun _ => Some "eCr") = Done Ecr /\
  which (fun _ => Some "MINIKUBE") = Done Minikube.
Proof. vm_compute. auto. Qed.

(** ** Lemmas *)

Lemma mandatory_Done var name v : mandatory var name = Done v <-> var name = Some v /\ v <> "".
Proof.
  unfold mandatory, map_empty_to_error. destruct (var name) as [s|]; simpl; [|naive_solver].
  destruct (String.eqb_spec s ""); simpl; naive_solver.
Qed.
