(* ===== verification/Containerd.v ===== *)
(** * Importing an image through containerd

    [service/aim/src/registry/containerd/]: the workflow import, retag, push,
    its temporary images and namespace, and the background tasks that their
    [Drop] implementations start.

    A step of the workflow runs commands and drops values.  What it has done so
    far is the log; the operating system [os] may answer a command depending on
    the log.  A step ends with a value, an error or a panic, and the values that
    it owns are dropped in each case ([owning]). *)

From S2P Require Import Prelude RustStr Json Errors Names Backoff Process AimEnv.

(** ** Splitting strings *)

(** [str::split] at an ASCII character, collected. *)
Fixpoint str_split (c : ascii) (s : string) : list string :=
  match s with
  | EmptyString => [""]
  | String a s' =>
      if Ascii.eqb a c then "" :: str_split c s'
      else match str_split c s' with
           | [] => [String a ""]
           | w :: ws => String a w :: ws
           end
  end.

(** [str::rsplit_once] at an ASCII character. *)
Fixpoint rsplit_once (c : ascii) (s : string) : option (string * string) :=
  match s with
  | EmptyString => None
  | String a s' =>
      match rsplit_once c s' with
      | Some (p, t) => Some (String a p, t)
      | None => if Ascii.eqb a c then Some ("", s') else None
      end
  end.

Definition newline : ascii := Ascii.ascii_of_nat 10.
Definition nl : string := String newline "".

(** ** Errors *)

Inductive ImportError :=
| UnexpectedContainerdImageLsFormat (output : string)
| UnexpectedContainerdImageRow (output : string)
| UnexpectedImageReferenceFormat (output : string)
| TempPathIsNotUFT8 (path : string)
| NoData (namespace header : string).

Definition unexpected_output : string :=
  "We received unexpected output from containerd at the " +:+ dq +:+ "import" +:+ dq +:+
  " phase of our workflow. We expected a header of " +:+ dq +:+
  "REF TYPE DIGEST SIZE PLATFORMS LABELS" +:+ dq +:+ " followed by a single row".

#[export] Instance ImportError_AcmError : AcmError ImportError := {|
  acm_error := {|
    display e := match e with
      | UnexpectedContainerdImageLsFormat output | UnexpectedContainerdImageRow output =>
          unexpected_output +:+ ", but instead we got the following raw output: " +:+ dq +:+ output +:+ dq
      | UnexpectedImageReferenceFormat output =>
          unexpected_output +:+ " whose " +:+ dq +:+ "REF" +:+ dq +:+ " section is of the format " +:+ dq +:+
          "<registry>/<repository>:<tag>" +:+ dq +:+ nl +:+ "bit instead we got the following raw output: " +:+
          dq +:+ output +:+ dq
      | TempPathIsNotUFT8 path =>
          "The temporary filepath for the connector's image was not valid UTF8 (was (lossy) " +:+ path +:+
          "). This is concerning, although the install may work if you just try again."
      | NoData namespace header =>
          "Failed to list images for namespace " +:+ namespace +:+
          ". We appear to have only received the table header (got " +:+ header +:+ ")"
      end;
    source _ := None |};
  acm_code _ := Status.InternalServerError;
  acm_kind e := match e with
    | UnexpectedContainerdImageLsFormat _ => "UnexpectedContainerdImageLsFormat"
    | UnexpectedContainerdImageRow _ => "UnexpectedContainerdImageRow"
    | UnexpectedImageReferenceFormat _ => "UnexpectedImageReferenceFormat"
    | TempPathIsNotUFT8 _ => "TempPathIsNotUFT8"
    | NoData _ _ => "CtrImageLs::NoData"
    end;
|}.

(** [GetPasswordError] of [ecr/mod.rs]. *)
Inductive PasswordError := GetPasswordError (error : StringError).
#[export] Instance PasswordError_AcmError : AcmError PasswordError := {|
  acm_error := {|
    display _ := "An error occurred while retrieving a password to use for the AWS Elastic Container Registry used by this Alation cluster. If this was a networking error, then perhaps the issue will resolve itself over time and it may be reattempted in the future. Otherwise, please contact Alation's site reliability engineering with the contents of this error.";
    source e := match e with GetPasswordError s => Some (display s) end |};
  acm_code _ := Status.InternalServerError;
  acm_kind _ := "GetPasswordError";
|}.

(** ** Data *)

Record Image := { tag : string; digest : string }.
#[export] Instance Image_eq_dec : EqDecision Image.
Proof. solve_decision. Defined.
#[export] Instance Image_Kind : Kind Image := fun _ => "Image".
#[export] Instance Image_Serialize : Serialize Image := fun i =>
  JObj [("tag", JStr (tag i)); ("digest", JStr (digest i))].

Record TmpImage := {
  tmp_reference : string;
  tmp_tag : string;
  tmp_digest : string;
  tmp_namespace : string;
}.

(** [impl From<TmpImage> for Image]; the drop is that of the step which owns
    the temporary image. *)
Definition Image_from (i : TmpImage) : Image := {| tag := tmp_tag i; digest := tmp_digest i |}.

(** ** The table of [ctr images ls] *)

Definition extract_image_metadata_from_str (namespace images_ls : string)
  : Result (string * string * string) :=
  let? image := match str_split newline images_ls with
                | [_; data] => Ok data
                | [header] => Err (into_box (NoData namespace header))
                | _ => Err (into_box (UnexpectedContainerdImageLsFormat images_ls))
                end in
  let? rd := match str_split " " image with
             | reference :: _ :: digest :: _ => Ok (reference, digest)
             | _ => Err (into_box (UnexpectedContainerdImageRow images_ls))
             end in
  let? t := match rsplit_once ":" rd.1 with
            | Some (_, t) => Ok t
            | None => Err (into_box (UnexpectedImageReferenceFormat rd.1))
            end in
  Ok (rd.1, t, rd.2).

(** ** Steps *)

(** A request of [reqwest]: its method, its target and its [Accept] header. *)
Inductive Verb := GET | DELETE.
Record Request := { sent_verb : Verb; sent_url : string; sent_accept : option string }.

Inductive event :=
| Ran (argv : list string)
| Sent (q : Request)
| SpawnRemoveImage (namespace reference : string)   (* [Drop for TmpImage] *)
| SpawnRemoveNamespace (namespace : string).        (* [Drop for Namespace] *)

Definition step (A : Type) : Type := list event -> run (Result A) * list event.

Definition ret {A} (a : A) : step A := fun log => (Done (Ok a), log).
Definition bind {A B} (m : step A) (k : A -> step B) : step B := fun log =>
  match m log with
  | (Done (Ok a), log) => k a log
  | (Done (Err e), log) => (Done (Err e), log)
  | (Panic msg, log) => (Panic msg, log)
  end.
Definition lift {A} (r : run (Result A)) : step A := fun log => (r, log).
(** A panic inside a step. *)
Definition guard {A} (r : run A) : step A := lift (let! a := r in Done (Ok a)).

(** Run a step, then drop what it owns. *)
Definition owning {A} (drop_ : event) (m : step A) : step A := fun log =>
  let '(r, log) := m log in (r, log ++ [drop_]).

Notation "'let*' x ':=' m 'in' k" := (bind m (fun x => k))
  (at level 10, x name, m at level 100, k at level 200) : rust_scope.

Section Workflow.
Context (os : list event -> list string -> child).
Context (var : environment).
(** [Debug] of a boxed error, and the parameters of [names]. *)
Context (debug : dyn_AcmError -> string).
Context (simple : Z -> string) (ua : Z -> bool).

(** [cmd!] within a step. *)
Definition run_cmd (command : string) (args : list arg) : step string := fun log =>
  (cmd (os log) None command args, log ++ [Ran (command :: map raw args)]).
Definition ctr (args : list arg) : step string := run_cmd "ctr" args.
Definition aws (args : list arg) : step string := run_cmd "aws" args.
Definition ecr (args : list arg) : step string := run_cmd "aws" (plain "ecr" :: args).

(** *** [import.rs] *)

Definition extract_image_metadata (namespace : string) : step TmpImage :=
  let* images_ls := ctr [plain "-n"; plain namespace; plain "images"; plain "ls"] in
  let* m := lift (Done (extract_image_metadata_from_str namespace images_ls)) in
  ret {| tmp_reference := m.1.1; tmp_tag := m.1.2; tmp_digest := m.2; tmp_namespace := namespace |}.

(** A path is its bytes. *)
Definition import_path (namespace path : string) : step TmpImage :=
  let* path := lift (Done (map_err (fun _ => into_box (TempPathIsNotUFT8 (from_utf8_lossy path)))
                             (from_utf8 path))) in
  let* _ := ctr [plain "-n"; plain namespace; plain "images"; plain "import"; plain "--no-unpack"; plain path] in
  extract_image_metadata namespace.

(** [TempFile::path] is [None] for a file that is not on disk. *)
Definition import_ (namespace : string) (tmp : option string) : step TmpImage :=
  let* path := guard (unwrap tmp "called `Option::unwrap()` on a `None` value") in
  let* path := guard (unwrap_result (from_utf8 path) "called `Option::unwrap()` on a `None` value") in
  import_path namespace path.

(** *** [retag.rs]: takes the temporary image over. *)

Definition drop_image (i : TmpImage) : event := SpawnRemoveImage (tmp_namespace i) (tmp_reference i).

Definition retag (random letter : Z) (image : TmpImage) : step TmpImage :=
  owning (drop_image image) (
    let registry := registry var in
    let repository := repository var in
    let* new_tag := guard (rfc1035_label simple ua random letter) in
    let new_reference := registry +:+ "/" +:+ repository +:+ ":" +:+ new_tag in
    let* _ := ctr [plain "-n"; plain (tmp_namespace image); plain "images"; plain "tag";
                   plain (tmp_reference image); plain new_reference] in
    ret {| tmp_reference := new_reference; tmp_tag := new_tag; tmp_digest := tmp_digest image;
           tmp_namespace := tmp_namespace image |}).

(** *** [push.rs], and the credentials of [ecr/mod.rs] *)

Definition get_password : step Secret := fun log =>
  match ecr [plain "get-login-password"] log with
  | (Done (Ok s), log) => (Done (Ok (Secret_from s)), log)
  | (Done (Err e), log) => (Done (Err (into_box (GetPasswordError (StringError_from debug e)))), log)
  | (Panic m, log) => (Panic m, log)
  end.

Definition get_credentials : step (string * Secret) :=
  let* username := guard (aws_username var) in
  let* password := get_password in
  ret (username, password).

Definition push_command (i : TmpImage) (how : list arg) : list arg :=
  [plain "-n"; plain (tmp_namespace i); plain "images"; plain "push"] ++ how ++ [plain (tmp_reference i)].

Definition push_to_ecr (i : TmpImage) : step unit :=
  let* up := get_credentials in
  let credentials := Secret_from (up.1 +:+ ":" +:+ raw_secret up.2) in
  let* _ := ctr (push_command i [plain "-u"; secret_arg credentials]) in
  ret tt.

Definition push_to_minikube (i : TmpImage) : step unit :=
  let* _ := ctr (push_command i [plain "--plain-http"]) in
  ret tt.

Definition push (i : TmpImage) : step Image :=
  owning (drop_image i) (
    let* impl := guard (which var) in
    let* _ := match impl with
              | Ecr => push_to_ecr i
              | Minikube => push_to_minikube i
              end in
    ret (Image_from i)).

(** *** [mod.rs]: [import], in a fresh namespace *)

Definition containerd_import (ns_random random letter : Z) (tmp : option string) : step Image :=
  let namespace := uuid simple ns_random in
  owning (SpawnRemoveNamespace namespace) (
    let* image := import_ namespace tmp in
    let* image := retag random letter image in
    push image).
End Workflow.

(** ** The background tasks of the drops

    [rounds] is what each attempt to run the removal command returns, and when. *)

Record attempt := { at_now : Z; removed : bool }.

Inductive removal := Removing | Removed | Orphaned.

Fixpoint remove_loop {B} `{Backoff B} (b : B) (rounds : list attempt) : removal :=
  match rounds with
  | [] => Removing
  | r :: rest =>
      let '(pause, b') := next_backoff (at_now r) b in
      if removed r then Removed
      else match pause with
           | Some _ => remove_loop b' rest
           | None => Orphaned
           end
  end.

(** ** Lemmas *)

(** A string without a character. *)
Fixpoint lacks (c : ascii) (s : string) : bool :=
  match s with
  | EmptyString => true
  | String a s' => negb (Ascii.eqb a c) && lacks c s'
  end.

Lemma lacks_app c s t : lacks c (s +:+ t) = lacks c s && lacks c t.
Proof. induction s as [|a s IH]; [done|]. rewrite append_cons. simpl. by rewrite IH, andb_assoc. Qed.

Lemma str_split_lacks c w : lacks c w = true -> str_split c w = [w].
Proof.
  induction w as [|a w IH]; simpl; [done|]. intros [Ha Hw]%andb_true_iff.
  apply negb_true_iff in Ha. by rewrite Ha, (IH Hw).
Qed.

Lemma str_split_app c w s : lacks c w = true -> str_split c (w +:+ String c s) = w :: str_split c s.
Proof.
  induction w as [|a w IH]; cbn [lacks].
  - intros _. change ("" +:+ String c s) with (String c s). simpl. by rewrite Ascii.eqb_refl.
  - intros [Ha Hw]%andb_true_iff. apply negb_true_iff in Ha. rewrite append_cons. simpl. by rewrite Ha, (IH Hw).
Qed.

Lemma rsplit_once_lacks c t : lacks c t = true -> rsplit_once c t = None.
Proof.
  induction t as [|a t IH]; simpl; [done|]. intros [Ha Ht]%andb_true_iff.
  apply negb_true_iff in Ha. by rewrite (IH Ht), Ha.
Qed.

Lemma rsplit_once_app c p t : lacks c t = true -> rsplit_once c (p +:+ String c t) = Some (p, t).
Proof.
  intros Ht. induction p as [|a p IH].
  - change ("" +:+ String c t) with (String c t). simpl. by rewrite rsplit_once_lacks, Ascii.eqb_refl.
  - rewrite append_cons. simpl. by rewrite IH.
Qed.

(** *** The steps *)

Lemma bind_inv {A B} (m : step A) (k : A -> step B) log r log' :
  bind m k log = (r, log') ->
  (exists a log1, m log = (Done (Ok a), log1) /\ k a log1 = (r, log')) \/
  (exists e, m log = (Done (Err e), log') /\ r = Done (Err e)) \/
  (exists msg, m log = (Panic msg, log') /\ r = Panic msg).
Proof.
  unfold bind. destruct (m log) as [[[a|e]|msg] log1]; [eauto|..]; intros [= <- <-]; eauto.
Qed.

Lemma bind_Ok {A B} (m : step A) (k : A -> step B) log b log' :
  bind m k log = (Done (Ok b), log') ->
  exists a log1, m log = (Done (Ok a), log1) /\ k a log1 = (Done (Ok b), log').
Proof. intros [?|[(? & ? & ?)|(? & ? & ?)]]%bind_inv; done. Qed.

(** A step that drops nothing only adds commands to the log, each of which
    satisfies [P]. *)
Definition quiet {A} (P : list string -> Prop) (m : step A) : Prop :=
  forall log r log', m log = (r, log') -> exists l, log' = log ++ map Ran l /\ Forall P l.

Lemma quiet_lift {A} P (r : run (Result A)) : quiet P (lift r).
Proof. intros log r' log' [= <- <-]. exists []. by rewrite app_nil_r. Qed.

Lemma quiet_ret {A} P (a : A) : quiet P (ret a).
Proof. apply quiet_lift. Qed.

Lemma quiet_guard {A} P (r : run A) : quiet P (guard r).
Proof. apply quiet_lift. Qed.

Lemma quiet_bind {A B} P (m : step A) (k : A -> step B) :
  quiet P m -> (forall a, quiet P (k a)) -> quiet P (bind m k).
Proof.
  intros Hm Hk log r log' Hb. apply bind_inv in Hb as [(a & log1 & H1 & H2)|[(e & H1 & _)|(msg & H1 & _)]].
  - destruct (Hm _ _ _ H1) as (l1 & -> & F1). destruct (Hk _ _ _ _ H2) as (l2 & -> & F2).
    exists (l1 ++ l2). split; [by rewrite map_app, app_assoc|by apply Forall_app].
  - by eapply Hm.
  - by eapply Hm.
Qed.

Lemma quiet_run_cmd (P : list string -> Prop) os command args :
  P (command :: map raw args) -> quiet P (run_cmd os command args).
Proof. intros HP log r log' [= <- <-]. exists [command :: map raw args]. auto. Qed.

Create HintDb steps.
#[export] Hint Resolve quiet_lift quiet_ret quiet_guard quiet_bind quiet_run_cmd : steps.

(** Any command. *)
Definition any (argv : list string) : Prop := True.
Lemma any_intro argv : any argv.
Proof. exact I. Qed.
#[export] Hint Resolve any_intro : steps.

(** The commands of a push: none of them is a command of containerd but the push
    itself. *)
Definition pushes (ns : string) (argv : list string) : Prop :=
  head argv <> Some "ctr" \/ exists rest, argv = "ctr" :: "-n" :: ns :: "images" :: "push" :: rest.

Lemma pushes_aws ns rest : pushes ns ("aws" :: rest).
Proof. by left. Qed.
Lemma pushes_ctr i how : pushes (tmp_namespace i) ("ctr" :: map raw (push_command i how)).
Proof. right. unfold push_command. eexists. reflexivity. Qed.
#[export] Hint Resolve pushes_aws pushes_ctr : steps.

Lemma guard_Ok {A} (r : run A) log a log' : guard r log = (Done (Ok a), log') -> r = Done a /\ log' = log.
Proof. unfold guard, lift. destruct r; intros [= <- <-]; auto. Qed.

Lemma run_cmd_inv os command args log r log' :
  run_cmd os command args log = (r, log') ->
  r = cmd (os log) None command args /\ log' = log ++ [Ran (command :: map raw args)].
Proof. by intros [= <- <-]. Qed.

Section Steps.
Context (os : list event -> list string -> child).
Context (var : environment) (debug : dyn_AcmError -> string).
Context (simple : Z -> string) (ua : Z -> bool).

Lemma quiet_import namespace tmp : quiet any (import_ os namespace tmp).
Proof. unfold import_, import_path, extract_image_metadata, ctr. eauto 10 with steps. Qed.

Lemma quiet_get_password ns : quiet (pushes ns) (get_password os debug).
Proof.
  intros log r log'. unfold get_password. destruct (ecr os _ log) as [[[s|e]|m] log1] eqn:E;
    intros [= <- <-]; eapply quiet_run_cmd, E; apply pushes_aws.
Qed.

Lemma quiet_push_to_ecr i : quiet (pushes (tmp_namespace i)) (push_to_ecr os var debug i).
Proof.
  unfold push_to_ecr, get_credentials, ctr. pose proof (quiet_get_password (tmp_namespace i)).
  eauto 10 with steps.
Qed.

Lemma quiet_push_to_minikube i : quiet (pushes (tmp_namespace i)) (push_to_minikube os i).
Proof. unfold push_to_minikube, ctr. eauto with steps. Qed.

(** What [import] extracts is in the namespace that it was given. *)
Lemma import_Ok namespace tmp log i log' :
  import_ os namespace tmp log = (Done (Ok i), log') ->
  tmp_namespace i = namespace /\
  exists path out, tmp = Some path /\ from_utf8 path = Ok path /\
    log' = log ++ [Ran ["ctr"; "-n"; namespace; "images"; "import"; "--no-unpack"; path];
                   Ran ["ctr"; "-n"; namespace; "images"; "ls"]] /\
    cmd (os (log ++ [Ran ["ctr"; "-n"; namespace; "images"; "import"; "--no-unpack"; path]])) None "ctr"
      (map plain ["-n"; namespace; "images"; "ls"]) = Done (Ok out) /\
    extract_image_metadata_from_str namespace out = Ok (tmp_reference i, tmp_tag i, tmp_digest i).
Proof.
  unfold import_, import_path, extract_image_metadata. intros H.
  apply bind_Ok in H as (path & l1 & [Hp ->]%guard_Ok & H).
  destruct tmp as [path0|]; [|done]. injection Hp as ->.
  apply bind_Ok in H as (path1 & l1' & [Hp1 ->]%guard_Ok & H).
  destruct (from_utf8 path) as [u|] eqn:Eu; [|done]. injection Hp1 as ->.
  pose proof (from_utf8_same _ _ Eu) as ->.
  apply bind_Ok in H as (path2 & l2 & Hl & H).
  rewrite Eu in Hl. injection Hl as <- <-.
  apply bind_Ok in H as (o1 & l3 & [_ ->]%run_cmd_inv & H).
  apply bind_Ok in H as (o2 & l4 & [Ho2 ->]%run_cmd_inv & H).
  apply bind_Ok in H as ([[ref t] dg] & l5 & Hx & H).
  injection Hx as Hx <-. injection H as <- <-. split; [done|].
  exists path, o2. split_and!; [done|done| |by symmetry|done]. rewrite <- app_assoc. done.
Qed.

(** The new reference that [retag] gives. *)
Definition new_reference (t : string) : string := registry var +:+ "/" +:+ repository var +:+ ":" +:+ t.

Lemma retag_inv random letter image log r log' :
  retag os var simple ua random letter image log = (r, log') ->
  exists l, log' = log ++ map Ran l ++ [drop_image image] /\
    forall i, r = Done (Ok i) ->
      tmp_namespace i = tmp_namespace image /\ tmp_digest i = tmp_digest image /\
      tmp_reference i = new_reference (tmp_tag i) /\
      rfc1035_label simple ua random letter = Done (tmp_tag i) /\
      l = [["ctr"; "-n"; tmp_namespace image; "images"; "tag"; tmp_reference image; tmp_reference i]].
Proof.
  unfold retag, owning. match goal with |- (let '(_, _) := ?m log in _) = _ -> _ => set (body := m) end.
  assert (Hq : quiet any body) by (unfold body, ctr; eauto with steps).
  destruct (body log) as [r1 log1] eqn:E. intros [= <- <-]. destruct (Hq _ _ _ E) as (l & Hl & _).
  exists l. rewrite Hl, <- app_assoc. split; [done|]. intros i ->. unfold body in E. clear Hq body.
  apply bind_Ok in E as (t & l1 & [Ht ->]%guard_Ok & E).
  apply bind_Ok in E as (o & l2 & [_ ->]%run_cmd_inv & E).
  injection E as <- <-. simpl. split_and!; try done.
  apply app_inv_head in Hl. destruct l as [|a [|]]; simplify_eq/=. done.
Qed.

Lemma push_inv i log r log' :
  push os var debug i log = (r, log') ->
  exists l, log' = log ++ map Ran l ++ [drop_image i] /\ Forall (pushes (tmp_namespace i)) l /\
    forall img, r = Done (Ok img) -> img = Image_from i.
Proof.
  unfold push, owning. match goal with |- (let '(_, _) := ?m log in _) = _ -> _ => set (body := m) end.
  assert (Hq : quiet (pushes (tmp_namespace i)) body).
  { unfold body. apply quiet_bind; [auto with steps|]. intros [|]; apply quiet_bind; auto with steps;
      [apply quiet_push_to_ecr|apply quiet_push_to_minikube]. }
  destruct (body log) as [r1 log1] eqn:E. intros [= <- <-]. destruct (Hq _ _ _ E) as (l & -> & F).
  exists l. rewrite <- app_assoc. split_and!; [done|done|]. intros img ->. unfold body in E.
  apply bind_Ok in E as (impl & l1 & _ & E).
  apply bind_Ok in E as (u & l2 & _ & E).
  by injection E as <- _.
Qed.
End Steps.

(** ** Theorems *)

(** C33: the parser of [ctr images ls] inverts the table that containerd prints
    for one image: it returns the reference, the tag after its last colon, and
    the digest of the row, whatever else the row and the header hold. *)
Theorem extract_roundtrip (ns header repo t type_ dig rest : string)
  (Hheader : lacks newline header = true)
  (Hrepo : lacks newline repo = true /\ lacks " " repo = true)
  (Ht : lacks newline t = true /\ lacks " " t = true /\ lacks ":" t = true)
  (Htype : lacks newline type_ = true /\ lacks " " type_ = true)
  (Hdig : lacks newline dig = true /\ lacks " " dig = true)
  (Hrest : lacks newline rest = true) :
  let reference := repo +:+ String ":" t in
  extract_image_metadata_from_str ns
    (header +:+ String newline (reference +:+ String " " (type_ +:+ String " " (dig +:+ String " " rest)))) =
  Ok (reference, t, dig).
Proof.
  destruct Hrepo as [Hrepo1 Hrepo2], Ht as (Ht1 & Ht2 & Ht3), Htype as [Hty1 Hty2], Hdig as [Hd1 Hd2].
  cbn zeta. unfold extract_image_metadata_from_str. rewrite str_split_app by done.
  set (reference := repo +:+ String ":" t).
  assert (Hr1 : lacks newline reference = true) by (unfold reference; rewrite lacks_app; simpl; by rewrite Hrepo1, Ht1).
  assert (Hr2 : lacks " " reference = true) by (unfold reference; rewrite lacks_app; simpl; by rewrite Hrepo2, Ht2).
  rewrite str_split_lacks
    by (rewrite !lacks_app; simpl; rewrite !lacks_app; simpl; rewrite !lacks_app; simpl; by rewrite Hr1, Hty1, Hd1, Hrest).
  simpl. rewrite !str_split_app by done. simpl. unfold reference. by rewrite rsplit_once_app.
Qed.

Definition image_drops (log : list event) : list (string * string) :=
  omap (fun e => match e with SpawnRemoveImage n r => Some (n, r) | _ => None end) log.
Definition namespace_drops (log : list event) : list string :=
  omap (fun e => match e with SpawnRemoveNamespace n => Some n | _ => None end) log.

Lemma image_drops_app l1 l2 : image_drops (l1 ++ l2) = image_drops l1 ++ image_drops l2.
Proof. apply omap_app. Qed.
Lemma namespace_drops_app l1 l2 : namespace_drops (l1 ++ l2) = namespace_drops l1 ++ namespace_drops l2.
Proof. apply omap_app. Qed.
Lemma image_drops_ran l : image_drops (map Ran l) = [].
Proof. by induction l. Qed.
Lemma namespace_drops_ran l : namespace_drops (map Ran l) = [].
Proof. by induction l. Qed.

Section Installation.
Context (os : list event -> list string -> child).
Context (var : environment) (debug : dyn_AcmError -> string).
Context (simple : Z -> string) (ua : Z -> bool).
Context (ns_random random letter : Z) (tmp : option string).
Notation ns := (uuid simple ns_random).
Notation import_all := (containerd_import os var debug simple ua ns_random random letter tmp).

(** The two steps that own a temporary image, after a successful import. *)
Lemma after_import i log r log' :
  tmp_namespace i = ns ->
  (let* image := retag os var simple ua random letter i in push os var debug image) log = (r, log') ->
  exists l, log' = log ++ l /\ namespace_drops l = [] /\
    (image_drops l = [(ns, tmp_reference i)] \/
     exists t, image_drops l = [(ns, tmp_reference i); (ns, new_reference var t)] /\
       Ran ["ctr"; "-n"; ns; "images"; "tag"; tmp_reference i; new_reference var t] ∈ l).
Proof.
  intros Hns Hb. apply bind_inv in Hb as [(j & log1 & Hr & Hp)|Hb].
  - apply retag_inv in Hr as (l1 & -> & Hj). destruct (Hj j eq_refl) as (Hn & _ & Href & _ & ->).
    apply push_inv in Hp as (l2 & -> & _ & _). rewrite <- !app_assoc. eexists. split; [done|].
    rewrite !namespace_drops_app, !image_drops_app, !namespace_drops_ran, !image_drops_ran.
    split; [done|]. right. exists (tmp_tag j). unfold drop_image. rewrite <- Href, Hn, Hns. simpl.
    split; [done|]. set_solver.
  - assert (Hr : exists r', retag os var simple ua random letter i log = (r', log'))
      by (destruct Hb as [(e & H1 & _)|(msg & H1 & _)]; eauto).
    destruct Hr as [r' Hr].
    apply retag_inv in Hr as (l1 & -> & _). eexists. split; [done|].
    rewrite !namespace_drops_app, !image_drops_app, !namespace_drops_ran, !image_drops_ran.
    unfold drop_image. rewrite Hns. simpl. auto.
Qed.

Lemma import_all_inv log0 r log :
  import_all log0 = (r, log) ->
  exists l, log = l ++ [SpawnRemoveNamespace ns] /\
    (let* image := import_ os ns tmp in
     let* image := retag os var simple ua random letter image in
     push os var debug image) log0 = (r, l).
Proof.
  unfold containerd_import, owning. destruct (bind _ _ log0) as [r1 l] eqn:E. intros [= <- <-]. eauto.
Qed.

(** However the installation of an image ends, with an image, an error or
    a panic, its namespace is dropped exactly once and last; and when containerd
    has imported an image whose row could be read, the removal of that image was
    started before, and so was the removal of the image that it was retagged to. *)
Theorem install_cleans_up (r : run (Result Image)) (log : list event)
  (Hrun : import_all [] = (r, log)) :
  exists l, log = l ++ [SpawnRemoveNamespace ns] /\ namespace_drops l = [] /\
    match (import_ os ns tmp []).1 with
    | Done (Ok i) =>
        image_drops l = [(ns, tmp_reference i)] \/
        exists t, image_drops l = [(ns, tmp_reference i); (ns, new_reference var t)] /\
          Ran ["ctr"; "-n"; ns; "images"; "tag"; tmp_reference i; new_reference var t] ∈ l
    | _ => image_drops l = []
    end.
Proof.
  apply import_all_inv in Hrun as (l & -> & Hb). exists l. split; [done|].
  apply bind_inv in Hb as [(i & log1 & Hi & Hb)|Hb].
  - rewrite Hi. simpl. destruct (quiet_import _ _ _ _ _ _ Hi) as (l1 & Hl1 & _). simpl in Hl1. subst log1.
    apply import_Ok in Hi as [Hns _]. destruct (after_import _ _ _ _ Hns Hb) as (l2 & -> & Hn & Hd).
    rewrite namespace_drops_app, image_drops_app, namespace_drops_ran, image_drops_ran. split; [done|].
    destruct Hd as [Hd|(t & Hd & Hin)]; [by left|right]. exists t. split; [done|]. set_solver.
  - assert (Hi : exists r', import_ os ns tmp [] = (r', l) /\ forall i, r' <> Done (Ok i)).
    { destruct Hb as [(e & H1 & _)|(msg & H1 & _)]; eexists; (split; [exact H1|done]). }
    destruct Hi as (r' & Hi & Hno). rewrite Hi. simpl.
    destruct (quiet_import _ _ _ _ _ _ Hi) as (l1 & Hl1 & _). simpl in Hl1. subst l.
    rewrite namespace_drops_ran, image_drops_ran. split; [done|]. destruct r' as [[i|]|]; try done. by destruct (Hno i).
Qed.

(** A successful installation answers with the digest of the image that was
    uploaded and with a fresh label as its tag, which was given to that image, in
    the configured registry and repository, and then pushed. *)
Theorem install_result (img : Image) (log : list event)
  (Hrun : import_all [] = (Done (Ok img), log)) :
  exists i l, (import_ os ns tmp []).1 = Done (Ok i) /\
    digest img = tmp_digest i /\ rfc1035_label simple ua random letter = Done (tag img) /\
    log = (import_ os ns tmp []).2 ++
      [Ran ["ctr"; "-n"; ns; "images"; "tag"; tmp_reference i; new_reference var (tag img)];
       SpawnRemoveImage ns (tmp_reference i)] ++ l ++
      [SpawnRemoveImage ns (new_reference var (tag img)); SpawnRemoveNamespace ns].
Proof.
  apply import_all_inv in Hrun as (l & -> & Hb).
  apply bind_Ok in Hb as (i & log1 & Hi & Hb). rewrite Hi. simpl.
  apply import_Ok in Hi as [Hns _].
  apply bind_Ok in Hb as (j & log2 & Hr & Hp). apply retag_inv in Hr as (l1 & -> & Hj).
  destruct (Hj j eq_refl) as (Hn & Hdg & Href & Hlab & ->).
  apply push_inv in Hp as (l2 & -> & _ & Himg). rewrite (Himg _ eq_refl). simpl.
  exists i, (map Ran l2). split_and!; [done|done|done|]. unfold drop_image.
  rewrite <- !app_assoc. rewrite <- Href, Hn, Hns. done.
Qed.

(** An upload whose table cannot be read is left behind.  When containerd
    has imported the file but the rows are not the one that is expected (an
    archive with two images has two), the installation fails without removing
    any image, so that the removal of the namespace, which containerd refuses
    while it holds images, is the only thing that is tried. *)
Theorem unreadable_upload_leaks (path out imported : string) (e : dyn_AcmError)
  (Htmp : tmp = Some path) (Hpath : from_utf8 path = Ok path)
  (Himport : cmd (os []) None "ctr"
     (map plain ["-n"; ns; "images"; "import"; "--no-unpack"; path]) = Done (Ok imported))
  (Hls : cmd (os [Ran ["ctr"; "-n"; ns; "images"; "import"; "--no-unpack"; path]]) None "ctr"
     (map plain ["-n"; ns; "images"; "ls"]) = Done (Ok out))
  (Hout : extract_image_metadata_from_str ns out = Err e) :
  import_all [] =
    (Done (Err e), [Ran ["ctr"; "-n"; ns; "images"; "import"; "--no-unpack"; path];
                    Ran ["ctr"; "-n"; ns; "images"; "ls"]; SpawnRemoveNamespace ns]).
Proof.
  unfold containerd_import, owning, import_, import_path, extract_image_metadata, bind, guard, lift.
  rewrite Htmp. simpl. rewrite Hpath. simpl. rewrite Hpath. simpl. unfold ctr, run_cmd. simpl in Himport, Hls.
  rewrite Himport. simpl. rewrite Hls. simpl. by rewrite Hout.
Qed.
End Installation.

(** C29: a push to ECR that containerd refuses is reported without the
    credentials: whatever the password is, the error names the command with a
    placeholder in its place. *)
Theorem push_redacts_credentials (os : list event -> list string -> child) (var : environment)
  (debug : dyn_AcmError -> string) (i : TmpImage) (log : list event)
  (username password err : string) (taken : bool) (out : Output)
  (Hwhich : which var = Done Ecr) (Huser : aws_username var = Done username)
  (Hpw : cmd (os log) None "aws" (map plain ["ecr"; "get-login-password"]) = Done (Ok password))
  (Hpush : os (log ++ [Ran ["aws"; "ecr"; "get-login-password"]])
     ["ctr"; "-n"; tmp_namespace i; "images"; "push"; "-u"; username +:+ ":" +:+ password; tmp_reference i] =
     Spawned taken (Ok out))
  (Hfail : success out = false) (Herr : from_utf8 (stderr out) = Ok err) :
  (push os var debug i log).1 = Done (Err (into_box (CommandFailed
    (join " " ["ctr"; "-n"; tmp_namespace i; "images"; "push"; "-u"; "<REDACTED>"; tmp_reference i]) err))).
Proof.
  unfold push, push_to_ecr, get_credentials, get_password, owning, bind, guard, lift.
  rewrite Hwhich. simpl. rewrite Huser. simpl. unfold ecr, ctr, run_cmd. simpl in Hpw |- *. rewrite Hpw. simpl.
  unfold cmd at 1. simpl. rewrite Hpush. simpl. rewrite Hfail. simpl. by rewrite Herr.
Qed.

(** What the attempts say about the outcome of a removal. *)
Definition removal_meaning (o : removal) (rounds : list attempt) : Prop :=
  match o with
  | Removing => Forall (fun r => removed r = false) rounds
  | Removed => exists pre r post, rounds = pre ++ r :: post /\
      Forall (fun r => removed r = false) pre /\ removed r = true
  | Orphaned => exists pre r post, rounds = pre ++ r :: post /\
      Forall (fun r => removed r = false) (pre ++ [r])
  end.

Lemma removal_meaning_cons o r rounds :
  removed r = false -> removal_meaning o rounds -> removal_meaning o (r :: rounds).
Proof.
  intros Hr. destruct o; simpl.
  - by constructor.
  - intros (pre & x & post & -> & Hp & Hx). exists (r :: pre), x, post. split_and!; [done|by constructor|done].
  - intros (pre & x & post & -> & Hp). exists (r :: pre), x, post. split; [done|by constructor].
Qed.

(** The background removal of an image or a namespace ends with the first
    attempt that succeeds; it is given up only when every attempt has failed;
    and it ends at the latest with the first attempt after the fifteen minutes of
    its backoff. *)
Theorem removal_decides {B} `{BackoffLaws B} (start : Z) (rounds : list attempt) :
  removal_meaning (remove_loop (backoff_default (B := B) start) rounds) rounds /\
  (forall r, last rounds = Some r -> from_secs 900 < at_now r - start ->
     remove_loop (backoff_default (B := B) start) rounds <> Removing).
Proof.
  assert (Hgen : forall b : B, removal_meaning (remove_loop b rounds) rounds /\
    (forall r, last rounds = Some r -> limit b < at_now r - started b -> remove_loop b rounds <> Removing)).
  { induction rounds as [|r rest IH]; intros b; [by split; [constructor|]|]. cbn [remove_loop].
    pose proof (law_next_keeps (at_now r) b) as [Hk1 Hk2]. pose proof (law_gives_up (at_now r) b) as Hg.
    destruct (next_backoff (at_now r) b) as [[d|] b']; simpl in Hk1, Hk2, Hg; destruct (removed r) eqn:Er.
    - split; [|done]. exists [], r, rest. split_and!; auto.
    - destruct (IH b') as [Hm Hl]. split; [by apply removal_meaning_cons|].
      intros x Hx Hlate. destruct rest as [|r2 rest].
      + injection Hx as ->. by specialize (Hg Hlate).
      + apply (Hl x); [done|lia].
    - split; [|done]. exists [], r, rest. split_and!; auto.
    - split; [|done]. exists [], r, rest. split; [done|]. by repeat constructor. }
  destruct (Hgen (backoff_default start)) as [Hm Hl]. split; [done|].
  unfold backoff_default, DEFAULT_MAX_ELAPSED_TIME in *. rewrite law_new_limit, law_new_started in Hl. done.
Qed.

(** ** Witnesses *)

(** The row of the unit test of [import.rs], shortened. *)
Definition example_table : string :=
  "REF TYPE DIGEST SIZE PLATFORMS LABELS" +:+
  String newline ("docker.io/test/tennis" +:+ String ":" "latest" +:+ String " " ("application/vnd" +:+
  String " " ("sha256:76a5" +:+ String " " "19.2 MiB linux/amd64 -"))).

Lemma extract_roundtrip_witness :
  extract_image_metadata_from_str "ns" example_table =
  Ok ("docker.io/test/tennis:latest", "latest", "sha256:76a5").
Proof.
  apply (extract_roundtrip "ns" "REF TYPE DIGEST SIZE PLATFORMS LABELS" "docker.io/test/tennis" "latest"
    "application/vnd" "sha256:76a5" "19.2 MiB linux/amd64 -"); repeat split; reflexivity.
Defined.

(** A containerd that lists the given table. *)
Definition ctr_system (table : string) (log : list event) (argv : list string) : child :=
  Spawned true (Ok {| success := true; stderr := "";
    stdout := if decide (argv = ["ctr"; "-n"; hex_simple 1; "images"; "ls"]) then table else "" |}).

Definition example_install := containerd_import (ctr_system example_table) (fun _ => None) dyn_display
  hex_simple no_unicode 1 2 97 (Some "/tmp/upload").

Lemma install_cleans_up_witness :
  exists r log l, example_install [] = (r, log) /\ log = l ++ [SpawnRemoveNamespace (uuid hex_simple 1)] /\
    namespace_drops l = [].
Proof.
  eexists _, _.
  edestruct (install_cleans_up (ctr_system example_table) (fun _ => None) dyn_display hex_simple no_unicode 1 2 97
    (Some "/tmp/upload")) as (l & Hl & Hn & _); [vm_compute; reflexivity|].
  exists l. split; [vm_compute; reflexivity|]. split; [exact Hl|exact Hn].
Defined.

Lemma install_result_witness :
  exists img log i l, example_install [] = (Done (Ok img), log) /\ digest img = "sha256:76a5" /\
    (import_ (ctr_system example_table) (uuid hex_simple 1) (Some "/tmp/upload") []).1 = Done (Ok i) /\
    digest img = tmp_digest i /\ log = l.
Proof.
  eexists _, _.
  edestruct (install_result (ctr_system example_table) (fun _ => None) dyn_display hex_simple no_unicode 1 2 97
    (Some "/tmp/upload")) as (i & l & Hi & Hd & _ & Hl); [vm_compute; reflexivity|].
  exists i. eexists. split; [vm_compute; reflexivity|]. split; [vm_compute; reflexivity|].
  split; [exact Hi|]. split; [exact Hd|exact Hl].
Defined.

(** An archive with two images. *)
Definition two_rows : string := example_table +:+ nl +:+ "b:c t d".

Lemma unreadable_upload_leaks_witness :
  image_drops (containerd_import (ctr_system two_rows) (fun _ => None) dyn_display
    hex_simple no_unicode 1 2 97 (Some "/tmp/upload") []).2 = [].
Proof.
  rewrite (unreadable_upload_leaks (ctr_system two_rows) (fun _ => None) dyn_display hex_simple no_unicode
    1 2 97 (Some "/tmp/upload") "/tmp/upload" two_rows "" (into_box (UnexpectedContainerdImageLsFormat two_rows)));
    vm_compute; reflexivity.
Defined.

(** A containerd that refuses every push. *)
Definition refusing_system (log : list event) (argv : list string) : child :=
  Spawned true (Ok {| success := if decide (head argv = Some "aws") then true else false;
                      stdout := "hunter2"; stderr := "denied" |}).
Definition ecr_env : environment := fun name =>
  if decide (name = "IMPLEMENTATION") then Some "ECR" else Some "AWS".

Lemma push_redacts_credentials_witness :
  (push refusing_system ecr_env dyn_display
     {| tmp_reference := "r/o:t"; tmp_tag := "t"; tmp_digest := "d"; tmp_namespace := "ns" |} []).1 =
  Done (Err (into_box (CommandFailed "ctr -n ns images push -u <REDACTED> r/o:t" "denied"))).
Proof.
  apply (push_redacts_credentials refusing_system ecr_env dyn_display
    {| tmp_reference := "r/o:t"; tmp_tag := "t"; tmp_digest := "d"; tmp_namespace := "ns" |} []
    "AWS" "hunter2" "denied" true {| success := false; stdout := "hunter2"; stderr := "denied" |});
    vm_compute; reflexivity.
Defined.
