(* ===== verification/Cleanup.v ===== *)
(** * What an installation leaves in containerd

    The drops of [tmp_image.rs] and [namespace.rs] start background tasks that
    repeat a command of containerd.  Here the tasks run: beside the rest of the
    workflow that started them, beside each other, and beside whatever else uses
    containerd, in every order.

    Containerd is not part of the sources; it is the interface [Containerd], and
    [ContainerdLaws] is what the comments of the two files and of [import.rs] say
    about it: a table with a row per image, a namespace that is not removed while
    it holds images or while a deletion in it is not finished.  [memory_daemon] is
    an instance. *)

From S2P Require Import Prelude RustStr Errors Names Backoff Process AimEnv Containerd.

(** ** The interface *)

(** The arguments of the commands. *)
Definition ls_args (ns : string) : list string := ["-n"; ns; "images"; "ls"].
Definition tag_args (ns a b : string) : list string := ["-n"; ns; "images"; "tag"; a; b].
Definition remove_args (ns ref : string) : list string := ["-n"; ns; "images"; "remove"; ref].
Definition namespace_remove_args (ns : string) : list string := ["namespace"; "remove"; ns].

(** The namespace in which a command works. *)
Definition namespace_of (args : list string) : option string :=
  match args with
  | "-n" :: ns :: _ => Some ns
  | ["namespace"; "remove"; ns] => Some ns
  | _ => None
  end.

Class Containerd (D : Type) := {
  (** A command: what it changes and what becomes of its process. *)
  ctr_run : D -> list string -> D * child;
  (** What the daemon does by itself between two commands. *)
  drift : D -> Z -> D;
  (** The references of the images of a namespace. *)
  images : D -> string -> gset string;
  namespaces : D -> gset string;
  (** The deletion of an image of the namespace is not finished yet. *)
  busy : D -> string -> bool;
  (** The daemon serves requests. *)
  responsive : D -> bool;
}.

(** The state after a command, and its output when [cmd!] succeeds with it. *)
Definition ctr_next {D} `{Containerd D} (d : D) (args : list string) : D := (ctr_run d ("ctr" :: args)).1.
Definition ctr_ok {D} `{Containerd D} (d : D) (args : list string) : option string :=
  match cmd (fun argv => (ctr_run d argv).2) None "ctr" (map plain args) with
  | Done (Ok out) => Some out
  | _ => None
  end.

Definition succeeds {D} `{Containerd D} (d : D) (args : list string) : bool :=
  match ctr_ok d args with Some _ => true | None => false end.

(** The process was not started, or exited with a failure. *)
Definition refuses (c : child) : bool :=
  match c with
  | NotSpawned _ => true
  | Spawned _ (Ok out) => negb (success out)
  | Spawned _ (Err _) => false
  end.

Class ContainerdLaws (D : Type) `{Containerd D} := {
  (** [images ls] prints a header and a row per image, which begins with its
      reference, and changes nothing. *)
  law_ls d ns out : ctr_ok d (ls_args ns) = Some out ->
    exists header rows, str_split newline out = header :: rows /\
      forall ref, ref ∈ images d ns <-> exists row, row ∈ rows /\ head (str_split " " row) = Some ref;
  law_ls_images d ns : images (ctr_next d (ls_args ns)) ns = images d ns;
  (** [images tag] adds at most the new reference, and nothing when it is not run or
      exits with a failure.  Its process can be waited for; what it prints, the new
      reference, is UTF-8. *)
  law_tag d ns a b : images (ctr_next d (tag_args ns a b)) ns ⊆ images d ns ∪ {[b]};
  law_tag_failed d ns a b : refuses (ctr_run d ("ctr" :: tag_args ns a b)).2 = true ->
    images (ctr_next d (tag_args ns a b)) ns ⊆ images d ns;
  law_tag_waits d ns a b taken err : (ctr_run d ("ctr" :: tag_args ns a b)).2 <> Spawned taken (Err err);
  law_tag_prints d ns a b taken out : (ctr_run d ("ctr" :: tag_args ns a b)).2 = Spawned taken (Ok out) ->
    is_ok (from_utf8 (stdout out)) = true;
  (** [images push] changes no image. *)
  law_push d ns rest : images (ctr_next d ("-n" :: ns :: "images" :: "push" :: rest)) ns = images d ns;
  (** [images remove] removes the image when it succeeds, which it does when the
      daemon serves requests; it creates nothing. *)
  law_remove d ns ref : images (ctr_next d (remove_args ns ref)) ns ⊆ images d ns;
  law_removed d ns ref : succeeds d (remove_args ns ref) = true ->
    ref ∉ images (ctr_next d (remove_args ns ref)) ns;
  law_remove_served d ns ref : responsive d = true -> succeeds d (remove_args ns ref) = true;
  law_remove_namespaces d ns ref : namespaces (ctr_next d (remove_args ns ref)) ⊆ namespaces d;
  (** [namespace remove] is refused while the namespace holds images or is busy. *)
  law_namespace_removed d ns : succeeds d (namespace_remove_args ns) = true ->
    images d ns = ∅ /\ ns ∉ namespaces (ctr_next d (namespace_remove_args ns));
  law_namespace_images d ns : images (ctr_next d (namespace_remove_args ns)) ns = images d ns;
  law_namespace_served d ns : responsive d = true -> images d ns = ∅ -> busy d ns = false ->
    succeeds d (namespace_remove_args ns) = true;
  law_namespace_namespaces d ns : namespaces (ctr_next d (namespace_remove_args ns)) ⊆ namespaces d;
  (** A command works in its own namespace. *)
  law_frame d args n n' : namespace_of args = Some n' -> n <> n' ->
    images (ctr_next d args) n = images d n /\ (n ∈ namespaces (ctr_next d args) -> n ∈ namespaces d);
  (** By itself the daemon finishes deletions, stops and starts to serve. *)
  law_drift d c n : images (drift d c) n = images d n /\ namespaces (drift d c) = namespaces d;
}.

(** A tag that [cmd!] reports as failed has added nothing. *)
Lemma tag_adds {D} `{ContainerdLaws D} (d : D) ns a b :
  images (ctr_next d (tag_args ns a b)) ns ⊆ images d ns ∪ (if succeeds d (tag_args ns a b) then {[b]} else ∅).
Proof.
  destruct (succeeds d (tag_args ns a b)) eqn:Es; [apply law_tag|].
  assert (Hr : refuses (ctr_run d ("ctr" :: tag_args ns a b)).2 = true); [|apply law_tag_failed in Hr; set_solver].
  pose proof (law_tag_waits d ns a b) as Hw. pose proof (law_tag_prints d ns a b) as Hp.
  unfold succeeds, ctr_ok, cmd, exec in Es. change (map raw (map plain (tag_args ns a b))) with (tag_args ns a b) in Es.
  destruct (ctr_run d ("ctr" :: tag_args ns a b)).2 as [err|taken [out|err]]; [done| |by destruct (Hw taken err)].
  simpl in *. destruct (success out); [|done]. simpl in Es. specialize (Hp _ _ eq_refl).
  by destruct (from_utf8 (stdout out)).
Qed.

(** ** The system *)

(** A background task: what it removes, when it was spawned, and its attempts. *)
Record task := { what : event; began : Z; tried : list attempt }.

(** The command that it repeats. *)
Definition removal_args (e : event) : list string :=
  match e with
  | SpawnRemoveImage ns ref => remove_args ns ref
  | SpawnRemoveNamespace ns => namespace_remove_args ns
  | Ran _ | Sent _ => []
  end.

Definition status (B : Type) `{Backoff B} (t : task) : removal :=
  remove_loop (backoff_default (B := B) (began t)) (tried t).

Record system (D : Type) := { daemon : D; log : list event; tasks : list task }.
Arguments daemon {D} _.
Arguments log {D} _.
Arguments tasks {D} _.

Inductive move :=
| Workflow (e : event) (now : Z)       (* the installation goes on *)
| Attempt (k : nat) (now : Z)          (* a task runs its command *)
| Foreign (args : list string)         (* somebody works in another namespace *)
| Drift (choice : Z).

Section System.
Context {D : Type} `{ContainerdLaws D} {B : Type} `{BackoffLaws B}.
Context (ns : string).

Definition try_removal (d : D) (t : task) (now : Z) : D * task :=
  let args := removal_args (what t) in
  (ctr_next d args,
   {| what := what t; began := began t;
      tried := tried t ++ [{| at_now := now; removed := succeeds d args |}] |}).

Definition sys_move (s : system D) (m : move) : option (system D) :=
  match m with
  | Workflow (Ran argv as e) _ =>
      Some {| daemon := if decide (head argv = Some "ctr") then ctr_next (daemon s) (tail argv) else daemon s;
              log := log s ++ [e]; tasks := tasks s |}
  | Workflow (Sent _ as e) _ => Some {| daemon := daemon s; log := log s ++ [e]; tasks := tasks s |}
  | Workflow e now =>
      Some {| daemon := daemon s; log := log s ++ [e];
              tasks := tasks s ++ [{| what := e; began := now; tried := [] |}] |}
  | Attempt k now =>
      match tasks s !! k with
      | Some t =>
          match status B t with
          | Removing =>
              let '(d, t) := try_removal (daemon s) t now in
              Some {| daemon := d; log := log s; tasks := <[k := t]> (tasks s) |}
          | _ => None
          end
      | None => None
      end
  | Foreign args =>
      match namespace_of args with
      | Some n => if decide (n = ns) then None
                  else Some {| daemon := ctr_next (daemon s) args; log := log s; tasks := tasks s |}
      | None => None
      end
  | Drift c => Some {| daemon := drift (daemon s) c; log := log s; tasks := tasks s |}
  end.

Definition sys_start (d : D) : system D := {| daemon := d; log := []; tasks := [] |}.

(** The workflow is told what containerd answers. *)
Definition answered (os : list event -> list string -> child) (s : system D) (m : move) : Prop :=
  match m with
  | Workflow (Ran argv) _ => head argv = Some "ctr" -> os (log s) argv = (ctr_run (daemon s) argv).2
  | _ => True
  end.

Inductive runs (os : list event -> list string -> child) (s : system D) : list move -> system D -> Prop :=
| runs_nil : runs os s [] s
| runs_snoc ms s1 m s2 : runs os s ms s1 -> answered os s1 m -> sys_move s1 m = Some s2 ->
    runs os s (ms ++ [m]) s2.

(** ** Lemmas *)

(** *** Tasks *)

Lemma remove_loop_snoc (b : B) l r :
  remove_loop b l = Removing -> (remove_loop b (l ++ [r]) = Removed <-> removed r = true).
Proof.
  revert b. induction l as [|x l IH]; intros b Hl; simpl in *.
  - destruct (next_backoff (at_now r) b) as [[d|] b'], (removed r); done.
  - destruct (next_backoff (at_now x) b) as [[d|] b'], (removed x); try done. by apply IH.
Qed.

(** An attempt ends a task with success exactly when its command succeeds. *)
Lemma attempt_status (d : D) t now :
  status B t = Removing ->
  (status B (try_removal d t now).2 = Removed <-> succeeds d (removal_args (what t)) = true).
Proof. intros Ht. unfold status. simpl. by rewrite remove_loop_snoc. Qed.

Definition is_spawn (e : event) : bool := match e with Ran _ | Sent _ => false | _ => true end.

Lemma tasks_move (s s' : system D) m :
  sys_move s m = Some s' -> map what (tasks s) = List.filter is_spawn (log s) ->
  map what (tasks s') = List.filter is_spawn (log s').
Proof.
  intros Hm Hs. destruct m as [[argv|q|n r|n] now|k now|args|c]; simpl in Hm; simplify_eq/=.
  - rewrite List.filter_app. simpl. by rewrite app_nil_r.
  - rewrite List.filter_app. simpl. by rewrite app_nil_r.
  - by rewrite map_app, List.filter_app, Hs.
  - by rewrite map_app, List.filter_app, Hs.
  - destruct (tasks s !! k) as [t|] eqn:Ek; [|done]. destruct (status B t); simplify_eq/=.
    rewrite <- Hs. change (what <$> <[k := (try_removal (daemon s) t now).2]> (tasks s) = what <$> tasks s).
    rewrite list_fmap_insert. apply list_insert_id. by rewrite list_lookup_fmap, Ek.
  - destruct (namespace_of args) as [n|]; [|done]. by destruct (decide (n = ns)); simplify_eq/=.
  - done.
Qed.

Lemma move_log (s s' : system D) m :
  sys_move s m = Some s' -> log s' = log s ++ match m with Workflow e _ => [e] | _ => [] end.
Proof. intros Hm. destruct m as [[]|k ?| |]; simpl in Hm; repeat case_match; simplify_eq/=; by rewrite ?app_nil_r. Qed.

Lemma runs_log os (s s' : system D) ms : runs os s ms s' -> log s `prefix_of` log s'.
Proof. induction 1 as [|ms s1 m s2 _ IH _ Hm%move_log]; [done|]. rewrite Hm. by apply prefix_app_r. Qed.

Lemma runs_cons os (s s1 s' : system D) m ms :
  answered os s m -> sys_move s m = Some s1 -> runs os s1 ms s' -> runs os s (m :: ms) s'.
Proof.
  intros Ha Hm. induction 1 as [|ms s2 m' s3 _ IH Ha' Hm']; [|by apply (runs_snoc _ _ (m :: ms) s2)].
  apply (runs_snoc _ _ [] s); [apply runs_nil|done..].
Qed.

Lemma runs_app os (s s1 s' : system D) ms ms' : runs os s ms s1 -> runs os s1 ms' s' -> runs os s (ms ++ ms') s'.
Proof.
  intros Hr. induction 1 as [|ms' s2 m s3 _ IH Ha Hm]; [by rewrite app_nil_r|].
  rewrite app_assoc. by eapply runs_snoc.
Qed.

(** The tasks are those that the workflow has spawned. *)
Lemma tasks_spawned os d ms (s : system D) :
  runs os (sys_start d) ms s -> map what (tasks s) = List.filter is_spawn (log s).
Proof. induction 1 as [|ms s1 m s2 _ IH _ Hm]; [done|]. by eapply tasks_move. Qed.

(** *** What the background does to the namespace *)

(** The namespace only shrinks. *)
Definition calmer (d d' : D) : Prop :=
  images d' ns ⊆ images d ns /\ (ns ∈ namespaces d' -> ns ∈ namespaces d).

Definition removal_of (e : event) : Prop :=
  e = SpawnRemoveNamespace ns \/ exists ref, e = SpawnRemoveImage ns ref.

Lemma calmer_removal d e : removal_of e -> calmer d (ctr_next d (removal_args e)).
Proof.
  intros [->|[ref ->]]; split; simpl.
  - by rewrite law_namespace_images.
  - pose proof (law_namespace_namespaces d ns). set_solver.
  - apply law_remove.
  - pose proof (law_remove_namespaces d ns ref). set_solver.
Qed.

Lemma calmer_foreign d args n : namespace_of args = Some n -> n <> ns -> calmer d (ctr_next d args).
Proof. intros Hn Hne. destruct (law_frame d args ns n Hn) as [Hi Hs]; [done|]. split; [by rewrite Hi|done]. Qed.

Lemma calmer_drift d c : calmer d (drift d c).
Proof. destruct (law_drift d c ns) as [Hi Hs]. split; [by rewrite Hi|by rewrite Hs]. Qed.

(** A task that has ended with success has done its work. *)
Definition done_well (d : D) (t : task) : Prop :=
  removal_of (what t) /\
  (status B t = Removed -> match what t with
     | SpawnRemoveImage _ ref => ref ∉ images d ns
     | SpawnRemoveNamespace _ => images d ns = ∅ /\ ns ∉ namespaces d
     | Ran _ | Sent _ => False
     end).

Lemma done_well_calmer d d' t : calmer d d' -> done_well d t -> done_well d' t.
Proof.
  intros [Hi Hs] [Hw Ht]. split; [done|]. intros Hr. specialize (Ht Hr). destruct (what t); [done|done|set_solver|].
  destruct Ht as [Hi0 Hn]. split; [set_solver|auto].
Qed.

Lemma attempt_done_well d t now :
  status B t = Removing -> done_well d t -> done_well (try_removal d t now).1 (try_removal d t now).2.
Proof.
  intros Hr [Hw _]. split; [done|]. rewrite attempt_status by done. simpl. destruct Hw as [->|[ref ->]]; simpl.
  - intros Hok. rewrite law_namespace_images. by apply law_namespace_removed.
  - apply law_removed.
Qed.

(** The state of the namespace that the installation keeps to: only images in
    [refs], and the tasks do their work. *)
Definition clean (refs : gset string) (s : system D) : Prop :=
  images (daemon s) ns ⊆ refs /\ Forall (done_well (daemon s)) (tasks s).

Lemma clean_calmer refs s d' l :
  clean refs s -> calmer (daemon s) d' -> clean refs {| daemon := d'; log := l; tasks := tasks s |}.
Proof.
  intros [Hi Ht] Hc. split; simpl; [destruct Hc; set_solver|].
  eapply Forall_impl; [exact Ht|]. intros t. by apply done_well_calmer.
Qed.

Lemma clean_attempt refs s k t now :
  clean refs s -> tasks s !! k = Some t -> status B t = Removing ->
  clean refs {| daemon := (try_removal (daemon s) t now).1; log := log s;
                tasks := <[k := (try_removal (daemon s) t now).2]> (tasks s) |}.
Proof.
  intros [Hi Ht] Hk Hr. rewrite Forall_lookup in Ht. pose proof (Ht _ _ Hk) as Hw.
  assert (Hc : calmer (daemon s) (try_removal (daemon s) t now).1) by (apply calmer_removal, Hw).
  split; simpl; [destruct Hc as [Hc _]; simpl in Hc; set_solver|]. apply Forall_insert.
  - apply Forall_lookup. intros j t' Hj. eapply done_well_calmer; [exact Hc|eauto].
  - by apply attempt_done_well.
Qed.

(** Everything but the workflow keeps the namespace clean. *)
Lemma clean_background refs s m s' :
  clean refs s -> sys_move s m = Some s' -> (forall e now, m <> Workflow e now) -> clean refs s' /\ log s' = log s.
Proof.
  intros Hcl Hm Hbg. destruct m as [e now|k now|args|c]; simpl in Hm.
  - by destruct (Hbg e now).
  - destruct (tasks s !! k) as [t|] eqn:Ek; [|done]. destruct (status B t) eqn:Er; simplify_eq/=.
    split; [|done]. by apply clean_attempt.
  - destruct (namespace_of args) as [n|] eqn:En; [|done]. destruct (decide (n = ns)); simplify_eq/=.
    split; [|done]. apply clean_calmer; [done|by eapply calmer_foreign].
  - simplify_eq/=. split; [|done]. apply clean_calmer; [done|apply calmer_drift].
Qed.

(** A new task. *)
Lemma clean_spawn refs s e now :
  clean refs s -> removal_of e ->
  clean refs {| daemon := daemon s; log := log s ++ [e];
                tasks := tasks s ++ [{| what := e; began := now; tried := [] |}] |}.
Proof.
  intros [Hi Ht] He. split; [done|]. apply Forall_app. split; [done|]. constructor; [|done]. by split.
Qed.

(** A command of the workflow that adds no image, before the namespace is
    dropped. *)
Lemma clean_command refs s d' l :
  clean refs s -> images d' ns ⊆ images (daemon s) ns ->
  Forall (fun t => what t <> SpawnRemoveNamespace ns) (tasks s) ->
  clean refs {| daemon := d'; log := l; tasks := tasks s |}.
Proof.
  intros [Hi Ht] Hsub Hno. split; simpl; [set_solver|]. rewrite Forall_forall in Ht, Hno |- *.
  intros t Hin. destruct (Ht _ Hin) as [Hw Hd]. split; [done|]. intros Hr. specialize (Hd Hr).
  destruct Hw as [Hw|[ref Hw]]; [by destruct (Hno _ Hin)|]. rewrite Hw in *. set_solver.
Qed.

End System.

(** ** The log of an installation *)

Section Log.
Context (os : list event -> list string -> child).
Context (var : environment) (debug : dyn_AcmError -> string).
Context (simple : Z -> string) (ua : Z -> bool).
Context (random letter : Z).

(** A retagging runs at most the command that tags, and owns the new image
    exactly when that command succeeds. *)
Lemma retag_log image log r log' :
  retag os var simple ua random letter image log = (r, log') ->
  (log' = log ++ [drop_image image] /\ forall j, r <> Done (Ok j)) \/
  exists b, log' = log ++ [Ran ("ctr" :: tag_args (tmp_namespace image) (tmp_reference image) b); drop_image image] /\
    match cmd (os log) None "ctr" (map plain (tag_args (tmp_namespace image) (tmp_reference image) b)) with
    | Done (Ok _) => exists j, r = Done (Ok j) /\ tmp_reference j = b /\ tmp_namespace j = tmp_namespace image
    | _ => forall j, r <> Done (Ok j)
    end.
Proof.
  unfold retag, owning, bind, guard, lift, ret, ctr, run_cmd.
  destruct (rfc1035_label simple ua random letter) as [t|m]; simpl; [|intros [= <- <-]; by left].
  intros Hr. right. exists (new_reference var t). unfold new_reference, tag_args in *. simpl map in *.
  destruct (cmd _ _ _ _) as [[o|e]|m]; injection Hr as <- <-; (split; [by rewrite <- app_assoc|done || eauto]).
Qed.

(** The rest of a log after a successful import: at most the tagging, the drop
    of the imported image, the push, and the drop of the namespace. *)
Definition harmless (ns : string) (e : event) : Prop :=
  match e with
  | Ran argv => pushes ns argv
  | SpawnRemoveImage n _ => n = ns
  | Sent _ | SpawnRemoveNamespace _ => False
  end.

Lemma rest_shape i log r log' :
  (let* image := retag os var simple ua random letter i in push os var debug image) log = (r, log') ->
  exists pre post, log' = log ++ pre ++ drop_image i :: post /\
    Forall (harmless (tmp_namespace i)) post /\
    (pre = [] \/ exists b, pre = [Ran ("ctr" :: tag_args (tmp_namespace i) (tmp_reference i) b)] /\
       forall out, cmd (os log) None "ctr" (map plain (tag_args (tmp_namespace i) (tmp_reference i) b)) = Done (Ok out) ->
         SpawnRemoveImage (tmp_namespace i) b ∈ post).
Proof.
  unfold bind. destruct (retag _ _ _ _ _ _ i log) as [r1 log1] eqn:E. intros Hp.
  apply retag_log in E as [[-> Hno]|(b & -> & Hb)].
  - assert (log' = log ++ [drop_image i]) as ->.
    { destruct r1 as [[j|e]|m]; [by destruct (Hno j)|by injection Hp..]. }
    exists [], []. split_and!; auto.
  - destruct (cmd _ _ _ _) as [[o|e]|m] eqn:Ec.
    1: { destruct Hb as (j & -> & Hbr & Hns). apply push_inv in Hp as (l & -> & Hl & _).
      exists [Ran ("ctr" :: tag_args (tmp_namespace i) (tmp_reference i) b)], (map Ran l ++ [drop_image j]).
      rewrite <- app_assoc. unfold drop_image in *. rewrite Hns, Hbr in *. split_and!; [done| |].
      - apply Forall_app. split; [|by repeat constructor]. apply Forall_map. eapply Forall_impl; [exact Hl|done].
      - right. exists b. split; [done|]. intros _ _. set_solver. }
    all: assert (log' = log ++ [Ran ("ctr" :: tag_args (tmp_namespace i) (tmp_reference i) b); drop_image i]) as ->
      by (destruct r1 as [[j|e']|m']; [by destruct (Hb j)|by injection Hp..]);
      exists [Ran ("ctr" :: tag_args (tmp_namespace i) (tmp_reference i) b)], []; split_and!;
      [done|by apply Forall_nil|right; exists b; split; [done|intros out; by rewrite Ec]].
Qed.
End Log.

(** The next event of a log whose last one is known. *)
Lemma prefix_snoc_inv {A} (q b : list A) e x :
  q ++ [e] `prefix_of` b ++ [x] -> (e = x /\ q = b) \/ q ++ [e] `prefix_of` b.
Proof.
  intros [k Hk]. destruct k as [|y k _] using rev_ind.
  - rewrite app_nil_r in Hk. apply app_inj_tail in Hk as [-> ->]. by left.
  - rewrite app_assoc in Hk. apply app_inj_tail in Hk as [-> _]. right. by exists k.
Qed.

Lemma prefix_snoc_In {A} (q b : list A) e : q ++ [e] `prefix_of` b -> e ∈ b.
Proof. intros [k ->]. set_solver. Qed.

(** A row is read as the reference of the only image. *)
Lemma extract_one ns out ref t dg header rows :
  extract_image_metadata_from_str ns out = Ok (ref, t, dg) -> str_split newline out = header :: rows ->
  exists row, rows = [row] /\ head (str_split " " row) = Some ref.
Proof.
  unfold extract_image_metadata_from_str. intros Hx Hs. rewrite Hs in Hx.
  destruct rows as [|row [|]]; simpl in Hx; try done. exists row. split; [done|].
  destruct (str_split " " row) as [|a [|b [|c l]]]; simpl in Hx; try done.
  destruct (rsplit_once ":" a) as [[? ?]|]; simpl in Hx; by simplify_eq.
Qed.

(** ** Theorems *)

Section Theorems.
Context {D : Type} `{ContainerdLaws D} {B : Type} `{BackoffLaws B}.
Context (os : list event -> list string -> child).
Context (var : environment) (debug : dyn_AcmError -> string).
Context (simple : Z -> string) (ua : Z -> bool).
Context (ns_random random letter : Z) (tmp : option string).
Notation ns := (uuid simple ns_random).
Notation import_all := (containerd_import os var debug simple ua ns_random random letter tmp).
Notation runs := (runs (D := D) (B := B) ns os).
Notation sys_move := (sys_move (D := D) (B := B) ns).
Notation clean := (clean (D := D) (B := B) ns).

(** The images for which the log has a removal. *)
Definition dropped (L : list event) : gset string := list_to_set (image_drops L).*2.

Lemma dropped_spec ref L : SpawnRemoveImage ns ref ∈ L -> ref ∈ dropped L.
Proof.
  intros Hin. unfold dropped. apply elem_of_list_to_set, list_elem_of_fmap. exists (ns, ref). split; [done|].
  apply list_elem_of_omap. by exists (SpawnRemoveImage ns ref).
Qed.

(** [cmd!] of the workflow and of containerd agree. *)
Lemma answered_cmd s args now :
  answered os s (Workflow (Ran ("ctr" :: args)) now) ->
  cmd (os (log s)) None "ctr" (map plain args) =
  cmd (fun argv => (ctr_run (daemon s) argv).2) None "ctr" (map plain args).
Proof.
  simpl. intros Ha. unfold cmd. rewrite !map_map, !map_id. simpl. by rewrite Ha.
Qed.

Section Imported.
Context (i : TmpImage) (path : string) (pre post : list event).
Notation imported := [Ran ["ctr"; "-n"; ns; "images"; "import"; "--no-unpack"; path]].
Notation listed := (imported ++ [Ran ("ctr" :: ls_args ns)]).
Notation whole := (listed ++ (pre ++ SpawnRemoveImage ns (tmp_reference i) :: post) ++ [SpawnRemoveNamespace ns]).
Context (out : string)
  (Hls : cmd (os imported) None "ctr" (map plain (ls_args ns)) = Done (Ok out))
  (Hout : extract_image_metadata_from_str ns out = Ok (tmp_reference i, tmp_tag i, tmp_digest i))
  (Hpost : Forall (harmless ns) post)
  (Hpre : pre = [] \/ exists b, pre = [Ran ("ctr" :: tag_args ns (tmp_reference i) b)] /\
     forall o, cmd (os listed) None "ctr" (map plain (tag_args ns (tmp_reference i) b)) = Done (Ok o) ->
       SpawnRemoveImage ns b ∈ post).

(** After the listing, the imported image is the only one. *)
Lemma listed_clean s now :
  log s = imported -> answered os s (Workflow (Ran ("ctr" :: ls_args ns)) now) -> tasks s = [] ->
  clean (dropped whole)
    {| daemon := ctr_next (daemon s) (ls_args ns); log := listed; tasks := tasks s |}.
Proof.
  intros Hl Ha Ht. apply answered_cmd in Ha. rewrite Hl, Hls in Ha.
  destruct (law_ls (daemon s) ns out) as (header & rows & Hs & Hrows).
  { unfold ctr_ok. by rewrite <- Ha. }
  destruct (extract_one _ _ _ _ _ _ _ Hout Hs) as (row & -> & Hrow).
  split; simpl; [|rewrite Ht; constructor]. rewrite law_ls_images. intros ref Href.
  apply Hrows in Href as (row' & ->%list_elem_of_singleton & Hr). rewrite Hrow in Hr. injection Hr as <-.
  apply dropped_spec. set_solver.
Qed.

(** The rest of the workflow keeps it so. *)
Lemma workflow_clean s e now s' q :
  clean (dropped whole) s -> log s = listed ++ q -> answered os s (Workflow e now) ->
  map what (tasks s) = List.filter is_spawn (log s) ->
  sys_move s (Workflow e now) = Some s' -> log s ++ [e] `prefix_of` whole -> clean (dropped whole) s'.
Proof.
  intros Hcl Hlog Ha Htasks Hm Hpf. rewrite Hlog, <- app_assoc in Hpf. apply prefix_app_inv in Hpf.
  apply prefix_snoc_inv in Hpf as [[-> _]|Hpf].
  { simpl in Hm. simplify_eq/=. apply clean_spawn; [done|by left]. }
  assert (Hnone : Forall (fun t => what t <> SpawnRemoveNamespace ns) (tasks s)).
  { apply Forall_forall. intros t Hin Hw. assert (Hs : SpawnRemoveNamespace ns ∈ log s).
    { apply list_elem_of_In. apply list_elem_of_In, (in_map what) in Hin. rewrite Hw, Htasks in Hin.
      by apply filter_In in Hin as [? _]. }
    rewrite Hlog in Hs. assert (Hq : SpawnRemoveNamespace ns ∈ pre ++ SpawnRemoveImage ns (tmp_reference i) :: post).
    { destruct Hpf as [k ->]. set_solver. }
    rewrite Forall_forall in Hpost. specialize (Hpost (SpawnRemoveNamespace ns)). simpl in Hpost.
    destruct Hpre as [->|(b & -> & _)]; set_solver. }
  assert (He : harmless ns e \/ (q = [] /\ pre = [e])).
  { assert (Hh : forall e, e ∈ SpawnRemoveImage ns (tmp_reference i) :: post -> harmless ns e).
    { rewrite Forall_forall in Hpost. intros e'. rewrite elem_of_cons. intros [->|?]; [done|auto]. }
    destruct Hpre as [->|(b & -> & _)]; [left; by eapply Hh, prefix_snoc_In|].
    destruct q as [|x q]; [right|left].
    - destruct Hpf as [k Hk]. by injection Hk as <-.
    - simpl in Hpf. apply prefix_cons_inv_2 in Hpf. by eapply Hh, prefix_snoc_In. }
  destruct He as [He|[-> Hpre1]].
  - destruct e as [argv|rq|n ref|n]; simpl in He, Hm; simplify_eq/=.
    + apply clean_command; [done| |done]. destruct He as [Hh|[rest ->]].
      * by rewrite decide_False.
      * simpl. by rewrite law_push.
    + done.
    + apply clean_spawn; [done|right; eauto].
    + done.
  - destruct Hpre as [Hp|(b & Hp & Hb)]; rewrite Hp in Hpre1; [done|]. injection Hpre1 as <-.
    apply answered_cmd in Ha. rewrite Hlog, app_nil_r in Ha. injection Hm as <-.
    assert (Hno : tasks s = []) by (rewrite Hlog in Htasks; by destruct (tasks s)).
    split; cbn [daemon tasks]; [|by rewrite Hno]. pose proof (tag_adds (daemon s) ns (tmp_reference i) b) as Htag.
    unfold succeeds, ctr_ok in Htag. rewrite <- Ha in Htag. destruct Hcl as [Hi _].
    destruct (cmd (os listed) None "ctr" _) as [[o|]|] eqn:Ec; [|set_solver..].
    assert (b ∈ dropped whole); [|set_solver]. apply dropped_spec. specialize (Hb o eq_refl). set_solver.
Qed.

Lemma run_clean d ms s :
  runs (sys_start d) ms s -> log s `prefix_of` whole ->
  forall q, log s = listed ++ q -> clean (dropped whole) s.
Proof.
  induction 1 as [|ms s1 m s2 Hr IH Ha Hm]; intros Hpf q Hq; [done|].
  pose proof (tasks_spawned _ _ _ _ _ Hr) as Hts.
  destruct m as [e now|k now|args|c]; cycle 1.
  1-3: pose proof (move_log _ _ _ _ Hm) as Hl; rewrite app_nil_r in Hl;
    rewrite Hl in *; eapply clean_background; [by eapply IH|exact Hm|done].
  pose proof (move_log _ _ _ _ Hm) as Hl.
  rewrite Hl in Hq, Hpf. assert (Hpf1 : log s1 `prefix_of` whole) by (by eapply prefix_app_l).
  destruct q as [|x q _] using rev_ind.
  - rewrite app_nil_r in Hq. apply app_inj_tail in Hq as [Hq ->]. simpl in Hm. simplify_eq/=.
    rewrite Hq. apply (listed_clean s1 now); [done|done|]. rewrite Hq in Hts. by destruct (tasks s1).
  - rewrite app_assoc in Hq. apply app_inj_tail in Hq as [Hq ->].
    by eapply workflow_clean; [eapply IH|..].
Qed.
End Imported.

(** The log of an installation whose import returned an image. *)
Lemma import_shape r L i :
  import_all [] = (r, L) -> (import_ os ns tmp []).1 = Done (Ok i) ->
  exists path out pre post,
    L = ([Ran ["ctr"; "-n"; ns; "images"; "import"; "--no-unpack"; path]] ++ [Ran ("ctr" :: ls_args ns)]) ++
        (pre ++ SpawnRemoveImage ns (tmp_reference i) :: post) ++ [SpawnRemoveNamespace ns] /\
    cmd (os [Ran ["ctr"; "-n"; ns; "images"; "import"; "--no-unpack"; path]]) None "ctr" (map plain (ls_args ns)) =
      Done (Ok out) /\
    extract_image_metadata_from_str ns out = Ok (tmp_reference i, tmp_tag i, tmp_digest i) /\
    Forall (harmless ns) post /\
    (pre = [] \/ exists b, pre = [Ran ("ctr" :: tag_args ns (tmp_reference i) b)] /\
       forall o, cmd (os ([Ran ["ctr"; "-n"; ns; "images"; "import"; "--no-unpack"; path]] ++
                          [Ran ("ctr" :: ls_args ns)])) None "ctr"
                   (map plain (tag_args ns (tmp_reference i) b)) = Done (Ok o) ->
         SpawnRemoveImage ns b ∈ post).
Proof.
  intros (l & -> & Hb)%import_all_inv Hi.
  destruct (import_ os ns tmp []) as [r0 log1] eqn:Ei. simpl in Hi. subst r0.
  apply bind_inv in Hb as [(i' & log1' & Hi & Hb)|[(e & Hi & _)|(m & Hi & _)]]; rewrite Ei in Hi; simplify_eq.
  apply import_Ok in Ei as (Hns & path & out & _ & _ & -> & Hls & Hout).
  apply rest_shape in Hb as (pre & post & -> & Hpost & Hpre). rewrite Hns in *.
  exists path, out, pre, post. unfold drop_image. rewrite Hns, <- !app_assoc. done.
Qed.

(** What is left in the namespace when the workflow is over. *)
Lemma over_clean r L i d ms s :
  import_all [] = (r, L) -> (import_ os ns tmp []).1 = Done (Ok i) ->
  runs (sys_start d) ms s -> log s = L -> clean (dropped L) s.
Proof.
  intros Hrun Hi Hr Hl. destruct (import_shape _ _ _ Hrun Hi) as (path & out & pre & post & HL & Hls & Hout & Hpost & Hpre).
  rewrite HL in Hl |- *. eapply run_clean; eauto. by rewrite Hl.
Qed.

Lemma task_of s e : map what (tasks s) = List.filter is_spawn (log (D := D) s) -> e ∈ log s -> is_spawn e = true ->
  exists k t, tasks s !! k = Some t /\ what t = e.
Proof.
  intros Ht Hin He. assert (Hm : In e (map what (tasks s))).
  { rewrite Ht. apply filter_In. split; [by apply list_elem_of_In|done]. }
  apply in_map_iff in Hm as (t & Hw & Hint). apply list_elem_of_In, list_elem_of_lookup in Hint as [k Hk]. eauto.
Qed.

(** An installation whose upload could be read leaves nothing behind that is
    not being removed, whatever its end and however its background tasks, other
    installations and the daemon are interleaved: every image that is left in its
    namespace has a task that still tries to remove it or gave up; the next
    attempt of a task succeeds when containerd serves requests, for the namespace
    when the images are removed and no deletion is under way; and when the task
    of the namespace has succeeded, the namespace is gone. *)
Theorem installation_leaves_nothing (r : run (Result Image)) (L : list event) (i : TmpImage) (d : D)
  (ms : list move) (s : system D)
  (Hrun : import_all [] = (r, L)) (Himport : (import_ os ns tmp []).1 = Done (Ok i))
  (Hsys : runs (sys_start d) ms s) (Hover : log s = L) :
  (forall ref, ref ∈ images (daemon s) ns ->
     exists t, t ∈ tasks s /\ what t = SpawnRemoveImage ns ref /\ status B t <> Removed) /\
  (forall k t now, tasks s !! k = Some t -> status B t = Removing -> responsive (daemon s) = true ->
     (what t = SpawnRemoveNamespace ns -> busy (daemon s) ns = false /\
        forall t', t' ∈ tasks s -> what t' <> what t -> status B t' = Removed) ->
     exists s' t', sys_move s (Attempt k now) = Some s' /\ tasks s' !! k = Some t' /\
       what t' = what t /\ status B t' = Removed) /\
  (exists k t, tasks s !! k = Some t /\ what t = SpawnRemoveNamespace ns /\
     (status B t = Removed -> images (daemon s) ns = ∅ /\ ns ∉ namespaces (daemon s))).
Proof.
  destruct (over_clean _ _ _ _ _ _ Hrun Himport Hsys Hover) as [Hi Hd]. rewrite Forall_forall in Hd.
  pose proof (tasks_spawned _ _ _ _ _ Hsys) as Hts.
  assert (Himages : forall ref, ref ∈ images (daemon s) ns ->
    exists t, t ∈ tasks s /\ what t = SpawnRemoveImage ns ref /\ status B t <> Removed).
  { intros ref Href. pose proof (Hi _ Href) as Hdrop. unfold dropped in Hdrop.
    apply elem_of_list_to_set, list_elem_of_fmap in Hdrop as ([n ref'] & -> & Hdrop).
    apply list_elem_of_omap in Hdrop as ([| |n' ref''|] & Hin & He); simplify_eq/=.
    destruct (task_of _ _ Hts Hin) as (k & t & Hk & Hw); [done|].
    apply list_elem_of_lookup_2 in Hk. destruct (Hd _ Hk) as [[Ho|[x Ho]] Hdone]; rewrite Ho in Hw; simplify_eq.
    exists t. split_and!; [done|done|]. intros Hr. specialize (Hdone Hr). by rewrite Ho in Hdone. }
  split_and!; [done| |].
  - intros k t now Hk Ht Hup Hns. pose proof (list_elem_of_lookup_2 _ _ _ Hk) as Hin.
    simpl. rewrite Hk, Ht. eexists _, _. split; [done|]. simpl. split.
    { by apply list_lookup_insert_eq, (lookup_lt_Some _ _ t). }
    split; [done|]. apply (attempt_status (daemon s) t now); [done|].
    destruct (Hd _ Hin) as [[Ho|[ref Ho]] _]; rewrite Ho; simpl; [|by apply law_remove_served].
    destruct (Hns Ho) as [Hb Hall]. apply law_namespace_served; [done| |done].
    apply set_eq. intros ref. split; [|set_solver]. intros Href.
    destruct (Himages _ Href) as (t' & Hin' & Hw & Hnr). destruct Hnr. apply Hall; [done|]. by rewrite Hw, Ho.
  - destruct (task_of s (SpawnRemoveNamespace ns) Hts) as (k & t & Hk & Hw); [|done|].
    { rewrite Hover. apply import_all_inv in Hrun as (l & -> & _). set_solver. }
    exists k, t. split_and!; [done|done|]. intros Hr. destruct (Hd t) as [_ Hdone]; [by eapply list_elem_of_lookup_2|].
    specialize (Hdone Hr). by rewrite Hw in Hdone.
Qed.

(** *** A clean-up that runs to its end *)

Section Drain.
(** The daemon goes on serving, and by itself finishes the deletions. *)
Context (Hstays : forall (d : D) args, responsive d = true -> responsive (ctr_next d args) = true).
Context (Hsettles : forall d : D, responsive d = true ->
  exists c, responsive (drift d c) = true /\ forall n, busy (drift d c) n = false).

(** A move that is not a move of a workflow or of a stranger. *)
Definition background (m : move) : bool := match m with Attempt _ _ | Drift _ => true | _ => false end.

Lemma attempt_removes s k t now :
  tasks s !! k = Some t -> status B t = Removing -> succeeds (daemon s) (removal_args (what t)) = true ->
  exists s' t', sys_move s (Attempt k now) = Some s' /\ log s' = log s /\ tasks s' = <[k := t']> (tasks s) /\
    what t' = what t /\ status B t' = Removed /\ daemon s' = ctr_next (daemon s) (removal_args (what t)).
Proof.
  intros Hk Ht Hok. simpl. rewrite Hk, Ht. eexists _, _. split; [done|]. simpl. split_and!; try done.
  by apply (attempt_status (daemon s) t now).
Qed.

(** The first [n] tasks are done with, but for that of the namespace. *)
Lemma drain_images n s :
  Forall (fun t => removal_of ns (what t) /\ status B t <> Orphaned) (tasks s) -> responsive (daemon s) = true ->
  exists ms s', runs s ms s' /\ forallb background ms = true /\ log s' = log s /\ responsive (daemon s') = true /\
    Forall (fun t => removal_of ns (what t) /\ status B t <> Orphaned) (tasks s') /\
    forall k t, (k < n)%nat -> tasks s' !! k = Some t -> what t <> SpawnRemoveNamespace ns -> status B t = Removed.
Proof.
  intros Hs Hup. induction n as [|n (ms & s1 & Hr & Hbg & Hl & Hup1 & Hs1 & Hdone)].
  { exists [], s. split_and!; try done; [constructor|lia]. }
  assert (Hskip : (forall t, tasks s1 !! n = Some t -> what t <> SpawnRemoveNamespace ns -> status B t = Removed) ->
    forall k t, (k < S n)%nat -> tasks s1 !! k = Some t -> what t <> SpawnRemoveNamespace ns -> status B t = Removed).
  { intros Hn k t Hk Ht. destruct (decide (k = n)) as [->|]; [by apply Hn|]. apply (Hdone k t); [lia|done]. }
  destruct (tasks s1 !! n) as [t|] eqn:En; [|exists ms, s1; split_and!; try done; by apply Hskip].
  assert (removal_of ns (what t) /\ status B t <> Orphaned) as [Hrem Hor] by (rewrite Forall_lookup in Hs1; by apply (Hs1 n)).
  destruct (status B t) eqn:Et; [|exists ms, s1; split_and!; try done; apply Hskip; congruence|done].
  destruct Hrem as [Hw|[ref Hw]]; [exists ms, s1; split_and!; try done; apply Hskip; congruence|].
  destruct (attempt_removes s1 n t 0 En Et) as (s2 & t2 & Hm & Hl2 & Hts & Hw2 & Hst & Hd).
  { rewrite Hw. by apply law_remove_served. }
  exists (ms ++ [Attempt n 0]), s2. split_and!.
  - by eapply runs_snoc.
  - rewrite forallb_app. by rewrite Hbg.
  - congruence.
  - rewrite Hd. by apply Hstays.
  - rewrite Hts. apply Forall_insert; [done|]. rewrite Hw2, Hst. split; [right; eauto|done].
  - rewrite Hts. intros k t' Hk Ht' Hwt'. destruct (decide (k = n)) as [->|Hne].
    + rewrite list_lookup_insert_eq in Ht' by (by eapply lookup_lt_Some). by injection Ht' as <-.
    + rewrite list_lookup_insert_ne in Ht' by done. apply (Hdone k t'); [lia|done|done].
Qed.

(** The clean-up of an installation that is over can be brought to its end. *)
Lemma drain r L i d ms s :
  import_all [] = (r, L) -> (import_ os ns tmp []).1 = Done (Ok i) ->
  runs (sys_start d) ms s -> log s = L ->
  responsive (daemon s) = true -> Forall (fun t => status B t <> Orphaned) (tasks s) ->
  exists ms' s', runs s ms' s' /\ forallb background ms' = true /\
    images (daemon s') ns = ∅ /\ ns ∉ namespaces (daemon s').
Proof.
  intros Hrun Himport Hsys Hover Hup Hor.
  destruct (over_clean _ _ _ _ _ _ Hrun Himport Hsys Hover) as [_ Hd].
  destruct (drain_images (length (tasks s)) s) as (ms1 & s1 & Hr1 & Hbg1 & Hl1 & Hup1 & Hs1 & Hdone); [|done|].
  { rewrite Forall_forall in Hd, Hor |- *. intros t Ht. split; [by apply Hd|auto]. }
  destruct (Hsettles (daemon s1) Hup1) as (c & Hup2 & Hcalm).
  set (s2 := {| daemon := drift (daemon s1) c; log := log s1; tasks := tasks s1 |}).
  assert (Hr2 : runs s (ms1 ++ [Drift c]) s2) by (by eapply runs_snoc).
  pose proof (runs_app _ _ _ _ _ _ _ Hsys Hr2) as Hsys2.
  assert (Hover2 : log s2 = L) by (simpl; congruence).
  destruct (installation_leaves_nothing _ _ _ _ _ _ Hrun Himport Hsys2 Hover2) as (_ & Hnext & k & t & Hk & Hw & Hgone).
  assert (Hlen : length (tasks s1) = length (tasks s)).
  { apply tasks_spawned in Hsys. apply tasks_spawned in Hsys2. apply (f_equal length) in Hsys, Hsys2. simpl in Hsys2.
    rewrite length_map in Hsys, Hsys2. congruence. }
  destruct (status B t) eqn:Et; [| |].
  - destruct (Hnext k t 0 Hk Et Hup2) as (s3 & t3 & Hm & Ht3 & Hw3 & Hst3).
    { intros _. split; [apply Hcalm|]. intros t' [k' Hk']%list_elem_of_lookup Hne. simpl in Hk'.
      apply (Hdone k' t'); [|done|congruence]. apply lookup_lt_Some in Hk'. lia. }
    assert (Hsys3 : runs (sys_start d) ((ms ++ ms1 ++ [Drift c]) ++ [Attempt k 0]) s3) by (by eapply runs_snoc).
    destruct (over_clean _ _ _ _ _ _ Hrun Himport Hsys3) as [_ Hd3]; [by rewrite (move_log _ _ _ _ Hm), app_nil_r|].
    exists ((ms1 ++ [Drift c]) ++ [Attempt k 0]), s3. split_and!; [by eapply runs_snoc|by rewrite !forallb_app, Hbg1|..];
      rewrite Forall_lookup in Hd3; destruct (Hd3 _ _ Ht3) as [_ Hend]; specialize (Hend Hst3);
      rewrite Hw3, Hw in Hend; apply Hend.
  - exists (ms1 ++ [Drift c]), s2. destruct (Hgone eq_refl). split_and!; [done|by rewrite forallb_app, Hbg1|done..].
  - exfalso. rewrite Forall_lookup in Hs1. by destruct (Hs1 _ _ Hk).
Qed.
End Drain.

(** *** An upload that could not be read *)

Lemma task_logged (s : system D) t :
  map what (tasks s) = List.filter is_spawn (log s) -> t ∈ tasks s -> what t ∈ log s /\ is_spawn (what t) = true.
Proof.
  intros Ht Hin%list_elem_of_In%(in_map what). rewrite Ht in Hin. apply filter_In in Hin as [? ?].
  split; [by apply list_elem_of_In|done].
Qed.

(** The only task is that of the namespace. *)
Lemma unread_whats l (s : system D) :
  map what (tasks s) = List.filter is_spawn (log s) ->
  log s `prefix_of` map Ran l ++ [SpawnRemoveNamespace ns] ->
  Forall (fun t => what t = SpawnRemoveNamespace ns) (tasks s) /\
  (log s `prefix_of` map Ran l -> tasks s = []).
Proof.
  intros Hts [k Hk]. assert (Hno : forall e, e ∈ map Ran l -> is_spawn e = false).
  { intros e He%list_elem_of_In. by apply in_map_iff in He as (argv & <- & _). }
  split.
  - apply Forall_forall. intros t Hin. destruct (task_logged _ _ Hts Hin) as [Hl Hs].
    assert (Ht : what t ∈ map Ran l ++ [SpawnRemoveNamespace ns]) by (rewrite Hk; set_solver).
    apply elem_of_app in Ht as [Ht%Hno|Ht%list_elem_of_singleton]; congruence.
  - intros [k' Hk']. destruct (tasks s) as [|t ts] eqn:Et; [done|]. exfalso.
    destruct (task_logged s t) as [Hl Hs]; [by rewrite Et|rewrite Et; by left|].
    rewrite (Hno (what t)) in Hs; [done|]. rewrite Hk'. set_solver.
Qed.

Lemma unread_tasks l d ms s :
  runs (sys_start d) ms s -> log s `prefix_of` map Ran l ++ [SpawnRemoveNamespace ns] ->
  Forall (done_well (B := B) ns (daemon s)) (tasks s).
Proof.
  induction 1 as [|ms s1 m s2 Hr IH Ha Hm]; intros Hpf; [done|].
  pose proof (tasks_spawned _ _ _ _ _ Hr) as Hts1.
  destruct m as [e now|k now|args|c]; cycle 1.
  1-3: pose proof (move_log _ _ _ _ Hm) as Hl; rewrite app_nil_r in Hl; rewrite Hl in Hpf;
    eapply (clean_background ns (images (daemon s1) ns)); [by split; [|apply IH]|exact Hm|done].
  pose proof (move_log _ _ _ _ Hm) as Hl.
  pose proof Hpf as Hpf2. rewrite Hl in Hpf. apply prefix_snoc_inv in Hpf as [[-> Hq]|Hpf].
  - destruct (unread_whats l s1 Hts1) as [_ Hno]; [rewrite Hq; by apply prefix_app_r|].
    simpl in Hm. simplify_eq/=. rewrite Hno by (by rewrite Hq). constructor; [|done]. split; [by left|done].
  - destruct (unread_whats l s2) as [_ Hno]; [by eapply tasks_move|done|]. by rewrite Hno by (by rewrite Hl).
Qed.

(** After the workflow the images stay. *)
Lemma unread_images l d ms s ms' s' :
  runs (sys_start d) ms s -> runs s ms' s' ->
  log s = map Ran l ++ [SpawnRemoveNamespace ns] -> log s' = log s ->
  images (daemon s') ns = images (daemon s) ns /\ exists ms2, runs (sys_start d) ms2 s'.
Proof.
  intros Hsys Hlater Hover. induction Hlater as [|ms' s1 m s2 Hr IH Ha Hm]; intros Hover'; [eauto|].
  pose proof (runs_log _ _ _ _ _ Hr) as [k1 Hk1]. pose proof (move_log _ _ _ _ Hm) as Hl.
  assert (log s1 = log s /\ match m with Workflow _ _ => False | _ => True end) as [Hs1 Hm'].
  { rewrite Hover', Hk1, <- app_assoc in Hl. rewrite Hk1. apply (f_equal length) in Hl. rewrite !length_app in Hl.
    destruct k1; [|simpl in Hl; lia]. rewrite app_nil_r. destruct m; simpl in Hl; [lia|by split..]. }
  destruct (IH Hs1) as [Hi (ms2 & Hms)]. split; [|eexists; by eapply runs_snoc]. rewrite <- Hi.
  destruct m as [e now|k now|args|c]; simpl in Hm; [done|..].
  - destruct (tasks s1 !! k) as [t|] eqn:Ek; [|done]. destruct (status B t); simplify_eq/=.
    destruct (unread_whats l s1) as [Hw _]; [by eapply tasks_spawned|by rewrite Hs1, Hover|].
    rewrite Forall_lookup in Hw. rewrite (Hw _ _ Ek). apply law_namespace_images.
  - destruct (namespace_of args) as [n|] eqn:En; [|done]. destruct (decide (n = ns)); simplify_eq/=.
    by eapply law_frame.
  - simplify_eq/=. by apply law_drift.
Qed.

(** C38: an upload that containerd has stored but that the installation could not
    read stays for good: when the import step did not return an image, and its
    namespace holds one at the end of the installation, then the images stay
    whatever happens and the removal of the namespace never succeeds. *)
Theorem unread_upload_stays (r : run (Result Image)) (L : list event) (d : D)
  (ms ms' : list move) (s s' : system D)
  (Hrun : import_all [] = (r, L)) (Himport : forall i, (import_ os ns tmp []).1 <> Done (Ok i))
  (Hsys : runs (sys_start d) ms s) (Hover : log s = L) (Himages : images (daemon s) ns <> ∅)
  (Hlater : runs s ms' s') (Hover' : log s' = L) :
  images (daemon s') ns = images (daemon s) ns /\ Forall (fun t => status B t <> Removed) (tasks s').
Proof.
  assert (exists l, L = map Ran l ++ [SpawnRemoveNamespace ns]) as [l HL].
  { apply import_all_inv in Hrun as (l & -> & Hb). destruct (import_ os ns tmp []) as [r0 log1] eqn:Ei.
    destruct (quiet_import _ _ _ _ _ _ Ei) as (l1 & Hl1 & _). simpl in Hl1. exists l1. f_equal.
    apply bind_inv in Hb as [(i & ? & Hi & _)|[(e & Hi & _)|(m & Hi & _)]]; rewrite Ei in Hi; simplify_eq/=; [|done..].
    by destruct (Himport i). }
  destruct (unread_images l d ms s ms' s') as [Hi (ms2 & Hms)]; [congruence..|].
  split; [done|].
  assert (Hpf : log s' `prefix_of` map Ran l ++ [SpawnRemoveNamespace ns]) by (by rewrite Hover', HL).
  pose proof (unread_tasks l d ms2 s' Hms Hpf) as Hd.
  destruct (unread_whats l s') as [Hw _]; [by eapply tasks_spawned|done|].
  rewrite Forall_forall in Hd, Hw |- *. intros t Hin Hr. destruct (Hd _ Hin) as [_ Ht].
  rewrite (Hw _ Hin) in Ht. destruct (Ht Hr) as [Hemp _]. by rewrite Hi in Hemp.
Qed.
End Theorems.

(** ** An instance: a daemon in memory *)

Record slice := { refs : gset string; pending : bool }.
Record memory := { up : bool; store : gmap string slice }.

Inductive request :=
| Importing (path : string)
| Listing
| Tagging (a b : string)
| RemovingImage (ref : string)
| RemovingNamespace
| Other.

(** The request of a command in a namespace. *)
Definition parse (args : list string) : request :=
  match args with
  | [_; sub; _] => if (sub =? "remove")%string then RemovingNamespace else Other
  | [_; _; _; sub] => if (sub =? "ls")%string then Listing else Other
  | [_; _; _; sub; ref] => if (sub =? "remove")%string then RemovingImage ref else Other
  | [_; _; _; sub; a; b] =>
      if (sub =? "tag")%string then Tagging a b
      else if (sub =? "import")%string then Importing b else Other
  | _ => Other
  end.

Definition answer (ok : bool) (text : string) : child :=
  Spawned true (Ok {| success := ok; stdout := text; stderr := "refused" |}).

(** Lines of a table. *)
Fixpoint table (line : string) (rows : list string) : string :=
  match rows with
  | [] => line
  | row :: rows => line +:+ String newline (table row rows)
  end.
Definition row_of (ref : string) : string := ref +:+ String " " "type sha256:76a5 -".

(** A path that begins with [/tmp/two] holds two images, any other path one. *)
Definition archive (path : string) : gset string :=
  if (path =? "/tmp/two")%string then {["test/a:1"; "test/b:1"]} else {["docker.io/test/tennis:latest"]}.

Definition slice_at (d : memory) (n : string) : slice :=
  match store d !! n with Some sl => sl | None => {| refs := ∅; pending := false |} end.

Definition set_slice (d : memory) (n : string) (sl : slice) : memory :=
  {| up := up d; store := <[n := sl]> (store d) |}.

Definition serve (d : memory) (n : string) (r : request) : memory * child :=
  let sl := slice_at d n in
  match r with
  | Importing path =>
      (set_slice d n {| refs := refs sl ∪ archive path; pending := pending sl |}, answer true "")
  | Listing =>
      let rows := map row_of (elements (refs sl)) in
      let text := table "REF TYPE DIGEST LABELS" rows in
      (d, answer (forallb (fun ref => lacks newline ref && lacks " " ref) (elements (refs sl)) &&
                  (trim_end text =? text)%string) text)
  | Tagging a b =>
      if decide (a ∈ refs sl)
      then (set_slice d n {| refs := refs sl ∪ {[b]}; pending := pending sl |}, answer true "")
      else (d, answer false "")
  | RemovingImage ref =>
      if decide (ref ∈ refs sl)
      then (set_slice d n {| refs := refs sl ∖ {[ref]}; pending := true |}, answer true "")
      else (d, answer true "")
  | RemovingNamespace =>
      if decide (refs sl = ∅) then
        if pending sl then (d, answer false "")
        else ({| up := up d; store := delete n (store d) |}, answer true "")
      else (d, answer false "")
  | Other => (d, answer true "")
  end.

#[export] Instance memory_daemon : Containerd memory := {|
  ctr_run d argv :=
    if up d then
      match namespace_of (tail argv) with
      | Some n => serve d n (parse (tail argv))
      | None => (d, answer false "")
      end
    else (d, answer false "");
  drift d c :=
    if decide (c = 0) then {| up := up d; store := (fun sl => {| refs := refs sl; pending := false |}) <$> store d |}
    else {| up := negb (up d); store := store d |};
  images d n := refs (slice_at d n);
  namespaces d := dom (store d);
  busy d n := pending (slice_at d n);
  responsive := up;
|}.

Lemma slice_at_set d n n' sl : slice_at (set_slice d n sl) n' = if decide (n' = n) then sl else slice_at d n'.
Proof.
  unfold slice_at, set_slice. simpl. destruct (decide (n' = n)) as [->|Hne].
  - by rewrite lookup_insert_eq.
  - by rewrite lookup_insert_ne.
Qed.

Lemma str_split_table line rows :
  Forall (fun s => lacks newline s = true) (line :: rows) -> str_split newline (table line rows) = line :: rows.
Proof.
  revert line. induction rows as [|row rows IH]; intros line [Hl Hr]%Forall_cons; simpl.
  - by apply str_split_lacks.
  - rewrite str_split_app by done. by rewrite IH.
Qed.

Lemma memory_succeeds (d : memory) args ok :
  (ctr_run d ("ctr" :: args)).2 = answer ok "" -> succeeds d args = ok.
Proof.
  intros Ha. unfold succeeds, ctr_ok, cmd. rewrite map_map, map_id. simpl map.
  rewrite Ha. by destruct ok.
Qed.

Lemma memory_down (d : memory) args : up d = false -> succeeds d args = false /\ ctr_next d args = d.
Proof.
  intros Hup. split; [apply memory_succeeds|unfold ctr_next]; simpl; by rewrite Hup.
Qed.

(** What a command in a namespace does. *)
Lemma memory_serves (d : memory) args n :
  up d = true -> namespace_of args = Some n -> ctr_run d ("ctr" :: args) = serve d n (parse args).
Proof. intros Hup Hn. simpl. by rewrite Hup, Hn. Qed.

Lemma memory_next (d : memory) args n :
  namespace_of args = Some n ->
  ctr_next d args = if up d then (serve d n (parse args)).1 else d.
Proof.
  intros Hn. unfold ctr_next. destruct (up d) eqn:Hup; [by rewrite (memory_serves _ _ n)|by apply memory_down].
Qed.

Lemma memory_ok (d : memory) args n ok :
  namespace_of args = Some n -> (serve d n (parse args)).2 = answer ok "" ->
  succeeds d args = up d && ok.
Proof.
  intros Hn Hs. destruct (up d) eqn:Hup; [|by apply memory_down].
  apply memory_succeeds. by rewrite (memory_serves _ _ n).
Qed.

(** The rows of the table. *)
Lemma memory_rows (d : memory) ns out :
  ctr_ok d (ls_args ns) = Some out ->
  str_split newline out = "REF TYPE DIGEST LABELS" :: map row_of (elements (refs (slice_at d ns))) /\
  forall ref, ref ∈ refs (slice_at d ns) -> str_split " " (row_of ref) = [ref; "type"; "sha256:76a5"; "-"].
Proof.
  unfold ctr_ok, cmd. destruct (exec _ _ _) as [[o|]|] eqn:Ex; intros [= <-].
  apply exec_Ok in Ex as (taken & o' & Hrun & _ & Hok & _ & ->).
  destruct (up d) eqn:Hup; [|simpl in Hrun; rewrite Hup in Hrun; injection Hrun as _ <-; done].
  change ("ctr" :: map raw (map plain (ls_args ns))) with ("ctr" :: ls_args ns) in Hrun.
  rewrite (memory_serves _ _ ns) in Hrun by done. simpl in Hrun. injection Hrun as <- <-. simpl in *.
  apply andb_true_iff in Hok as [Hcl Htr]. apply String.eqb_eq in Htr. rewrite Htr.
  rewrite forallb_forall in Hcl.
  assert (Hc : forall ref, ref ∈ refs (slice_at d ns) -> lacks newline ref = true /\ lacks " " ref = true).
  { intros ref Href. apply andb_true_iff, Hcl, list_elem_of_In. by apply elem_of_elements. }
  split.
  - apply str_split_table. constructor; [done|]. apply Forall_map, Forall_forall. intros ref Href%elem_of_elements%Hc.
    unfold row_of. rewrite lacks_app. simpl. by rewrite (proj1 Href).
  - intros ref Href%Hc. unfold row_of. by rewrite str_split_app by apply Href.
Qed.

Lemma memory_ls (d : memory) ns out :
  ctr_ok d (ls_args ns) = Some out ->
  exists header rows, str_split newline out = header :: rows /\
    forall ref, ref ∈ images d ns <-> exists row, row ∈ rows /\ head (str_split " " row) = Some ref.
Proof.
  intros [Hs Hrow]%memory_rows. eexists _, _. split; [exact Hs|]. intros ref. split.
  - intros Href. exists (row_of ref). split; [|by rewrite Hrow].
    apply list_elem_of_In, in_map, list_elem_of_In. by apply elem_of_elements.
  - intros (row & Hin%list_elem_of_In & Hh). apply in_map_iff in Hin as (ref' & <- & Hin%list_elem_of_In%elem_of_elements).
    rewrite Hrow in Hh by done. by injection Hh as <-.
Qed.

Lemma memory_frame (d : memory) r n n' :
  n <> n' -> slice_at (serve d n' r).1 n = slice_at d n /\ (n ∈ dom (store (serve d n' r).1) -> n ∈ dom (store d)).
Proof.
  intros Hne. assert (Hset : forall sl, slice_at (set_slice d n' sl) n = slice_at d n /\
    (n ∈ dom (store (set_slice d n' sl)) -> n ∈ dom (store d))).
  { intros sl. rewrite slice_at_set, decide_False by done. split; [done|]. simpl. set_solver. }
  destruct r; simpl; repeat case_match; simpl; try done; try apply Hset.
  unfold slice_at. simpl. rewrite lookup_delete_ne by done. split; [done|set_solver].
Qed.

#[export] Instance memory_laws : ContainerdLaws memory.
Proof.
  split.
  - apply memory_ls.
  - intros d ns. rewrite (memory_next _ _ ns) by done. by destruct (up d).
  - intros d ns a b. rewrite (memory_next _ _ ns) by done. simpl. destruct (up d); [|set_solver].
    case_decide; [|set_solver]. simpl. by rewrite slice_at_set, decide_True.
  - intros d ns a b. rewrite (memory_next _ _ ns) by done. simpl. destruct (up d); [|done]. by case_decide.
  - intros d ns a b taken err. simpl. destruct (up d); [|done]. by case_decide.
  - intros d ns a b taken out. simpl. destruct (up d); [case_decide|]; by intros [= _ <-].
  - intros d ns rest. rewrite (memory_next _ _ ns) by done. destruct (up d); [|done].
    by destruct rest as [|a [|b [|c rest]]].
  - intros d ns ref. rewrite (memory_next _ _ ns) by done. simpl. destruct (up d); [|done].
    case_decide; [|done]. simpl. rewrite slice_at_set, decide_True by done. set_solver.
  - intros d ns ref. rewrite (memory_next _ _ ns) by done. destruct (up d) eqn:Hup; simpl.
    + case_decide; [|done]. simpl. rewrite slice_at_set, decide_True by done. set_solver.
    + by rewrite (proj1 (memory_down d _ Hup)).
  - intros d ns ref Hup. rewrite (memory_ok _ _ ns true); [by rewrite andb_true_r|done|]. simpl. by case_decide.
  - intros d ns ref. rewrite (memory_next _ _ ns) by done. simpl. destruct (up d); [|done].
    case_decide as Hin; [|done]. simpl. rewrite dom_insert. unfold slice_at in Hin.
    destruct (store d !! ns) as [sl|] eqn:Es; [|set_solver]. apply elem_of_dom_2 in Es. set_solver.
  - intros d ns Hok. destruct (up d) eqn:Hup; [|by rewrite (proj1 (memory_down d _ Hup)) in Hok].
    rewrite (memory_next _ _ ns), Hup by done. simpl. revert Hok. unfold succeeds, ctr_ok, cmd. simpl. rewrite Hup.
    case_decide as Hemp; [|done]. destruct (pending (slice_at d ns)); [done|]. intros _. split; [done|]. simpl.
    set_solver.
  - intros d ns. rewrite (memory_next _ _ ns) by done. simpl. destruct (up d); [|done]. case_decide as Hemp; [|done].
    destruct (pending (slice_at d ns)); [done|]. unfold slice_at at 1. simpl. by rewrite lookup_delete_eq.
  - intros d ns Hup Hemp Hb. rewrite (memory_ok _ _ ns true); [by rewrite andb_true_r|done|].
    simpl in *. by rewrite decide_True, Hb by done.
  - intros d ns. rewrite (memory_next _ _ ns) by done. simpl. destruct (up d); [|done]. case_decide; [|done].
    destruct (pending (slice_at d ns)); [done|]. simpl. set_solver.
  - intros d args n n' Hn Hne. rewrite (memory_next _ _ n') by done. destruct (up d); [|done].
    destruct (memory_frame d (parse args) n n' Hne) as [Hs Hd]. simpl. by rewrite Hs.
  - intros d c n. simpl. case_decide; [|done]. simpl. split; [|by rewrite dom_fmap_L].
    unfold slice_at. simpl. rewrite lookup_fmap. by destruct (store d !! n).
Qed.

(** ** Witnesses *)

Definition empty_daemon : memory := {| up := true; store := ∅ |}.

(** The system answers the workflow as the daemon does after its commands. *)
Definition replay (d : memory) (log : list event) : memory :=
  fold_left (fun d e => match e with
    | Ran argv => if decide (head argv = Some "ctr") then ctr_next d (tail argv) else d
    | _ => d
    end) log d.
Definition memory_os (log : list event) (argv : list string) : child :=
  (ctr_run (replay empty_daemon log) argv).2.

Definition example_import (path : string) :=
  containerd_import memory_os (fun _ => None) dyn_display hex_simple no_unicode 1 2 97 (Some path) [].
Definition example_ns : string := uuid hex_simple 1.

(** The installation, and then both removals of images, which leave deletions
    under way; then the daemon finishes them. *)
Definition example_moves : list move :=
  map (fun e => Workflow e 0) (example_import "/tmp/upload").2 ++ [Attempt 1 1; Attempt 0 2; Attempt 2 3; Drift 0].

Fixpoint sys_all (ns : string) (s : system memory) (ms : list move) : option (system memory) :=
  match ms with
  | [] => Some s
  | m :: ms => match sys_move (B := simple_backoff) ns s m with Some s => sys_all ns s ms | None => None end
  end.

Fixpoint all_answered (ns : string) (s : system memory) (ms : list move) : Prop :=
  match ms with
  | [] => True
  | m :: ms => answered memory_os s m /\
      match sys_move (B := simple_backoff) ns s m with Some s => all_answered ns s ms | None => True end
  end.

Lemma sys_all_runs ns s ms s' :
  sys_all ns s ms = Some s' -> all_answered ns s ms -> runs (B := simple_backoff) ns memory_os s ms s'.
Proof.
  revert s. induction ms as [|m ms IH]; intros s; simpl; [intros [= <-] _; constructor|].
  intros Hs [Ha Hr]. destruct (sys_move ns s m) as [s1|] eqn:Em; [|done].
  by eapply runs_cons; [..|apply IH].
Qed.

Definition final (ms : list move) : system memory :=
  match sys_all example_ns (sys_start empty_daemon) ms with Some s => s | None => sys_start empty_daemon end.

Lemma installation_leaves_nothing_witness :
  exists s' t', sys_move (B := simple_backoff) example_ns (final example_moves) (Attempt 2 4) = Some s' /\
    tasks s' !! 2%nat = Some t' /\ status simple_backoff t' = Removed.
Proof.
  edestruct (installation_leaves_nothing (B := simple_backoff) memory_os (fun _ => None) dyn_display hex_simple
    no_unicode 1 2 97 (Some "/tmp/upload") (example_import "/tmp/upload").1 (example_import "/tmp/upload").2)
    with (d := empty_daemon) (s := final example_moves) (ms := example_moves) as (_ & Hnext & _);
    [vm_compute; reflexivity..|apply sys_all_runs; vm_compute; repeat split; reflexivity|vm_compute; reflexivity|].
  edestruct (Hnext 2%nat) as (s' & t' & Hm & Ht & _ & Hr);
    [vm_compute; reflexivity|vm_compute; reflexivity|vm_compute; reflexivity| |exists s', t'; eauto].
  intros _. split; [vm_compute; reflexivity|]. intros t' Hin Hne. apply list_elem_of_In in Hin.
  vm_compute in Hin, Hne. destruct Hin as [<-|[<-|[<-|[]]]]; [reflexivity|reflexivity|destruct Hne; reflexivity].
Defined.

(** The archive with two images. *)
Definition unread_moves : list move := map (fun e => Workflow e 0) (example_import "/tmp/two").2.

Lemma unread_upload_stays_witness :
  let s := final unread_moves in
  let s' := final (unread_moves ++ [Attempt 0 1; Drift 0; Attempt 0 2]) in
  images (daemon s') example_ns = images (daemon s) example_ns /\
  Forall (fun t => status simple_backoff t <> Removed) (tasks s').
Proof.
  intros s s'. refine (unread_upload_stays (B := simple_backoff) memory_os (fun _ => None) dyn_display hex_simple
    no_unicode 1 2 97 (Some "/tmp/two") (example_import "/tmp/two").1 (example_import "/tmp/two").2 empty_daemon
    unread_moves [Attempt 0 1; Drift 0; Attempt 0 2] s s' _ _ _ _ _ _ _).
  - vm_compute. reflexivity.
  - intros i. vm_compute. discriminate.
  - apply sys_all_runs; vm_compute; repeat split; reflexivity.
  - vm_compute. reflexivity.
  - vm_compute. discriminate.
  - apply sys_all_runs; vm_compute; repeat split; reflexivity.
  - vm_compute. reflexivity.
Defined.
