(* ===== verification/EndToEnd.v ===== *)
(** * From an installation to a deployment

    The two services meet in the registry: the AIM pushes an image under a
    reference that it makes from its environment and the new tag, and the ACM
    deploys the reference that it makes from its own environment and the tag that
    the client passes on. *)

From S2P Require Import Prelude RustStr Json Errors Names Pod Kube Backoff GarbageCollector Acm Process AimEnv Containerd.

(** The image that Kubernetes is asked to run. *)
Definition document_image (doc : json) : option json :=
  match json_get "spec" doc ≫= json_get "containers" with
  | Some (JArr (c :: _)) => json_get "image" c
  | _ => None
  end.

Section EndToEnd.
Context (os : list event -> list string -> child).
Context (var : environment) (debug : dyn_AcmError -> string).
Context (simple : Z -> string) (ua : Z -> bool).

(** A push that succeeds has run the command that pushes. *)
Lemma push_ran i log img log' :
  push os var debug i log = (Done (Ok img), log') ->
  exists how, Ran ("ctr" :: map raw (push_command i how)) ∈ log'.
Proof.
  unfold push, owning. match goal with |- (let '(_, _) := ?m log in _) = _ -> _ => set (body := m) end.
  destruct (body log) as [r log1] eqn:E. intros [= -> <-]. unfold body in E. clear body.
  apply bind_Ok in E as (impl & l1 & _ & E). apply bind_Ok in E as (u & l2 & Hp & E). injection E as _ <-.
  destruct impl; unfold push_to_ecr, push_to_minikube in Hp.
  - apply bind_Ok in Hp as (up & l3 & _ & Hp). cbn zeta in Hp.
    apply bind_Ok in Hp as (o & l4 & [_ ->]%run_cmd_inv & Hp). injection Hp as _ <-.
    exists [plain "-u"; secret_arg (Secret_from (up.1 +:+ ":" +:+ raw_secret up.2))]. set_solver.
  - apply bind_Ok in Hp as (o & l4 & [_ ->]%run_cmd_inv & Hp). injection Hp as _ <-.
    exists [plain "--plain-http"]. set_solver.
Qed.

(** C11: an image that was installed can be deployed by its tag: for the tag in
    the answer of an installation, the reference that the ACM asks Kubernetes to
    run is the one under which the AIM has pushed the image, when both see the
    same variables and [REGISTRY] is one of them; when it is not, the two
    services fall back to different registries. *)
Theorem installed_image_is_deployed (ns_random random letter : Z) (tmp : option string) (img : Image)
  (log : list event) (name : string)
  (Hrun : containerd_import os var debug simple ua ns_random random letter tmp [] = (Done (Ok img), log)) :
  exists pushed how,
    Ran (["ctr"; "-n"; uuid simple ns_random; "images"; "push"] ++ map raw how ++ [pushed]) ∈ log /\
    (document_image (pod_document name (image_reference (var "REGISTRY") (var "REPOSITORY") (tag img))) =
       Some (JStr pushed) <-> is_Some (var "REGISTRY")).
Proof.
  apply import_all_inv in Hrun as (l & -> & Hb). apply bind_Ok in Hb as (i & log1 & Hi & Hb).
  apply import_Ok in Hi as [Hns _]. apply bind_Ok in Hb as (j & log2 & Hr & Hp).
  apply retag_inv in Hr as (l1 & _ & Hj). destruct (Hj j eq_refl) as (Hn & _ & Href & _ & _).
  destruct (push_ran _ _ _ _ Hp) as [how Hin]. apply push_inv in Hp as (_ & _ & _ & Himg).
  rewrite (Himg _ eq_refl). simpl tag. exists (tmp_reference j), how. split.
  - unfold push_command in Hin. rewrite !map_app, Hn, Hns in Hin. set_solver.
  - simpl. rewrite Href. unfold image_reference, new_reference, registry, repository.
    destruct (var "REGISTRY") as [r|]; simpl; split; [by eauto|done|done|by intros []].
Qed.
End EndToEnd.

(** ** Witness *)

Lemma installed_image_is_deployed_witness :
  exists pushed how img log,
    containerd_import (ctr_system example_table) (fun _ => Some "minikube") dyn_display hex_simple no_unicode 1 2 97
      (Some "/tmp/upload") [] = (Done (Ok img), log) /\
    Ran (["ctr"; "-n"; uuid hex_simple 1; "images"; "push"] ++ map raw how ++ [pushed]) ∈ log /\
    document_image (pod_document "oracle" (image_reference (Some "minikube") (Some "minikube") (tag img))) =
      Some (JStr pushed).
Proof.
  edestruct (installed_image_is_deployed (ctr_system example_table) (fun _ => Some "minikube") dyn_display hex_simple
    no_unicode 1 2 97 (Some "/tmp/upload")) with (name := "oracle") as (pushed & how & Hin & Hiff);
    [vm_compute; reflexivity|].
  exists pushed, how. eexists _, _. split; [vm_compute; reflexivity|]. split; [exact Hin|].
  apply Hiff. eexists. reflexivity.
Defined.
