(* ===== verification/Registry.v ===== *)
(** * The image registry

    [service/aim/src/registry/mod.rs], [registry/ecr/mod.rs],
    [registry/minikube/mod.rs] and the handlers of [service/aim/src/main.rs].

    Parameters: the operating system that runs the AWS tool, the parser of JSON
    texts, the HTTP client, SHA-256. *)

From S2P Require Import Prelude RustStr Json Errors Names Backoff Process AimEnv Containerd.

(** ** ECR: data and errors *)

Record EcrImage := { image_digest : string; image_tag : string }.
Record EcrListImages := { listed_ids : list EcrImage }.
Record EcrFailedImageUninstall := { failed_tag : string }.
Record EcrUninstallFailure := { image_id : EcrFailedImageUninstall; failure_code : string; failure_reason : string }.
Record EcrUninstall := { image_ids : list EcrImage; failures : list EcrUninstallFailure }.

#[export] Instance EcrImage_eq_dec : EqDecision EcrImage.
Proof. solve_decision. Defined.
#[export] Instance EcrListImages_eq_dec : EqDecision EcrListImages.
Proof. solve_decision. Defined.
#[export] Instance EcrFailedImageUninstall_eq_dec : EqDecision EcrFailedImageUninstall.
Proof. solve_decision. Defined.
#[export] Instance EcrUninstallFailure_eq_dec : EqDecision EcrUninstallFailure.
Proof. solve_decision. Defined.
#[export] Instance EcrUninstall_eq_dec : EqDecision EcrUninstall.
Proof. solve_decision. Defined.

(** *** [#[derive(Deserialize)]]: from an object, by the names and aliases of the
    fields, or from the array of the fields *)

#[export] Instance EcrImage_Deserialize : Deserialize EcrImage := fun j =>
  match j with
  | JObj l =>
      let? s := visit_map (fun s k v =>
        if keyed k "image_digest" "imageDigest" then
          let? x := read_field "image_digest" s.1 v in Ok (x, s.2)
        else if keyed k "image_tag" "imageTag" then
          let? x := read_field "image_tag" s.2 v in Ok (s.1, x)
        else Ok s) (None, None) l in
      let? d := required "image_digest" s.1 in
      let? t := required "image_tag" s.2 in
      Ok {| image_digest := d; image_tag := t |}
  | JArr [d; t] =>
      let? d := deserialize d in
      let? t := deserialize t in
      Ok {| image_digest := d; image_tag := t |}
  | JArr _ => Err InvalidLength
  | _ => Err InvalidType
  end.

#[export] Instance EcrListImages_Deserialize : Deserialize EcrListImages := fun j =>
  match j with
  | JObj l =>
      let? s := visit_map (fun s k v =>
        if keyed k "image_ids" "imageIds" then read_field "image_ids" s v else Ok s) None l in
      let? ids := required "image_ids" s in
      Ok {| listed_ids := ids |}
  | JArr [ids] => let? ids := deserialize ids in Ok {| listed_ids := ids |}
  | JArr _ => Err InvalidLength
  | _ => Err InvalidType
  end.

#[export] Instance EcrFailedImageUninstall_Deserialize : Deserialize EcrFailedImageUninstall := fun j =>
  match j with
  | JObj l =>
      let? s := visit_map (fun s k v =>
        if keyed k "image_tag" "imageTag" then read_field "image_tag" s v else Ok s) None l in
      let? t := required "image_tag" s in
      Ok {| failed_tag := t |}
  | JArr [t] => let? t := deserialize t in Ok {| failed_tag := t |}
  | JArr _ => Err InvalidLength
  | _ => Err InvalidType
  end.

#[export] Instance EcrUninstallFailure_Deserialize : Deserialize EcrUninstallFailure := fun j =>
  match j with
  | JObj l =>
      let? s := visit_map (fun s k v =>
        if keyed k "image_id" "imageId" then
          let? x := read_field "image_id" s.1.1 v in Ok (x, s.1.2, s.2)
        else if keyed k "failure_code" "failureCode" then
          let? x := read_field "failure_code" s.1.2 v in Ok (s.1.1, x, s.2)
        else if keyed k "failure_reason" "failureReason" then
          let? x := read_field "failure_reason" s.2 v in Ok (s.1, x)
        else Ok s) (None, None, None) l in
      let? i := required "image_id" s.1.1 in
      let? c := required "failure_code" s.1.2 in
      let? r := required "failure_reason" s.2 in
      Ok {| image_id := i; failure_code := c; failure_reason := r |}
  | JArr [i; c; r] =>
      let? i := deserialize i in
      let? c := deserialize c in
      let? r := deserialize r in
      Ok {| image_id := i; failure_code := c; failure_reason := r |}
  | JArr _ => Err InvalidLength
  | _ => Err InvalidType
  end.

#[export] Instance EcrUninstall_Deserialize : Deserialize EcrUninstall := fun j =>
  match j with
  | JObj l =>
      let? s := visit_map (fun s k v =>
        if keyed k "image_ids" "imageIds" then
          let? x := read_field "image_ids" s.1 v in Ok (x, s.2)
        else if keyed k "failures" "failures" then
          let? x := read_field "failures" s.2 v in Ok (s.1, x)
        else Ok s) (None, None) l in
      let? i := required "image_ids" s.1 in
      let? f := required "failures" s.2 in
      Ok {| image_ids := i; failures := f |}
  | JArr [i; f] =>
      let? i := deserialize i in
      let? f := deserialize f in
      Ok {| image_ids := i; failures := f |}
  | JArr _ => Err InvalidLength
  | _ => Err InvalidType
  end.

(** [ListTags] of [minikube/mod.rs]. *)
Record ListTags := { list_name : string; tags : list string }.

#[export] Instance ListTags_Deserialize : Deserialize ListTags := fun j =>
  match j with
  | JObj l =>
      let? s := visit_map (fun s k v =>
        if keyed k "name" "name" then
          let? x := read_field "name" s.1 v in Ok (x, s.2)
        else if keyed k "tags" "tags" then
          let? x := read_field "tags" s.2 v in Ok (s.1, x)
        else Ok s) (None, None) l in
      let? n := required "name" s.1 in
      let? t := required "tags" s.2 in
      Ok {| list_name := n; tags := t |}
  | JArr [n; t] =>
      let? n := deserialize n in
      let? t := deserialize t in
      Ok {| list_name := n; tags := t |}
  | JArr _ => Err InvalidLength
  | _ => Err InvalidType
  end.

Definition Image_from_ecr (i : EcrImage) : Image := {| tag := image_tag i; digest := image_digest i |}.

(** [Display] of an [EcrImage]. *)
Definition EcrImage_display (var : environment) (i : EcrImage) : string :=
  registry var +:+ "/" +:+ repository var +:+ ":" +:+ image_tag i +:+ ", " +:+ image_digest i.

Definition EcrUninstallFailure_display (f : EcrUninstallFailure) : string :=
  "ECR reported the failure code '" +:+ failure_code f +:+ "' when attempting to uninstall '" +:+
  failed_tag (image_id f) +:+ "'. The given reason was '" +:+ failure_reason f +:+ "'.".

Inductive RegistryError :=
| EcrUninstallSerdeError (error : string)
| EcrImageSerdeError (error : string)
| EcrUninstallError (cause : EcrUninstallFailure)
| UninstallCommandError (error : StringError)
| ImageDeleteError (status : Z) (shown : string)
| TagNotFound (tag registry : string).

#[export] Instance RegistryError_AcmError : AcmError RegistryError := {|
  acm_error := {|
    display e := match e with
      | EcrUninstallSerdeError _ =>
          "A failure occurred while deserializing the JSON representation for the response returned by AWS ECR's deletion endpoint. We expected a data structure similar to that documented in https://awscli.amazonaws.com/v2/documentation/api/latest/reference/ecr/batch-delete-image.html"
      | EcrImageSerdeError _ =>
          "A failure occurred while deserializing the JSON representation for the response returned by AWS ECR's list-images endpoint. We expected a data structure similar to that documented in https://awscli.amazonaws.com/v2/documentation/api/latest/reference/ecr/list-images.html"
      | EcrUninstallError _ =>
          "A failure occurred while attempting to complete the deletion in the Elastic Container Registry. If this is a networking failure, then perhaps reattempting at a later time may succeed."
      | UninstallCommandError _ =>
          "A raw error was returned from the AWS Elastic Container Registry API. This is usually indicative of an extreme failure case, such as a missing repository or expired/incorrect credentials. Do note, however, that ECR does make some interesting policy decisions with regard to what this error string is actually reporting. For example, a non-existent repository may actually be reported as an authorization error."
      | ImageDeleteError _ shown => "Received status code " +:+ shown +:+ " from the registry"
      | TagNotFound t r => "The OCF image tag '" +:+ t +:+ "' does not exist in " +:+ r
      end;
    source e := match e with
      | EcrUninstallSerdeError s | EcrImageSerdeError s => Some s
      | EcrUninstallError f => Some (EcrUninstallFailure_display f)
      | UninstallCommandError s => Some (display s)
      | ImageDeleteError _ _ | TagNotFound _ _ => None
      end |};
  acm_code e := match e with
    | EcrUninstallError _ => Status.BadRequest
    | ImageDeleteError _ _ => Status.ServiceUnavailable
    | TagNotFound _ _ => Status.NotFound
    | _ => Status.InternalServerError
    end;
  acm_kind e := match e with
    | EcrUninstallSerdeError _ => "EcrUninstallSerdeError"
    | EcrImageSerdeError _ => "EcrImageSerdeError"
    | EcrUninstallError _ => "EcrUninstallError"
    | UninstallCommandError _ => "UninstallCommandError"
    | ImageDeleteError _ _ => "ImageDeleteError"
    | TagNotFound _ _ => "TagNotFound"
    end;
|}.

(** ** HTTP *)

(** A response: its status, as a number and as it is displayed; the body may
    fail to arrive. *)
Record response := { http_status : Z; status_text : string; body : option string }.

Class Http := {
  (** [Url::from_str]. *)
  url_ok : string -> bool;
  (** The answer to a request, after what was done; [None] when the request
      cannot be sent. *)
  http_answer : list event -> Request -> option response;
}.

Definition unwrap_msg : string := "called `Result::unwrap()` on an `Err` value".

Definition checked_url (url : string) `{Http} : run string :=
  if url_ok url then Done url else Panic unwrap_msg.

Section Registry.
Context (os : list event -> list string -> child).
Context (var : environment).
Context (debug : dyn_AcmError -> string).
Context (simple : Z -> string) (ua : Z -> bool).
(** The parser of JSON texts, and the text of an error of [serde_json]. *)
Context (parse_json : string -> result json string) (render : string -> de_error -> string).
Context `{Http}.
(** The digest in hexadecimal. *)
Context (sha256 : string -> string).

(** *** [ecr/mod.rs] *)

(** The verdict on the answer of [batch-delete-image]. *)
Definition uninstall_verdict (r : EcrUninstall) : Result unit :=
  match failures r with
  | failure :: _ =>
      if String.eqb (failure_code failure) "ImageNotFound" then Ok tt
      else Err (into_box (EcrUninstallError failure))
  | [] => Ok tt
  end.

Definition ecr_uninstall (t : string) : step unit := fun log =>
  let target := "imageTag=" +:+ t in
  match ecr os [plain "batch-delete-image"; plain "--repository-name"; plain (repository var);
                plain "--image-ids"; plain target] log with
  | (Panic m, log) => (Panic m, log)
  | (Done r, log) =>
      (Done (
        let? out := map_err (fun e => into_box (UninstallCommandError (mk_StringError (dyn_display e)))) r in
        let? result := map_err (fun e => into_box (EcrUninstallSerdeError e)) (from_str parse_json render out) in
        uninstall_verdict result), log)
  end.

Definition ecr_list : step (list Image) :=
  let* out := ecr os [plain "list-images"; plain "--no-paginate"; plain "--repository-name";
                      plain (repository var)] in
  let* images := lift (Done (map_err (fun e => into_box (EcrImageSerdeError e)) (from_str parse_json render out))) in
  ret (map Image_from_ecr (listed_ids images)).

Definition find_tag (t : string) (images : list Image) : option Image :=
  List.find (fun image => String.eqb (tag image) t) images.

Definition ecr_get (t : string) : step (option Image) :=
  let* images := ecr_list in
  ret (find_tag t images).

(** *** [minikube/mod.rs] *)

Definition manifest_url (reference : string) : string :=
  "http://" +:+ registry var +:+ "/v2/" +:+ repository var +:+ "/manifests/" +:+ reference.
Definition tags_url : string :=
  "http://" +:+ registry var +:+ "/v2/" +:+ repository var +:+ "/tags/list".

(** [client.get(url)] or [client.delete(url)], with its headers, [.send().await.unwrap()]. *)
Definition send (q : Request) : step response := fun log =>
  (let! r := unwrap (http_answer log q) unwrap_msg in Done (Ok r), log ++ [Sent q]).
Definition read (r : response) : run string := unwrap (body r) unwrap_msg.
Definition sha256_digest (bytes : string) : string := "sha256:" +:+ sha256 bytes.

Definition NOT_FOUND : Z := 404.
Definition ACCEPTED : Z := 202.

Definition manifest_type : string := "application/vnd.docker.distribution.manifest.v2+json".
Definition manifest_request (url : string) : Request :=
  {| sent_verb := GET; sent_url := url; sent_accept := Some manifest_type |}.
Definition tags_request (url : string) : Request :=
  {| sent_verb := GET; sent_url := url; sent_accept := None |}.
Definition delete_request (url : string) : Request :=
  {| sent_verb := DELETE; sent_url := url; sent_accept := None |}.

(** The loop of [list]: the status of a manifest is not looked at. *)
Fixpoint list_manifests (tags : list string) : step (list Image) :=
  match tags with
  | [] => ret []
  | t :: rest =>
      let* url := guard (checked_url (manifest_url t)) in
      let* response := send (manifest_request url) in
      let* bytes := guard (read response) in
      let* images := list_manifests rest in
      ret ({| tag := t; digest := sha256_digest bytes |} :: images)
  end.

Definition minikube_list : step (list Image) :=
  let* url := guard (checked_url tags_url) in
  let* response := send (tags_request url) in
  if http_status response =? NOT_FOUND then ret []
  else
    let* text := guard (read response) in
    let* list := guard (unwrap_result (from_str (T := ListTags) parse_json render text) unwrap_msg) in
    list_manifests (tags list).

Definition minikube_get (t : string) : step (option Image) :=
  let* url := guard (checked_url (manifest_url t)) in
  let* response := send (manifest_request url) in
  if http_status response =? NOT_FOUND then ret None
  else
    let* bytes := guard (read response) in
    ret (Some {| tag := t; digest := sha256_digest bytes |}).

Definition minikube_uninstall (t : string) : step unit :=
  let* images := minikube_list in
  match find_tag t images with
  | None => ret tt
  | Some image =>
      let* url := guard (checked_url (manifest_url (digest image))) in
      let* response := send (delete_request url) in
      if (http_status response =? ACCEPTED) || (http_status response =? NOT_FOUND) then ret tt
      else lift (Done (Err (into_box (ImageDeleteError (http_status response) (status_text response)))))
  end.

(** *** [registry/mod.rs] *)

(** [aws!(..).await.unwrap()]. *)
Definition aws_unwrap (args : list arg) : step string := fun log =>
  match aws os args log with
  | (Done (Err e), log) => (Panic (debug e), log)
  | r => r
  end.

(** The closure of [configure]. *)
Definition configure_body : step unit :=
  let* impl := guard (which var) in
  match impl with
  | Minikube => ret tt
  | Ecr =>
      let* key_id := guard (aws_access_key_id var) in
      let* access_key := guard (aws_secret_access_key var) in
      let* region := guard (aws_region var) in
      let* _ := guard (aws_username var) in
      let* _ := aws_unwrap [plain "configure"; plain "set"; plain "aws_access_key_id"; plain key_id] in
      let* _ := aws_unwrap [plain "configure"; plain "set"; plain "aws_secret_access_key"; secret_arg access_key] in
      let* _ := aws_unwrap [plain "configure"; plain "set"; plain "region"; plain region] in
      ret tt
  end.

(** [std::sync::Once]: a closure that panics poisons it. *)
Inductive once := Fresh | Complete | Poisoned.

Definition call_once (body : step unit) (o : once) (log : list event) : run unit * once * list event :=
  match o with
  | Complete => (Done tt, Complete, log)
  | Poisoned => (Panic "Once instance has previously been poisoned", Poisoned, log)
  | Fresh =>
      match body log with
      | (Done _, log) => (Done tt, Complete, log)
      | (Panic m, log) => (Panic m, Poisoned, log)
      end
  end.

Definition configure (o : once) (log : list event) : run unit * once * list event :=
  call_once configure_body o log.

(** An entry point: [configure], then the step. *)
Definition configured {A} (m : step A) (o : once) (log : list event) : run (Result A) * once * list event :=
  match configure o log with
  | (Panic msg, o, log) => (Panic msg, o, log)
  | (Done _, o, log) => let '(r, log) := m log in (r, o, log)
  end.

(** The dispatch on the implementation. *)
Definition dispatch {A} (on_ecr on_minikube : step A) : step A :=
  let* impl := guard (which var) in
  match impl with Ecr => on_ecr | Minikube => on_minikube end.

Definition registry_import (ns_random random letter : Z) (tmp : option string) :=
  configured (containerd_import os var debug simple ua ns_random random letter tmp).
Definition registry_uninstall (t : string) :=
  configured (dispatch (ecr_uninstall t) (minikube_uninstall t)).
Definition registry_list :=
  configured (dispatch ecr_list minikube_list).
Definition registry_get (t : string) :=
  configured (
    let* image := dispatch (ecr_get t) (minikube_get t) in
    lift (Done (ok_or image (into_box (TagNotFound t (registry var +:+ "/" +:+ repository var)))))).

(** *** The handlers of [main.rs]: [Ok(registry::...await?.into())] *)
Definition handler {A} (r : run (Result A) * once * list event) : run (Result (Response A)) * once * list event :=
  let '(r, o, log) := r in
  (let!? a := r in Done (Ok (into_response a)), o, log).

Definition install ns_random random letter tmp o log := handler (registry_import ns_random random letter tmp o log).
Definition uninstall t o log := handler (registry_uninstall t o log).
Definition list_ o log := handler (registry_list o log).
Definition get_ t o log := handler (registry_get t o log).
End Registry.

(** ** Lemmas *)

(** The events that can change the tags of a registry. *)
Definition is_push (argv : list string) : bool :=
  match argv with
  | c :: n :: _ :: i :: p :: _ => (c =? "ctr")%string && (n =? "-n")%string && (i =? "images")%string && (p =? "push")%string
  | _ => false
  end.
Definition is_batch_delete (argv : list string) : bool :=
  match argv with
  | c :: e :: d :: _ => (c =? "aws")%string && (e =? "ecr")%string && (d =? "batch-delete-image")%string
  | _ => false
  end.
Definition touches_registry (e : event) : bool :=
  match e with
  | Ran argv => is_push argv || is_batch_delete argv
  | Sent q => match sent_verb q with GET => false | DELETE => true end
  | _ => false
  end.

Section RegistryLemmas.
Context (os : list event -> list string -> child) (var : environment) (debug : dyn_AcmError -> string).

(** [n] calls of [configure], one after the other. *)
Fixpoint configure_times (n : nat) (o : once) (log : list event) : list (run unit) * once * list event :=
  match n with
  | O => ([], o, log)
  | S n' =>
      let '(r, o, log) := configure os var debug o log in
      let '(rs, o, log) := configure_times n' o log in
      (r :: rs, o, log)
  end.

Lemma configure_settled n o log :
  o <> Fresh ->
  exists rs, configure_times n o log = (rs, o, log) /\ length rs = n /\
    Forall (fun r => match o with Complete => r = Done tt | _ => exists m, r = Panic m end) rs.
Proof.
  intros Ho. induction n as [|n (rs & IH & Hlen & Hrs)]; [by exists []|]. cbn [configure_times].
  unfold configure, call_once. destruct o; [done|..]; rewrite IH; eexists; (split; [done|]);
    (split; [simpl; congruence|]); constructor; eauto.
Qed.

Lemma aws_unwrap_ok args log out log' :
  aws_unwrap os debug args log = (Done (Ok out), log') ->
  log' = log ++ [Ran ("aws" :: map raw args)] /\ cmd (os log) None "aws" args = Done (Ok out).
Proof.
  unfold aws_unwrap, aws, run_cmd. destruct (cmd _ _ _ _) as [[s|e]|m]; intros [= <- <-]; done.
Qed.

(** The closure of [configure] has no error to return. *)
Lemma configure_body_no_error log e log' : configure_body os var debug log <> (Done (Err e), log').
Proof.
  unfold configure_body. intros Hb.
  assert (Hg : forall A (r : run A) log e log', guard r log <> (Done (Err e), log'))
    by (intros A [a|m] ? ? ?; done).
  assert (Ha : forall args log e log', aws_unwrap os debug args log <> (Done (Err e), log'))
    by (intros args l ? ?; unfold aws_unwrap; destruct (aws os args l) as [[[|]|] ?]; done).
  repeat match goal with
  | H : bind _ _ _ = (Done (Err _), _) |- _ =>
      apply bind_inv in H as [(? & ? & ? & H)|[(? & H & ?)|(? & ? & ?)]]; [|by (exfalso; (eapply Hg; exact H) || (eapply Ha; exact H))|done]
  | H : (match ?i with _ => _ end) _ = _ |- _ => destruct i; try done
  end.
  all: discriminate Hb.
Qed.
End RegistryLemmas.

Section MinikubeLemmas.
Context (var : environment) `{Http} (sha256 : string -> string).

Lemma checked_Done url u : checked_url url = Done u -> u = url /\ url_ok url = true.
Proof. unfold checked_url. destruct (url_ok url); [|done]. by intros [= ->]. Qed.

Lemma send_Ok q log r log' :
  send q log = (Done (Ok r), log') -> http_answer log q = Some r /\ log' = log ++ [Sent q].
Proof. unfold send. destruct (http_answer log q); [|done]. by intros [= -> ->]. Qed.

Lemma read_Done r bytes : read r = Done bytes -> body r = Some bytes.
Proof. unfold read. destruct (body r); [|done]. by intros [= ->]. Qed.

(** Each image of a list is made from the answer to the request for its
    manifest, after some of the loop. *)
Definition asked (t : string) : event := Sent (manifest_request (manifest_url var t)).
Definition fetched (log : list event) (t : string) (image : Image) : Prop :=
  exists r bytes, url_ok (manifest_url var t) = true /\
    http_answer log (manifest_request (manifest_url var t)) = Some r /\ body r = Some bytes /\
    image = {| tag := t; digest := sha256_digest sha256 bytes |}.

Lemma list_manifests_Ok tags log images log' :
  list_manifests var sha256 tags log = (Done (Ok images), log') ->
  log' = log ++ map asked tags /\
  Forall2 (fun t image => exists before, before ++ [t] `prefix_of` tags /\
    fetched (log ++ map asked before) t image) tags images.
Proof.
  revert log images log'; induction tags as [|t tags IH]; intros log images log'; cbn [list_manifests].
  - intros [= <- <-]. by rewrite app_nil_r.
  - intros (u & l0 & [[-> Hu]%checked_Done ->]%guard_Ok & Hb)%bind_Ok.
    apply bind_Ok in Hb as (r & l1 & [Hr ->]%send_Ok & Hb).
    apply bind_Ok in Hb as (bytes & l2 & [Hbytes%read_Done ->]%guard_Ok & Hb).
    apply bind_Ok in Hb as (images' & l3 & [-> Hi]%IH & Hb). injection Hb as <- <-.
    split; [by rewrite <- app_assoc|]. constructor.
    + exists []. split; [by exists tags|]. exists r, bytes. simpl. by rewrite app_nil_r.
    + eapply Forall2_impl; [exact Hi|]. intros t' image (before & Hpf & Hf).
      exists (t :: before). split; [by apply prefix_cons|]. by rewrite <- app_assoc in Hf.
Qed.

(** A list that succeeds: the repository is not there, or its tags were listed
    and then read. *)
Lemma minikube_list_Ok parse_json render log images log' :
  minikube_list var parse_json render sha256 log = (Done (Ok images), log') ->
  exists r, http_answer log (tags_request (tags_url var)) = Some r /\
    ((http_status r = NOT_FOUND /\ images = [] /\ log' = log ++ [Sent (tags_request (tags_url var))]) \/
     exists text l, http_status r <> NOT_FOUND /\ body r = Some text /\ from_str parse_json render text = Ok l /\
       list_manifests var sha256 (tags l) (log ++ [Sent (tags_request (tags_url var))]) = (Done (Ok images), log')).
Proof.
  intros (u & l0 & [[-> Hu]%checked_Done ->]%guard_Ok & Hb)%bind_Ok.
  apply bind_Ok in Hb as (r & l1 & [Hr ->]%send_Ok & Hb). exists r. split; [done|].
  destruct (Z.eqb_spec (http_status r) NOT_FOUND); [injection Hb as <- <-; by left|right].
  apply bind_Ok in Hb as (text & l2 & [Ht%read_Done ->]%guard_Ok & Hb).
  apply bind_Ok in Hb as (l & l3 & [Hl ->]%guard_Ok & Hb). exists text, l. split_and!; [done|done| |done].
  unfold unwrap_result in Hl. by destruct (from_str _ _ text); simplify_eq.
Qed.

Lemma find_tag_Some t images image :
  find_tag t images = Some image -> tag image = t /\ image ∈ images.
Proof.
  intros [Hin Ht]%List.find_some. split; [by apply String.eqb_eq|]. by apply list_elem_of_In.
Qed.
End MinikubeLemmas.

(** ** Theorems *)

Section RegistryTheorems.
Context (os : list event -> list string -> child) (var : environment) (debug : dyn_AcmError -> string).

(** [configure] runs its body once: of any number of calls the first one
    runs the commands that the body runs, the others run none; they all return
    when the body returns, and they all panic when it panics. *)
Theorem configure_runs_once (n : nat) (log : list event) :
  let '(rs, o, log') := configure_times os var debug (S n) Fresh log in
  log' = (configure_body os var debug log).2 /\ length rs = S n /\
  match (configure_body os var debug log).1 with
  | Done _ => o = Complete /\ Forall (fun r => r = Done tt) rs
  | Panic _ => o = Poisoned /\ Forall (fun r => exists m, r = Panic m) rs
  end.
Proof.
  cbn [configure_times]. unfold configure at 1, call_once.
  destruct (configure_body os var debug log) as [[r|m] log1]; simpl.
  - destruct (configure_settled os var debug n Complete log1) as (rs & -> & <- & Hrs); [done|]. auto.
  - destruct (configure_settled os var debug n Poisoned log1) as (rs & -> & <- & Hrs); [done|].
    split_and!; auto. constructor; eauto.
Qed.

Context (parse_json : string -> result json string) (render : string -> de_error -> string).

(** Uninstalling from ECR asks for the deletion of exactly the given tag in
    the configured repository, succeeds when ECR reports no failure or reports
    that there is no such image, and otherwise reports the first failure, the
    error of the command, or that the answer could not be read. *)
Theorem ecr_uninstall_outcomes (t : string) (log : list event) (r : Result string)
  (Hcmd : cmd (os log) None "aws" (map plain ["ecr"; "batch-delete-image"; "--repository-name";
     repository var; "--image-ids"; "imageTag=" +:+ t]) = Done r) :
  ecr_uninstall os var parse_json render t log =
  (Done match r with
        | Err e => Err (into_box (UninstallCommandError (mk_StringError (dyn_display e))))
        | Ok out =>
            match from_str parse_json render out with
            | Err e => Err (into_box (EcrUninstallSerdeError e))
            | Ok result =>
                match head (failures result) with
                | None => Ok tt
                | Some f => if decide (failure_code f = "ImageNotFound") then Ok tt
                            else Err (into_box (EcrUninstallError f))
                end
            end
        end,
   log ++ [Ran ["aws"; "ecr"; "batch-delete-image"; "--repository-name"; repository var;
                "--image-ids"; "imageTag=" +:+ t]]).
Proof.
  unfold ecr_uninstall, ecr, run_cmd. simpl in Hcmd |- *. rewrite Hcmd.
  destruct r as [out|e]; [|done]. simpl. destruct (from_str parse_json render out) as [res|e]; [|done]. simpl.
  unfold uninstall_verdict. destruct (failures res) as [|f fs]; [done|]. simpl.
  destruct (String.eqb_spec (failure_code f) "ImageNotFound");
    [by rewrite decide_True|by rewrite decide_False].
Qed.

Context `{Http} (sha256 : string -> string).

(** [get] agrees with [list]: for ECR it returns the first image of the
    list with the tag, and an image that it returns has the tag that was asked
    for. *)
Theorem ecr_get_agrees (t : string) (log log' : list event) (images : list Image)
  (Hlist : ecr_list os var parse_json render log = (Done (Ok images), log')) :
  ecr_get os var parse_json render t log = (Done (Ok (find_tag t images)), log') /\
  match find_tag t images with
  | Some image => tag image = t /\ image ∈ images
  | None => t ∉ map tag images
  end.
Proof.
  split; [unfold ecr_get, bind; by rewrite Hlist|].
  destruct (find_tag t images) as [image|] eqn:Ef; [by apply find_tag_Some|].
  intros (image & Heq & Hin)%list_elem_of_In%in_map_iff.
  apply (List.find_none _ _ Ef) in Hin. by apply String.eqb_neq in Hin.
Qed.

(** On Minikube, [list] and [get] give the same digest for a tag that the
    registry still has, but [list] also reports tags that the registry does not
    have any more: their digest is that of the error page, and [get] in their
    place returns nothing. *)
Theorem minikube_list_vs_get (log log' : list event) (images : list Image) (image : Image)
  (Hlist : minikube_list var parse_json render sha256 log = (Done (Ok images), log')) (Hin : image ∈ images) :
  exists log1 r page, log1 `prefix_of` log' /\
    http_answer log1 (manifest_request (manifest_url var (tag image))) = Some r /\ body r = Some page /\
    digest image = sha256_digest sha256 page /\
    (minikube_get var sha256 (tag image) log1).1 =
      Done (Ok (if http_status r =? NOT_FOUND then None else Some image)).
Proof.
  apply minikube_list_Ok in Hlist as (r0 & _ & [(_ & -> & _)|(text & l & _ & _ & _ & Hl)]); [set_solver|].
  apply list_manifests_Ok in Hl as [-> Hl]. apply list_elem_of_lookup in Hin as [k Hk].
  destruct (Forall2_lookup_r _ _ _ _ _ Hl Hk) as (t & Ht & before & Hpf & r & page & Hu & Hg & Hb & ->). simpl.
  eexists _, r, page. split_and!; [|exact Hg|done|done|].
  { apply prefix_app. destruct Hpf as [after ->]. rewrite !map_app, <- app_assoc. by apply prefix_app_r. }
  unfold minikube_get, bind, guard, lift, checked_url, send, read. rewrite Hu. simpl. rewrite Hg. simpl.
  destruct (http_status r =? NOT_FOUND); [done|]. by rewrite Hb.
Qed.
End RegistryTheorems.

(** ** Witnesses *)

(** The answers of ECR in the unit tests, and a parser for each. *)
Definition failed_uninstall : json :=
  JObj [("imageIds", JArr []);
        ("failures", JArr [JObj [("imageId", JObj [("imageTag", JStr "precise")]);
                                 ("failureCode", JStr "ImageNotFound");
                                 ("failureReason", JStr "Requested image not found")]])].
Definition two_images : json :=
  JObj [("imageIds", JArr [JObj [("imageDigest", JStr "sha256:1"); ("imageTag", JStr "a")];
                           JObj [("imageTag", JStr "b"); ("imageDigest", JStr "sha256:2")]])].
Definition fixed_parse (j : json) (_ : string) : result json string := Ok j.
Definition no_render (_ : string) (_ : de_error) : string := "".

Lemma ecr_uninstall_outcomes_witness :
  ecr_uninstall refusing_system ecr_env (fixed_parse failed_uninstall) no_render "t" [] =
  (Done (Ok tt), [Ran ["aws"; "ecr"; "batch-delete-image"; "--repository-name"; "AWS"; "--image-ids"; "imageTag=t"]]).
Proof.
  apply (ecr_uninstall_outcomes refusing_system ecr_env (fixed_parse failed_uninstall) no_render "t" [] (Ok "hunter2")).
  vm_compute. reflexivity.
Defined.

Lemma ecr_get_agrees_witness :
  exists log', ecr_get refusing_system ecr_env (fixed_parse two_images) no_render "b" [] =
    (Done (Ok (Some {| tag := "b"; digest := "sha256:2" |})), log').
Proof.
  eexists. refine (proj1 (ecr_get_agrees refusing_system ecr_env (fixed_parse two_images) no_render "b" [] _
    [{| tag := "a"; digest := "sha256:1" |}; {| tag := "b"; digest := "sha256:2" |}] _)).
  vm_compute. reflexivity.
Defined.

(** A registry that lists a tag whose manifest is gone. *)
#[local] Instance ghost_http : Http := {|
  url_ok _ := true;
  http_answer _ q :=
    if decide (sent_url q = "http://registry.kube-system/v2/ocf/tags/list")
    then Some {| http_status := 200; status_text := "200 OK"; body := Some "tags" |}
    else Some {| http_status := 404; status_text := "404 Not Found"; body := Some "MANIFEST_UNKNOWN" |};
|}.

Definition ghost : Image := {| tag := "ghost"; digest := "sha256:MANIFEST_UNKNOWN" |}.

Definition ghost_tags : json := JObj [("name", JStr "ocf"); ("tags", JArr [JStr "ghost"])].

Definition ghost_log : list event :=
  [Sent (tags_request (tags_url (fun _ => None))); Sent (manifest_request (manifest_url (fun _ => None) "ghost"))].

Lemma minikube_list_vs_get_witness :
  minikube_list (fun _ => None) (fixed_parse ghost_tags) no_render (fun s => s) [] = (Done (Ok [ghost]), ghost_log) /\
  exists log1, (minikube_get (fun _ => None) (fun s => s) "ghost" log1).1 = Done (Ok None).
Proof.
  assert (Hl : minikube_list (fun _ => None) (fixed_parse ghost_tags) no_render (fun s => s) [] =
    (Done (Ok [ghost]), ghost_log)) by (vm_compute; reflexivity).
  split; [exact Hl|].
  destruct (minikube_list_vs_get (fun _ => None) (fixed_parse ghost_tags) no_render (fun s => s) [] ghost_log [ghost]
    ghost Hl) as (log1 & r & page & _ & Hg & Hb & _ & Hget); [apply list_elem_of_In; left; reflexivity|].
  exists log1. vm_compute in Hg. injection Hg as <-. exact Hget.
Defined.
