(* ===== verification/Ecr.v ===== *)
(** * The operations on ECR as operations on a map

    [service/aim/src/registry/ecr/mod.rs] against the Elastic Container Registry
    itself.  The registry is not part of the sources; it is the interface
    [EcrLaws]: a map from the tags of the configured repository to digests, and
    the documents that its commands print, as the comments, the unit tests of the
    file and the reference of the command line that they link have them.  With
    [--no-paginate] the command makes one request, and prints one page of at most
    a hundred images, with or without a tag.  [memory_ecr] is an instance. *)

From S2P Require Import Prelude RustStr Json Errors Names Backoff Process AimEnv Containerd Registry.

(** ** The interface *)

Definition list_command (var : environment) : list string :=
  ["ecr"; "list-images"; "--no-paginate"; "--repository-name"; repository var].
Definition delete_command (var : environment) (t : string) : list string :=
  ["ecr"; "batch-delete-image"; "--repository-name"; repository var; "--image-ids"; "imageTag=" +:+ t].

(** An image as it is printed. *)
Definition image_document (i : EcrImage) : json :=
  JObj [("imageDigest", JStr (image_digest i)); ("imageTag", JStr (image_tag i))].

(** What [list-images] prints: an image for each tag, and one for each image that
    no tag names; and a token when there are more. *)
Record entry := { entry_digest : string; entry_tag : option string }.
Definition entry_document (e : entry) : json :=
  JObj (("imageDigest", JStr (entry_digest e)) ::
        match entry_tag e with Some t => [("imageTag", JStr t)] | None => [] end).
Definition page_document (l : list entry) (next : option string) : json :=
  JObj (("imageIds", JArr (map entry_document l)) ::
        match next with Some token => [("nextToken", JStr token)] | None => [] end).

(** The images of a page, at most. *)
Definition PAGE : nat := 100.

(** Everything is on the first page of a repository with these tags and this many
    images that no tag names. *)
Definition fits (m : gmap string string) (untagged : nat) : Prop := (size m + untagged <= PAGE)%nat.

#[export] Instance fits_Decision m untagged : Decision (fits m untagged).
Proof. unfold fits. apply _. Defined.

Definition first_page (m : gmap string string) (untagged : nat) (l : list entry) : Prop :=
  (length l <= PAGE)%nat /\ NoDup (omap entry_tag l) /\
  (forall t d, {| entry_digest := d; entry_tag := Some t |} ∈ l -> m !! t = Some d) /\
  (fits m untagged -> forall t d, m !! t = Some d -> {| entry_digest := d; entry_tag := Some t |} ∈ l).

(** What [batch-delete-image] prints. *)
Definition failure_document (f : EcrUninstallFailure) : json :=
  JObj [("imageId", JObj [("imageTag", JStr (failed_tag (image_id f)))]);
        ("failureCode", JStr (failure_code f)); ("failureReason", JStr (failure_reason f))].
Definition delete_document (l : list EcrImage) (fs : list EcrUninstallFailure) : json :=
  JObj [("failures", JArr (map failure_document fs)); ("imageIds", JArr (map image_document l))].

(** [aws] as [cmd!] sees it. *)
Definition aws_cmd (os : list event -> list string -> child) (log : list event) (args : list string)
  : run (Result string) := cmd (os log) None "aws" (map plain args).

Class EcrLaws (os : list event -> list string -> child) (var : environment)
  (parse_json : string -> result json string) := {
  (** The tags of the repository, with their digests, after what was done. *)
  ecr_tags : list event -> gmap string string;
  (** How many images there are that no tag names. *)
  ecr_untagged : list event -> nat;
  law_list_images log out : aws_cmd os log (list_command var) = Done (Ok out) ->
    exists l next, parse_json out = Ok (page_document l next) /\ first_page (ecr_tags log) (ecr_untagged log) l;
  law_list_keeps log : ecr_tags (log ++ [Ran ("aws" :: list_command var)]) = ecr_tags log;
  (** [batch-delete-image] removes the tag, or reports why it did not. *)
  law_delete_image log t out : aws_cmd os log (delete_command var t) = Done (Ok out) ->
    exists l fs, parse_json out = Ok (delete_document l fs) /\
      match fs with
      | [] => ecr_tags (log ++ [Ran ("aws" :: delete_command var t)]) = delete t (ecr_tags log)
      | f :: _ => ecr_tags (log ++ [Ran ("aws" :: delete_command var t)]) = ecr_tags log /\
                  (failure_code f = "ImageNotFound" -> ecr_tags log !! t = None)
      end;
}.

(** ** What the operations promise *)

(** A list has images of the map only, each once, and all of them if it is
    complete. *)
Definition lists (complete : Prop) (m : gmap string string) (images : list Image) : Prop :=
  NoDup (map tag images) /\
  (forall image, image ∈ images -> m !! tag image = Some (digest image)) /\
  (complete -> forall image, m !! tag image = Some (digest image) -> image ∈ images).

(** A look-up finds the image of the tag only; that it finds nothing means
    something if it is complete. *)
Definition looks_up (complete : Prop) (m : gmap string string) (t : string) (found : option Image) : Prop :=
  match found with
  | Some image => tag image = t /\ m !! t = Some (digest image)
  | None => complete -> m !! t = None
  end.

Lemma looks_up_complete (complete : Prop) m t found :
  looks_up complete m t found -> complete -> found = (fun d => {| tag := t; digest := d |}) <$> m !! t.
Proof.
  unfold looks_up. destruct found as [[t' d]|]; simpl; [by intros [-> ->]|]. intros Hn Hc. by rewrite (Hn Hc).
Qed.

(** ** Reading the documents *)

Lemma read_image i : deserialize (image_document i) = Ok i.
Proof. by destruct i. Qed.

Lemma read_failure f : deserialize (failure_document f) = Ok f.
Proof. by destruct f as [[t] c r]. Qed.

Lemma read_images l : deserialize (JArr (map image_document l)) = Ok l.
Proof.
  change (deserialize_all (map image_document l) = Ok l).
  rewrite (deserialize_all_map _ (fun i => i)) by apply read_image. by rewrite map_id.
Qed.

Lemma read_failures fs : deserialize (JArr (map failure_document fs)) = Ok fs.
Proof.
  change (deserialize_all (map failure_document fs) = Ok fs).
  rewrite (deserialize_all_map _ (fun f => f)) by apply read_failure. by rewrite map_id.
Qed.

(** An image without a tag cannot be read; so the images of a page that can be read
    have one each. *)
Definition entry_of (i : EcrImage) : entry := {| entry_digest := image_digest i; entry_tag := Some (image_tag i) |}.

Lemma read_entry e i : deserialize (entry_document e) = Ok i -> e = entry_of i.
Proof. destruct e as [d [t|]]; [|done]. by intros [= <-]. Qed.

Lemma read_entries l ids : deserialize_all (map entry_document l) = Ok ids -> l = map entry_of ids.
Proof.
  revert ids. induction l as [|e l IH]; intros ids; simpl; [by intros [= <-]|].
  intros (i & Hi & (rest & Hrest & [= <-])%try_bind_Ok)%try_bind_Ok. simpl.
  by rewrite (read_entry _ _ Hi), (IH _ Hrest).
Qed.

Lemma page_reads l next :
  deserialize (T := EcrListImages) (page_document l next) =
  let? ids := deserialize_all (map entry_document l) in Ok {| listed_ids := ids |}.
Proof.
  unfold deserialize at 1, EcrListImages_Deserialize, page_document. destruct next; cbn -[deserialize];
    unfold read_field; change (deserialize (JArr (map entry_document l))) with
      (deserialize_all (T := EcrImage) (map entry_document l)); by destruct (deserialize_all _).
Qed.

Lemma read_page l next ids :
  deserialize (page_document l next) = Ok {| listed_ids := ids |} -> l = map entry_of ids.
Proof. rewrite page_reads. intros (ids' & Hids & [= <-])%try_bind_Ok. by apply read_entries. Qed.

Lemma read_delete l fs : deserialize (delete_document l fs) = Ok {| image_ids := l; failures := fs |}.
Proof.
  unfold deserialize at 1, EcrUninstall_Deserialize, delete_document. cbn -[deserialize].
  unfold read_field. rewrite read_failures. cbn -[deserialize]. by rewrite read_images.
Qed.

(** ** Theorems *)

Section Ecr.
Context (os : list event -> list string -> child) (var : environment).
Context (parse_json : string -> result json string) (render : string -> de_error -> string).

Lemma ecr_list_inv log r log' :
  ecr_list os var parse_json render log = (r, log') ->
  log' = log ++ [Ran ("aws" :: list_command var)] /\
  forall images, r = Done (Ok images) -> exists out l, aws_cmd os log (list_command var) = Done (Ok out) /\
    from_str parse_json render out = Ok {| listed_ids := l |} /\ images = map Image_from_ecr l.
Proof.
  unfold ecr_list. intros Hb.
  apply bind_inv in Hb as [(out & log1 & [Ho ->]%run_cmd_inv & Hb)|[(e & [_ ->]%run_cmd_inv & ->)|(m & [_ ->]%run_cmd_inv & ->)]];
    [|split; [done|by intros]..].
  unfold bind, lift in Hb. destruct (from_str parse_json render out) as [[l]|e] eqn:Ef; simpl in Hb;
    injection Hb as <- <-; (split; [done|intros images Hr]); [|done].
  injection Hr as <-. exists out, l. by split_and!.
Qed.

(** An uninstallation: the command fails, or ECR's verdict is passed on. *)
Lemma ecr_uninstall_run t log r log' :
  ecr_uninstall os var parse_json render t log = (Done r, log') ->
  log' = log ++ [Ran ("aws" :: delete_command var t)] /\
  ((exists e, r = Err (into_box (UninstallCommandError e))) \/
   exists out, aws_cmd os log (delete_command var t) = Done (Ok out) /\
     forall l fs, parse_json out = Ok (delete_document l fs) ->
       r = uninstall_verdict {| image_ids := l; failures := fs |}).
Proof.
  unfold ecr_uninstall. destruct (ecr os _ log) as [[[out|e]|m] log1] eqn:Er; intros [= <- <-];
    apply run_cmd_inv in Er as [Hr ->]; (split; [done|]); [right|left; eauto].
  exists out. split; [by symmetry|]. intros l fs Hp. simpl. unfold from_str. rewrite Hp. cbn -[deserialize].
  by rewrite read_delete.
Qed.

Lemma ecr_uninstall_inv `{!EcrLaws os var parse_json} t log r log' :
  ecr_uninstall os var parse_json render t log = (Done r, log') ->
  (exists e, r = Err (into_box (UninstallCommandError e))) \/
  exists l fs, r = uninstall_verdict {| image_ids := l; failures := fs |} /\
    match fs with
    | [] => ecr_tags log' = delete t (ecr_tags log)
    | f :: _ => ecr_tags log' = ecr_tags log /\ (failure_code f = "ImageNotFound" -> ecr_tags log !! t = None)
    end.
Proof.
  intros [-> [?|(out & Hcmd & Hv)]]%ecr_uninstall_run; [by left|right].
  destruct (law_delete_image _ _ _ Hcmd) as (l & fs & Hp & Hfs). exists l, fs. split; [by apply Hv|done].
Qed.

(** What the verdict says. *)
Lemma verdict_Ok (m m' : gmap string string) t l fs :
  uninstall_verdict {| image_ids := l; failures := fs |} = Ok tt ->
  match fs with
  | [] => m' = delete t m
  | f :: _ => m' = m /\ (failure_code f = "ImageNotFound" -> m !! t = None)
  end -> m' = delete t m.
Proof.
  unfold uninstall_verdict. destruct fs as [|f fs]; [done|]. simpl.
  destruct (String.eqb_spec (failure_code f) "ImageNotFound"); [|done]. intros _ [-> Hnf]. by rewrite delete_id by auto.
Qed.

(** The image that [find] finds in the list of a map. *)
Lemma find_tag_lookup complete (m : gmap string string) t images :
  lists complete m images -> looks_up complete m t (find_tag t images).
Proof.
  intros (_ & Hsound & Hall). destruct (find_tag t images) as [image|] eqn:Ef; simpl.
  - apply find_tag_Some in Ef as [<- Hi]. auto.
  - intros Hc. apply eq_None_not_Some. intros [d Hd].
    specialize (Hall Hc {| tag := t; digest := d |} Hd). apply list_elem_of_In, (List.find_none _ _ Ef) in Hall.
    simpl in Hall. by rewrite String.eqb_refl in Hall.
Qed.

(** The list that is made from a page. *)
Lemma listed_right (m : gmap string string) untagged out ids :
  from_str parse_json render out = Ok {| listed_ids := ids |} ->
  (exists l next, parse_json out = Ok (page_document l next) /\ first_page m untagged l) ->
  lists (fits m untagged) m (map Image_from_ecr ids) /\ (length (map Image_from_ecr ids) <= PAGE)%nat.
Proof.
  intros Hread (l & next & Hparse & Hlen & Hnd & Hsound & Hall). unfold from_str in Hread. rewrite Hparse in Hread.
  simpl in Hread. destruct (deserialize (page_document l next)) as [[ids']|] eqn:Ed; [|done]. injection Hread as ->.
  apply read_page in Ed as ->. rewrite length_map in *. split; [|done].
  assert (Htags : omap entry_tag (map entry_of ids) = map tag (map Image_from_ecr ids))
    by (clear; induction ids as [|i ids IH]; [done|]; cbn; by f_equal).
  rewrite Htags in Hnd. split_and!; [done| |].
  - intros image (i & -> & Hi)%list_elem_of_fmap. apply Hsound. apply list_elem_of_fmap. by exists i.
  - intros Hfits image Hm. specialize (Hall Hfits _ _ Hm). apply list_elem_of_fmap in Hall as ([d t] & He & Hi).
    injection He as Hd Ht. apply list_elem_of_fmap. eexists. split; [|exact Hi]. destruct image; simpl in *; by subst.
Qed.

Lemma ecr_list_right `{!EcrLaws os var parse_json} log log' images :
  ecr_list os var parse_json render log = (Done (Ok images), log') ->
  ecr_tags log' = ecr_tags log /\ lists (fits (ecr_tags log) (ecr_untagged log)) (ecr_tags log) images /\
  (length images <= PAGE)%nat.
Proof.
  intros [-> Hl]%ecr_list_inv. destruct (Hl _ eq_refl) as (out & l & Hcmd & Hread & ->).
  split; [apply law_list_keeps|]. eapply listed_right; [exact Hread|by apply law_list_images].
Qed.

Lemma ecr_get_right `{!EcrLaws os var parse_json} t log log' o :
  ecr_get os var parse_json render t log = (Done (Ok o), log') ->
  ecr_tags log' = ecr_tags log /\ looks_up (fits (ecr_tags log) (ecr_untagged log)) (ecr_tags log) t o.
Proof.
  intros Hg. unfold ecr_get in Hg. apply bind_Ok in Hg as (images & log1 & Hl & Hg).
  injection Hg as <- ->. destruct (ecr_list_right _ _ _ Hl) as (Hk & Hin & _). split; [done|].
  by apply find_tag_lookup.
Qed.

Lemma ecr_uninstall_right `{!EcrLaws os var parse_json} t log log' :
  ecr_uninstall os var parse_json render t log = (Done (Ok tt), log') -> ecr_tags log' = delete t (ecr_tags log).
Proof. intros [[e He]|(l & fs & Hv & Hfs)]%ecr_uninstall_inv; [done|]. by eapply verdict_Ok. Qed.

(** The operations on ECR implement those of a map, up to a page of a hundred
    images: a list that succeeds has tags with their digests, all of them as long as
    they fit on the page, and changes nothing; [get] finds the image of the tag, and
    misses none as long as all fit on the page; an uninstallation that succeeds has
    removed the tag and no other one, whether or not it was there; one that ECR
    refuses has changed nothing. *)
Theorem ecr_implements_map `{!EcrLaws os var parse_json} (log log' : list event) (t : string) :
  (forall images, ecr_list os var parse_json render log = (Done (Ok images), log') ->
     ecr_tags log' = ecr_tags log /\ lists (fits (ecr_tags log) (ecr_untagged log)) (ecr_tags log) images) /\
  (forall o, ecr_get os var parse_json render t log = (Done (Ok o), log') ->
     ecr_tags log' = ecr_tags log /\ looks_up (fits (ecr_tags log) (ecr_untagged log)) (ecr_tags log) t o) /\
  (ecr_uninstall os var parse_json render t log = (Done (Ok tt), log') ->
     ecr_tags log' = delete t (ecr_tags log)) /\
  (forall f, ecr_uninstall os var parse_json render t log = (Done (Err (into_box (EcrUninstallError f))), log') ->
     ecr_tags log' = ecr_tags log).
Proof.
  split_and!; [by intros images (? & ? & _)%ecr_list_right|by intros o Hg%ecr_get_right|apply ecr_uninstall_right|].
  intros f [[e He]|(l & fs & Hv & Hfs)]%ecr_uninstall_inv; [done|]. destruct fs as [|f' fs]; [done|]. apply Hfs.
Qed.

(** What is beyond the first page is lost: when the repository has more than a
    hundred tags, every list that succeeds misses one of them, and [get] answers
    that there is no such tag. *)
Theorem second_page_is_lost `{!EcrLaws os var parse_json} (log log' : list event) (images : list Image)
  (Hlist : ecr_list os var parse_json render log = (Done (Ok images), log'))
  (Hmore : (PAGE < size (ecr_tags log))%nat) :
  exists t, is_Some (ecr_tags log !! t) /\ (t ∉ map tag images) /\
    ecr_get os var parse_json render t log = (Done (Ok None), log').
Proof.
  destruct (ecr_list_right _ _ _ Hlist) as (_ & _ & Hlen).
  destruct (decide (Forall (fun t => t ∈ map tag images) (map fst (map_to_list (ecr_tags log))))) as [Hall|Hall].
  - exfalso. assert (Hle : (length (map fst (map_to_list (ecr_tags log))) <= length (map tag images))%nat).
    { apply List.NoDup_incl_length; [by apply NoDup_ListNoDup, NoDup_fst_map_to_list|].
      intros t Ht%list_elem_of_In. rewrite Forall_forall in Hall. by apply list_elem_of_In, Hall. }
    rewrite !length_map, length_map_to_list in Hle. lia.
  - apply not_Forall_Exists in Hall; [|apply _]. apply Exists_exists in Hall as (t & Ht & Hno).
    apply list_elem_of_fmap in Ht as ([t' d] & -> & Ht%elem_of_map_to_list). simpl in *. exists t'.
    split_and!; [by eexists|done|]. unfold ecr_get, bind. rewrite Hlist. simpl.
    destruct (find_tag t' images) as [image|] eqn:Ef; [|done]. exfalso. apply find_tag_Some in Ef as [<- Hi].
    apply Hno. apply list_elem_of_fmap. by exists image.
Qed.

(** One image without a tag on the page makes the list of all images fail. *)
Theorem untagged_image_breaks_list (log : list event) (out : string) (l : list entry) (next : option string) (e : entry)
  (Hcmd : aws_cmd os log (list_command var) = Done (Ok out))
  (Hparse : parse_json out = Ok (page_document l next))
  (Hin : e ∈ l) (Huntagged : entry_tag e = None) :
  exists err, ecr_list os var parse_json render log =
    (Done (Err (into_box (EcrImageSerdeError (render out err)))), log ++ [Ran ("aws" :: list_command var)]).
Proof.
  assert (Hbad : exists err, deserialize (T := EcrImage) (entry_document e) = Err err).
  { destruct e as [d [t|]]; [done|]. by eexists. }
  destruct Hbad as [err He].
  destruct (deserialize_all_fails (T := EcrImage) (map entry_document l) (entry_document e) err) as [err' He'];
    [apply list_elem_of_fmap; by exists e|done|].
  exists err'. unfold ecr_list, bind, ecr, run_cmd, lift. unfold aws_cmd in Hcmd. simpl in Hcmd |- *. rewrite Hcmd.
  simpl. unfold from_str. rewrite Hparse. cbn -[deserialize page_document]. rewrite page_reads, He'. done.
Qed.
End Ecr.

(** ** An instance: a repository in memory *)

(** A command that prints a document which its parser can read. *)
Definition printed (doc : json) : child :=
  let text := print 0 doc in
  Spawned true (Ok {| success := match simple_parse (trim_end text) with Ok j => json_eqb j doc | Err _ => false end;
                      stdout := text; stderr := "" |}).

Section Memory.
Context (var : environment) (initial : gmap string string).

(** The tags after the pushes and the deletions of a log; every image has the same
    digest. *)
Definition ecr_next (m : gmap string string) (e : event) : gmap string string :=
  match e with
  | Ran argv =>
      if is_push argv then
        match last argv ≫= strip (new_reference var "") with
        | Some t => <[t := "sha256:76a5"]> m
        | None => m
        end
      else if is_batch_delete argv then
        match argv with
        | [_; _; _; _; repo; _; target] =>
            if (repo =? repository var)%string then
              match strip "imageTag=" target with Some t => delete t m | None => m end
            else m
        | _ => m
        end
      else m
  | _ => m
  end.
Definition memory_tags (log : list event) : gmap string string := fold_left ecr_next log initial.

(** The first page. *)
Definition ecr_entry (td : string * string) : entry := {| entry_digest := td.2; entry_tag := Some td.1 |}.
Definition memory_page (m : gmap string string) : json :=
  page_document (map ecr_entry (take PAGE (map_to_list m))) (if decide (PAGE < size m)%nat then Some "more" else None).

Definition memory_ecr (log : list event) (argv : list string) : child :=
  match argv with
  | [_; _; command; _; _; repo] => printed (memory_page (memory_tags log))
  | [_; _; command; _; repo; _; target] =>
      match strip "imageTag=" target with
      | Some t =>
          match memory_tags log !! t with
          | Some d => printed (delete_document [{| image_digest := d; image_tag := t |}] [])
          | None => printed (delete_document [] [{| image_id := {| failed_tag := t |};
              failure_code := "ImageNotFound"; failure_reason := "Requested image not found" |}])
          end
      | None => NotSpawned "usage"
      end
  | [_; _; command] => Spawned true (Ok {| success := true; stdout := "hunter2"; stderr := "" |})
  | _ => NotSpawned "usage"
  end.

Lemma printed_Ok doc dbg out : exec None (printed doc) dbg = Done (Ok out) -> simple_parse out = Ok doc.
Proof.
  intros (taken & o & Hp & _ & Hs & _ & ->)%exec_Ok. unfold printed in Hp. injection Hp as _ <-. simpl in *.
  destruct (simple_parse (trim_end (print 0 doc))) as [j|]; [|done]. by rewrite (json_eqb_eq _ _ Hs).
Qed.

Lemma memory_first_page (m : gmap string string) : first_page m 0 (map ecr_entry (take PAGE (map_to_list m))).
Proof.
  assert (Htags : forall l, omap entry_tag (map ecr_entry l) = l.*1)
    by (induction l as [|td l IH]; [done|]; cbn; by f_equal).
  split_and!.
  - rewrite length_map, length_take. lia.
  - rewrite Htags, fmap_take. eapply sublist_NoDup; [apply (NoDup_fst_map_to_list m)|apply sublist_take].
  - intros t d ([t' d'] & [= -> ->] & Hin)%list_elem_of_fmap. simpl in *.
    apply elem_of_map_to_list. eapply elem_of_take in Hin as (i & Hi & _). by eapply list_elem_of_lookup_2.
  - intros Hfits t d Ht. apply list_elem_of_fmap. exists (t, d). split; [done|].
    rewrite take_ge; [by apply elem_of_map_to_list|]. unfold fits in Hfits. rewrite length_map_to_list. lia.
Qed.

Lemma memory_lists log out :
  aws_cmd memory_ecr log (list_command var) = Done (Ok out) ->
  exists l next, simple_parse out = Ok (page_document l next) /\ first_page (memory_tags log) 0 l.
Proof. intros Hc%printed_Ok. eexists _, _. split; [exact Hc|]. apply memory_first_page. Qed.

Lemma memory_list_keeps log : memory_tags (log ++ [Ran ("aws" :: list_command var)]) = memory_tags log.
Proof. unfold memory_tags. by rewrite fold_left_app. Qed.

Lemma memory_deletes log t out :
  aws_cmd memory_ecr log (delete_command var t) = Done (Ok out) ->
  exists l fs, simple_parse out = Ok (delete_document l fs) /\
    match fs with
    | [] => memory_tags (log ++ [Ran ("aws" :: delete_command var t)]) = delete t (memory_tags log)
    | f :: _ => memory_tags (log ++ [Ran ("aws" :: delete_command var t)]) = memory_tags log /\
                (failure_code f = "ImageNotFound" -> memory_tags log !! t = None)
    end.
Proof.
  unfold aws_cmd, cmd.
  change ("aws" :: map raw (map plain (delete_command var t))) with ("aws" :: delete_command var t).
  assert (Hnext : memory_tags (log ++ [Ran ("aws" :: delete_command var t)]) = delete t (memory_tags log)).
  { unfold memory_tags at 1. rewrite fold_left_app. cbn [fold_left]. unfold ecr_next at 1.
    change (is_push ("aws" :: delete_command var t)) with false.
    change (is_batch_delete ("aws" :: delete_command var t)) with true. cbn [delete_command].
    by rewrite (String.eqb_refl (repository var)), strip_app. }
  rewrite Hnext. cbn [memory_ecr delete_command]. rewrite strip_app.
  destruct (memory_tags log !! t) as [d|] eqn:Et; intros Hp%printed_Ok; eexists _, _; (split; [exact Hp|]); simpl.
  - done.
  - by rewrite delete_id.
Qed.

#[export] Instance memory_EcrLaws : EcrLaws memory_ecr var simple_parse := {|
  ecr_tags := memory_tags;
  ecr_untagged _ := 0%nat;
  law_list_images := memory_lists;
  law_list_keeps := memory_list_keeps;
  law_delete_image := memory_deletes;
|}.
End Memory.

(** ** Witnesses *)

Definition example_tags : gmap string string := {["a" := "sha256:1"; "b" := "sha256:2"; "c" := "sha256:1"]}.

Definition example_ecr := memory_ecr ecr_env example_tags.
Definition after_delete : list event := [Ran ("aws" :: delete_command ecr_env "a")].
Definition after_get : list event := after_delete ++ [Ran ("aws" :: list_command ecr_env)].

(** One tag of an image that has two is uninstalled; the other one stays. *)
Lemma ecr_implements_map_witness :
  ecr_uninstall example_ecr ecr_env simple_parse no_render "a" [] = (Done (Ok tt), after_delete) /\
  ecr_get example_ecr ecr_env simple_parse no_render "c" after_delete =
    (Done (Ok (Some {| tag := "c"; digest := "sha256:1" |})), after_get) /\
  memory_tags ecr_env example_tags after_get = delete "a" example_tags.
Proof.
  assert (H1 : ecr_uninstall example_ecr ecr_env simple_parse no_render "a" [] = (Done (Ok tt), after_delete))
    by (vm_compute; reflexivity).
  assert (H2 : ecr_get example_ecr ecr_env simple_parse no_render "c" after_delete =
    (Done (Ok (Some {| tag := "c"; digest := "sha256:1" |})), after_get)) by (vm_compute; reflexivity).
  split; [exact H1|]. split; [exact H2|].
  destruct (ecr_implements_map example_ecr ecr_env simple_parse no_render [] after_delete "a") as (_ & _ & Hdel & _).
  destruct (ecr_implements_map example_ecr ecr_env simple_parse no_render after_delete after_get "c")
    as (_ & Hget & _ & _).
  exact (eq_trans (proj1 (Hget _ H2)) (Hdel H1)).
Defined.

Definition untagged_page : list entry :=
  [{| entry_digest := "sha256:1"; entry_tag := Some "a" |}; {| entry_digest := "sha256:2"; entry_tag := None |}].

Lemma untagged_image_breaks_list_witness :
  exists e log', ecr_list refusing_system ecr_env (fixed_parse (page_document untagged_page None)) no_render [] =
    (Done (Err (into_box (EcrImageSerdeError e))), log').
Proof.
  edestruct (untagged_image_breaks_list refusing_system ecr_env (fixed_parse (page_document untagged_page None)) no_render
    [] "hunter2" untagged_page None {| entry_digest := "sha256:2"; entry_tag := None |}) as [e He];
    [vm_compute; reflexivity|reflexivity|right; left|reflexivity|].
  eexists _, _. exact He.
Defined.

(** A repository with a hundred and one tags. *)
Definition many_tags : gmap string string :=
  list_to_map (map (fun i => (pretty (Z.of_nat i), "sha256:1")) (seq 100 101)).

Lemma second_page_is_lost_witness :
  exists t, is_Some (many_tags !! t) /\
    (ecr_get (memory_ecr ecr_env many_tags) ecr_env simple_parse no_render t []).1 = Done (Ok None).
Proof.
  destruct (ecr_list (memory_ecr ecr_env many_tags) ecr_env simple_parse no_render []) as [r log'] eqn:El.
  assert (Hr : exists images, r = Done (Ok images)).
  { change r with (r, log').1. rewrite <- El. vm_compute. eexists. reflexivity. }
  destruct Hr as [images ->].
  destruct (second_page_is_lost (memory_ecr ecr_env many_tags) ecr_env simple_parse no_render [] log' images El)
    as (t & Ht & _ & Hg); [apply Nat.ltb_lt; vm_compute; reflexivity|].
  exists t. split; [exact Ht|]. rewrite Hg. reflexivity.
Defined.
