(* ===== verification/Minikube.v ===== *)
(** * The operations on the Minikube registry as operations on a map

    [service/aim/src/registry/minikube/mod.rs] against the registry itself.  The
    registry is not part of the sources; it is the interface [MinikubeLaws]: a
    map from the tags of the configured repository to the digests of their
    manifests, and the answers to the four requests that the file sends.  It
    deletes digests, not tags, as the comment on [uninstall] says.  A request may
    also be answered with the page of another error at any time.
    [memory_registry] is an instance. *)

From S2P Require Import Prelude RustStr Json Errors Names Backoff Process AimEnv Containerd Registry.

(** ** The interface *)

Definition OK : Z := 200.

(** What a registry takes for a tag: letters, digits, [_], [.] and [-], with a
    first character that is neither of the last two. *)
Definition is_tag_first (b : Z) : bool := is_ascii_alphanumeric b || (b =? 95).
Definition is_tag_byte (b : Z) : bool := is_tag_first b || (b =? 45) || (b =? 46).
Definition valid_tag (t : string) : bool :=
  (String.length t <=? 128)%nat && first_byte is_tag_first t && str_all is_tag_byte t.

(** The documents that answer [GET tags/list]. *)
Definition tags_document (name : string) (l : list string) : json :=
  JObj [("name", JStr name); ("tags", JArr (map JStr l))].
Definition error_document (errors : list json) : json := JObj [("errors", JArr errors)].

(** A map without the tags of a digest. *)
Definition without_digest (d : string) (m : gmap string string) : gmap string string :=
  filter (fun td : string * string => td.2 <> d) m.

(** The answers to [GET tags/list]: the list has every tag once; a repository that
    is not there has no tags; a request may be refused. *)
Definition tags_answered (parse_json : string -> result json string) (m : gmap string string) (r : response) : Prop :=
  (http_status r = NOT_FOUND /\ m = ∅) \/
  (http_status r <> NOT_FOUND /\ forall text, body r = Some text ->
    (exists name l, parse_json text = Ok (tags_document name l) /\ NoDup l /\ forall t, t ∈ l <-> is_Some (m !! t)) \/
    (exists errors, parse_json text = Ok (error_document errors)) \/ (exists e, parse_json text = Err e)).

Class MinikubeLaws (var : environment) `{Http} (parse_json : string -> result json string)
  (sha256 : string -> string) := {
  (** The tags of the repository, with their digests, after what was done. *)
  mk_tags : list event -> gmap string string;
  law_valid_tags log t d : mk_tags log !! t = Some d -> valid_tag t = true;
  law_tags_list log r : http_answer log (tags_request (tags_url var)) = Some r ->
    tags_answered parse_json (mk_tags log) r;
  (** The digest of an image is the hash of its manifest. *)
  law_manifest log t r bytes : valid_tag t = true ->
    http_answer log (manifest_request (manifest_url var t)) = Some r ->
    http_status r = OK -> body r = Some bytes -> mk_tags log !! t = Some (sha256_digest sha256 bytes);
  law_no_manifest log t r : valid_tag t = true ->
    http_answer log (manifest_request (manifest_url var t)) = Some r ->
    http_status r = NOT_FOUND -> mk_tags log !! t = None;
  law_get_keeps log q : sent_verb q = GET -> mk_tags (log ++ [Sent q]) = mk_tags log;
  (** A deletion is of a digest, with all its tags. *)
  law_delete log bytes r :
    let d := sha256_digest sha256 bytes in
    http_answer log (delete_request (manifest_url var d)) = Some r ->
    mk_tags (log ++ [Sent (delete_request (manifest_url var d))]) =
      (if http_status r =? ACCEPTED then without_digest d (mk_tags log) else mk_tags log) /\
    (http_status r = NOT_FOUND -> forall t, mk_tags log !! t <> Some d);
}.

(** ** What the operations promise *)

(** An uninstallation removes all the tags of the image. *)
Definition drop_image_of (t : string) (m : gmap string string) : gmap string string :=
  match m !! t with
  | Some d => without_digest d m
  | None => m
  end.

Section Minikube.
Context (var : environment) `{Http} (parse_json : string -> result json string)
  (render : string -> de_error -> string) (sha256 : string -> string).
Notation asked := (asked var).

(** Between two moments, a request for the manifest of [t] was answered with
    neither the manifest nor its absence. *)
Definition disturbed (log log' : list event) (t : string) : Prop :=
  exists log1 r, log `prefix_of` log1 /\ log1 ++ [asked t] `prefix_of` log' /\
    http_answer log1 (manifest_request (manifest_url var t)) = Some r /\
    http_status r <> OK /\ http_status r <> NOT_FOUND.

(** ** Lemmas *)

(** A label is a tag. *)
Lemma label_valid_tag t : is_dns1035_label t = true -> valid_tag t = true.
Proof.
  unfold is_dns1035_label, valid_tag. rewrite !andb_true_iff. intros [[[Hlen Hall] Hfirst] _].
  apply Nat.leb_le in Hlen. split_and!; [apply Nat.leb_le; lia| |].
  - unfold first_byte in *. destruct (bytes t); [done|]. unfold is_tag_first, is_ascii_alphanumeric. by rewrite Hfirst.
  - eapply str_all_impl; [|exact Hall]. intros b. unfold is_tag_byte, is_tag_first, is_label_byte,
      is_lower_alphanumeric, is_ascii_alphanumeric. destruct (is_ascii_lower b), (is_ascii_digit b), (b =? 45); simpl; try done.
    all: by rewrite ?orb_true_r.
Qed.

Lemma without_digest_lookup d m t d' : without_digest d m !! t = Some d' <-> m !! t = Some d' /\ d' <> d.
Proof. apply map_lookup_filter_Some. Qed.

Lemma without_digest_absent d m : (forall t : string, m !! t <> Some d) -> without_digest d m = m.
Proof. intros Hd. apply map_filter_id. intros t d' Ht. simpl. intros ->. by destruct (Hd t). Qed.

(** A deletion that was accepted or found nothing has removed the digest. *)
Lemma deleted_right (m m' : gmap string string) d status :
  m' = (if status =? ACCEPTED then without_digest d m else m) /\
  (status = NOT_FOUND -> forall t, m !! t <> Some d) ->
  m' = if (status =? ACCEPTED) || (status =? NOT_FOUND) then without_digest d m else m.
Proof.
  intros [-> Hn]. destruct (status =? ACCEPTED); [done|]. simpl. destruct (Z.eqb_spec status NOT_FOUND); [|done].
  symmetry. by apply without_digest_absent, Hn.
Qed.

Lemma read_tags name l : deserialize (tags_document name l) = Ok {| list_name := name; tags := l |}.
Proof.
  unfold deserialize at 1, ListTags_Deserialize, tags_document. cbn -[deserialize]. unfold read_field.
  change (deserialize (JArr (map JStr l))) with (deserialize_all (T := string) (map JStr l)).
  rewrite (deserialize_all_map _ (fun t => t)) by done. by rewrite map_id.
Qed.

Lemma read_errors errors : exists e, deserialize (T := ListTags) (error_document errors) = Err e.
Proof. eexists. reflexivity. Qed.

(** The tags that were listed are those of the registry. *)
Lemma tags_listed (m : gmap string string) r text (l : ListTags) :
  tags_answered parse_json m r -> http_status r <> NOT_FOUND -> body r = Some text ->
  from_str parse_json render text = Ok l ->
  NoDup (tags l) /\ forall t, t ∈ tags l <-> is_Some (m !! t).
Proof.
  intros [[Hnf _]|[_ Hd]] Hs Hb Hl; [done|]. unfold from_str in Hl.
  destruct (Hd _ Hb) as [(name & l' & Hp & Hnd & Hin)|[(errors & Hp)|(e & Hp)]]; rewrite Hp in Hl; [|done..].
  cbn -[deserialize] in Hl. rewrite read_tags in Hl. by injection Hl as <-.
Qed.

(** The images of a list have the tags that were listed. *)
Lemma fetched_tags log l images :
  Forall2 (fun t image => exists before, before ++ [t] `prefix_of` l /\ fetched var sha256 (log ++ map asked before) t image)
    l images -> map tag images = l.
Proof.
  generalize l at 1. intros l0. induction 1 as [|t image ts imgs (before & _ & r & bytes & _ & _ & _ & ->) _ IH]; [done|].
  simpl. by rewrite IH.
Qed.

(** [list] panics; it has no error to return. *)
Lemma list_manifests_no_error l log e log' : list_manifests var sha256 l log <> (Done (Err e), log').
Proof.
  revert log. induction l as [|t l IH]; intros log; [done|]. cbn [list_manifests].
  unfold bind, guard, lift, send, checked_url, read.
  destruct (url_ok _); simpl; [|done]. destruct (http_answer _ _) as [r|]; simpl; [|done].
  destruct (body r) as [bytes|]; simpl; [|done].
  destruct (list_manifests var sha256 l _) as [[[]|] ?] eqn:El; [done| |done]. intros [= -> ->]. by eapply IH.
Qed.

Lemma list_no_error log e log' : minikube_list var parse_json render sha256 log <> (Done (Err e), log').
Proof.
  unfold minikube_list, bind, guard, lift, send, checked_url, read.
  destruct (url_ok _); simpl; [|done]. destruct (http_answer _ _) as [r|]; simpl; [|done].
  destruct (_ =? _); [done|]. destruct (body r) as [text|]; simpl; [|done].
  destruct (from_str _ _ text); simpl; [|done]. apply list_manifests_no_error.
Qed.

(** A registry that cannot be reached, or that answers in another format, makes the
    operations panic, also in a service that is configured. *)
Theorem unreachable_registry_panics (log : list event) (t : string)
  (Hdown : http_answer log (tags_request (tags_url var)) = None) :
  (exists m, (minikube_list var parse_json render sha256 log).1 = Panic m) /\
  (exists m, (minikube_uninstall var parse_json render sha256 t log).1 = Panic m).
Proof.
  assert (Hl : exists m log', minikube_list var parse_json render sha256 log = (Panic m, log')).
  { unfold minikube_list, bind, guard, lift, send, checked_url. destruct (url_ok _); simpl; [rewrite Hdown|]; simpl; eauto. }
  destruct Hl as (m & log' & Hl). unfold minikube_uninstall, bind. rewrite Hl. simpl. eauto.
Qed.

Section Laws.
Context `{!MinikubeLaws var parse_json sha256}.

Lemma asks_keep log l : mk_tags (log ++ map asked l) = mk_tags log.
Proof.
  induction l as [|t l IH] using rev_ind; [by rewrite app_nil_r|].
  rewrite map_app, app_assoc, <- IH. by apply law_get_keeps.
Qed.

(** An image that was fetched for a tag is the right one, unless the answer was
    an error. *)
Lemma fetched_right log t image :
  fetched var sha256 log t image -> valid_tag t = true ->
  tag image = t /\
  (mk_tags log !! t = Some (digest image) \/ mk_tags log !! t = None \/ disturbed log (log ++ [asked t]) t).
Proof.
  intros (r & bytes & _ & Hr & Hb & ->) Ht. simpl. split; [done|].
  destruct (decide (http_status r = OK)); [left; by eapply law_manifest|].
  destruct (decide (http_status r = NOT_FOUND)); [right; left; by eapply law_no_manifest|].
  right; right. exists log, r. by split_and!.
Qed.

Lemma disturbed_weaken log log1 log2 log' t :
  log `prefix_of` log1 -> log2 `prefix_of` log' -> disturbed log1 log2 t -> disturbed log log' t.
Proof.
  intros H1 H2 (l & r & Hp & Hq & Hr). exists l, r. split_and!; [by etrans|by etrans|apply Hr..].
Qed.

(** The log of a list: requests that change nothing. *)
Lemma list_log log images log' :
  minikube_list var parse_json render sha256 log = (Done (Ok images), log') ->
  exists l, log' = log ++ Sent (tags_request (tags_url var)) :: map asked l.
Proof.
  intros (r & Hr & [(_ & _ & ->)|(text & l & _ & _ & _ & [-> _]%list_manifests_Ok)])%minikube_list_Ok.
  - by exists [].
  - exists (tags l). by rewrite <- app_assoc.
Qed.

Lemma list_keeps log images log' :
  minikube_list var parse_json render sha256 log = (Done (Ok images), log') -> mk_tags log' = mk_tags log.
Proof.
  intros (l & ->)%list_log. rewrite cons_middle, app_assoc, asks_keep. by apply law_get_keeps.
Qed.

Lemma list_right log images log' :
  minikube_list var parse_json render sha256 log = (Done (Ok images), log') ->
  NoDup (map tag images) /\
  (forall t, t ∈ map tag images <-> is_Some (mk_tags log !! t)) /\
  (forall image, image ∈ images ->
     mk_tags log !! tag image = Some (digest image) \/ disturbed log log' (tag image)).
Proof.
  intros (r & Hr & [(Hs & -> & ->)|(text & l & Hs & Hb & Hl & [-> Hi]%list_manifests_Ok)])%minikube_list_Ok.
  - destruct (law_tags_list _ _ Hr) as [[_ He]|[? _]]; [|done]. rewrite He. simpl.
    split_and!; [constructor|intros t; rewrite lookup_empty; split; [set_solver|by intros []]|set_solver].
  - destruct (tags_listed _ _ _ _ (law_tags_list _ _ Hr) Hs Hb Hl) as [Hnd Hin].
    assert (Htags : map tag images = tags l) by (by eapply fetched_tags).
    rewrite Htags. split_and!; [done|done|]. intros image Himg.
    apply list_elem_of_lookup in Himg as [k Hk].
    destruct (Forall2_lookup_r _ _ _ _ _ Hi Hk) as (t & Ht & before & Hpf & Hf).
    assert (is_Some (mk_tags log !! t)) as [d Hd] by (by apply Hin, (list_elem_of_lookup_2 _ k)).
    apply fetched_right in Hf as [<- Hf]; [|by eapply law_valid_tags].
    rewrite asks_keep, law_get_keeps in Hf by done. destruct Hf as [Hf|[Hf|Hf]]; [by left|congruence|right].
    eapply disturbed_weaken; [..|exact Hf].
    + rewrite <- app_assoc. by apply prefix_app_r.
    + rewrite <- app_assoc. apply prefix_app. destruct Hpf as [after ->]. rewrite !map_app. by apply prefix_app_r.
Qed.

Lemma deleted log bytes r :
  let d := sha256_digest sha256 bytes in
  http_answer log (delete_request (manifest_url var d)) = Some r ->
  let log' := log ++ [Sent (delete_request (manifest_url var d))] in
  mk_tags log' = if (http_status r =? ACCEPTED) || (http_status r =? NOT_FOUND) then without_digest d (mk_tags log)
                 else mk_tags log.
Proof.
  intros d Hr log'. exact (deleted_right _ _ _ _ (law_delete _ _ _ Hr)).
Qed.

(** A digest of a list is a hash. *)
Lemma list_digest log images log' image :
  minikube_list var parse_json render sha256 log = (Done (Ok images), log') -> image ∈ images ->
  exists bytes, digest image = sha256_digest sha256 bytes.
Proof.
  intros (r & _ & [(_ & -> & _)|(text & l & _ & _ & _ & [_ Hi]%list_manifests_Ok)])%minikube_list_Ok Hin; [set_solver|].
  apply list_elem_of_lookup in Hin as [k Hk].
  destruct (Forall2_lookup_r _ _ _ _ _ Hi Hk) as (t & _ & before & _ & r' & bytes & _ & _ & _ & ->). by exists bytes.
Qed.

Lemma list_absent log images log' t :
  minikube_list var parse_json render sha256 log = (Done (Ok images), log') -> find_tag t images = None ->
  mk_tags log !! t = None.
Proof.
  intros (_ & Hdom & _)%list_right Hf. apply eq_None_not_Some. intros Ht%Hdom.
  apply list_elem_of_In, in_map_iff in Ht as (image & <- & Hin). apply (List.find_none _ _ Hf) in Hin.
  simpl in Hin. by rewrite String.eqb_refl in Hin.
Qed.

(** An uninstallation: the list; then nothing, or the deletion of the digest that
    was listed. *)
Lemma uninstall_inv t log r log' :
  minikube_uninstall var parse_json render sha256 t log = (Done r, log') ->
  exists images log1, minikube_list var parse_json render sha256 log = (Done (Ok images), log1) /\
  match find_tag t images with
  | None => r = Ok tt /\ log' = log1
  | Some image => log' = log1 ++ [Sent (delete_request (manifest_url var (digest image)))] /\
      exists resp, http_answer log1 (delete_request (manifest_url var (digest image))) = Some resp /\
        (r = Ok tt <-> (http_status resp =? ACCEPTED) || (http_status resp =? NOT_FOUND) = true)
  end.
Proof.
  intros [(images & log1 & Hl & Hb)|[(e & Hl & _)|(m & _ & ?)]]%bind_inv; [|by apply list_no_error in Hl|done].
  exists images, log1. split; [done|]. destruct (find_tag t images) as [image|]; [|by injection Hb as <- <-].
  apply bind_inv in Hb as [(u & l1 & [[-> _]%checked_Done ->]%guard_Ok & Hb)|[(e & Hb & _)|(m & _ & ?)]];
    [|unfold guard, lift in Hb; by destruct (checked_url _)|done].
  apply bind_inv in Hb as [(resp & l2 & [Hr ->]%send_Ok & Hb)|[(e & Hb & _)|(m & _ & ?)]];
    [|unfold send in Hb; by destruct (http_answer _ _)|done].
  destruct (_ || _) eqn:Es; injection Hb as <- <-; (split; [done|]); exists resp; rewrite Es; by split_and!.
Qed.

Lemma get_right log log' t o :
  valid_tag t = true -> minikube_get var sha256 t log = (Done (Ok o), log') ->
  mk_tags log' = mk_tags log /\
  (o = (fun d => {| tag := t; digest := d |}) <$> mk_tags log !! t \/ disturbed log log' t).
Proof.
  intros Ht (u & l0 & [[-> Hu]%checked_Done ->]%guard_Ok & Hb)%bind_Ok.
  apply bind_Ok in Hb as (r & l1 & [Hr ->]%send_Ok & Hb).
  destruct (Z.eqb_spec (http_status r) NOT_FOUND) as [Hs|Hs].
  - injection Hb as <- <-. split; [by apply law_get_keeps|]. left. by rewrite (law_no_manifest _ _ _ Ht Hr Hs).
  - apply bind_Ok in Hb as (bytes & l2 & [Hbytes%read_Done ->]%guard_Ok & Hb). injection Hb as <- <-.
    split; [by apply law_get_keeps|].
    destruct (decide (http_status r = OK)) as [Ho|Ho].
    + left. by rewrite (law_manifest _ _ _ _ Ht Hr Ho Hbytes).
    + right. exists log, r. by split_and!.
Qed.

(** What an uninstallation that deletes does to the tags. *)
Lemma uninstall_deletes log images log1 image resp t :
  minikube_list var parse_json render sha256 log = (Done (Ok images), log1) -> find_tag t images = Some image ->
  http_answer log1 (delete_request (manifest_url var (digest image))) = Some resp ->
  mk_tags (log1 ++ [Sent (delete_request (manifest_url var (digest image)))]) =
    if (http_status resp =? ACCEPTED) || (http_status resp =? NOT_FOUND)
    then without_digest (digest image) (mk_tags log) else mk_tags log.
Proof.
  intros Hl [<- Hin]%find_tag_Some Hr. destruct (list_digest _ _ _ _ Hl Hin) as [bytes Hd]. rewrite Hd in *.
  by rewrite (deleted _ _ _ Hr), (list_keeps _ _ _ Hl).
Qed.

Lemma uninstall_right log log' t :
  minikube_uninstall var parse_json render sha256 t log = (Done (Ok tt), log') ->
  mk_tags log' = drop_image_of t (mk_tags log) \/ disturbed log log' t.
Proof.
  intros (images & log1 & Hl & Hu)%uninstall_inv. destruct (find_tag t images) as [image|] eqn:Ef.
  - destruct Hu as (-> & resp & Hr & Hs). rewrite (uninstall_deletes _ _ _ _ _ _ Hl Ef Hr), (proj1 Hs) by done.
    apply find_tag_Some in Ef as [<- Hin]. destruct (list_right _ _ _ Hl) as (_ & _ & Hright).
    destruct (Hright _ Hin) as [Htag|Hdist].
    + left. unfold drop_image_of. by rewrite Htag.
    + right. eapply disturbed_weaken; [done| |exact Hdist]. by apply prefix_app_r.
  - destruct Hu as [_ ->]. left. rewrite (list_keeps _ _ _ Hl). unfold drop_image_of.
    by rewrite (list_absent _ _ _ _ Hl Ef).
Qed.

Lemma uninstall_absent log log' t r :
  minikube_uninstall var parse_json render sha256 t log = (Done r, log') -> mk_tags log !! t = None ->
  r = Ok tt /\ exists l, log' = log ++ l /\ Forall (fun e => exists q, e = Sent q /\ sent_verb q = GET) l.
Proof.
  intros (images & log1 & Hl & Hu)%uninstall_inv Hnone. destruct (find_tag t images) as [image|] eqn:Ef.
  { exfalso. apply find_tag_Some in Ef as [<- Hin]. destruct (list_right _ _ _ Hl) as (_ & Hdom & _).
    destruct (proj1 (Hdom (tag image))) as [d Hd]; [|congruence]. by apply list_elem_of_In, in_map, list_elem_of_In. }
  destruct Hu as [-> ->]. split; [done|]. destruct (list_log _ _ _ Hl) as [l ->].
  eexists. split; [done|]. constructor; [by eexists|]. apply Forall_map, Forall_true. intros x. by eexists.
Qed.

Lemma uninstall_refused log log' t r :
  minikube_uninstall var parse_json render sha256 t log = (Done r, log') -> r <> Ok tt ->
  mk_tags log' = mk_tags log.
Proof.
  intros (images & log1 & Hl & Hu)%uninstall_inv Hne.
  destruct (find_tag t images) as [image|] eqn:Ef; [|by destruct Hu].
  destruct Hu as (-> & resp & Hr & Hs). rewrite (uninstall_deletes _ _ _ _ _ _ Hl Ef Hr). destruct (_ || _); [|done].
  destruct Hne. by apply Hs.
Qed.

(** C10: the operations on the Minikube registry implement those of a map from tags
    to digests in which only digests can be deleted: a list that succeeds has the
    tags of the registry, each once with its digest, and changes nothing; [get]
    looks a tag up; an uninstallation that succeeds has removed the tag together
    with all the other tags of its digest, and no tag of another one; for a tag
    that is not there it succeeds without a deletion; one that is refused has
    changed nothing.  The exception is a request for a manifest that the registry
    answers with another error: its status is not looked at. *)
Theorem minikube_implements_digests (log log' : list event) (t : string) :
  (forall images, minikube_list var parse_json render sha256 log = (Done (Ok images), log') ->
     mk_tags log' = mk_tags log /\ NoDup (map tag images) /\
     (forall t, t ∈ map tag images <-> is_Some (mk_tags log !! t)) /\
     forall image, image ∈ images ->
       mk_tags log !! tag image = Some (digest image) \/ disturbed log log' (tag image)) /\
  (forall o, valid_tag t = true -> minikube_get var sha256 t log = (Done (Ok o), log') ->
     mk_tags log' = mk_tags log /\
     (o = (fun d => {| tag := t; digest := d |}) <$> mk_tags log !! t \/ disturbed log log' t)) /\
  (minikube_uninstall var parse_json render sha256 t log = (Done (Ok tt), log') ->
     mk_tags log' = drop_image_of t (mk_tags log) \/ disturbed log log' t) /\
  (forall r, minikube_uninstall var parse_json render sha256 t log = (Done r, log') ->
     (mk_tags log !! t = None ->
        r = Ok tt /\ exists l, log' = log ++ l /\
          Forall (fun e => exists q, e = Sent q /\ sent_verb q = GET) l) /\
     (r <> Ok tt -> mk_tags log' = mk_tags log)).
Proof.
  split_and!.
  - intros images Hl. split; [by eapply list_keeps|by apply list_right].
  - apply get_right.
  - apply uninstall_right.
  - intros r Hu. split; intros; [by eapply uninstall_absent|by eapply uninstall_refused].
Qed.
End Laws.
End Minikube.

(** ** An instance: a registry in memory *)

Section Memory.
Context (var : environment) (initial : gmap string string) (broken : string -> bool).

#[local] Arguments strip : simpl never.
#[local] Arguments manifest_url : simpl never.

(** The hash of a manifest, for the instance. *)
Definition same_bytes (bytes : string) : string := bytes.
Definition hashed (bytes : string) : string := sha256_digest same_bytes bytes.

(** The manifest of whatever is pushed, and the manifests by tag, after the pushes
    and deletions of a log. *)
Definition pushed_bytes : string := "76a5".
Definition registry_next (m : gmap string string) (e : event) : gmap string string :=
  match e with
  | Sent {| sent_verb := DELETE; sent_url := url |} =>
      match strip (manifest_url var "") url with
      | Some d => filter (fun tb : string * string => hashed tb.2 <> d) m
      | None => m
      end
  | Ran argv =>
      if is_push argv then
        match last argv ≫= strip (new_reference var "") with
        | Some t => if valid_tag t then <[t := pushed_bytes]> m else m
        | None => m
        end
      else m
  | _ => m
  end.
Definition memory_manifests (log : list event) : gmap string string :=
  fold_left registry_next log (filter (fun tb : string * string => valid_tag tb.1 = true) initial).

Definition page (status : Z) (text : option string) : response :=
  {| http_status := status; status_text := fmt_int status; body := text |}.

(** The answer to [GET tags/list], when its text can be read back. *)
Definition tags_answer (l : list string) : response := page OK (simple_pretty (tags_document "ocf" l)).

(** The manifests of the tags in [broken] cannot be read. *)
#[export] Instance memory_registry : Http := {|
  url_ok _ := true;
  http_answer log q := Some (
    match strip (manifest_url var "") (sent_url q), sent_verb q with
    | Some t, GET =>
        if broken t then page 503 (Some "unavailable")
        else match memory_manifests log !! t with
             | Some bytes => page OK (Some bytes)
             | None => page NOT_FOUND (Some "MANIFEST_UNKNOWN")
             end
    | Some d, DELETE =>
        page (if decide (d ∈ (map_to_list (hashed <$> memory_manifests log)).*2) then ACCEPTED else NOT_FOUND) None
    | None, _ => tags_answer (map_to_list (memory_manifests log)).*1
    end);
|}.

Lemma url_of ref : strip (manifest_url var "") (manifest_url var ref) = Some ref.
Proof.
  assert (Hu : manifest_url var ref = manifest_url var "" +:+ ref)
    by (unfold manifest_url; by rewrite <- !str_app_assoc).
  rewrite Hu. apply strip_app.
Qed.

Lemma url_of_tags : strip (manifest_url var "") (tags_url var) = None.
Proof. unfold manifest_url, tags_url. by rewrite !strip_same. Qed.

Lemma memory_snoc log e : memory_manifests (log ++ [e]) = registry_next (memory_manifests log) e.
Proof. unfold memory_manifests. by rewrite fold_left_app. Qed.

Lemma memory_valid log t bytes : memory_manifests log !! t = Some bytes -> valid_tag t = true.
Proof.
  revert t bytes. induction log as [|e log IH] using rev_ind; intros t bytes; [by intros [_ ?]%map_lookup_filter_Some|].
  rewrite memory_snoc. destruct e as [argv|[[] url a]| |]; cbn [registry_next]; try apply IH.
  - destruct (is_push argv); [|apply IH]. destruct (last argv ≫= _) as [t'|]; [|apply IH].
    destruct (valid_tag t') eqn:Et; [|apply IH]. intros [[<- _]|[_ ?]]%lookup_insert_Some; [done|by eapply IH].
  - destruct (strip (manifest_url var "") url) as [d|]; [|apply IH]. intros [? _]%map_lookup_filter_Some. by eapply IH.
Qed.

Definition registry_tags (log : list event) : gmap string string := hashed <$> memory_manifests log.

Lemma memory_delete log d :
  registry_tags (log ++ [Sent (delete_request (manifest_url var d))]) = without_digest d (registry_tags log).
Proof.
  unfold registry_tags at 1. rewrite memory_snoc. simpl. rewrite url_of.
  unfold registry_tags, without_digest. by rewrite map_filter_fmap.
Qed.

#[export] Instance memory_MinikubeLaws : MinikubeLaws var simple_parse same_bytes.
Proof.
  exists registry_tags.
  - intros log t d Ht. unfold registry_tags in Ht. rewrite lookup_fmap in Ht.
    destruct (memory_manifests log !! t) eqn:Em; [|done]. by eapply memory_valid.
  - intros log r. simpl. rewrite url_of_tags. intros [= <-]. right. split; [done|]. simpl. intros text Ht. left.
    apply simple_serde in Ht. unfold simple_from_str in Ht. eexists _, _.
    split; [by destruct (simple_parse text) as [j|]; simplify_eq|]. split; [apply NoDup_fst_map_to_list|].
    intros t. unfold registry_tags. rewrite lookup_fmap, fmap_is_Some. split.
    + intros ([t' b] & -> & Hin%elem_of_map_to_list)%list_elem_of_fmap. by exists b.
    + intros [b Hb]. apply list_elem_of_fmap. exists (t, b). split; [done|by apply elem_of_map_to_list].
  - intros log t r bytes _. simpl. rewrite url_of. intros [= <-]. unfold registry_tags. rewrite lookup_fmap.
    destruct (broken t); [done|]. destruct (memory_manifests log !! t); [|done]. by intros _ [= ->].
  - intros log t r _. simpl. rewrite url_of. intros [= <-]. unfold registry_tags. rewrite lookup_fmap.
    destruct (broken t); [done|]. by destruct (memory_manifests log !! t).
  - intros log [v url a]. simpl. intros ->. unfold registry_tags. by rewrite memory_snoc.
  - intros log bytes r d. simpl. rewrite url_of. intros [= <-]. simpl. rewrite memory_delete.
    destruct (decide _) as [Hin|Hin]; [done|]. simpl.
    assert (Hno : forall t, registry_tags log !! t <> Some d).
    { intros t Ht. apply Hin, list_elem_of_fmap. exists (t, d). split; [done|by apply elem_of_map_to_list]. }
    split; [by apply without_digest_absent|done].
Defined.

(** Without broken manifests nothing is disturbed. *)
Lemma memory_calm log log' t : broken t = false -> ~ disturbed var log log' t.
Proof.
  intros Hb (log1 & r & _ & _ & Hr & Hok & Hnf). simpl in Hr. rewrite url_of, Hb in Hr. injection Hr as <-.
  by destruct (memory_manifests log1 !! t).
Qed.
End Memory.

(** ** Witnesses *)

Definition default_env : environment := fun _ => None.
Definition example_manifests : gmap string string := {["a" := "m1"; "b" := "m2"; "c" := "m1"]}.

Definition uninstall_in (broken : string -> bool) (t : string) : run (Result unit) * list event :=
  minikube_uninstall (H := memory_registry default_env example_manifests broken) default_env simple_parse no_render
    same_bytes t [].
Definition tags_after (broken : string -> bool) (log : list event) : gmap string string :=
  mk_tags (MinikubeLaws := memory_MinikubeLaws default_env example_manifests broken) log.

(** Two tags of one image go together; the third one stays. *)
Lemma minikube_implements_digests_witness :
  (uninstall_in (fun _ => false) "a").1 = Done (Ok tt) /\
  tags_after (fun _ => false) (uninstall_in (fun _ => false) "a").2 = {["b" := "sha256:m2"]}.
Proof.
  split; [vm_compute; reflexivity|].
  destruct (minikube_implements_digests (H := memory_registry default_env example_manifests (fun _ => false))
    default_env simple_parse no_render same_bytes [] (uninstall_in (fun _ => false) "a").2 "a") as (_ & _ & Hun & _).
  destruct Hun as [Htags|Hd]; [vm_compute; reflexivity| |].
  - refine (eq_trans Htags _). vm_compute. reflexivity.
  - destruct (memory_calm _ _ (fun _ => false) _ _ _ eq_refl Hd).
Defined.

#[local] Instance dead_http : Http := {| url_ok _ := true; http_answer _ _ := None |}.

Lemma unreachable_registry_panics_witness :
  exists m, (minikube_list default_env simple_parse no_render same_bytes []).1 = Panic m.
Proof. apply (unreachable_registry_panics default_env simple_parse no_render same_bytes [] "t"). reflexivity. Defined.

(** A manifest that could not be read: the uninstallation succeeds and the tag stays. *)
Example outage_hides_tag :
  (uninstall_in (String.eqb "a") "a").1 = Done (Ok tt) /\
  tags_after (String.eqb "a") (uninstall_in (String.eqb "a") "a").2 =
    {["a" := "sha256:m1"; "b" := "sha256:m2"; "c" := "sha256:m1"]}.
Proof. vm_compute. auto. Qed.
