(* ===== verification/Installations.v ===== *)
(** * Installations at the same time

    The AIM serves any number of [install] requests at once
    ([service/aim/src/main.rs]); they share containerd, and each of them leaves
    background tasks behind.  A world is the daemon with the log and the tasks of
    every installation; a turn is the next event of an installation, the next
    attempt of a task, or something that the daemon or another user of it does.

    A run of the world, seen from one installation, is a run of the system of
    [Cleanup.v] in which the others are strangers. *)

From S2P Require Import Prelude RustStr Json Errors Names Backoff Process AimEnv Containerd Cleanup Registry.

(** ** The world *)

Record installation := {
  (** What the commands of this installation are answered. *)
  answers : list event -> list string -> child;
  (** The random numbers of its namespace and of its tag; the upload. *)
  ns_random : Z;
  tag_random : Z;
  tag_letter : Z;
  upload : option string;
}.

Record job := { job_log : list event; job_tasks : list task }.
Record world (D : Type) := { shared : D; jobs : list job }.
Arguments shared {D} _.
Arguments jobs {D} _.

Inductive turn :=
| Go (i : nat) (now : Z)
| Retry (i k : nat) (now : Z)
| Stranger (args : list string)
| Wander (choice : Z).

Section Installations.
Context {D : Type} `{ContainerdLaws D} {B : Type} `{BackoffLaws B}.
Context (var : environment) (debug : dyn_AcmError -> string).
Context (simple : Z -> string) (ua : Z -> bool).
Context (xs : list installation).

Definition space (x : installation) : string := uuid simple (ns_random x).

(** The handler, after [configure] was called in [main]. *)
Definition install_answer (x : installation) : run (Result (Response Image)) * once * list event :=
  install (answers x) var debug simple ua (ns_random x) (tag_random x) (tag_letter x) (upload x) Complete [].
Definition script (x : installation) : list event := (install_answer x).2.

(** The system of one installation. *)
Definition view (w : world D) (j : job) : system D :=
  {| daemon := shared w; log := job_log j; tasks := job_tasks j |}.
Definition put (w : world D) (i : nat) (s : system D) : world D :=
  {| shared := daemon s; jobs := <[i := {| job_log := log s; job_tasks := tasks s |}]> (jobs w) |}.

Definition world_move (w : world D) (m : turn) : option (world D) :=
  match m with
  | Go i now =>
      match xs !! i, jobs w !! i with
      | Some x, Some j =>
          match script x !! length (job_log j) with
          | Some e => put w i <$> sys_move (B := B) (space x) (view w j) (Workflow e now)
          | None => None
          end
      | _, _ => None
      end
  | Retry i k now =>
      match xs !! i, jobs w !! i with
      | Some x, Some j => put w i <$> sys_move (B := B) (space x) (view w j) (Attempt k now)
      | _, _ => None
      end
  | Stranger args =>
      match namespace_of args with
      | Some n => if decide (n ∈ map space xs) then None
                  else Some {| shared := ctr_next (shared w) args; jobs := jobs w |}
      | None => None
      end
  | Wander c => Some {| shared := drift (shared w) c; jobs := jobs w |}
  end.

Definition world_start (d : D) : world D :=
  {| shared := d; jobs := map (fun _ => {| job_log := []; job_tasks := [] |}) xs |}.

(** Each installation is told what containerd answers. *)
Definition heard (w : world D) (m : turn) : Prop :=
  match m with
  | Go i now =>
      match xs !! i, jobs w !! i with
      | Some x, Some j =>
          match script x !! length (job_log j) with
          | Some e => answered (answers x) (view w j) (Workflow e now)
          | None => True
          end
      | _, _ => True
      end
  | _ => True
  end.

Inductive world_runs (d : D) : list turn -> world D -> Prop :=
| world_nil : world_runs d [] (world_start d)
| world_snoc ms w m w' : world_runs d ms w -> heard w m -> world_move w m = Some w' ->
    world_runs d (ms ++ [m]) w'.

(** ** Lemmas *)

(** An event that touches containerd only in a namespace. *)
Definition works_in (ns : string) (e : event) : Prop :=
  match e with
  | Ran argv => head argv = Some "ctr" -> namespace_of (tail argv) = Some ns
  | Sent _ => True
  | SpawnRemoveImage n _ | SpawnRemoveNamespace n => n = ns
  end.

Definition in_space (ns : string) (argv : list string) : Prop :=
  head argv = Some "ctr" -> namespace_of (tail argv) = Some ns.

Lemma quiet_import_in os ns tmp : quiet (in_space ns) (import_ os ns tmp).
Proof.
  unfold import_, import_path, extract_image_metadata, ctr.
  repeat (apply quiet_bind || intros); auto with steps; by apply quiet_run_cmd.
Qed.

Lemma ran_works ns l : Forall (in_space ns) l -> Forall (works_in ns) (map Ran l).
Proof. intros Hl. apply Forall_map. eapply Forall_impl; [exact Hl|]. by intros argv. Qed.

Lemma harmless_works ns e : harmless ns e -> works_in ns e.
Proof. destruct e as [argv|q|n ref|n]; simpl; [|done..]. by intros [Hh|[rest ->]]. Qed.

Lemma script_import x :
  script x = (containerd_import (answers x) var debug simple ua (ns_random x) (tag_random x) (tag_letter x)
                (upload x) []).2.
Proof.
  unfold script, install_answer, install, handler, registry_import, configured, configure, call_once.
  by destruct (containerd_import _ _ _ _ _ _ _ _ _ _) as [r l].
Qed.

(** An installation keeps to its namespace. *)
Lemma script_works_in x : Forall (works_in (space x)) (script x).
Proof.
  rewrite script_import. destruct (containerd_import _ _ _ _ _ _ _ _ _ _) as [r L] eqn:E. simpl.
  apply import_all_inv in E as (l & -> & Hb). apply Forall_app. split; [|by repeat constructor].
  apply bind_inv in Hb as [(i & l1 & Hi & Hb)|[(e & Hi & _)|(m & Hi & _)]].
  2-3: apply quiet_import_in in Hi as (cs & -> & Hcs); by apply ran_works.
  pose proof (import_Ok _ _ _ _ _ _ Hi) as [Hns _]. apply quiet_import_in in Hi as (cs & -> & Hcs).
  apply rest_shape in Hb as (pre & post & -> & Hpost & Hpre). rewrite Hns in *.
  apply Forall_app. split; [by apply ran_works|]. apply Forall_app. split.
  - destruct Hpre as [->|(b & -> & _)]; by repeat constructor.
  - constructor; [done|]. eapply Forall_impl; [exact Hpost|]. apply harmless_works.
Qed.

(** An event of a script changes the daemon as a stranger does, or not at all. *)
Lemma event_foreign ns n (s s' : system D) e now l ts :
  works_in n e -> n <> ns -> sys_move (B := B) n s (Workflow e now) = Some s' ->
  daemon s' = daemon s \/
  exists args, sys_move (B := B) ns {| daemon := daemon s; log := l; tasks := ts |} (Foreign args) =
    Some {| daemon := daemon s'; log := l; tasks := ts |}.
Proof.
  intros He Hne Hm. destruct e as [argv|q|n' ref|n']; simpl in Hm; simplify_eq/=; [|by left..].
  destruct (decide (head argv = Some "ctr")) as [Hc|Hc]; [right|by left].
  exists (tail argv). by rewrite (He Hc), decide_False.
Qed.

Lemma retry_foreign ns n (s s' : system D) k now l ts :
  Forall (fun t => removal_of n (what t)) (tasks s) -> n <> ns ->
  sys_move (B := B) n s (Attempt k now) = Some s' ->
  exists args, sys_move (B := B) ns {| daemon := daemon s; log := l; tasks := ts |} (Foreign args) =
    Some {| daemon := daemon s'; log := l; tasks := ts |}.
Proof.
  intros Ht Hne Hm. simpl in Hm. destruct (tasks s !! k) as [t|] eqn:Ek; [|done].
  destruct (status B t); simplify_eq/=. exists (removal_args (what t)).
  rewrite Forall_lookup in Ht. destruct (Ht _ _ Ek) as [->|[ref ->]]; simpl; by rewrite decide_False.
Qed.

(** Every installation has done the beginning of its script, in a system in which
    the others are strangers. *)
Definition projects (d : D) (w : world D) : Prop :=
  forall i x j, xs !! i = Some x -> jobs w !! i = Some j ->
    job_log j `prefix_of` script x /\
    exists ms, runs (B := B) (space x) (answers x) (sys_start d) ms (view w j).

Lemma projects_tasks d w i x j :
  projects d w -> xs !! i = Some x -> jobs w !! i = Some j ->
  Forall (fun t => removal_of (space x) (what t)) (job_tasks j).
Proof.
  intros Hw Hx Hj. destruct (Hw _ _ _ Hx Hj) as [[rest Hpf] (ms & Hr)]. apply tasks_spawned in Hr.
  apply Forall_forall. intros t Ht. destruct (task_logged (view w j) t Hr Ht) as [Hl Hs]. simpl in Hl.
  pose proof (script_works_in x) as Hin. rewrite Hpf, Forall_app in Hin. destruct Hin as [Hin _].
  rewrite Forall_forall in Hin. specialize (Hin _ Hl). unfold removal_of.
  destruct (what t); simpl in *; subst; [done|done|eauto|by left].
Qed.

(** A change of the daemon that a stranger could have made. *)
Lemma projects_foreign d w i x j d' :
  projects d w -> xs !! i = Some x -> jobs w !! i = Some j ->
  (d' = shared w \/ exists m, answered (answers x) (view w j) m /\
     sys_move (B := B) (space x) (view w j) m = Some (view {| shared := d'; jobs := jobs w |} j)) ->
  job_log j `prefix_of` script x /\
  exists ms, runs (B := B) (space x) (answers x) (sys_start d) ms (view {| shared := d'; jobs := jobs w |} j).
Proof.
  intros Hw Hx Hj [->|(m & Ha & Hm)]; destruct (Hw _ _ _ Hx Hj) as [Hpf (ms & Hr)]; (split; [done|]); [by exists ms|].
  exists (ms ++ [m]). by eapply runs_snoc.
Qed.

(** A turn of one installation, for itself and for the others. *)
Lemma projects_put d w i x j s' e :
  projects d w -> xs !! i = Some x -> jobs w !! i = Some j ->
  log s' = job_log j ++ e -> log s' `prefix_of` script x ->
  (exists ms, runs (B := B) (space x) (answers x) (sys_start d) ms s') ->
  (forall i' x' j', i' <> i -> xs !! i' = Some x' -> jobs w !! i' = Some j' ->
     daemon s' = shared w \/ exists args, sys_move (B := B) (space x') (view w j') (Foreign args) =
       Some {| daemon := daemon s'; log := job_log j'; tasks := job_tasks j' |}) ->
  projects d (put w i s').
Proof.
  intros Hw Hx Hj Hl Hpf Hr Hothers i' x' j' Hx' Hj'. simpl in Hj'. destruct (decide (i' = i)) as [->|Hne].
  - rewrite list_lookup_insert_eq in Hj' by (by eapply lookup_lt_Some). simplify_eq. by destruct s'.
  - rewrite list_lookup_insert_ne in Hj' by done. apply (projects_foreign d w i' x' j' (daemon s')); [done..|].
    destruct (Hothers _ _ _ Hne Hx' Hj') as [?|(args & Hm)]; [by left|right]. by exists (Foreign args).
Qed.

Context (Hdistinct : NoDup (map space xs)).

Lemma space_ne i i' x x' : xs !! i = Some x -> xs !! i' = Some x' -> i' <> i -> space x <> space x'.
Proof.
  intros Hx Hx' Hne Heq. apply Hne. eapply (NoDup_lookup _ _ _ _ Hdistinct).
  - rewrite list_lookup_fmap, Hx'. reflexivity.
  - rewrite list_lookup_fmap, Hx. simpl. by rewrite Heq.
Qed.

Lemma projects_move d w m w' :
  projects d w -> heard w m -> world_move w m = Some w' -> projects d w'.
Proof.
  intros Hw Hh Hm. destruct m as [i now|i k now|args|c]; unfold world_move in Hm.
  - destruct (xs !! i) as [x|] eqn:Hx, (jobs w !! i) as [j|] eqn:Hj; try done.
    destruct (script x !! length (job_log j)) as [e|] eqn:He; [|done].
    destruct (sys_move (space x) (view w j) (Workflow e now)) as [s'|] eqn:Hs; [|done]. injection Hm as <-.
    pose proof (move_log _ _ _ _ Hs) as Hl.
    destruct (Hw _ _ _ Hx Hj) as [Hpf (ms & Hr)]. eapply (projects_put d w i x j s'); eauto.
    + rewrite Hl. simpl. destruct Hpf as [rest Hpf]. rewrite Hpf in He |- *.
      rewrite lookup_app_r, Nat.sub_diag in He by lia. destruct rest; simplify_eq/=. by apply prefix_app, prefix_cons, prefix_nil.
    + exists (ms ++ [Workflow e now]). eapply runs_snoc; [done| |done]. unfold heard in Hh. by rewrite Hx, Hj, He in Hh.
    + intros i' x' j' Hne Hx' Hj'. eapply (event_foreign (space x') (space x) (view w j) s'); [|by eapply space_ne|exact Hs].
      pose proof (script_works_in x) as Hin. rewrite Forall_lookup in Hin. by eapply Hin.
  - destruct (xs !! i) as [x|] eqn:Hx, (jobs w !! i) as [j|] eqn:Hj; try done.
    destruct (sys_move (space x) (view w j) (Attempt k now)) as [s'|] eqn:Hs; [|done]. injection Hm as <-.
    pose proof (move_log _ _ _ _ Hs) as Hl.
    destruct (Hw _ _ _ Hx Hj) as [Hpf (ms & Hr)]. eapply (projects_put d w i x j s'); eauto.
    + rewrite Hl. by rewrite app_nil_r.
    + exists (ms ++ [Attempt k now]). by eapply runs_snoc.
    + intros i' x' j' Hne Hx' Hj'. right.
      eapply (retry_foreign (space x') (space x) (view w j) s'); [by eapply projects_tasks|by eapply space_ne|exact Hs].
  - destruct (namespace_of args) as [n|] eqn:En; [|done]. case_decide as Hn; [done|]. injection Hm as <-.
    intros i x j Hx Hj. apply (projects_foreign d w i); [done..|]. right. exists (Foreign args). split; [done|].
    simpl. rewrite En, decide_False; [done|]. intros ->. apply Hn. apply list_elem_of_fmap.
    exists x. split; [done|by eapply list_elem_of_lookup_2].
  - injection Hm as <-. intros i x j Hx Hj. apply (projects_foreign d w i); [done..|]. right. by exists (Drift c).
Qed.

Lemma world_projects d ms w : world_runs d ms w -> projects d w.
Proof.
  induction 1 as [|ms w m w' _ IH Hh Hm]; [|by eapply projects_move].
  intros i x j Hx Hj. simpl in Hj. rewrite list_lookup_fmap, Hx in Hj. injection Hj as <-. simpl.
  split; [apply prefix_nil|]. exists []. constructor.
Qed.

(** ** Theorem *)

(** C5: any number of installations at the same time leave nothing behind that is
    not being removed: when the namespaces of the installations differ, then for
    every one of them that is over and whose upload could be read, whatever its
    end and however it was interleaved with the others, with all the background
    tasks, with other users of containerd and with the daemon: every image that
    is left in its namespace has a task that still tries to remove it or gave up;
    the next attempt of a task succeeds when containerd serves requests, for the
    namespace when the images are removed and no deletion is under way; and when
    the task of the namespace has succeeded, the namespace is gone. *)
Theorem installations_leave_nothing (d : D) (ms : list turn) (w : world D) (i : nat) (x : installation) (j : job)
  (img : TmpImage)
  (Hruns : world_runs d ms w) (Hx : xs !! i = Some x) (Hj : jobs w !! i = Some j) (Hover : job_log j = script x)
  (Himport : (import_ (answers x) (space x) (upload x) []).1 = Done (Ok img)) :
  (forall ref, ref ∈ images (shared w) (space x) ->
     exists t, t ∈ job_tasks j /\ what t = SpawnRemoveImage (space x) ref /\ status B t <> Removed) /\
  (forall k t now, job_tasks j !! k = Some t -> status B t = Removing -> responsive (shared w) = true ->
     (what t = SpawnRemoveNamespace (space x) -> busy (shared w) (space x) = false /\
        forall t', t' ∈ job_tasks j -> what t' <> what t -> status B t' = Removed) ->
     exists w' j' t', world_move w (Retry i k now) = Some w' /\ jobs w' !! i = Some j' /\
       job_tasks j' !! k = Some t' /\ what t' = what t /\ status B t' = Removed) /\
  (exists k t, job_tasks j !! k = Some t /\ what t = SpawnRemoveNamespace (space x) /\
     (status B t = Removed -> images (shared w) (space x) = ∅ /\ space x ∉ namespaces (shared w))).
Proof.
  destruct (world_projects _ _ _ Hruns _ _ _ Hx Hj) as [_ (ms' & Hr)]. rewrite script_import in Hover.
  destruct (containerd_import _ _ _ _ _ _ _ _ _ _) as [r L] eqn:E. simpl in Hover.
  destruct (installation_leaves_nothing _ _ _ _ _ _ _ _ _ _ _ _ _ _ _ E Himport Hr Hover) as (Hi & Hnext & Hns).
  split_and!; [done| |done]. intros k t now Hk Ht Hup Hcond.
  destruct (Hnext k t now Hk Ht Hup Hcond) as (s' & t' & Hm & Ht' & Hw & Hs).
  exists (put w i s'), {| job_log := log s'; job_tasks := tasks s' |}, t'. unfold world_move, space. rewrite Hx, Hj, Hm.
  split_and!; try done. simpl. apply list_lookup_insert_eq. by eapply lookup_lt_Some.
Qed.

(** The background of one installation, as turns of the world. *)
Definition turn_of (i : nat) (m : move) : turn :=
  match m with
  | Attempt k now => Retry i k now
  | Drift c => Wander c
  | Workflow _ now => Go i now
  | Foreign args => Stranger args
  end.

Lemma lift_background d ms w i x j ms' s' :
  world_runs d ms w -> xs !! i = Some x -> jobs w !! i = Some j ->
  runs (B := B) (space x) (answers x) (view w j) ms' s' -> forallb background ms' = true ->
  exists w' j', world_runs d (ms ++ map (turn_of i) ms') w' /\ jobs w' !! i = Some j' /\ view w' j' = s'.
Proof.
  intros Hw Hx Hj. induction 1 as [|ms' s1 m s2 _ IH Ha Hm]; intros Hbg; [exists w, j; by rewrite app_nil_r|].
  rewrite forallb_app in Hbg. apply andb_true_iff in Hbg as [Hbg Hmb]. simpl in Hmb. rewrite andb_true_r in Hmb.
  destruct (IH Hbg) as (w1 & j1 & Hw1 & Hj1 & <-). rewrite map_app, app_assoc.
  destruct m as [e now|k now|args|c]; try done.
  - exists (put w1 i s2), {| job_log := log s2; job_tasks := tasks s2 |}. split_and!.
    + eapply world_snoc; [exact Hw1|done|]. simpl turn_of. unfold world_move. by rewrite Hx, Hj1, Hm.
    + simpl. apply list_lookup_insert_eq. by eapply lookup_lt_Some.
    + by destruct s2.
  - simpl in Hm. injection Hm as <-. exists {| shared := drift (shared w1) c; jobs := jobs w1 |}, j1.
    split_and!; [|done|done]. by eapply world_snoc.
Qed.

(** C6: the clean-up of an installation can always be brought to its end while the
    others go on: when it is over, its upload could be read and none of its tasks
    gave up, and when containerd goes on serving and finishes its deletions, then
    there is a sequence of attempts of its own tasks after which its namespace
    holds no images and is gone. *)
Theorem installations_can_finish (d : D) (ms : list turn) (w : world D) (i : nat) (x : installation) (j : job)
  (img : TmpImage)
  (Hruns : world_runs d ms w) (Hx : xs !! i = Some x) (Hj : jobs w !! i = Some j) (Hover : job_log j = script x)
  (Himport : (import_ (answers x) (space x) (upload x) []).1 = Done (Ok img))
  (Htasks : Forall (fun t => status B t <> Orphaned) (job_tasks j)) (Hup : responsive (shared w) = true)
  (Hstays : forall (d : D) args, responsive d = true -> responsive (ctr_next d args) = true)
  (Hsettles : forall d : D, responsive d = true ->
     exists c, responsive (drift d c) = true /\ forall n, busy (drift d c) n = false) :
  exists ts w', world_runs d (ms ++ ts) w' /\
    Forall (fun m => match m with Retry i' _ _ => i' = i | Wander _ => True | _ => False end) ts /\
    images (shared w') (space x) = ∅ /\ space x ∉ namespaces (shared w').
Proof.
  destruct (world_projects _ _ _ Hruns _ _ _ Hx Hj) as [_ (ms0 & Hr)]. rewrite script_import in Hover.
  destruct (containerd_import _ _ _ _ _ _ _ _ _ _) as [r L] eqn:E. simpl in Hover.
  destruct (drain _ _ _ _ _ _ _ _ _ Hstays Hsettles _ _ _ _ _ _ E Himport Hr Hover Hup Htasks)
    as (ms' & s' & Hr' & Hbg & Himages & Hgone).
  destruct (lift_background _ _ _ _ _ _ _ _ Hruns Hx Hj Hr' Hbg) as (w' & j' & Hw' & Hj' & <-).
  exists (map (turn_of i) ms'), w'. split_and!; [done| |done|done].
  apply Forall_map, Forall_forall. rewrite forallb_forall in Hbg. intros m Hm%list_elem_of_In%Hbg. by destruct m.
Qed.
End Installations.

(** ** Witness *)

(** Two installations by turns; then all the removals of images, the daemon
    finishes the deletions, and the first namespace is removed. *)
Definition first_one : installation :=
  {| answers := memory_os; ns_random := 1; tag_random := 2; tag_letter := 97; upload := Some "/tmp/a" |}.
Definition second_one : installation :=
  {| answers := memory_os; ns_random := 3; tag_random := 4; tag_letter := 98; upload := Some "/tmp/b" |}.
Definition both : list installation := [first_one; second_one].

Notation their_script := (script (fun _ => None) dyn_display hex_simple no_unicode).
Notation their_move := (world_move (B := simple_backoff) (fun _ => None) dyn_display hex_simple no_unicode both).

Fixpoint by_turns (n : nat) : list turn :=
  match n with O => [] | S n => Go 0 0 :: Go 1 0 :: by_turns n end.
Definition their_turns : list turn :=
  by_turns (length (their_script first_one)) ++
  [Retry 0 1 1; Retry 1 0 1; Retry 0 0 2; Retry 1 2 3; Wander 0; Retry 1 1 4].

Definition world_all (w : option (world memory)) (m : turn) : option (world memory) := w ≫= fun w => their_move w m.
Definition reached (ms : list turn) : world memory :=
  match fold_left world_all ms (Some (world_start both empty_daemon)) with
  | Some w => w
  | None => world_start both empty_daemon
  end.

Fixpoint all_heard (w : world memory) (ms : list turn) : Prop :=
  match ms with
  | [] => True
  | m :: ms =>
      heard (fun _ => None) dyn_display hex_simple no_unicode both w m /\
      match their_move w m with Some w => all_heard w ms | None => False end
  end.

Lemma all_heard_runs ms pre w :
  world_runs (B := simple_backoff) (fun _ => None) dyn_display hex_simple no_unicode both empty_daemon pre w ->
  all_heard w ms ->
  exists w', fold_left world_all ms (Some w) = Some w' /\
    world_runs (B := simple_backoff) (fun _ => None) dyn_display hex_simple no_unicode both empty_daemon (pre ++ ms) w'.
Proof.
  revert pre w. induction ms as [|m ms IH]; intros pre w Hr; cbn [all_heard fold_left].
  - intros _. exists w. by rewrite app_nil_r.
  - intros [Hh Hrest]. destruct (their_move w m) as [w1|] eqn:Em; [|done].
    destruct (IH (pre ++ [m]) w1) as (w' & Hf & Hw'); [by eapply world_snoc|done|].
    exists w'. rewrite <- app_assoc in Hw'. split; [|done]. unfold world_all at 2. simpl mbind. by rewrite Em.
Qed.

Lemma both_run : world_runs (B := simple_backoff) (fun _ => None) dyn_display hex_simple no_unicode both empty_daemon
  their_turns (reached their_turns).
Proof.
  destruct (all_heard_runs their_turns [] (world_start both empty_daemon)) as (w & Hf & Hw);
    [constructor|vm_compute; repeat split; reflexivity|].
  unfold reached. by rewrite Hf.
Qed.

Definition no_job : job := {| job_log := []; job_tasks := [] |}.
Definition first_job : job := default no_job (jobs (reached their_turns) !! 0%nat).
Definition namespace_task : task :=
  default {| what := Ran []; began := 0; tried := [] |} (job_tasks first_job !! 2%nat).
Definition first_image : TmpImage :=
  match (import_ memory_os (space hex_simple first_one) (Some "/tmp/a") []).1 with
  | Done (Ok i) => i
  | _ => {| tmp_reference := ""; tmp_tag := ""; tmp_digest := ""; tmp_namespace := "" |}
  end.

Lemma both_differ : NoDup (map (space hex_simple) both).
Proof. apply (bool_decide_unpack (NoDup (map (space hex_simple) both))). vm_compute. reflexivity. Qed.
Lemma first_job_at : jobs (reached their_turns) !! 0%nat = Some first_job.
Proof. vm_compute. reflexivity. Qed.
Lemma first_job_over : job_log first_job = their_script first_one.
Proof. vm_compute. reflexivity. Qed.
Lemma first_job_read : (import_ memory_os (space hex_simple first_one) (Some "/tmp/a") []).1 = Done (Ok first_image).
Proof. vm_compute. reflexivity. Qed.
Lemma namespace_task_at : job_tasks first_job !! 2%nat = Some namespace_task.
Proof. vm_compute. reflexivity. Qed.
Lemma first_job_ready :
  busy (shared (reached their_turns)) (space hex_simple first_one) = false /\
  forall t', t' ∈ job_tasks first_job -> what t' <> what namespace_task -> status simple_backoff t' = Removed.
Proof.
  split; [vm_compute; reflexivity|].
  assert (Hall : forall k t', job_tasks first_job !! k = Some t' -> (k < 2)%nat -> status simple_backoff t' = Removed).
  { intros [|[|k]] t'; [..|lia]; vm_compute; intros [= <-] _; reflexivity. }
  intros t' [k Hk]%list_elem_of_lookup Hne. apply (Hall _ _ Hk).
  pose proof (lookup_lt_Some _ _ _ Hk) as Hlt.
  assert (Hlen : length (job_tasks first_job) = 3%nat) by (vm_compute; reflexivity). rewrite Hlen in Hlt.
  destruct (decide (k = 2%nat)) as [->|]; [|lia]. destruct Hne. f_equal. apply (inj Some).
  exact (eq_trans (eq_sym Hk) namespace_task_at).
Qed.

Lemma installations_leave_nothing_witness :
  exists w' j' t', their_move (reached their_turns) (Retry 0 2 5) = Some w' /\ jobs w' !! 0%nat = Some j' /\
    job_tasks j' !! 2%nat = Some t' /\ what t' = what namespace_task /\ status simple_backoff t' = Removed.
Proof.
  refine (proj1 (proj2 (installations_leave_nothing (B := simple_backoff) (fun _ => None) dyn_display hex_simple no_unicode
    both both_differ empty_daemon their_turns (reached their_turns) 0%nat first_one first_job first_image both_run
    eq_refl first_job_at first_job_over first_job_read)) 2%nat namespace_task 5 namespace_task_at _ _ _).
  - vm_compute. reflexivity.
  - vm_compute. reflexivity.
  - intros _. exact first_job_ready.
Defined.

Lemma memory_stays (d : memory) args : responsive d = true -> responsive (ctr_next d args) = true.
Proof.
  unfold ctr_next. simpl. intros Hup. rewrite Hup. destruct (namespace_of args) as [n|]; [|done].
  destruct (parse args); simpl; repeat case_match; done.
Qed.

Lemma memory_settles (d : memory) :
  responsive d = true -> exists c, responsive (drift d c) = true /\ forall n, busy (drift d c) n = false.
Proof.
  intros Hup. exists 0. split; [done|]. intros n. simpl. unfold slice_at. simpl. rewrite lookup_fmap.
  by destruct (store d !! n).
Qed.

(** Straight after the last event. *)
Definition early_turns : list turn := by_turns (length (their_script first_one)).
Definition early_job : job := default no_job (jobs (reached early_turns) !! 0%nat).

Lemma early_run : world_runs (B := simple_backoff) (fun _ => None) dyn_display hex_simple no_unicode both empty_daemon
  early_turns (reached early_turns).
Proof.
  destruct (all_heard_runs early_turns [] (world_start both empty_daemon)) as (w & Hf & Hw);
    [constructor|vm_compute; repeat split; reflexivity|].
  unfold reached. by rewrite Hf.
Qed.
Lemma early_job_at : jobs (reached early_turns) !! 0%nat = Some early_job.
Proof. vm_compute. reflexivity. Qed.
Lemma early_job_over : job_log early_job = their_script first_one.
Proof. vm_compute. reflexivity. Qed.
Lemma early_job_trying : Forall (fun t => status simple_backoff t <> Orphaned) (job_tasks early_job).
Proof.
  apply Forall_lookup. intros k t Hk.
  assert (Hall : forall k, (k < 3)%nat -> forall t, job_tasks early_job !! k = Some t -> status simple_backoff t = Removing).
  { intros [|[|[|?]]] Hlt; [..|lia]; vm_compute; intros t' [= <-]; reflexivity. }
  pose proof (lookup_lt_Some _ _ _ Hk) as Hlt.
  assert (Hlen : length (job_tasks early_job) = 3%nat) by (vm_compute; reflexivity). rewrite Hlen in Hlt.
  rewrite (Hall k Hlt t Hk). discriminate.
Qed.

Lemma installations_can_finish_witness :
  exists ts w', world_runs (B := simple_backoff) (fun _ => None) dyn_display hex_simple no_unicode both empty_daemon
      (early_turns ++ ts) w' /\
    Forall (fun m => match m with Retry i' _ _ => i' = 0%nat | Wander _ => True | _ => False end) ts /\
    images (shared w') (space hex_simple first_one) = ∅ /\ space hex_simple first_one ∉ namespaces (shared w').
Proof.
  refine (installations_can_finish (B := simple_backoff) (fun _ => None) dyn_display hex_simple no_unicode both
    both_differ empty_daemon early_turns (reached early_turns) 0%nat first_one early_job first_image early_run
    eq_refl early_job_at early_job_over first_job_read early_job_trying _ memory_stays memory_settles).
  vm_compute. reflexivity.
Defined.
