(* ===== verification/Aim.v ===== *)
(** * The image manager

    [service/aim/src/main.rs] over [registry/mod.rs]: what the service does at
    its start, and the life of an image through its endpoints, over either
    registry.

    [RegistryLaws] is one of the two registries with its laws, [EcrLaws] or
    [MinikubeLaws], as the variables select it; what the operations of
    [ecr/mod.rs] and [minikube/mod.rs] do to it is proved.  [PushLaws] is what the documentation of [ctr]
    says about an image on its way: the table shows its digest, a new tag is a
    name for the same image, and a push puts the image into the registry. *)

From S2P Require Import Prelude RustStr Json Errors Names Backoff Process AimEnv Containerd Cleanup Registry Ecr Minikube.

(** ** The start: [main] *)

(** [ByteUnit::Gigabyte(10)]. *)
Definition MAX_UPLOAD_SIZE : Z := 10 * 10 ^ 9.

Definition aim_config : Config := {| address := "0.0.0.0"; limits := [("file", MAX_UPLOAD_SIZE)] |}.

(** Up to [launch]; what [env_logger] does with its variable is not modelled. *)
Definition aim_main (os : list event -> list string -> child) (var : environment) (debug : dyn_AcmError -> string)
  : run Config * once * list event :=
  match configure os (set_var "RUST_LOG_STYLE" "always" var) debug Fresh [] with
  | (Done _, o, log) => (Done aim_config, o, log)
  | (Panic m, o, log) => (Panic m, o, log)
  end.

(** A service that is launched is configured, for good: with Minikube nothing was
    run; with ECR all the variables that are mandatory are set, and the tool of AWS
    was given the two parts of the key and the region, in this order, and nothing
    else was run. *)
Theorem launched_is_configured (os : list event -> list string -> child) (var : environment)
  (debug : dyn_AcmError -> string) (config : Config) (o : once) (log : list event)
  (Hmain : aim_main os var debug = (Done config, o, log)) :
  o = Complete /\ config = aim_config /\
  match which var with
  | Done Minikube => log = []
  | Done Ecr => exists key secret region user,
      (var "AWS_ACCESS_KEY_ID" = Some key /\ key <> "") /\ (var "AWS_SECRET_ACCESS_KEY" = Some secret /\ secret <> "") /\
      (var "AWS_REGION" = Some region /\ region <> "") /\ (var "AWS_USERNAME" = Some user /\ user <> "") /\
      log = [Ran ["aws"; "configure"; "set"; "aws_access_key_id"; key];
             Ran ["aws"; "configure"; "set"; "aws_secret_access_key"; secret];
             Ran ["aws"; "configure"; "set"; "region"; region]]
  | Panic _ => False
  end.
Proof.
  unfold aim_main, configure, call_once in Hmain. set (var' := set_var "RUST_LOG_STYLE" "always" var) in *.
  destruct (configure_body os var' debug []) as [[[[]|e]|m] l] eqn:Eb; [| |done].
  2: by apply configure_body_no_error in Eb.
  injection Hmain as <- <- <-. split_and!; [done..|]. unfold configure_body in Eb.
  apply bind_Ok in Eb as (impl & l0 & [Hw ->]%guard_Ok & Eb). change (which var') with (which var) in Hw. rewrite Hw. destruct impl; [|by injection Eb].
  apply bind_Ok in Eb as (key & l1 & [Hkey ->]%guard_Ok & Eb).
  apply bind_Ok in Eb as (access & l2 & [Hsecret ->]%guard_Ok & Eb).
  apply bind_Ok in Eb as (region & l3 & [Hregion ->]%guard_Ok & Eb).
  apply bind_Ok in Eb as (user & l4 & [Huser ->]%guard_Ok & Eb).
  apply bind_Ok in Eb as (o1 & l5 & [-> _]%aws_unwrap_ok & Eb). apply bind_Ok in Eb as (o2 & l6 & [-> _]%aws_unwrap_ok & Eb).
  apply bind_Ok in Eb as (o3 & l7 & [-> _]%aws_unwrap_ok & Eb). injection Eb as <-.
  apply run_bind_Done in Hsecret as (secret & Hsecret & [= <-]). exists key, secret, region, user.
  apply mandatory_Done in Hkey, Hsecret, Hregion, Huser. destruct Hkey, Hsecret, Hregion, Huser. by split_and!.
Qed.

Definition aws_env : environment := fun name =>
  if decide (name = "IMPLEMENTATION") then Some "ecr" else Some name.

Lemma launched_is_configured_witness :
  exists log, aim_main refusing_system aws_env dyn_display = (Done aim_config, Complete, log) /\ length log = 3%nat.
Proof.
  eexists. split; [vm_compute; reflexivity|].
  edestruct (launched_is_configured refusing_system aws_env dyn_display) as (_ & _ & Hlog); [vm_compute; reflexivity|].
  vm_compute in Hlog. reflexivity.
Defined.

(** ** What the endpoints need from a registry *)

Section Interface.
Context (os : list event -> list string -> child) (var : environment).
Context (parse_json : string -> result json string) (render : string -> de_error -> string).
Context `{Http} (sha256 : string -> string).

Definition backend_list : step (list Image) :=
  dispatch var (ecr_list os var parse_json render) (minikube_list var parse_json render sha256).
Definition backend_get (t : string) : step (option Image) :=
  dispatch var (ecr_get os var parse_json render t) (minikube_get var sha256 t).
Definition backend_uninstall (t : string) : step unit :=
  dispatch var (ecr_uninstall os var parse_json render t) (minikube_uninstall var parse_json render sha256 t).

(** The registry that the variables select. *)
Inductive RegistryLaws : Type :=
| OnEcr (Hw : which var = Done Ecr) (laws : EcrLaws os var parse_json)
| OnMinikube (Hw : which var = Done Minikube) (laws : MinikubeLaws var parse_json sha256).

(** Its tags with their digests, after what was done. *)
Definition reg_tags (reg : RegistryLaws) (log : list event) : gmap string string :=
  match reg with
  | OnEcr _ _ => ecr_tags log
  | OnMinikube _ _ => mk_tags log
  end.

(** When a list or a look-up from [log] to [log'] may miss the tag: over ECR, when
    there is more than the page of a hundred images that the command prints; over
    Minikube, when a request for the manifest was answered with another error. *)
Definition reg_disturbed (reg : RegistryLaws) (log log' : list event) (t : string) : Prop :=
  match reg with
  | OnEcr _ _ => ~ fits (ecr_tags log) (ecr_untagged log)
  | OnMinikube _ _ => disturbed var log log' t
  end.

(** An uninstallation: ECR removes the tag only, Minikube all the tags of its
    image. *)
Definition reg_without (reg : RegistryLaws) (t : string) (m : gmap string string) : gmap string string :=
  match reg with
  | OnEcr _ _ => delete t m
  | OnMinikube _ _ => drop_image_of t m
  end.

Lemma dispatch_to {A} impl (on_ecr on_minikube : step A) :
  which var = Done impl ->
  dispatch var on_ecr on_minikube = match impl with Ecr => on_ecr | Minikube => on_minikube end.
Proof. intros Hw. unfold dispatch, bind, guard, lift. by rewrite Hw. Qed.

Context (reg : RegistryLaws).

Lemma reg_without_lookup t m : reg_without reg t m !! t = None.
Proof.
  destruct reg; simpl; [apply lookup_delete_eq|]. unfold drop_image_of. destruct (m !! t) as [d|] eqn:Et; [|done].
  apply map_lookup_filter_None. right. intros d' Hd' Hne. simpl in Hne. congruence.
Qed.

Lemma reg_list_right log images log' t d :
  backend_list log = (Done (Ok images), log') -> reg_tags reg log !! t = Some d ->
  {| tag := t; digest := d |} ∈ images \/ reg_disturbed reg log log' t.
Proof.
  unfold backend_list. destruct reg as [Hw laws|Hw laws]; simpl; rewrite (dispatch_to _ _ _ Hw); intros Hl Ht.
  - destruct (ecr_list_right _ _ _ _ _ _ _ Hl) as (_ & (_ & _ & Hall) & _).
    destruct (decide (fits (ecr_tags log) (ecr_untagged log))) as [Hf|Hf]; [left|by right].
    by apply (Hall Hf).
  - destruct (list_right _ _ _ _ _ _ _ Hl) as (_ & Hdom & Hright).
    assert (Hin : t ∈ map tag images) by (apply Hdom; by eexists).
    apply list_elem_of_fmap in Hin as ([t' d'] & -> & Hin). simpl in *.
    destruct (Hright _ Hin) as [Hd|Hd]; [left|by right]. simpl in Hd. by simplify_eq.
Qed.

Lemma reg_get_right t o log log' :
  valid_tag t = true -> backend_get t log = (Done (Ok o), log') ->
  o = (fun d => {| tag := t; digest := d |}) <$> reg_tags reg log !! t \/ reg_disturbed reg log log' t.
Proof.
  intros Hvalid. unfold backend_get. destruct reg as [Hw laws|Hw laws]; simpl; rewrite (dispatch_to _ _ _ Hw); intros Hg.
  - destruct (ecr_get_right _ _ _ _ _ _ _ _ Hg) as [_ Hl].
    destruct (decide (fits (ecr_tags log) (ecr_untagged log))) as [Hf|Hf]; [left|by right].
    by apply (looks_up_complete _ _ _ _ Hl).
  - by destruct (get_right _ _ _ _ _ _ _ Hvalid Hg).
Qed.

Lemma reg_uninstall_right t log log' :
  backend_uninstall t log = (Done (Ok tt), log') ->
  reg_tags reg log' = reg_without reg t (reg_tags reg log) \/ reg_disturbed reg log log' t.
Proof.
  unfold backend_uninstall. destruct reg as [Hw laws|Hw laws]; simpl; rewrite (dispatch_to _ _ _ Hw); intros Hu.
  - left. exact (ecr_uninstall_right _ _ _ _ _ _ _ Hu).
  - by eapply uninstall_right.
Qed.
End Interface.
Arguments OnEcr {os var parse_json H sha256} Hw laws.
Arguments OnMinikube {os var parse_json H sha256} Hw laws.
Arguments reg_tags {os var parse_json H sha256} reg _.
Arguments reg_disturbed {os var parse_json H sha256} reg _ _ _.
Arguments reg_without {os var parse_json H sha256} reg _ _.

(** ** What becomes of an image on its way *)

Definition password_command : list string := ["aws"; "ecr"; "get-login-password"].

Class PushLaws (os : list event -> list string -> child) (var : environment)
  (tags : list event -> gmap string string) := {
  (** The digest of an image in a namespace of containerd. *)
  held : list event -> string -> string -> option string;
  law_held_ls log ns out row ref kind d rest :
    cmd (os log) None "ctr" (map plain (ls_args ns)) = Done (Ok out) ->
    row ∈ tail (str_split newline out) -> str_split " " row = ref :: kind :: d :: rest ->
    held (log ++ [Ran ("ctr" :: ls_args ns)]) ns ref = Some d;
  law_held_tag log ns a b out :
    cmd (os log) None "ctr" (map plain (tag_args ns a b)) = Done (Ok out) ->
    held (log ++ [Ran ("ctr" :: tag_args ns a b)]) ns b = held log ns a;
  (** The removal of another image, and the request for a password. *)
  law_held_drop log ns a b : a <> b -> held (log ++ [SpawnRemoveImage ns a]) ns b = held log ns b;
  law_held_password log : held (log ++ [Ran password_command]) = held log;
  (** The registry. *)
  law_pushed log i how out t d :
    cmd (os log) None "ctr" (push_command i how) = Done (Ok out) ->
    valid_tag t = true -> tmp_reference i = new_reference var t ->
    held log (tmp_namespace i) (tmp_reference i) = Some d ->
    tags (log ++ [Ran ("ctr" :: map raw (push_command i how))]) = <[t := d]> (tags log);
  law_tags_local log e : touches_registry e = false -> tags (log ++ [e]) = tags log;
}.

(** ** Lemmas *)

Lemma extract_row ns out ref t d :
  extract_image_metadata_from_str ns out = Ok (ref, t, d) ->
  exists row kind rest, row ∈ tail (str_split newline out) /\ str_split " " row = ref :: kind :: d :: rest.
Proof.
  unfold extract_image_metadata_from_str. intros Hx.
  destruct (str_split newline out) as [|header [|row [|]]]; simpl in Hx; try done. exists row.
  destruct (str_split " " row) as [|a [|b [|c l]]]; simpl in Hx; try done.
  destruct (rsplit_once ":" a) as [[? ?]|]; simpl in Hx; simplify_eq. exists b, l. split; [by left|done].
Qed.

(** A retagging that succeeds. *)
Lemma retag_Ok os var simple ua random letter image log j log' :
  retag os var simple ua random letter image log = (Done (Ok j), log') ->
  exists out, cmd (os log) None "ctr" (map plain (tag_args (tmp_namespace image) (tmp_reference image) (tmp_reference j))) =
      Done (Ok out) /\
    tmp_namespace j = tmp_namespace image /\ tmp_digest j = tmp_digest image /\
    tmp_reference j = new_reference var (tmp_tag j) /\ rfc1035_label simple ua random letter = Done (tmp_tag j) /\
    log' = log ++ [Ran ("ctr" :: tag_args (tmp_namespace image) (tmp_reference image) (tmp_reference j)); drop_image image].
Proof.
  intros Hr. pose proof (retag_log _ _ _ _ _ _ _ _ _ _ Hr) as [[_ Hno]|(b & -> & Hb)]; [by destruct (Hno j)|].
  apply retag_inv in Hr as (l & _ & Hj). destruct (Hj j eq_refl) as (Hn & Hd & Href & Hl & _).
  destruct (cmd _ _ _ _) as [[out|e]|m] eqn:Ec; [|by destruct (Hb j)..].
  destruct Hb as (j' & [= <-] & <- & _). exists out. by split_and!.
Qed.

Section Push.
Context (os : list event -> list string -> child) (var : environment) (debug : dyn_AcmError -> string).

(** A push that succeeds: at most the request for a password before it. *)
Lemma push_Ok i log img log' :
  push os var debug i log = (Done (Ok img), log') ->
  img = Image_from i /\
  exists l how out, (l = [] \/ l = [password_command]) /\
    cmd (os (log ++ map Ran l)) None "ctr" (push_command i how) = Done (Ok out) /\
    log' = (log ++ map Ran l) ++ [Ran ("ctr" :: map raw (push_command i how)); drop_image i].
Proof.
  unfold push, owning. match goal with |- (let '(_, _) := ?m log in _) = _ -> _ => set (body := m) end.
  destruct (body log) as [r log1] eqn:E. intros [= -> <-]. unfold body in E. clear body.
  apply bind_Ok in E as (impl & l1 & [_ ->]%guard_Ok & E). apply bind_Ok in E as (u & l2 & Hp & E). injection E as <- <-.
  split; [done|]. destruct impl; unfold push_to_ecr, push_to_minikube in Hp.
  - apply bind_Ok in Hp as (up & l3 & Hc & Hp). cbn zeta in Hp.
    apply bind_Ok in Hp as (o & l4 & [Ho ->]%run_cmd_inv & Hp). injection Hp as _ <-.
    unfold get_credentials in Hc. apply bind_Ok in Hc as (user & l5 & [_ ->]%guard_Ok & Hc).
    apply bind_Ok in Hc as (pw & l6 & Hpw & Hc). injection Hc as <- <-.
    assert (l6 = log ++ [Ran password_command]) as ->.
    { unfold get_password, ecr, run_cmd in Hpw. by destruct (cmd _ _ _ _) as [[]|]; simplify_eq/=. }
    eexists [password_command], _, o. split_and!; [by right|symmetry; exact Ho|]. 
    change (map Ran [password_command]) with [Ran password_command].
    by rewrite <- (app_assoc (log ++ [Ran password_command])).
  - apply bind_Ok in Hp as (o & l4 & [Ho ->]%run_cmd_inv & Hp). injection Hp as _ <-.
    eexists [], _, o. rewrite app_nil_r. split_and!; [by left|symmetry; exact Ho|]. by rewrite <- app_assoc.
Qed.
End Push.

(** The run of an installation that succeeds: the upload is imported and listed, it
    gets its new name, and then it is pushed. *)
Section Run.
Context (os : list event -> list string -> child) (var : environment) (debug : dyn_AcmError -> string).
Context (simple : Z -> string) (ua : Z -> bool) (ns_random random letter : Z) (tmp : option string).
Notation ns := (uuid simple ns_random).

Lemma install_run log img log' :
  containerd_import os var debug simple ua ns_random random letter tmp log = (Done (Ok img), log') ->
  exists i j path l2 how out1 out2 out3,
    let imported := Ran ["ctr"; "-n"; ns; "images"; "import"; "--no-unpack"; path] in
    let listed := Ran ("ctr" :: ls_args ns) in
    let tagged := Ran ("ctr" :: tag_args ns (tmp_reference i) (tmp_reference j)) in
    let pushed := Ran ("ctr" :: map raw (push_command j how)) in
    log' = log ++ [imported; listed; tagged; drop_image i] ++ map Ran l2 ++ [pushed; drop_image j; SpawnRemoveNamespace ns] /\
    (l2 = [] \/ l2 = [password_command]) /\
    img = Image_from j /\ tmp_namespace i = ns /\ tmp_namespace j = ns /\ tmp_digest j = tmp_digest i /\
    tmp_reference j = new_reference var (tmp_tag j) /\ rfc1035_label simple ua random letter = Done (tmp_tag j) /\
    (import_ os ns tmp log).1 = Done (Ok i) /\
    cmd (os (log ++ [imported])) None "ctr" (map plain (ls_args ns)) = Done (Ok out1) /\
    (exists row kind rest, row ∈ tail (str_split newline out1) /\
       str_split " " row = tmp_reference i :: kind :: tmp_digest i :: rest) /\
    cmd (os (log ++ [imported; listed])) None "ctr"
      (map plain (tag_args ns (tmp_reference i) (tmp_reference j))) = Done (Ok out2) /\
    cmd (os (log ++ [imported; listed; tagged; drop_image i] ++ map Ran l2)) None "ctr" (push_command j how) = Done (Ok out3).
Proof.
  intros (l & -> & Hb)%import_all_inv. apply bind_Ok in Hb as (i & log1 & Hi & Hb). rewrite Hi.
  apply import_Ok in Hi as (Hns & path & out1 & _ & _ & -> & Hls & Hx%extract_row).
  apply bind_Ok in Hb as (j & log2 & Hj & Hp).
  apply retag_Ok in Hj as (out2 & Htag & Hjns & Hjd & Hjref & Hlabel & ->). rewrite Hns in *.
  apply push_Ok in Hp as (-> & l2 & how & out3 & Hl2 & Hpushed & ->).
  exists i, j, path, l2, how, out1, out2, out3. cbn zeta. rewrite <- !app_assoc in *. by split_and!.
Qed.

Lemma install_valid_tag log img log' :
  simple_law simple -> 0 <= random < 2 ^ 128 -> is_ascii_lower letter = true ->
  containerd_import os var debug simple ua ns_random random letter tmp log = (Done (Ok img), log') ->
  valid_tag (tag img) = true.
Proof.
  intros Hs Hr Hletter Hrun.
  apply install_run in Hrun as (i & j & path & l2 & how & out1 & out2 & out3 & _ & _ & -> & _ & _ & _ & _ & Hlabel & _).
  destruct (label_valid simple ua random letter Hs Hr Hletter) as (t & Ht & Hvalid & _).
  rewrite Hlabel in Ht. injection Ht as <-. by apply label_valid_tag in Hvalid.
Qed.
End Run.

Section Lifecycle.
Context (os : list event -> list string -> child) (var : environment) (debug : dyn_AcmError -> string).
Context (simple : Z -> string) (ua : Z -> bool).
Context (parse_json : string -> result json string) (render : string -> de_error -> string).
Context `{Http} (sha256 : string -> string).

(** An endpoint after the configuration. *)
Lemma handler_complete {A} (m : step A) log :
  handler (configured os var debug m Complete log) =
  (let!? a := (m log).1 in Done (Ok (into_response a)), Complete, (m log).2).
Proof. unfold handler, configured, configure, call_once. by destruct (m log). Qed.

Lemma handler_Ok {A} (m : step A) log (resp : Response A) o log' :
  handler (configured os var debug m Complete log) = (Done (Ok resp), o, log') ->
  o = Complete /\ exists a, m log = (Done (Ok a), log') /\ resp = into_response a.
Proof.
  rewrite handler_complete. destruct (m log) as [[[a|e]|msg] l]; simpl; intros [= <- <- <-]. split; [done|]. by exists a.
Qed.

(** [get], when the registry has answered. *)
Lemma get_complete t log o log' :
  backend_get os var parse_json render sha256 t log = (Done (Ok o), log') ->
  get_ os var debug parse_json render sha256 t Complete log =
  (Done (match o with
         | Some image => Ok (into_response image)
         | None => Err (into_box (TagNotFound t (registry var +:+ "/" +:+ repository var)))
         end), Complete, log').
Proof.
  intros Hb. unfold get_, registry_get. rewrite handler_complete. unfold bind at 1 2.
  unfold backend_get in Hb. rewrite Hb. by destruct o.
Qed.

Context (reg : RegistryLaws os var parse_json sha256) {Hpush : PushLaws os var (reg_tags reg)}.
Context (ns_random random letter : Z) (tmp : option string).
Notation ns := (uuid simple ns_random).

Lemma tags_locals log l : Forall (fun e => touches_registry e = false) l -> reg_tags reg (log ++ l) = reg_tags reg log.
Proof.
  induction l as [|e l IH] using rev_ind; [by rewrite app_nil_r|]. intros [Hl He]%Forall_app.
  rewrite Forall_singleton in He. rewrite app_assoc, law_tags_local by done. by apply IH.
Qed.

Lemma tags_after log e l : Forall (fun e => touches_registry e = false) l -> reg_tags reg (log ++ e :: l) = reg_tags reg (log ++ [e]).
Proof. intros Hl. rewrite <- (tags_locals (log ++ [e]) l Hl). by rewrite <- app_assoc. Qed.

(** The image that is pushed is the one that was uploaded. *)
Lemma held_at_push log e i j out row kind rest out2 l2 :
  let listed := Ran ("ctr" :: ls_args ns) in
  let tagged := Ran ("ctr" :: tag_args ns (tmp_reference i) (tmp_reference j)) in
  cmd (os (log ++ [e])) None "ctr" (map plain (ls_args ns)) = Done (Ok out) ->
  row ∈ tail (str_split newline out) -> str_split " " row = tmp_reference i :: kind :: tmp_digest i :: rest ->
  cmd (os (log ++ [e; listed])) None "ctr" (map plain (tag_args ns (tmp_reference i) (tmp_reference j))) = Done (Ok out2) ->
  tmp_namespace i = ns -> tmp_reference i <> tmp_reference j -> l2 = [] \/ l2 = [password_command] ->
  held (log ++ [e; listed; tagged; drop_image i] ++ map Ran l2) ns (tmp_reference j) = Some (tmp_digest i).
Proof.
  intros listed tagged Hls Hrow Hsplit Htag Hns Hne Hl2.
  assert (Hd : held ((log ++ [e; listed] ++ [tagged]) ++ [drop_image i]) ns (tmp_reference j) = Some (tmp_digest i)).
  { unfold drop_image. rewrite Hns, law_held_drop by done. rewrite app_assoc, (law_held_tag _ _ _ _ _ Htag).
    change (log ++ [e; listed]) with (log ++ [e] ++ [listed]). rewrite app_assoc. by eapply law_held_ls. }
  rewrite <- !app_assoc in Hd. destruct Hl2 as [->| ->]; [done|]. rewrite app_assoc. simpl map.
  by rewrite law_held_password.
Qed.

(** An installation that succeeds puts the image under its new tag, and nothing else. *)
Lemma installed_tags log img log' :
  simple_law simple -> 0 <= random < 2 ^ 128 -> is_ascii_lower letter = true ->
  containerd_import os var debug simple ua ns_random random letter tmp log = (Done (Ok img), log') ->
  (forall i, (import_ os ns tmp log).1 = Done (Ok i) -> tmp_reference i <> new_reference var (tag img)) ->
  reg_tags reg log' = <[tag img := digest img]> (reg_tags reg log) /\ valid_tag (tag img) = true.
Proof.
  intros Hs Hr Hletter Hrun Hfresh. pose proof (install_valid_tag _ _ _ _ _ _ _ _ _ _ _ _ Hs Hr Hletter Hrun) as Hvalid.
  split; [|done].
  apply install_run in Hrun as (i & j & path & l2 & how & out1 & out2 & out3 & -> & Hl2 & -> & Hi & Hj & Hd & Href & _ &
    Himport & Hls & (row & kind & rest & Hrow & Hsplit) & Htag & Hpushed). cbn [Image_from tag digest] in *.
  specialize (Hfresh _ Himport). rewrite <- Href in Hfresh.
  pose proof (held_at_push _ _ _ _ _ _ _ _ _ _ Hls Hrow Hsplit Htag Hi Hfresh Hl2) as Hheld.
  rewrite !app_assoc, <- (app_assoc log). rewrite (tags_after _ _ [_; _]) by repeat constructor.
  rewrite (law_pushed _ _ _ _ _ (tmp_digest j) Hpushed Hvalid Href) by (rewrite Hj, Hd; exact Hheld).
  f_equal. apply tags_locals. by destruct Hl2 as [->| ->]; repeat constructor.
Qed.

Notation endpoint_get := (get_ os var debug parse_json render sha256).
Notation endpoint_list := (list_ os var debug parse_json render sha256).
Notation endpoint_uninstall := (uninstall os var debug parse_json render sha256).
Notation asked_for := (backend_get os var parse_json render sha256).

End Lifecycle.

(** ** An instance: containerd and the registry in memory *)

Section Memory.
Context (var : environment) (initial : gmap string string).

(** Every image has the same digest. *)
Definition daemon_held (d : memory) (ns ref : string) : option string :=
  if decide (ref ∈ refs (slice_at d ns)) then Some "sha256:76a5" else None.
Definition memory_held (log : list event) : string -> string -> option string := daemon_held (replay empty_daemon log).

Lemma replay_snoc d log e : replay d (log ++ [e]) = replay (replay d log) [e].
Proof. unfold replay. by rewrite fold_left_app. Qed.

Lemma memory_cmd log args out :
  cmd (memory_os log) None "ctr" (map plain args) = Done (Ok out) -> ctr_ok (replay empty_daemon log) args = Some out.
Proof. intros Hc. unfold ctr_ok. unfold memory_os in Hc. by rewrite Hc. Qed.

Lemma daemon_held_ls d ns out row ref kind dg rest :
  ctr_ok d (ls_args ns) = Some out -> row ∈ tail (str_split newline out) ->
  str_split " " row = ref :: kind :: dg :: rest -> daemon_held (ctr_next d (ls_args ns)) ns ref = Some dg.
Proof.
  intros [Hs Hrow]%memory_rows Hin Hsplit. rewrite Hs in Hin. simpl in Hin.
  apply list_elem_of_fmap in Hin as (ref' & -> & Hin%elem_of_elements). rewrite Hrow in Hsplit by done.
  injection Hsplit as <- <- <- <-. unfold daemon_held. rewrite decide_True; [done|].
  pose proof (law_ls_images d ns) as Hk. simpl in Hk |- *. by rewrite Hk.
Qed.

Lemma daemon_held_tag d ns a b out :
  ctr_ok d (tag_args ns a b) = Some out -> daemon_held (ctr_next d (tag_args ns a b)) ns b = daemon_held d ns a.
Proof.
  intros Hc. assert (Hok : succeeds d (tag_args ns a b) = true) by (unfold succeeds; by rewrite Hc).
  unfold daemon_held. destruct (up d) eqn:Hup; [|by rewrite (proj1 (memory_down d _ Hup)) in Hok].
  destruct (decide (a ∈ refs (slice_at d ns))) as [Ha|Ha].
  - rewrite decide_True; [done|]. rewrite (memory_next _ _ ns), Hup by done. simpl.
    rewrite decide_True by done. simpl. rewrite slice_at_set, decide_True by done. simpl. set_solver.
  - exfalso. rewrite (memory_ok _ _ ns false) in Hok; [by rewrite andb_false_r in Hok|done|]. simpl.
    by rewrite decide_False.
Qed.

Lemma reference_of t : strip (new_reference var "") (new_reference var t) = Some t.
Proof.
  assert (Hu : new_reference var t = new_reference var "" +:+ t)
    by (unfold new_reference; by rewrite <- !str_app_assoc).
  rewrite Hu. apply strip_app.
Qed.

Lemma memory_local log e :
  touches_registry e = false -> registry_tags var initial (log ++ [e]) = registry_tags var initial log.
Proof.
  intros He. unfold registry_tags. rewrite memory_snoc. destruct e as [argv|[[] url a]| |]; simpl in He; try done.
  cbn [registry_next]. by apply orb_false_iff in He as [-> _].
Qed.

Lemma memory_held_other log e ns ref :
  match e with Ran argv => head argv <> Some "ctr" | _ => True end ->
  memory_held (log ++ [e]) ns ref = memory_held log ns ref.
Proof.
  intros He. assert (Hr : replay empty_daemon (log ++ [e]) = replay empty_daemon log).
  { rewrite replay_snoc. destruct e as [argv|q|n r|n]; try done. simpl. by destruct (decide (head argv = Some "ctr")). }
  unfold memory_held. by rewrite Hr.
Qed.

Lemma last_pushed i how : last ("ctr" :: map raw (push_command i how)) = Some (tmp_reference i).
Proof. unfold push_command. rewrite app_assoc, map_app, app_comm_cons. apply last_snoc. Qed.

Lemma memory_pushed log i how t d :
  valid_tag t = true -> tmp_reference i = new_reference var t ->
  memory_held log (tmp_namespace i) (tmp_reference i) = Some d ->
  registry_tags var initial (log ++ [Ran ("ctr" :: map raw (push_command i how))]) =
    <[t := d]> (registry_tags var initial log).
Proof.
  intros Ht Href Hd. unfold registry_tags. rewrite memory_snoc. cbn [registry_next].
  rewrite last_pushed, Href. simpl is_push. cbn [mbind option_bind]. rewrite reference_of, Ht.
  unfold memory_held, daemon_held in Hd. case_decide; [|done]. injection Hd as <-. by rewrite fmap_insert.
Qed.

(** Whatever the registry is: what containerd holds, and an operating system that
    runs [ctr] as [memory_os] does. *)
Definition held_PushLaws (os : list event -> list string -> child) (tags : list event -> gmap string string)
  (Hos : forall log args, cmd (os log) None "ctr" args = cmd (memory_os log) None "ctr" args)
  (Hpushed : forall log i how t d, valid_tag t = true -> tmp_reference i = new_reference var t ->
     memory_held log (tmp_namespace i) (tmp_reference i) = Some d ->
     tags (log ++ [Ran ("ctr" :: map raw (push_command i how))]) = <[t := d]> (tags log))
  (Hlocal : forall log e, touches_registry e = false -> tags (log ++ [e]) = tags log) : PushLaws os var tags.
Proof.
  refine {| held := memory_held |}.
  - intros log ns out row ref kind d rest. rewrite Hos. intros Hc%memory_cmd. unfold memory_held.
    rewrite replay_snoc. by apply daemon_held_ls.
  - intros log ns a b out. rewrite Hos. intros Hc%memory_cmd. unfold memory_held. rewrite replay_snoc.
    by eapply daemon_held_tag.
  - intros log ns a b _. by apply memory_held_other.
  - intros log. unfold memory_held. by rewrite replay_snoc.
  - intros log i how out t d _. apply Hpushed.
  - apply Hlocal.
Defined.

Definition memory_PushLaws : PushLaws memory_os var (registry_tags var initial) :=
  held_PushLaws memory_os _ (fun _ _ => eq_refl) memory_pushed memory_local.

(** ECR beside containerd. *)
Definition aws_os (log : list event) (argv : list string) : child :=
  match argv with
  | c :: _ => if (c =? "aws")%string then memory_ecr var initial log argv else memory_os log argv
  | [] => memory_os log argv
  end.

Definition aws_EcrLaws : EcrLaws aws_os var simple_parse.
Proof.
  refine {| ecr_tags := memory_tags var initial; ecr_untagged _ := 0%nat |}.
  - exact (memory_lists var initial).
  - exact (memory_list_keeps var initial).
  - exact (memory_deletes var initial).
Defined.

Lemma ecr_pushed log i how t d :
  valid_tag t = true -> tmp_reference i = new_reference var t ->
  memory_held log (tmp_namespace i) (tmp_reference i) = Some d ->
  memory_tags var initial (log ++ [Ran ("ctr" :: map raw (push_command i how))]) = <[t := d]> (memory_tags var initial log).
Proof.
  intros _ Href Hd. unfold memory_tags. rewrite fold_left_app. cbn [fold_left]. unfold ecr_next at 1.
  rewrite last_pushed, Href. simpl is_push. cbn [mbind option_bind]. rewrite reference_of.
  unfold memory_held, daemon_held in Hd. case_decide; [|done]. by injection Hd as <-.
Qed.

Lemma ecr_local log e : touches_registry e = false -> memory_tags var initial (log ++ [e]) = memory_tags var initial log.
Proof.
  intros He. unfold memory_tags. rewrite fold_left_app. destruct e as [argv|[[] url a]| |]; try done.
  simpl in He |- *. by apply orb_false_iff in He as [-> ->].
Qed.

Definition aws_PushLaws : PushLaws aws_os var (memory_tags var initial) :=
  held_PushLaws aws_os _ (fun _ _ => eq_refl) ecr_pushed ecr_local.
End Memory.

(** ** Witness *)

#[local] Instance example_http : Http := memory_registry default_env example_manifests (fun _ => false).
#[local] Instance example_minikube : MinikubeLaws default_env simple_parse same_bytes :=
  memory_MinikubeLaws default_env example_manifests (fun _ => false).
#[local] Instance example_aws : EcrLaws (aws_os aws_env example_tags) aws_env simple_parse :=
  aws_EcrLaws aws_env example_tags.
Definition example_os (impl : Implementation) : list event -> list string -> child :=
  match impl with Ecr => aws_os aws_env example_tags | Minikube => memory_os end.
Definition example_env (impl : Implementation) : environment :=
  match impl with Ecr => aws_env | Minikube => default_env end.
Definition example_backend (impl : Implementation)
  : RegistryLaws (H := example_http) (example_os impl) (example_env impl) simple_parse same_bytes :=
  match impl with
  | Ecr => OnEcr (eq_refl : which aws_env = Done Ecr) example_aws
  | Minikube => OnMinikube (eq_refl : which default_env = Done Minikube) example_minikube
  end.

Definition example_image : Image := {| tag := "a0000000000000000000000000000002"; digest := "sha256:76a5" |}.

Section Example.
Context (impl : Implementation).
Definition example_installed :=
  install (example_os impl) (example_env impl) dyn_display hex_simple no_unicode 1 2 97 (Some "/tmp/a") Complete [].
Definition example_get :=
  get_ (example_os impl) (example_env impl) dyn_display simple_parse no_render same_bytes (tag example_image) Complete.
Definition example_uninstalled :=
  uninstall (example_os impl) (example_env impl) dyn_display simple_parse no_render same_bytes (tag example_image)
    Complete example_installed.2.
Definition found_after (log : list event) :=
  backend_get (example_os impl) (example_env impl) simple_parse no_render same_bytes (tag example_image) log.
Definition example_location : string :=
  registry (example_env impl) +:+ "/" +:+ repository (example_env impl).
Definition example_story : Prop :=
  (example_get example_installed.2).1.1 = Done (Ok (into_response example_image)) /\
  (example_get example_uninstalled.2).1.1 = Done (Err (into_box (TagNotFound (tag example_image) example_location))).
End Example.

Definition example_push (impl : Implementation)
  : PushLaws (example_os impl) (example_env impl) (reg_tags (example_backend impl)) :=
  match impl with
  | Ecr => aws_PushLaws aws_env example_tags
  | Minikube => memory_PushLaws default_env example_manifests
  end.

Lemma example_calm impl log log' :
  match impl with
  | Ecr => log = (example_installed Ecr).2 \/ log = (example_uninstalled Ecr).2
  | Minikube => True
  end -> ~ reg_disturbed (example_backend impl) log log' (tag example_image).
Proof.
  destruct impl; simpl; [|intros _; by apply memory_calm].
  intros Hlog Hf. apply Hf. apply Nat.leb_le. destruct Hlog as [-> | ->]; vm_compute; reflexivity.
Qed.

