(* ===== verification/Linear.v ===== *)
(** * The registries under interference

    Several handlers of the AIM, and other clients, use a registry at the same
    time.  The outside is a state machine here ([Outside]) that others may change
    at any time; the run of one handler is the history of the moments at which
    the outside did what the handler asked for.

    The operations on ECR are atomic: each takes effect at one moment.  The
    operations on the Minikube registry are not; what they promise is said of the
    moments at which they ask. *)

From S2P Require Import Prelude RustStr Json Errors Names Backoff Process AimEnv Containerd Registry Ecr Minikube.

(** ** The outside and its history *)

Class Outside (O : Type) := {
  out_run : O -> list string -> O * child;
  out_send : O -> Request -> O * option response;
  (** The start of a task in the background. *)
  out_spawn : O -> event -> O;
  (** What others may do. *)
  others : O -> O -> Prop;
}.

Record moment (O : Type) := { before : O; did : event; after : O }.
Arguments before {O} _.
Arguments did {O} _.
Arguments after {O} _.

(** What an event does to the outside. *)
Definition out_next {O} `{Outside O} (o : O) (e : event) : O :=
  match e with
  | Ran argv => (out_run o argv).1
  | Sent q => (out_send o q).1
  | SpawnRemoveImage _ _ | SpawnRemoveNamespace _ => out_spawn o e
  end.

(** The handler was told what the outside answered. *)
Definition told {O} `{Outside O} `{Http} (os : list event -> list string -> child) (log : list event) (o : O)
  (e : event) : Prop :=
  match e with
  | Ran argv => os log argv = (out_run o argv).2
  | Sent q => http_answer log q = (out_send o q).2
  | _ => True
  end.

Inductive history {O} `{Outside O} `{Http} (os : list event -> list string -> child) (o : O)
  : list (moment O) -> O -> Prop :=
| history_start : history os o [] o
| history_others h o1 o2 : history os o h o1 -> others o1 o2 -> history os o h o2
| history_event h o1 e : history os o h o1 -> told os (map did h) o1 e ->
    history os o (h ++ [{| before := o1; did := e; after := out_next o1 e |}]) (out_next o1 e).

(** ** The registries, as states *)

Class EcrServer (O : Type) `{Outside O} (var : environment) (parse_json : string -> result json string) := {
  ecr_state : O -> gmap string string;
  (** How many images there are that no tag names. *)
  untagged_in : O -> nat;
  server_list_images o out :
    cmd (fun argv => (out_run o argv).2) None "aws" (map plain (list_command var)) = Done (Ok out) ->
    exists l next, parse_json out = Ok (page_document l next) /\ first_page (ecr_state o) (untagged_in o) l;
  server_list_keeps o : ecr_state (out_run o ("aws" :: list_command var)).1 = ecr_state o;
  server_delete_image o t out :
    cmd (fun argv => (out_run o argv).2) None "aws" (map plain (delete_command var t)) = Done (Ok out) ->
    exists l fs, parse_json out = Ok (delete_document l fs) /\
      match fs with
      | [] => ecr_state (out_run o ("aws" :: delete_command var t)).1 = delete t (ecr_state o)
      | f :: _ => ecr_state (out_run o ("aws" :: delete_command var t)).1 = ecr_state o /\
                  (failure_code f = "ImageNotFound" -> ecr_state o !! t = None)
      end;
}.

Class MinikubeServer (O : Type) `{Outside O} (var : environment) (parse_json : string -> result json string)
  (sha256 : string -> string) := {
  mk_state : O -> gmap string string;
  server_valid o t d : mk_state o !! t = Some d -> valid_tag t = true;
  server_tags_list o r : (out_send o (tags_request (tags_url var))).2 = Some r -> tags_answered parse_json (mk_state o) r;
  server_manifest o t r bytes : valid_tag t = true ->
    (out_send o (manifest_request (manifest_url var t))).2 = Some r ->
    http_status r = OK -> body r = Some bytes -> mk_state o !! t = Some (sha256_digest sha256 bytes);
  server_no_manifest o t r : valid_tag t = true ->
    (out_send o (manifest_request (manifest_url var t))).2 = Some r ->
    http_status r = NOT_FOUND -> mk_state o !! t = None;
  server_delete o bytes r :
    let d := sha256_digest sha256 bytes in
    (out_send o (delete_request (manifest_url var d))).2 = Some r ->
    mk_state (out_send o (delete_request (manifest_url var d))).1 =
      (if http_status r =? ACCEPTED then without_digest d (mk_state o) else mk_state o) /\
    (http_status r = NOT_FOUND -> forall t, mk_state o !! t <> Some d);
}.

(** Everything is on the first page. *)
Definition fits_now {O} `{EcrServer O var parse_json} (o : O) : Prop := fits (ecr_state o) (untagged_in o).

(** ** Lemmas *)

Section Linear.
Context {O : Type} `{Outside O} `{Http} (os : list event -> list string -> child) (var : environment).
Context (parse_json : string -> result json string) (render : string -> de_error -> string).

(** A handler with one command has one moment. *)
Lemma history_one o h o' command args :
  history os o h o' -> map did h = [Ran (command :: map raw args)] ->
  exists m, h = [m] /\ after m = (out_run (before m) (command :: map raw args)).1 /\
    cmd (os []) None command args = cmd (fun argv => (out_run (before m) argv).2) None command args.
Proof.
  induction 1 as [|h o1 o2 _ IH _|h o1 e Hh _ Ht]; [done|done|]. rewrite map_app. simpl.
  intros [Hnil [= ->]]%(app_inj_tail _ []). destruct h; [|done]. simpl in Ht.
  eexists. split; [done|]. split; [done|]. unfold cmd. by rewrite Ht.
Qed.

Lemma ecr_list_moment `{!EcrServer O var parse_json} o h o' images :
  history os o h o' -> ecr_list os var parse_json render [] = (Done (Ok images), map did h) ->
  exists m, h = [m] /\ ecr_state (after m) = ecr_state (before m) /\
    lists (fits_now (before m)) (ecr_state (before m)) images.
Proof.
  intros Hh [Hlog Hl]%ecr_list_inv. destruct (Hl _ eq_refl) as (out & l & Hcmd & Hread & ->).
  destruct (history_one _ _ _ "aws" (map plain (list_command var)) Hh Hlog) as (m & -> & Hafter & Hc).
  exists m. split; [done|]. split; [rewrite Hafter; apply server_list_keeps|].
  unfold aws_cmd in Hcmd. rewrite Hc in Hcmd. by eapply listed_right; [exact Hread|apply server_list_images].
Qed.

Lemma ecr_uninstall_moment `{!EcrServer O var parse_json} o h o' t r :
  history os o h o' -> ecr_uninstall os var parse_json render t [] = (Done r, map did h) ->
  (exists e, r = Err (into_box (UninstallCommandError e))) \/
  exists m l fs, h = [m] /\ r = uninstall_verdict {| image_ids := l; failures := fs |} /\
    match fs with
    | [] => ecr_state (after m) = delete t (ecr_state (before m))
    | f :: _ => ecr_state (after m) = ecr_state (before m) /\
                (failure_code f = "ImageNotFound" -> ecr_state (before m) !! t = None)
    end.
Proof.
  intros Hh [Hlog [?|(out & Hcmd & Hv)]]%ecr_uninstall_run; [by left|right].
  destruct (history_one _ _ _ "aws" (map plain (delete_command var t)) Hh Hlog) as (m & -> & Hafter & Hc).
  unfold aws_cmd in Hcmd. rewrite Hc in Hcmd. destruct (server_delete_image _ _ _ Hcmd) as (l & fs & Hp & Hfs).
  exists m, l, fs. split_and!; [done|by apply Hv|]. by rewrite Hafter.
Qed.

(** The operations on ECR are atomic, whatever others do to the registry in the
    meantime: each of them runs one command, and when it succeeds its result and
    its effect are those of the operation of a map from tags to digests at the
    moment of that command: a list of the tags with their digests and the look-up
    of a tag, which miss nothing as long as everything fits on the first page, the
    removal of the tag and of no other one; an uninstallation that ECR refuses
    changes nothing. *)
Theorem ecr_linearisable `{!EcrServer O var parse_json} (o o' : O) (h : list (moment O)) (t : string)
  (Hhistory : history os o h o') :
  (forall images, ecr_list os var parse_json render [] = (Done (Ok images), map did h) ->
     exists m, h = [m] /\ ecr_state (after m) = ecr_state (before m) /\
       lists (fits_now (before m)) (ecr_state (before m)) images) /\
  (forall found, ecr_get os var parse_json render t [] = (Done (Ok found), map did h) ->
     exists m, h = [m] /\ ecr_state (after m) = ecr_state (before m) /\
       looks_up (fits_now (before m)) (ecr_state (before m)) t found) /\
  (ecr_uninstall os var parse_json render t [] = (Done (Ok tt), map did h) ->
     exists m, h = [m] /\ ecr_state (after m) = delete t (ecr_state (before m))) /\
  (forall f, ecr_uninstall os var parse_json render t [] =
       (Done (Err (into_box (EcrUninstallError f))), map did h) ->
     exists m, h = [m] /\ ecr_state (after m) = ecr_state (before m)).
Proof.
  pose proof (fun r => ecr_uninstall_moment o h o' t r Hhistory) as Hun.
  split_and!.
  - intros images Hl. by eapply ecr_list_moment.
  - intros found (images & log1 & Hl & Hg)%bind_Ok. injection Hg as <- ->.
    destruct (ecr_list_moment _ _ _ _ Hhistory Hl) as (m & Hm & Hk & Hin). exists m. split_and!; [done|done|].
    by apply find_tag_lookup.
  - intros [[e He]|(m & l & fs & Hm & Hv & Hfs)]%Hun; [done|]. exists m. split; [done|]. by eapply verdict_Ok.
  - intros f [[e He]|(m & l & fs & Hm & Hv & Hfs)]%Hun; [done|]. exists m. split; [done|].
    destruct fs as [|f' fs]; [done|]. apply Hfs.
Qed.
(** *** Minikube *)

(** At each moment the handler was told what the outside answered. *)
Lemma history_at o h o' pre m post :
  history os o h o' -> h = pre ++ m :: post ->
  told os (map did pre) (before m) (did m) /\ after m = out_next (before m) (did m).
Proof.
  intros Hh. revert pre m post. induction Hh as [|h o1 o2 _ IH _|h o1 e _ IH Ht]; intros pre m post Heq.
  - by destruct pre.
  - by eapply IH.
  - destruct post as [|m' post _] using rev_ind.
    + apply app_inj_tail in Heq as [<- <-]. done.
    + rewrite app_comm_cons, app_assoc in Heq. apply app_inj_tail in Heq as [-> _]. by eapply IH.
Qed.

Context (sha256 : string -> string).

(** A request that is not a deletion. *)
Definition asks (m : moment O) : Prop := exists q, did m = Sent q /\ sent_verb q = GET.

Lemma asks_all h l : map did h = map (asked var) l -> Forall asks h.
Proof.
  revert l. induction h as [|m h IH]; intros [|t l] Heq; try done. simpl in Heq. injection Heq as Hm Heq.
  constructor; [by eexists|by eapply IH].
Qed.

(** What a list tells of its first moment. *)
Lemma list_first `{!MinikubeServer O var parse_json sha256} o h o' images l post :
  history os o h o' -> minikube_list var parse_json render sha256 [] = (Done (Ok images), l) -> map did h = l ++ post ->
  exists m rest ts, h = m :: rest /\ did m = Sent (tags_request (tags_url var)) /\
    l = did m :: map (asked var) ts /\ (forall t, t ∈ map tag images <-> is_Some (mk_state (before m) !! t)).
Proof.
  intros Hh Hl Heq. apply minikube_list_Ok in Hl as (r & Hr & Hcases). simpl in Hcases.
  assert (exists ts, l = Sent (tags_request (tags_url var)) :: map (asked var) ts) as [ts Hts].
  { destruct Hcases as [(_ & _ & ->)|(text & tl & _ & _ & _ & [-> _]%list_manifests_Ok)]; [by exists []|by exists (tags tl)]. }
  rewrite Hts in Heq. destruct h as [|m rest]; [done|]. injection Heq as Hm Heq.
  destruct (history_at _ _ _ [] m rest Hh eq_refl) as [Ht _]. rewrite Hm in Ht. simpl in Ht. rewrite Hr in Ht.
  exists m, rest, ts. rewrite Hm. split_and!; [done|done|done|].
  pose proof (server_tags_list (before m) r (eq_sym Ht)) as Hans.
  destruct Hcases as [(Hs & -> & _)|(text & tl & Hs & Hb & Hd & [_ Hi]%list_manifests_Ok)].
  - destruct Hans as [[_ ->]|[? _]]; [|done]. intros t. rewrite lookup_empty. split; [set_solver|by intros []].
  - destruct (tags_listed _ _ _ _ _ _ Hans Hs Hb Hd) as [_ Hin]. intros t. by rewrite (fetched_tags _ _ _ _ _ Hi).
Qed.

(** When the image of a list was asked for. *)
Lemma list_asked images l image :
  minikube_list var parse_json render sha256 [] = (Done (Ok images), l) -> image ∈ images ->
  exists earlier later,
    l = (Sent (tags_request (tags_url var)) :: map (asked var) earlier) ++ asked var (tag image) :: map (asked var) later /\
    fetched var sha256 (Sent (tags_request (tags_url var)) :: map (asked var) earlier) (tag image) image.
Proof.
  intros (r & _ & [(_ & -> & _)|(text & tl & _ & _ & _ & [-> Hi]%list_manifests_Ok)])%minikube_list_Ok Hin; [set_solver|].
  apply list_elem_of_lookup in Hin as [k Hk].
  destruct (Forall2_lookup_r _ _ _ _ _ Hi Hk) as (t & _ & earlier & [later Hpf] & Hf).
  assert (tag image = t) as -> by (destruct Hf as (r0 & bytes & _ & _ & _ & Himg); by rewrite Himg).
  exists earlier, later. split; [|done]. rewrite Hpf, !map_app. simpl. by rewrite <- app_assoc.
Qed.

Lemma map_split {A B} (f : A -> B) h a x b :
  map f h = a ++ x :: b -> exists pre m post, h = pre ++ m :: post /\ map f pre = a /\ f m = x /\ map f post = b.
Proof.
  intros (pre & rest & -> & Ha & Hb)%map_eq_app. destruct rest as [|m post]; [done|]. simpl in Hb.
  injection Hb as Hx Hb. by exists pre, m, post.
Qed.

(** An uninstallation from the Minikube registry, whatever others do in the
    meantime: it asks for the tags first; when the tag was not there at that moment,
    nothing is deleted; otherwise the manifest of the tag is asked for and then, as
    the last thing and as the only deletion, a digest is deleted, with all the tags
    that it has at that moment.  The digest is the one that the tag had when its
    manifest was asked for, unless the tag was gone by then or the answer was
    another error. *)
Theorem minikube_uninstall_moments `{!MinikubeServer O var parse_json sha256} (o o' : O) (h : list (moment O)) (t : string)
  (Hhistory : history os o h o')
  (Hrun : minikube_uninstall var parse_json render sha256 t [] = (Done (Ok tt), map did h)) :
  (exists m rest, h = m :: rest /\ did m = Sent (tags_request (tags_url var)) /\
     mk_state (before m) !! t = None /\ Forall asks h) \/
  (exists earlier m1 mid m2 d r, h = earlier ++ m1 :: mid ++ [m2] /\ Forall asks (earlier ++ m1 :: mid) /\
     did m1 = asked var t /\ (out_send (before m1) (manifest_request (manifest_url var t))).2 = Some r /\
     (mk_state (before m1) !! t = Some d \/ mk_state (before m1) !! t = None \/
      (http_status r <> OK /\ http_status r <> NOT_FOUND)) /\
     did m2 = Sent (delete_request (manifest_url var d)) /\
     mk_state (after m2) = without_digest d (mk_state (before m2))).
Proof.
  apply uninstall_inv in Hrun as (images & l & Hl & Hu). destruct (find_tag t images) as [image|] eqn:Ef.
  - right. destruct Hu as (Hlog & resp & Hresp & Hok). apply find_tag_Some in Ef as [<- Hin].
    destruct (list_first _ _ _ _ _ _ Hhistory Hl Hlog) as (m & rest & ts & -> & Hm & _ & Hdom).
    assert (is_Some (mk_state (before m) !! tag image)) as [dm Hdm].
    { apply Hdom, list_elem_of_In, in_map. by apply list_elem_of_In. }
    apply server_valid in Hdm. destruct (list_asked _ _ _ Hl Hin) as (earlier & later & -> & Hf).
    rewrite <- app_assoc in Hlog. apply map_split in Hlog as (pre & m1 & post & Hh & Hpre & Hm1 & Hpost).
    apply map_split in Hpost as (mid & m2 & post2 & -> & Hmid & Hm2 & Hnil). destruct post2; [|done].
    destruct (history_at _ _ _ _ _ _ Hhistory Hh) as [Ht1 _]. rewrite Hm1, Hpre in Ht1. simpl in Ht1.
    assert (Hh2 : m :: rest = (pre ++ m1 :: mid) ++ m2 :: []) by (by rewrite <- app_assoc).
    destruct (history_at _ _ _ _ _ _ Hhistory Hh2) as [Ht2 Ha2]. rewrite Hm2 in Ht2, Ha2.
    rewrite map_app in Ht2. simpl in Ht2, Ha2. rewrite Hpre, Hm1, Hmid in Ht2.
    destruct Hf as (r & bytes & _ & Hr & Hbody & Himg).
    exists pre, m1, mid, m2, (digest image), r. split_and!; [done| |done|congruence| |done|].
    + apply Forall_app. split; [|constructor; [by eexists|by eapply asks_all]].
      destruct pre as [|m0 pre]; [done|]. injection Hpre as Hm0 Hpre. constructor; [by eexists|by eapply asks_all].
    + rewrite Himg. simpl. destruct (decide (http_status r = OK)) as [Ho|Ho].
      { left. eapply server_manifest; [done|by rewrite <- Ht1|done|done]. }
      destruct (decide (http_status r = NOT_FOUND)) as [Hn|Hn]; [right; left|by right; right].
      eapply server_no_manifest; [done|by rewrite <- Ht1|done].
    + rewrite Ha2. simpl in Hresp, Ht2. rewrite Hresp, Himg in Ht2. rewrite Himg. simpl in *.
      rewrite (deleted_right _ _ _ _ (server_delete _ _ _ (eq_sym Ht2))). by rewrite (proj1 Hok).
  - left. destruct Hu as [_ Hlog]. rewrite <- (app_nil_r l) in Hlog.
    destruct (list_first _ _ _ _ _ _ Hhistory Hl Hlog) as (m & rest & ts & -> & Hm & Hts & Hdom).
    exists m, rest. split_and!; [done|done| |].
    + apply eq_None_not_Some. intros Ht%Hdom. apply list_elem_of_In, in_map_iff in Ht as (image & <- & Hin).
      apply (List.find_none _ _ Ef) in Hin. simpl in Hin. by rewrite String.eqb_refl in Hin.
    + rewrite app_nil_r, Hts in Hlog. injection Hlog as Hlog. constructor; [by eexists|by eapply asks_all].
Qed.
End Linear.

(** ** Instances: a registry in memory, which others change as they like *)

Section Memory.
Context (var : environment).

Definition ecr_outside : Outside (gmap string string) := {|
  out_run m argv := (ecr_next var m (Ran argv), memory_ecr var m [] argv);
  out_send m q := (m, None);
  out_spawn m _ := m;
  others _ _ := True;
|}.

Definition ecr_server : EcrServer (H := ecr_outside) (gmap string string) var simple_parse.
Proof.
  refine {| ecr_state m := m; untagged_in _ := 0%nat |}.
  - intros m. exact (memory_lists var m []).
  - intros m. exact (memory_list_keeps var m []).
  - intros m. exact (memory_deletes var m []).
Defined.

(** The manifests by tag. *)
Definition minikube_outside : Outside (gmap string string) := {|
  out_run m argv := (registry_next var m (Ran argv), NotSpawned "ctr");
  out_send m q := (registry_next var m (Sent q), http_answer (Http := memory_registry var m (fun _ => false)) [] q);
  out_spawn m _ := m;
  others _ _ := True;
|}.

Lemma deletion_commutes m d :
  registry_tags var (registry_next var m (Sent (delete_request (manifest_url var d)))) [] =
  registry_tags var m [Sent (delete_request (manifest_url var d))].
Proof.
  unfold registry_tags, memory_manifests. cbn [fold_left]. unfold registry_next.
  cbn [sent_verb sent_url delete_request]. rewrite url_of. f_equal. apply map_filter_comm.
Qed.

Definition minikube_server : MinikubeServer (H := minikube_outside) (gmap string string) var simple_parse same_bytes.
Proof.
  pose (laws m := memory_MinikubeLaws var m (fun _ => false)).
  refine {| mk_state m := registry_tags var m [] |}.
  - intros m. exact (law_valid_tags (MinikubeLaws := laws m) []).
  - intros m. exact (law_tags_list (MinikubeLaws := laws m) []).
  - intros m. exact (law_manifest (MinikubeLaws := laws m) []).
  - intros m. exact (law_no_manifest (MinikubeLaws := laws m) []).
  - intros m bytes r d Hr. change (out_send m (delete_request (manifest_url var d))).1 with
      (registry_next var m (Sent (delete_request (manifest_url var d)))). rewrite deletion_commutes.
    exact (law_delete (MinikubeLaws := laws m) [] bytes r Hr).
Defined.
End Memory.

(** ** Witnesses *)

#[local] Instance no_http : Http := {| url_ok _ := true; http_answer _ _ := None |}.

(** Others fill the registry before the command arrives. *)
Definition ecr_told (log : list event) (argv : list string) : child := memory_ecr ecr_env example_tags [] argv.
Definition ecr_deletion : event := Ran ("aws" :: delete_command ecr_env "a").
Definition ecr_history : list (moment (gmap string string)) :=
  [{| before := example_tags; did := ecr_deletion; after := ecr_next ecr_env example_tags ecr_deletion |}].

Lemma ecr_history_run :
  history (H := ecr_outside ecr_env) ecr_told ∅ ecr_history (ecr_next ecr_env example_tags ecr_deletion).
Proof.
  apply (history_event (H := ecr_outside ecr_env) ecr_told ∅ [] example_tags ecr_deletion); [|reflexivity].
  by eapply history_others; [constructor|].
Qed.

Lemma ecr_linearisable_witness :
  ecr_uninstall ecr_told ecr_env simple_parse no_render "a" [] = (Done (Ok tt), [ecr_deletion]) /\
  exists m, ecr_history = [m] /\ after m = delete "a" (before m).
Proof.
  assert (Hrun : ecr_uninstall ecr_told ecr_env simple_parse no_render "a" [] = (Done (Ok tt), [ecr_deletion]))
    by (vm_compute; reflexivity).
  split; [exact Hrun|].
  exact (proj1 (proj2 (proj2 (ecr_linearisable (H := ecr_outside ecr_env) ecr_told ecr_env simple_parse no_render
    (EcrServer0 := ecr_server ecr_env) ∅ _ ecr_history "a" ecr_history_run))) Hrun).
Defined.

(** Somebody installs a second tag of the image between the list and the deletion:
    both are gone. *)
Definition mk_moment (m : gmap string string) (q : Request) : moment (gmap string string) :=
  {| before := m; did := Sent q; after := registry_next default_env m (Sent q) |}.
Definition two_tags : gmap string string := {["a" := "m1"; "b" := "m1"]}.
Definition tags_moment := mk_moment {["a" := "m1"]} (tags_request (tags_url default_env)).
Definition manifest_moment := mk_moment {["a" := "m1"]} (manifest_request (manifest_url default_env "a")).
Definition delete_moment := mk_moment two_tags (delete_request (manifest_url default_env "sha256:m1")).
Definition mk_history : list (moment (gmap string string)) := [tags_moment; manifest_moment; delete_moment].

#[local] Instance mk_http : Http := {|
  url_ok _ := true;
  http_answer log q := (out_send (Outside := minikube_outside default_env)
    (if decide (length log = 2%nat) then two_tags else {["a" := "m1"]}) q).2;
|}.

Lemma mk_history_run :
  history (H := minikube_outside default_env) refusing_system {["a" := "m1"]} mk_history (after delete_moment).
Proof.
  refine (history_event (H := minikube_outside default_env) refusing_system _ [tags_moment; manifest_moment] two_tags
    (did delete_moment) _ _); [|vm_compute; reflexivity].
  eapply history_others; [|exact I].
  refine (history_event (H := minikube_outside default_env) refusing_system _ [tags_moment] {["a" := "m1"]}
    (did manifest_moment) _ _); [|vm_compute; reflexivity].
  refine (history_event (H := minikube_outside default_env) refusing_system _ [] {["a" := "m1"]}
    (did tags_moment) _ _); [|vm_compute; reflexivity].
  constructor.
Qed.

Lemma minikube_uninstall_moments_witness :
  minikube_uninstall default_env simple_parse no_render same_bytes "a" [] = (Done (Ok tt), map did mk_history) /\
  exists earlier m1 mid m2, mk_history = earlier ++ m1 :: mid ++ [m2].
Proof.
  assert (Hrun : minikube_uninstall default_env simple_parse no_render same_bytes "a" [] =
    (Done (Ok tt), map did mk_history)) by (vm_compute; reflexivity).
  split; [exact Hrun|].
  destruct (minikube_uninstall_moments (H := minikube_outside default_env) refusing_system default_env simple_parse
    no_render same_bytes (MinikubeServer0 := minikube_server default_env) _ _ mk_history "a" mk_history_run Hrun)
    as [(m & rest & Hm & _ & Hnone & _)|(earlier & m1 & mid & m2 & d & r & Hh & _)].
  - injection Hm as <- <-. vm_compute in Hnone. discriminate Hnone.
  - exists earlier, m1, mid, m2. exact Hh.
Defined.

Example second_tag_goes_too : after delete_moment = ∅.
Proof. vm_compute. reflexivity. Qed.

Definition old_tags : gmap string string := {["a" := "m1"; "b" := "m1"]}.
Definition new_tags : gmap string string := {["a" := "m2"; "b" := "m2"]}.
Definition mixed : list Image := [{| tag := "a"; digest := "sha256:m1" |}; {| tag := "b"; digest := "sha256:m2" |}].
Definition mixed_history : list (moment (gmap string string)) :=
  [mk_moment old_tags (tags_request (tags_url default_env));
   mk_moment old_tags (manifest_request (manifest_url default_env "a"));
   mk_moment new_tags (manifest_request (manifest_url default_env "b"))].

Definition mixed_http : Http := {|
  url_ok _ := true;
  http_answer log q := (out_send (Outside := minikube_outside default_env)
    (if decide (length log = 2%nat) then new_tags else old_tags) q).2;
|}.

Lemma mixed_history_run :
  history (H := minikube_outside default_env) (H0 := mixed_http) refusing_system old_tags mixed_history new_tags.
Proof.
  refine (history_event (H := minikube_outside default_env) (H0 := mixed_http) refusing_system _
    (take 2 mixed_history) new_tags (Sent (manifest_request (manifest_url default_env "b"))) _ _);
    [|vm_compute; reflexivity].
  eapply history_others; [|exact I].
  refine (history_event (H := minikube_outside default_env) (H0 := mixed_http) refusing_system _
    (take 1 mixed_history) old_tags (Sent (manifest_request (manifest_url default_env "a"))) _ _);
    [|vm_compute; reflexivity].
  refine (history_event (H := minikube_outside default_env) (H0 := mixed_http) refusing_system _ [] old_tags
    (Sent (tags_request (tags_url default_env))) _ _); [|vm_compute; reflexivity].
  constructor.
Qed.

(** A list of the Minikube registry may mix two moments: when somebody replaces both
    images between the requests for their manifests, the list has the old digest of
    the one and the new digest of the other, which were never together. *)
Theorem minikube_list_mixes :
  history (H := minikube_outside default_env) (H0 := mixed_http) refusing_system old_tags mixed_history new_tags /\
  minikube_list (H := mixed_http) default_env simple_parse no_render same_bytes [] = (Done (Ok mixed), map did mixed_history) /\
  Forall (fun m => registry_tags default_env (before m) [] <> list_to_map (map (fun i => (tag i, digest i)) mixed))
    mixed_history.
Proof.
  split; [exact mixed_history_run|]. split; [vm_compute; reflexivity|]. repeat constructor; vm_compute; discriminate.
Qed.
