(* ===== verification/Shared.v ===== *)
(** * The image manager beside others

    The life of an image through the endpoints of [service/aim] while others use
    the same containerd and the same registry: other handlers of the service, the
    removals that handlers leave behind, and other clients ([Linear.history]).

    [RegistryServer] is one of the two registries, [EcrServer] or
    [MinikubeServer], as the variables select it, while others change it; what a
    look-up answers over either is proved.  [PushServer] is what the
    documentation of [ctr] says about an image on its way, as [Aim.PushLaws] does,
    of a state that others change.  What is asked of the others is said where it
    is needed: that they leave the namespace of the installation alone, whose name
    nobody else knows, and, for the look-up, that they leave the new tag alone. *)

From S2P Require Import Prelude RustStr Json Errors Names Backoff Process AimEnv Containerd Cleanup Registry Ecr Minikube Aim Linear.

(** ** From one moment to the next *)

Section Chain.
Context {O : Type} `{Outside O}.

(** Between two moments, others do what they do. *)
Fixpoint chain (o : O) (h : list (moment O)) (o' : O) : Prop :=
  match h with
  | [] => rtc others o o'
  | m :: h => rtc others o (before m) /\ after m = out_next (before m) (did m) /\ chain (after m) h o'
  end.

Lemma chain_others o h o1 o2 : chain o h o1 -> others o1 o2 -> chain o h o2.
Proof.
  revert o. induction h as [|m h IH]; simpl; intros o; [intros ? ?; by eapply rtc_r|].
  intros (Hb & Ha & Hc) Ho. eauto.
Qed.

Lemma chain_event o h o1 e :
  chain o h o1 -> chain o (h ++ [{| before := o1; did := e; after := out_next o1 e |}]) (out_next o1 e).
Proof.
  revert o. induction h as [|m h IH]; simpl; intros o; [intros Hc; by split_and!; [..|constructor]|].
  intros (Hb & Ha & Hc). eauto.
Qed.

Lemma history_chain `{Http} os o h o' : history os o h o' -> chain o h o'.
Proof. induction 1; [constructor|by eapply chain_others|by apply chain_event]. Qed.

(** A property that the others keep. *)
Definition stable (P : O -> Prop) : Prop := forall o1 o2, others o1 o2 -> P o1 -> P o2.

Lemma stable_rtc P o1 o2 : stable P -> rtc others o1 o2 -> P o1 -> P o2.
Proof. intros HP. induction 1; eauto. Qed.

(** ... and all the moments of a chain as well holds at all of them, and at the end. *)
Lemma chain_stable P o h o' :
  stable P -> chain o h o' -> P o -> Forall (fun m => P (before m) -> P (out_next (before m) (did m))) h ->
  Forall (fun m => P (before m)) h /\ P o'.
Proof.
  intros HP. revert o. induction h as [|m h IH]; simpl; intros o; [intros Hc Ho _; split; [done|by eapply stable_rtc]|].
  intros (Hb & Ha & Hc) Ho [Hm Hh]%Forall_cons.
  assert (Hbefore : P (before m)) by (by eapply stable_rtc). rewrite Ha in Hc.
  destruct (IH _ Hc (Hm Hbefore) Hh) as [Hall Hend]. split; [by constructor|done].
Qed.

Lemma chain_app o h1 h2 o' : chain o (h1 ++ h2) o' <-> exists o1, chain o h1 o1 /\ chain o1 h2 o'.
Proof.
  split.
  - revert o. induction h1 as [|m h1 IH]; simpl; intros o.
    + intros Hc. exists o. by split; [constructor|].
    + intros (Hb & Ha & Hc). apply IH in Hc as (o1 & H1 & H2). eauto.
  - intros (o1 & H1 & H2). revert o H1. induction h1 as [|m h1 IH]; simpl; intros o; [|intros (? & ? & ?); eauto].
    intros Hr. destruct h2 as [|m h2]; simpl in *; [by etrans|]. destruct H2 as (Hb & ? & ?). split_and!; [by etrans|done|done].
Qed.
End Chain.

(** ** Interfaces *)

Section Interfaces.
Context {O : Type} `{Outside O} (var : environment).

(** The registry that the variables select. *)
Inductive RegistryServer (parse_json : string -> result json string) (sha256 : string -> string) : Type :=
| SharedEcr (Hw : which var = Done Ecr) (server : EcrServer O var parse_json)
| SharedMinikube (Hw : which var = Done Minikube) (server : MinikubeServer O var parse_json sha256).

Definition contents {parse_json sha256} (reg : RegistryServer parse_json sha256) (o : O) : gmap string string :=
  match reg with
  | SharedEcr _ _ _ _ => ecr_state o
  | SharedMinikube _ _ _ _ => mk_state o
  end.

(** When a look-up may miss the tag: over ECR, when there is more than the page of
    a hundred images that the command prints; over Minikube, when the request for
    the manifest is answered with another error. *)
Definition unclear {parse_json sha256} (reg : RegistryServer parse_json sha256) (o : O) (t : string) : Prop :=
  match reg with
  | SharedEcr _ _ _ _ => ~ fits_now o
  | SharedMinikube _ _ _ _ => exists r, (out_send o (manifest_request (manifest_url var t))).2 = Some r /\
      http_status r <> OK /\ http_status r <> NOT_FOUND
  end.

Class PushServer (tags : O -> gmap string string) := {
  (** The digest of an image in a namespace of containerd. *)
  holds : O -> string -> string -> option string;
  (** A removal of the image was started. *)
  due : O -> string -> string -> Prop;
  server_ls o ns out row ref kind d rest :
    cmd (fun argv => (out_run o argv).2) None "ctr" (map plain (ls_args ns)) = Done (Ok out) ->
    row ∈ tail (str_split newline out) -> str_split " " row = ref :: kind :: d :: rest ->
    holds (out_run o ("ctr" :: ls_args ns)).1 ns ref = Some d;
  server_tag o ns a b out :
    cmd (fun argv => (out_run o argv).2) None "ctr" (map plain (tag_args ns a b)) = Done (Ok out) ->
    holds (out_run o ("ctr" :: tag_args ns a b)).1 ns b = holds o ns a;
  server_password o : holds (out_run o password_command).1 = holds o;
  (** A command starts no removal; the start of a removal removes nothing yet. *)
  server_no_removal o argv : due (out_run o argv).1 = due o;
  server_removal o ns a : holds (out_spawn o (SpawnRemoveImage ns a)) = holds o;
  server_due o ns a b : a <> b -> due (out_spawn o (SpawnRemoveImage ns a)) ns b -> due o ns b;
  server_pushed o i how out t d :
    cmd (fun argv => (out_run o argv).2) None "ctr" (push_command i how) = Done (Ok out) ->
    valid_tag t = true -> tmp_reference i = new_reference var t ->
    holds o (tmp_namespace i) (tmp_reference i) = Some d ->
    tags (out_run o ("ctr" :: map raw (push_command i how))).1 = <[t := d]> (tags o);
  server_local o e : touches_registry e = false -> tags (out_next o e) = tags o;
}.

(** The others use a namespace only to finish the removals that were started. *)
Definition left_alone {in_registry} `{!PushServer in_registry} (ns : string) : Prop :=
  forall o1 o2 ref, others o1 o2 -> ~ due o1 ns ref -> ~ due o2 ns ref /\ holds o2 ns ref = holds o1 ns ref.
End Interfaces.
Arguments SharedEcr {O H var parse_json sha256} Hw server.
Arguments SharedMinikube {O H var parse_json sha256} Hw server.
Arguments contents {O H var parse_json sha256} reg _.
Arguments unclear {O H var parse_json sha256} reg _ _.
Arguments holds {O H var tags _} _ _ _.
Arguments due {O H var tags _} _ _ _.
Arguments server_ls {O H var tags _} _ _ _ _ _ _ _ _ _ _ _.
Arguments server_tag {O H var tags _} _ _ _ _ _ _.
Arguments server_password {O H var tags _} _.
Arguments server_no_removal {O H var tags _} _ _.
Arguments server_removal {O H var tags _} _ _ _.
Arguments server_due {O H var tags _} _ _ _ _ _ _.
Arguments server_pushed {O H var tags _} _ _ _ _ _ _ _ _ _ _.
Arguments server_local {O H var tags _} _ _ _.
Arguments left_alone {O H var in_registry _} _.

(** ** A look-up, over either registry *)

Section Backends.
Context {O : Type} `{Outside O} `{Http} (os : list event -> list string -> child) (var : environment).
Context (parse_json : string -> result json string) (render : string -> de_error -> string) (sha256 : string -> string).

Lemma ecr_look_up `{!EcrServer O var parse_json} log t found log' :
  ecr_get os var parse_json render t log = (Done (Ok found), log') ->
  exists e, log' = log ++ [e] /\ forall o, told os log o e -> looks_up (fits_now o) (ecr_state o) t found.
Proof.
  intros (images & log1 & Hl & Hg)%bind_Ok. injection Hg as <- <-. apply ecr_list_inv in Hl as [-> Hl].
  destruct (Hl _ eq_refl) as (out & l & Hcmd & Hread & ->). eexists. split; [done|]. intros o Ht.
  apply find_tag_lookup. eapply listed_right; [exact Hread|]. apply server_list_images.
  rewrite <- Hcmd. unfold aws_cmd, cmd. change (map raw _) with (list_command var). by rewrite Ht.
Qed.

Lemma minikube_look_up `{!MinikubeServer O var parse_json sha256} log t found log' :
  valid_tag t = true -> minikube_get var sha256 t log = (Done (Ok found), log') ->
  exists e, log' = log ++ [e] /\ forall o, told os log o e ->
    found = (fun d => {| tag := t; digest := d |}) <$> mk_state o !! t \/
    exists r, (out_send o (manifest_request (manifest_url var t))).2 = Some r /\
      http_status r <> OK /\ http_status r <> NOT_FOUND.
Proof.
  intros Hvalid (u & l0 & [[-> Hu]%checked_Done ->]%guard_Ok & Hb)%bind_Ok.
  apply bind_Ok in Hb as (r & l1 & [Hr ->]%send_Ok & Hb).
  exists (Sent (manifest_request (manifest_url var t))).
  destruct (Z.eqb_spec (http_status r) NOT_FOUND) as [Hs|Hs].
  - injection Hb as <- <-. split; [done|]. intros o Ht. simpl in Ht. rewrite Hr in Ht. left.
    by rewrite (server_no_manifest _ _ _ Hvalid (eq_sym Ht) Hs).
  - apply bind_Ok in Hb as (bytes & l2 & [Hbytes%read_Done ->]%guard_Ok & Hb). injection Hb as <- <-.
    split; [done|]. intros o Ht. simpl in Ht. rewrite Hr in Ht. destruct (decide (http_status r = OK)) as [Ho|Ho].
    + left. by rewrite (server_manifest _ _ _ _ Hvalid (eq_sym Ht) Ho Hbytes).
    + right. by exists r.
Qed.

Lemma look_up_right (reg : RegistryServer var parse_json sha256) log t found log' :
  valid_tag t = true -> backend_get os var parse_json render sha256 t log = (Done (Ok found), log') ->
  exists e, log' = log ++ [e] /\ forall o, told os log o e ->
    found = (fun d => {| tag := t; digest := d |}) <$> contents reg o !! t \/ unclear reg o t.
Proof.
  intros Hvalid. unfold backend_get. destruct reg as [Hw server|Hw server]; rewrite (dispatch_to _ _ _ _ Hw); simpl.
  - intros (e & -> & He)%ecr_look_up. exists e. split; [done|]. intros o Ho. specialize (He o Ho).
    destruct (decide (fits (ecr_state o) (untagged_in o))) as [Hf|Hf]; [left|by right].
    by apply (looks_up_complete _ _ _ _ He).
  - by apply minikube_look_up.
Qed.
End Backends.

(** ** The installation *)

Section Shared.
Context {O : Type} `{Outside O} `{Http} (os : list event -> list string -> child) (var : environment).
Context (debug : dyn_AcmError -> string) (simple : Z -> string) (ua : Z -> bool).
Context (parse_json : string -> result json string) (render : string -> de_error -> string) (sha256 : string -> string).
Context (ns_random random letter : Z) (tmp : option string).
Notation ns := (uuid simple ns_random).

(** What the handler was told by a command is what the outside answered. *)
Lemma told_cmd o h o' pre m post command args :
  history os o h o' -> h = pre ++ m :: post -> did m = Ran (command :: map raw args) ->
  cmd (os (map did pre)) None command args = cmd (fun argv => (out_run (before m) argv).2) None command args.
Proof.
  intros Hh Hm Hd. destruct (history_at _ _ _ _ _ _ _ Hh Hm) as [Ht _]. rewrite Hd in Ht. simpl in Ht.
  unfold cmd. by rewrite Ht.
Qed.

Context (in_registry : O -> gmap string string) {Hpush : PushServer var in_registry}.

(** No removal of the image was started; and containerd still has it. *)
Definition wanted (ref : string) (o : O) : Prop := ~ due o ns ref.
Definition kept (ref d : string) (o : O) : Prop := wanted ref o /\ holds o ns ref = Some d.

Lemma stable_wanted ref : left_alone ns -> stable (wanted ref).
Proof. intros Hns o1 o2 Ho Hw. by destruct (Hns _ _ _ Ho Hw). Qed.

Lemma stable_kept ref d : left_alone ns -> stable (kept ref d).
Proof. intros Hns o1 o2 Ho [Hw Hd]. destruct (Hns _ _ _ Ho Hw) as [? Hk]. split; [done|]. by rewrite Hk. Qed.

Lemma wanted_run ref o argv : wanted ref o -> wanted ref (out_run o argv).1.
Proof. unfold wanted. by rewrite server_no_removal. Qed.

(** At most the request for a password is between the new name and the push. *)
Lemma kept_password ref d h l :
  l = [] \/ l = [password_command] -> map did h = map Ran l ->
  Forall (fun m => kept ref d (before m) -> kept ref d (out_next (before m) (did m))) h.
Proof.
  intros [->| ->] Hh; [by apply map_eq_nil in Hh as ->|]. destruct h as [|m [|]]; try done. constructor; [|constructor].
  injection Hh as Hm. rewrite Hm. intros [Hw Hd]. split; [by apply wanted_run|].
  change (holds (out_run (before m) password_command).1 ns ref = Some d). by rewrite server_password.
Qed.

(** The image keeps its way through containerd. *)
Lemma kept_to_push o m1 m2 m3 m4 h o' i j argv l out1 row kind rest out2 :
  left_alone ns -> (forall ref, ~ due o ns ref) ->
  chain o ([m1; m2; m3; m4] ++ h) o' ->
  did m1 = Ran argv -> did m2 = Ran ("ctr" :: ls_args ns) ->
  did m3 = Ran ("ctr" :: tag_args ns (tmp_reference i) (tmp_reference j)) ->
  did m4 = SpawnRemoveImage ns (tmp_reference i) -> l = [] \/ l = [password_command] -> map did h = map Ran l ->
  cmd (fun argv => (out_run (before m2) argv).2) None "ctr" (map plain (ls_args ns)) = Done (Ok out1) ->
  row ∈ tail (str_split newline out1) -> str_split " " row = tmp_reference i :: kind :: tmp_digest i :: rest ->
  cmd (fun argv => (out_run (before m3) argv).2) None "ctr"
    (map plain (tag_args ns (tmp_reference i) (tmp_reference j))) = Done (Ok out2) ->
  tmp_reference i <> tmp_reference j -> kept (tmp_reference j) (tmp_digest i) o'.
Proof.
  intros Hns Hnew (Hb1 & Ha1 & Hb2 & Ha2 & Hb3 & Ha3 & Hb4 & Ha4 & Hc) Hm1 Hm2 Hm3 Hm4 Hl Hh Hls Hrow Hsplit Htag Hne.
  rewrite Hm1 in Ha1. rewrite Hm2 in Ha2. rewrite Hm3 in Ha3. rewrite Hm4 in Ha4. simpl in Ha1, Ha4.
  assert (Hw : forall ref, wanted ref (before m2)).
  { intros ref. eapply stable_rtc; [by apply stable_wanted|exact Hb2|]. rewrite Ha1. apply wanted_run.
    by eapply stable_rtc; [apply stable_wanted|exact Hb1|apply Hnew]. }
  assert (Hw3 : forall ref, wanted ref (before m3)).
  { intros ref. eapply stable_rtc; [by apply stable_wanted|exact Hb3|]. rewrite Ha2. by apply wanted_run. }
  assert (Hk3 : kept (tmp_reference i) (tmp_digest i) (before m3)).
  { eapply stable_rtc; [by apply stable_kept|exact Hb3|]. rewrite Ha2. split; [by apply wanted_run|].
    by eapply server_ls. }
  assert (Hk4 : kept (tmp_reference j) (tmp_digest i) (before m4)).
  { eapply stable_rtc; [by apply stable_kept|exact Hb4|]. rewrite Ha3. split; [by apply wanted_run|].
    cbn [out_next]. rewrite (server_tag _ _ _ _ _ Htag). apply Hk3. }
  refine (proj2 (chain_stable _ _ _ _ (stable_kept _ _ Hns) Hc _ (kept_password _ _ _ _ Hl Hh))). rewrite Ha4.
  destruct Hk4 as [Hw4 Hd4]. split; [by intros ?%server_due|]. by rewrite server_removal.
Qed.

Definition registry_keeps (m : moment O) : Prop := in_registry (after m) = in_registry (before m).

Lemma local_keeps o h o' :
  chain o h o' -> Forall (fun e => touches_registry e = false) (map did h) -> Forall registry_keeps h.
Proof.
  revert o. induction h as [|m h IH]; intros o; simpl; [by constructor|].
  intros (_ & Ha & Hc) [Hm Hh]%Forall_cons. constructor; [|by eapply IH].
  unfold registry_keeps. rewrite Ha. by apply server_local.
Qed.

(** The push is the moment of an installation. *)
Lemma install_moment o h o' img :
  history os o h o' -> left_alone ns -> (forall ref, ~ due o ns ref) ->
  containerd_import os var debug simple ua ns_random random letter tmp [] = (Done (Ok img), map did h) ->
  valid_tag (tag img) = true ->
  (forall i, (import_ os ns tmp []).1 = Done (Ok i) -> tmp_reference i <> new_reference var (tag img)) ->
  exists pre m post, h = pre ++ m :: post /\ in_registry (after m) = <[tag img := digest img]> (in_registry (before m)) /\
    Forall registry_keeps (pre ++ post).
Proof.
  intros Hh Hns Hnew Hrun Hvalid Hfresh.
  apply install_run in Hrun as (i & j & path & l2 & how & out1 & out2 & out3 & Hlog & Hl2 & -> & Hi & Hj & Hd & Href & _ &
    Himport & Hls & (row & kind & rest & Hrow & Hsplit) & Htag & Hpushed). cbn [Image_from tag digest] in *.
  specialize (Hfresh _ Himport). rewrite <- Href in Hfresh. cbn [app] in Hls, Htag, Hpushed. rewrite app_nil_l in Hlog.
  apply map_eq_app in Hlog as (h1 & h2 & -> & H1 & H2). apply map_eq_app in H2 as (hp & h3 & -> & Hp & H3).
  destruct h1 as [|m1 [|m2 [|m3 [|m4 [|]]]]]; try done. injection H1 as Hm1 Hm2 Hm3 Hm4.
  destruct h3 as [|m5 post]; [done|]. injection H3 as Hm5 Hpost.
  pose proof (history_chain _ _ _ _ Hh) as Hc.
  pose proof (told_cmd _ _ _ [m1] m2 ([m3; m4] ++ hp ++ m5 :: post) "ctr" (map plain (ls_args ns)) Hh eq_refl Hm2) as T2.
  pose proof (told_cmd _ _ _ [m1; m2] m3 (m4 :: hp ++ m5 :: post) "ctr"
    (map plain (tag_args ns (tmp_reference i) (tmp_reference j))) Hh eq_refl Hm3) as T3.
  rewrite app_assoc in Hh. pose proof (told_cmd _ _ _ _ _ _ "ctr" (push_command j how) Hh eq_refl Hm5) as T5.
  rewrite map_app, Hp in T5. simpl map in T2, T3, T5. rewrite Hm1 in T2, T3, T5. rewrite Hm2 in T3, T5.
  rewrite Hm3, Hm4 in T5. simpl in Hls, Htag, Hpushed. simpl in T2, T3, T5. rewrite T2 in Hls. rewrite T3 in Htag.
  rewrite T5 in Hpushed.
  rewrite app_assoc in Hc. apply chain_app in Hc as (o1 & Hc1 & Hb5 & Ha5 & Hc2).
  unfold drop_image in Hm4. rewrite Hi in Hm4.
  pose proof (kept_to_push _ _ _ _ _ _ _ _ _ _ _ _ _ _ _ _ Hns Hnew Hc1 Hm1 Hm2 Hm3 Hm4 Hl2 Hp Hls Hrow Hsplit Htag Hfresh)
    as Hkept. apply (stable_rtc _ _ _ (stable_kept _ _ Hns) Hb5) in Hkept as [_ Hkept].
  exists ([m1; m2; m3; m4] ++ hp), m5, post. split_and!; [by rewrite app_assoc| |].
  - rewrite Ha5, Hm5. cbn [out_next]. apply (server_pushed _ _ _ _ _ _ Hpushed Hvalid Href). by rewrite Hj, Hd.
  - apply Forall_app. split; [eapply local_keeps; [exact Hc1|]|eapply local_keeps; [exact Hc2|]].
    + rewrite map_app, Hp. simpl. rewrite Hm1, Hm2, Hm3, Hm4. destruct Hl2 as [->| ->]; by repeat constructor.
    + rewrite Hpost. by repeat constructor.
Qed.
End Shared.

Section Lifecycle.
Context {O : Type} `{Outside O} `{Http} (os : list event -> list string -> child) (var : environment).
Context (debug : dyn_AcmError -> string) (simple : Z -> string) (ua : Z -> bool).
Context (parse_json : string -> result json string) (render : string -> de_error -> string) (sha256 : string -> string).
Context (ns_random random letter : Z) (tmp : option string).
Context (reg : RegistryServer var parse_json sha256) {Hpush : PushServer var (contents reg)}.
Notation ns := (uuid simple ns_random).
Notation endpoint_get := (get_ os var debug parse_json render sha256).
Notation asked_for := (backend_get os var parse_json render sha256).

Lemma history_prefix o h1 h2 o' : history os o (h1 ++ h2) o' -> exists o1, history os o h1 o1.
Proof.
  intros Hh. remember (h1 ++ h2) as h eqn:Heq. revert h2 Heq.
  induction Hh as [|h o1 o2 _ IH _|h o1 e Hh IH Ht]; intros h2 Heq; [|by eapply IH|].
  - symmetry in Heq. apply app_eq_nil in Heq as [-> ->]. eexists. constructor.
  - destruct h2 as [|m h2 _] using rev_ind.
    + rewrite app_nil_r in Heq. subst h1. eexists. by constructor.
    + rewrite app_assoc in Heq. apply app_inj_tail in Heq as [-> _]. by eapply IH.
Qed.

(** What [get] answers for a tag of which the registry knows this. *)
Definition answer_for (t : string) (known : option string) : Result (Response Image) :=
  match known with
  | Some d => Ok (into_response {| tag := t; digest := d |})
  | None => Err (into_box (TagNotFound t (registry var +:+ "/" +:+ repository var)))
  end.

Lemma get_moment o h1 h2 o' t found :
  history os o (h1 ++ h2) o' -> valid_tag t = true -> asked_for t (map did h1) = (Done (Ok found), map did (h1 ++ h2)) ->
  exists m, h2 = [m] /\ (unclear reg (before m) t \/
    endpoint_get t Complete (map did h1) =
      (Done (answer_for t (contents reg (before m) !! t)), Complete, map did (h1 ++ h2))).
Proof.
  intros Hh Hvalid Hg. destruct (look_up_right _ _ _ _ _ reg _ _ _ _ Hvalid Hg) as (e & He & Hseen).
  rewrite map_app in He. apply app_inv_head in He. destruct h2 as [|m [|]]; try done. injection He as He.
  exists m. split; [done|]. destruct (history_at _ _ _ _ _ _ _ Hh eq_refl) as [Ht _]. rewrite He in Ht.
  destruct (Hseen _ Ht) as [->|Hu]; [right|by left]. rewrite (get_complete _ _ _ _ _ _ _ _ _ _ Hg).
  by destruct (contents reg (before m) !! t).
Qed.

(** What the registry has after the push, until somebody takes it away. *)
Lemma stays o pre m post o' t d :
  chain o (pre ++ m :: post) o' -> stable (fun o => contents reg o !! t = Some d) ->
  contents reg (after m) !! t = Some d -> Forall (registry_keeps (contents reg)) post -> contents reg o' !! t = Some d.
Proof.
  intros Hc Hstable Hm Hpost. apply chain_app in Hc as (o1 & _ & _ & _ & Hc). revert Hc Hm Hpost.
  generalize (after m) as o2. induction post as [|m' post IH]; intros o2; simpl; [intros; by eapply (stable_rtc _ _ _ Hstable)|].
  intros (Hb & _ & Hc) Ho2 [Hk Hpost]%Forall_cons. apply (IH _ Hc); [|done]. rewrite Hk.
  exact (stable_rtc _ _ _ Hstable Hb Ho2).
Qed.

(** C9: an installation, whatever others do to the registry and to containerd in the
    meantime, as long as they leave its namespace alone.  It takes effect at one
    moment: the push, which puts the image under its new tag into the registry that
    is there at that moment; at every other moment it changes nothing there.  A
    look-up that follows takes one moment as well and answers what the registry
    has then, or that the tag is not there; and when the others leave the tag
    alone, that is the image.  The look-up may miss the tag over ECR, when the
    repository has more than the hundred images that one request lists, and over
    Minikube, when the registry answers with another error. *)
Theorem installation_among_others (o o' : O) (h1 h2 : list (moment O)) (state : once) (img : Image)
  (Hhistory : history os o (h1 ++ h2) o') (Hns : left_alone ns) (Hnew : forall ref, ~ due o ns ref)
  (Hsimple : simple_law simple) (Hrandom : 0 <= random < 2 ^ 128) (Hletter : is_ascii_lower letter = true)
  (Hinstall : install os var debug simple ua ns_random random letter tmp Complete [] =
     (Done (Ok (into_response img)), state, map did h1))
  (Hfresh : forall i, (import_ os ns tmp []).1 = Done (Ok i) -> tmp_reference i <> new_reference var (tag img)) :
  (exists pre m post, h1 = pre ++ m :: post /\
     contents reg (after m) = <[tag img := digest img]> (contents reg (before m)) /\
     Forall (registry_keeps (contents reg)) (pre ++ post)) /\
  (forall found, asked_for (tag img) (map did h1) = (Done (Ok found), map did (h1 ++ h2)) ->
     exists m, h2 = [m] /\ (unclear reg (before m) (tag img) \/
       endpoint_get (tag img) Complete (map did h1) =
         (Done (answer_for (tag img) (contents reg (before m) !! tag img)), Complete, map did (h1 ++ h2))) /\
       (stable (fun o => contents reg o !! tag img = Some (digest img)) -> contents reg (before m) !! tag img = Some (digest img))).
Proof.
  apply (handler_Ok os var debug) in Hinstall as (-> & img' & Hrun & Himg). injection Himg as <-.
  pose proof (install_valid_tag _ _ _ _ _ _ _ _ _ _ _ _ Hsimple Hrandom Hletter Hrun) as Hvalid.
  destruct (history_prefix _ _ _ _ Hhistory) as [o1 Hh1].
  destruct (install_moment _ _ _ _ _ _ _ _ _ _ _ _ _ _ Hh1 Hns Hnew Hrun Hvalid Hfresh) as (pre & m & post & -> & Hm & Hkeep).
  split; [by exists pre, m, post|]. intros found Hg.
  destruct (get_moment _ _ _ _ _ _ Hhistory Hvalid Hg) as (m' & -> & Hans). exists m'. split_and!; [done|done|].
  intros Hstable. apply Forall_app in Hkeep as [_ Hpost].
  pose proof (history_chain _ _ _ _ Hhistory) as (o2 & Hc & Hb & _)%chain_app.
  apply (stable_rtc _ _ _ Hstable Hb). refine (stays _ _ _ _ _ _ _ Hc Hstable _ Hpost).
  by rewrite Hm, lookup_insert_eq.
Qed.
End Lifecycle.

(** ** An instance: containerd and a registry in memory, which others change *)

Record site := {
  site_daemon : memory;
  (** By tag: the digests of ECR, the manifests of the Minikube registry. *)
  site_registry : gmap string string;
  (** The removals that were started. *)
  site_due : list (string * string);
}.

Section Site.
Context (var : environment) (impl : Implementation) (t : string).

Definition site_next (m : gmap string string) (e : event) : gmap string string :=
  match impl with Ecr => ecr_next var m e | Minikube => registry_next var m e end.
Definition site_tags (s : site) : gmap string string :=
  match impl with Ecr => site_registry s | Minikube => registry_tags var (site_registry s) [] end.
Definition site_holds (s : site) : string -> string -> option string := daemon_held (site_daemon s).

(** Others do what they like to the registry, but they leave the tag alone; in
    containerd they do what they like to the images that are to be removed. *)
Definition site_others (s1 s2 : site) : Prop :=
  site_due s2 = site_due s1 /\
  (forall ns ref, (ns, ref) ∉ site_due s1 -> site_holds s2 ns ref = site_holds s1 ns ref) /\
  (forall d, site_tags s1 !! t = Some d -> site_tags s2 !! t = Some d).

Definition site_run (s : site) (argv : list string) : site * child :=
  let registry := site_next (site_registry s) (Ran argv) in
  if decide (head argv = Some "ctr") then
    ({| site_daemon := (ctr_run (site_daemon s) argv).1; site_registry := registry; site_due := site_due s |},
     (ctr_run (site_daemon s) argv).2)
  else
    ({| site_daemon := site_daemon s; site_registry := registry; site_due := site_due s |},
     memory_ecr var (site_registry s) [] argv).

#[local] Instance site_outside : Outside site := {|
  out_run := site_run;
  out_send s q :=
    ({| site_daemon := site_daemon s; site_registry := site_next (site_registry s) (Sent q); site_due := site_due s |},
     http_answer (Http := memory_registry var (site_registry s) (fun _ => false)) [] q);
  out_spawn s e :=
    match e with
    | SpawnRemoveImage ns ref =>
        {| site_daemon := site_daemon s; site_registry := site_registry s; site_due := (ns, ref) :: site_due s |}
    | _ => s
    end;
  others := site_others;
|}.

Lemma site_local m e : touches_registry e = false -> site_next m e = m.
Proof.
  unfold site_next. destruct impl, e as [argv|[[] url a]| |]; simpl; try done.
  - by intros [-> ->]%orb_false_iff.
  - by intros [-> _]%orb_false_iff.
Qed.

Lemma site_ctr s args out :
  cmd (fun argv => (site_run s argv).2) None "ctr" (map plain args) = Done (Ok out) ->
  ctr_ok (site_daemon s) args = Some out.
Proof.
  intros Hc. unfold ctr_ok.
  assert (Hr : forall l, (site_run s ("ctr" :: l)).2 = (ctr_run (site_daemon s) ("ctr" :: l)).2) by done.
  unfold cmd in *. rewrite Hr in Hc. by rewrite Hc.
Qed.

Lemma site_run_registry s argv : site_registry (site_run s argv).1 = site_next (site_registry s) (Ran argv).
Proof. unfold site_run. by case_decide. Qed.

(** A push puts the image under its tag. *)
Lemma site_pushed m i how tg :
  valid_tag tg = true -> tmp_reference i = new_reference var tg ->
  site_next m (Ran ("ctr" :: map raw (push_command i how))) =
    <[tg := match impl with Ecr => "sha256:76a5" | Minikube => pushed_bytes end]> m.
Proof.
  intros Ht Href. unfold site_next. destruct impl; cbn [ecr_next registry_next];
    rewrite last_pushed, Href; simpl is_push; cbn [mbind option_bind]; by rewrite reference_of, ?Ht.
Qed.

Definition site_PushServer : PushServer var site_tags.
Proof.
  refine {| holds := site_holds; due s ns ref := (ns, ref) ∈ site_due s |}.
  - intros s ns out row ref kind d rest Hc%site_ctr. by apply daemon_held_ls.
  - intros s ns a b out Hc%site_ctr. by eapply daemon_held_tag.
  - done.
  - intros s argv. simpl. unfold site_run. by case_decide.
  - done.
  - intros s ns a b Hne. simpl. intros [[= ->]|]%elem_of_cons; done.
  - intros s i how out tg d _ Ht Href Hd. unfold site_holds, daemon_held in Hd. case_decide; [|done]. injection Hd as <-.
    unfold site_tags. cbn [out_run site_outside]. rewrite site_run_registry, (site_pushed _ _ _ tg) by done.
    destruct impl; [done|]. unfold registry_tags, memory_manifests. simpl.
    by rewrite map_filter_insert_True, fmap_insert.
  - intros s e He. unfold site_tags. assert (Hr : site_registry (out_next s e) = site_registry s).
    { destruct e as [argv|q|ns ref|ns]; simpl; [|by rewrite site_local|done|done].
      rewrite site_run_registry. by apply site_local. }
    by rewrite Hr.
Defined.
End Site.

Section Servers.
Context (var : environment) (t : string).

Definition site_ecr : EcrServer (H := site_outside var Ecr t) site var simple_parse.
Proof.
  refine {| ecr_state s := site_registry s; untagged_in _ := 0%nat |}.
  - intros s. exact (memory_lists var (site_registry s) []).
  - intros s. exact (memory_list_keeps var (site_registry s) []).
  - intros s. exact (memory_deletes var (site_registry s) []).
Defined.

Definition site_minikube : MinikubeServer (H := site_outside var Minikube t) site var simple_parse same_bytes.
Proof.
  pose (server := minikube_server var).
  refine {| mk_state s := registry_tags var (site_registry s) [] |}.
  - intros s. exact (server_valid (MinikubeServer := server) (site_registry s)).
  - intros s. exact (server_tags_list (MinikubeServer := server) (site_registry s)).
  - intros s. exact (server_manifest (MinikubeServer := server) (site_registry s)).
  - intros s. exact (server_no_manifest (MinikubeServer := server) (site_registry s)).
  - intros s. exact (server_delete (MinikubeServer := server) (site_registry s)).
Defined.

(** Over Minikube: the interface of [installation_among_others] is given as well. *)
Definition site_on_minikube (Hw : which var = Done Minikube)
  : RegistryServer (H := site_outside var Minikube t) var simple_parse same_bytes := SharedMinikube Hw site_minikube.
End Servers.

(** ** Witness: others come and go between any two commands *)

Section Played.
Context {O : Type} `{Outside O} (start : O) (interfere : nat -> O -> O).

(** The log backwards. *)
Fixpoint played (l : list event) : O :=
  match l with
  | [] => start
  | e :: l => out_next (interfere (length l) (played l)) e
  end.
Fixpoint moments (l : list event) : list (moment O) :=
  match l with
  | [] => []
  | e :: l => moments l ++ [{| before := interfere (length l) (played l); did := e; after := played (e :: l) |}]
  end.

Definition at_log (log : list event) : O := interfere (length log) (played (rev log)).
Definition played_os (log : list event) (argv : list string) : child := (out_run (at_log log) argv).2.
#[local] Instance played_http : Http := {| url_ok _ := true; http_answer log q := (out_send (at_log log) q).2 |}.

Lemma played_did l : map did (moments l) = rev l.
Proof. induction l as [|e l IH]; simpl; [done|]. by rewrite map_app, IH. Qed.

Lemma played_history l : (forall n o, others o (interfere n o)) -> history played_os start (moments l) (played l).
Proof.
  intros Ho. induction l as [|e l IH]; [constructor|]. cbn [moments]. cbn [played]. apply history_event.
  - by eapply history_others.
  - rewrite played_did. destruct e; simpl; unfold played_os, at_log; by rewrite ?length_rev, ?rev_involutive.
Qed.
End Played.

Definition new_tag : string := tag example_image.
#[local] Instance shared_outside : Outside site := site_outside aws_env Ecr new_tag.

(** Somebody else installs an image, uninstalls it, and so on. *)
Definition guest (n : nat) (s : site) : site :=
  let r := site_registry s in
  {| site_daemon := site_daemon s;
     site_registry := if Nat.odd n then <["guest" := "sha256:00"]> r else delete "guest" r;
     site_due := site_due s |}.

Lemma guest_others n s : others s (guest n s).
Proof.
  split_and!; [done|done|]. intros d Hd. unfold guest, site_tags in *. cbn [site_registry] in *.
  destruct (Nat.odd n); [by rewrite lookup_insert_ne|by rewrite lookup_delete_ne].
Qed.

Definition quiet_site : site := {| site_daemon := empty_daemon; site_registry := ∅; site_due := [] |}.
Definition shared_os := played_os quiet_site guest.
#[local] Instance shared_http : Http := played_http quiet_site guest.
Definition shared_registry : RegistryServer aws_env simple_parse same_bytes :=
  SharedEcr (eq_refl : which aws_env = Done Ecr) (site_ecr aws_env new_tag).
#[local] Instance shared_push : PushServer aws_env (contents shared_registry) :=
  site_PushServer aws_env Ecr new_tag.

Definition shared_install :=
  install shared_os aws_env dyn_display hex_simple no_unicode 1 2 97 (Some "/tmp/a") Complete [].
Definition shared_get (log : list event) :=
  get_ shared_os aws_env dyn_display simple_parse no_render same_bytes new_tag Complete log.
Definition install_log : list event := Eval vm_compute in shared_install.2.
Definition look_up : event := Ran ("aws" :: list_command aws_env).
Definition install_moments : list (moment site) := moments quiet_site guest (rev install_log).
Definition look_up_moment : moment site :=
  {| before := guest 8 (played quiet_site guest (rev install_log)); did := look_up;
     after := played quiet_site guest (look_up :: rev install_log) |}.

Lemma shared_history : history shared_os quiet_site (install_moments ++ [look_up_moment]) (after look_up_moment).
Proof. exact (played_history quiet_site guest (look_up :: rev install_log) guest_others). Qed.

Lemma shared_installed : shared_install = (Done (Ok (into_response example_image)), Complete, map did install_moments).
Proof. vm_compute. reflexivity. Qed.

Lemma shared_looked_up :
  backend_get shared_os aws_env simple_parse no_render same_bytes new_tag (map did install_moments) =
  (Done (Ok (Some example_image)), map did (install_moments ++ [look_up_moment])).
Proof. vm_compute. reflexivity. Qed.

(** The guest is in the registry at the moment of the push; the new image is found. *)
Lemma installation_among_others_witness :
  (exists pre m post, install_moments = pre ++ m :: post /\
     site_registry (after m) = <[new_tag := "sha256:76a5"]> (site_registry (before m))) /\
  (shared_get install_log).1.1 = Done (Ok (into_response example_image)).
Proof.
  destruct (installation_among_others shared_os aws_env dyn_display hex_simple no_unicode simple_parse no_render same_bytes
    1 2 97 (Some "/tmp/a") shared_registry (Hpush := shared_push) quiet_site (after look_up_moment)
    install_moments [look_up_moment] Complete example_image shared_history) as [Hpush Hget].
  - intros s1 s2 ref (Hdue & Hholds & _) Hno. simpl in *. rewrite Hdue. split; [done|by apply Hholds].
  - intros ref. simpl. apply not_elem_of_nil.
  - exact hex_simple_law.
  - lia.
  - reflexivity.
  - exact shared_installed.
  - intros i Hi. vm_compute in Hi. injection Hi as <-. vm_compute. discriminate.
  - split.
    + destruct Hpush as (pre & m & post & Hh & Hm & _). exists pre, m, post. split; [exact Hh|exact Hm].
    + destruct (Hget _ shared_looked_up) as (m & [= <-] & [Hmore|Hans] & Hthere);
        [destruct Hmore; apply Nat.leb_le; vm_compute; reflexivity|].
      assert (Hlog : map did install_moments = install_log) by (vm_compute; reflexivity).
      unfold shared_get. rewrite <- Hlog. unfold new_tag. rewrite Hans. rewrite Hthere; [reflexivity|].
      intros s1 s2 (_ & _ & Htag) Hs1. exact (Htag _ Hs1).
Defined.

Example guest_at_push :
  site_registry <$> (before <$> install_moments !! 5%nat) = Some {["guest" := "sha256:00"]}.
Proof. vm_compute. reflexivity. Qed.
