(* ===== verification/Handlers.v ===== *)
(** * The image manager under concurrent requests

    [service/aim/src/main.rs] over ECR: any number of its handlers run at the same
    time, each in its own order, and interleave at their commands; containerd
    finishes the removals that they leave behind whenever it likes.

    The specification is a map from tags to digests with four operations, one for
    each endpoint ([effect]).  The run of many handlers ([together]) is
    linearisable: there is a moment of each handler such that the replies are those
    of the operations of the map, done one after the other in the order of these
    moments. *)

From S2P Require Import Prelude RustStr Json Errors Names Backoff Process AimEnv Containerd Cleanup Registry Ecr Minikube Installations Aim Linear Shared.

(** ** The specification *)

Inductive demand :=
| Installing (ns_random random letter : Z) (upload : option string)
| Listing
| Getting (t : string)
| Uninstalling (t : string).

Inductive reply :=
| Installed (image : Image)
| Listed (images : list Image)
| Got (found : option Image)
| Uninstalled
| Refused (f : EcrUninstallFailure)
| Failed.

(** The operations of the map, in a repository that has also [untagged] images
    without a tag: a list and a look-up see the first page. *)
Definition effect (untagged : nat) (q : demand) (a : reply) (c c' : gmap string string) : Prop :=
  match q, a with
  | Installing _ _ _ _, Installed image => c' = <[tag image := digest image]> c
  | Listing, Listed images => c' = c /\ lists (fits c untagged) c images
  | Getting t, Got found => c' = c /\ looks_up (fits c untagged) c t found
  | Uninstalling t, Uninstalled => c' = delete t c
  | Uninstalling _, Refused _ => c' = c
  | (Installing _ _ _ _ | Listing | Getting _), Failed => c' = c
  | _, _ => False
  end.

(** Operations one after the other, each with the number of untagged images at its
    time. *)
Inductive in_turn : gmap string string -> list (nat * (demand * reply)) -> gmap string string -> Prop :=
| in_turn_nil c : in_turn c [] c
| in_turn_cons c u q a c1 l c2 : effect u q a c c1 -> in_turn c1 l c2 -> in_turn c ((u, (q, a)) :: l) c2.

(** ** Handlers that interleave *)

Section Together.
Context {O : Type} `{Outside O} `{Http}.
(** The commands of a handler are answered as it is told. *)
Context (oses : list (list event -> list string -> child)).

(** The moments of one handler. *)
Definition own (k : nat) (g : list (nat * moment O)) : list (moment O) :=
  map snd (filter (fun km => km.1 = k) g).

Inductive together (o : O) : list (nat * moment O) -> O -> Prop :=
| together_start : together o [] o
| together_others g o1 o2 : together o g o1 -> others o1 o2 -> together o g o2
| together_event g o1 k os e : together o g o1 -> oses !! k = Some os -> told os (map did (own k g)) o1 e ->
    together o (g ++ [(k, {| before := o1; did := e; after := out_next o1 e |})]) (out_next o1 e).

Lemma own_app k g1 g2 : own k (g1 ++ g2) = own k g1 ++ own k g2.
Proof. unfold own. by rewrite filter_app, map_app. Qed.

Lemma own_cons k k' m g : own k ((k', m) :: g) = if decide (k' = k) then m :: own k g else own k g.
Proof. unfold own. by case_decide; [rewrite filter_cons_True|rewrite filter_cons_False]. Qed.

Lemma own_elem k m g : m ∈ own k g <-> (k, m) ∈ g.
Proof.
  unfold own. rewrite list_elem_of_fmap. split.
  - intros ([k' m'] & -> & [Hk Hin]%list_elem_of_filter). simpl in *. by subst.
  - intros Hin. exists (k, m). split; [done|]. by apply list_elem_of_filter.
Qed.

(** The outside as one handler sees it. *)
Definition among (R : O -> O -> Prop) : Outside O :=
  {| out_run := out_run; out_send := out_send; out_spawn := out_spawn; others := R |}.

Lemma together_projects R o g o' k os :
  together o g o' -> oses !! k = Some os -> (forall o1 o2, others o1 o2 -> R o1 o2) ->
  (forall k' m, (k', m) ∈ g -> k' <> k -> R (before m) (after m)) ->
  history (H := among R) os o (own k g) o'.
Proof.
  intros Hg Hk HR. induction Hg as [|g o1 o2 _ IH Ho|g o1 k' os' e _ IH Hk' Ht]; intros Hother.
  - constructor.
  - eapply (history_others (H := among R)); [by apply IH|by apply HR].
  - rewrite own_app, own_cons. case_decide as Heq.
    + subst k'. rewrite Hk in Hk'. injection Hk' as <-. apply (history_event (H := among R)); [apply IH|exact Ht].
      intros k' m Hin. apply Hother, elem_of_app. by left.
    + rewrite app_nil_r. eapply (history_others (H := among R)).
      * apply IH. intros k2 m Hin. apply Hother, elem_of_app. by left.
      * apply (Hother k' {| before := o1; did := e; after := out_next o1 e |}); [|done]. apply elem_of_app. right. by left.
Qed.

(** *** One moment of each handler *)

Lemma together_chain o g o' : together o g o' -> chain o (map snd g) o'.
Proof.
  induction 1; [constructor|by eapply chain_others|]. rewrite map_app. by apply chain_event.
Qed.

Context (registered : O -> gmap string string) (Hdrift : forall o1 o2, others o1 o2 -> registered o2 = registered o1).
Context (does : nat -> moment O -> gmap string string -> gmap string string -> Prop).

Lemma drift_rtc o1 o2 : rtc others o1 o2 -> registered o2 = registered o1.
Proof. induction 1 as [|o1 o2 o3 Ho _ IH]; [done|]. by rewrite IH, (Hdrift _ _ Ho). Qed.

(** The handler has its effect at one of the moments, and none at the others. *)
Definition one_effect (k : nat) (h : list (moment O)) : Prop :=
  exists pre m post, h = pre ++ m :: post /\ does k m (registered (before m)) (registered (after m)) /\
    Forall (registry_keeps registered) (pre ++ post).

Fixpoint at_marks (c : gmap string string) (marks : list (nat * moment O)) (c' : gmap string string) : Prop :=
  match marks with
  | [] => c' = c
  | (k, m) :: marks => does k m c (registered (after m)) /\ at_marks (registered (after m)) marks c'
  end.

Lemma linearise g : forall P o o', chain o (map snd g) o' -> NoDup P ->
  (forall k, k ∈ P -> one_effect k (own k g)) -> (forall k, k ∉ P -> Forall (registry_keeps registered) (own k g)) ->
  exists marks, marks `sublist_of` g /\ map fst marks ≡ₚ P /\ at_marks (registered o) marks (registered o').
Proof.
  induction g as [|[k m] g IH]; intros P o o'; simpl.
  - intros Hd _ HP _. exists []. split_and!; [done| |by apply drift_rtc]. destruct P as [|k P]; [done|].
    destruct (HP k) as (pre & m & post & Hh & _); [by left|]. by destruct pre.
  - intros (Hb & _ & Hc) Hnd HP Hno. apply drift_rtc in Hb. setoid_rewrite own_cons in HP. setoid_rewrite own_cons in Hno.
    assert (Hskip : forall P', NoDup P' -> registered (after m) = registered (before m) ->
      (forall k', k' ∈ P' -> one_effect k' (own k' g)) ->
      (forall k', k' ∉ P' -> Forall (registry_keeps registered) (own k' g)) ->
      exists marks, marks `sublist_of` (k, m) :: g /\ map fst marks ≡ₚ P' /\ at_marks (registered o) marks (registered o')).
    { intros P' Hnd' Hm HP' Hno'. destruct (IH P' _ _ Hc Hnd' HP' Hno') as (marks & Hsub & Hperm & Hat).
      exists marks. split_and!; [by constructor|done|]. by rewrite <- Hb, <- Hm. }
    destruct (decide (k ∈ P)) as [Hk|Hk].
    + pose proof (HP _ Hk) as (pre & m' & post & Hh & Hdoes & Hkeep). rewrite decide_True in Hh by done.
      destruct pre as [|m0 pre]; injection Hh as -> Hh.
      * apply elem_of_Permutation in Hk as [P' HP']. rewrite HP' in Hnd. apply NoDup_cons in Hnd as [Hk Hnd].
        destruct (IH P' _ _ Hc Hnd) as (marks & Hsub & Hperm & Hat).
        { intros k' Hk'. assert (k <> k') by (by intros ->). specialize (HP k'). rewrite decide_False in HP by done.
          apply HP. rewrite HP'. by right. }
        { intros k' Hk'. destruct (decide (k = k')) as [<-|Hne]; [by rewrite Hh|].
          specialize (Hno k'). rewrite decide_False in Hno by done. apply Hno. rewrite HP'. set_solver. }
        exists ((k, m') :: marks). split_and!; [by constructor|simpl; by rewrite Hperm, HP'|]. simpl. by rewrite <- Hb.
      * apply Forall_cons in Hkeep as [Hm Hkeep]. apply Hskip; [done|done| |].
        { intros k' Hk'. destruct (decide (k = k')) as [<-|Hne]; [by exists pre, m', post|].
          specialize (HP k' Hk'). by rewrite decide_False in HP. }
        { intros k' Hk'. specialize (Hno k' Hk'). case_decide; [by apply Forall_cons in Hno as [_ ?]|done]. }
    + apply Hskip; [done| | |].
      * specialize (Hno k Hk). rewrite decide_True in Hno by done. by apply Forall_cons in Hno as [? _].
      * intros k' Hk'. assert (k <> k') by (by intros ->). specialize (HP k' Hk'). by rewrite decide_False in HP.
      * intros k' Hk'. specialize (Hno k' Hk'). case_decide; [by apply Forall_cons in Hno as [_ ?]|done].
Qed.
End Together.

(** ** The service over ECR *)

(** A handler that has replied. *)
Record served := { heard : list event -> list string -> child; asked_for : demand; replied : reply }.

(** An event that does not touch a namespace of containerd. *)
Definition spares (ns : string) (e : event) : Prop :=
  match e with
  | Ran argv => head argv = Some "ctr" -> exists n, namespace_of (tail argv) = Some n /\ n <> ns
  | Sent _ => True
  | SpawnRemoveImage n _ | SpawnRemoveNamespace n => n <> ns
  end.

Lemma works_spares ns n e : works_in n e -> n <> ns -> spares ns e.
Proof. destruct e as [argv|q|n' ref|n']; simpl; [by eauto|done|by intros ->..]. Qed.

Section Service.
Context {O : Type} `{Outside O} `{Http} (var : environment) (debug : dyn_AcmError -> string).
Context (simple : Z -> string) (ua : Z -> bool).
Context (parse_json : string -> result json string) (render : string -> de_error -> string) (sha256 : string -> string).

Definition fails {A} (r : run (Result A) * once * list event) (log : list event) : Prop :=
  (forall a, r.1.1 <> Done (Ok a)) /\ r.2 = log.

(** What an endpoint answers, and its commands, after [configure] was called in
    [main]. *)
Definition replies (j : served) (log : list event) : Prop :=
  match asked_for j, replied j with
  | Installing ns_random random letter upload, Installed image =>
      install (heard j) var debug simple ua ns_random random letter upload Complete [] =
        (Done (Ok (into_response image)), Complete, log)
  | Listing, Listed images =>
      list_ (heard j) var debug parse_json render sha256 Complete [] = (Done (Ok (into_response images)), Complete, log)
  | Getting t, Got found =>
      get_ (heard j) var debug parse_json render sha256 t Complete [] =
        (Done (match found with
               | Some image => Ok (into_response image)
               | None => Err (into_box (TagNotFound t (registry var +:+ "/" +:+ repository var)))
               end), Complete, log)
  | Uninstalling t, Uninstalled =>
      uninstall (heard j) var debug parse_json render sha256 t Complete [] = (Done (Ok (into_response tt)), Complete, log)
  | Uninstalling t, Refused f =>
      uninstall (heard j) var debug parse_json render sha256 t Complete [] =
        (Done (Err (into_box (EcrUninstallError f))), Complete, log)
  (* with another error or a panic; an installation, before its push *)
  | Installing ns_random random letter upload, Failed =>
      fails (install (heard j) var debug simple ua ns_random random letter upload Complete []) log /\
      Forall (fun e => touches_registry e = false) log
  | Listing, Failed => fails (list_ (heard j) var debug parse_json render sha256 Complete []) log
  | Getting t, Failed => fails (get_ (heard j) var debug parse_json render sha256 t Complete []) log
  | _, _ => False
  end.

(** The namespace of an installation. *)
Definition space_of (q : demand) : option string :=
  match q with Installing ns_random _ _ _ => Some (uuid simple ns_random) | _ => None end.

Context (Hw : which var = Done Ecr).

(** An error of [list] is not that the tag is missing. *)
Lemma exec_error i c d e : exec i c d = Done (Err e) -> dyn_code e = Status.InternalServerError.
Proof.
  unfold exec. destruct c as [err|taken out]; [by intros [= <-]|].
  destruct i; [destruct taken|]; simpl; try done; (destruct out as [out|]; simpl; [|by intros [= <-]]);
    (destruct (success out); simpl; [destruct (from_utf8 (stdout out))|destruct (from_utf8 (stderr out))];
     simpl; by intros [= <-]).
Qed.

Lemma ecr_list_error os log e log' :
  ecr_list os var parse_json render log = (Done (Err e), log') -> dyn_code e = Status.InternalServerError.
Proof.
  intros Hb. apply bind_inv in Hb as [(out & l & _ & Hb)|[(e' & [Hc _]%run_cmd_inv & [= ->])|(m & _ & ?)]]; [| |done].
  - apply bind_inv in Hb as [(x & l2 & _ & ?)|[(e' & Hb & [= ->])|(m & _ & ?)]]; [done| |done].
    unfold lift in Hb. destruct (from_str _ _ _); simpl in Hb; [done|]. by injection Hb as <- _.
  - by eapply exec_error.
Qed.

(** The endpoints, as the operations of [ecr/mod.rs]. *)
Lemma list_endpoint os images log :
  list_ os var debug parse_json render sha256 Complete [] = (Done (Ok (into_response images)), Complete, log) ->
  ecr_list os var parse_json render [] = (Done (Ok images), log).
Proof.
  intros (_ & a & Hl & [= ->])%(handler_Ok os var debug). by rewrite (dispatch_to _ Ecr) in Hl.
Qed.

Lemma get_endpoint os t found log :
  get_ os var debug parse_json render sha256 t Complete [] =
    (Done (match found with
           | Some image => Ok (into_response image)
           | None => Err (into_box (TagNotFound t (registry var +:+ "/" +:+ repository var)))
           end), Complete, log) ->
  ecr_get os var parse_json render t [] = (Done (Ok found), log).
Proof.
  unfold get_, registry_get. rewrite handler_complete, (dispatch_to _ Ecr) by done. unfold bind at 1 2.
  destruct (ecr_get os var parse_json render t []) as [[[o|e]|m] l] eqn:Eg; simpl; [| |by destruct found].
  - destruct o as [image|], found as [image'|]; simpl; intros [=]; by subst.
  - apply bind_inv in Eg as [(x & l2 & _ & ?)|[(e' & Hl & [= ->])|(m & _ & ?)]]; [done| |done].
    apply ecr_list_error in Hl. destruct found; intros [= ->]. done.
Qed.

Lemma uninstall_endpoint os t r log :
  uninstall os var debug parse_json render sha256 t Complete [] =
    (Done (let? u := r in Ok (into_response u)), Complete, log) ->
  ecr_uninstall os var parse_json render t [] = (Done r, log).
Proof.
  unfold uninstall, registry_uninstall. rewrite handler_complete, (dispatch_to _ Ecr) by done.
  destruct (ecr_uninstall os var parse_json render t []) as [[[u|e]|m] l], r; simpl; intros [=]; by subst.
Qed.

(** Whatever the result, [list] and [get] run one command. *)
Lemma list_commands os : (list_ os var debug parse_json render sha256 Complete []).2 = [Ran ("aws" :: list_command var)].
Proof.
  unfold list_, registry_list. rewrite handler_complete, (dispatch_to _ Ecr) by done. simpl.
  destruct (ecr_list os var parse_json render []) as [r l] eqn:El. by apply ecr_list_inv in El as [-> _].
Qed.

Lemma get_commands os t : (get_ os var debug parse_json render sha256 t Complete []).2 = [Ran ("aws" :: list_command var)].
Proof.
  unfold get_, registry_get. rewrite handler_complete, (dispatch_to _ Ecr) by done. unfold ecr_get.
  destruct (ecr_list os var parse_json render []) as [r l] eqn:El. unfold bind. rewrite El. apply ecr_list_inv in El as [-> _].
  by destruct r as [[images|]|]; simpl; [destruct (find_tag t images)|..].
Qed.

(** *** What a handler leaves alone *)

Lemma install_not_idle os x y z up : (install os var debug simple ua x y z up Complete []).2 <> [].
Proof.
  unfold install, registry_import. rewrite handler_complete. simpl.
  destruct (containerd_import _ _ _ _ _ _ _ _ _ _) as [r l] eqn:E. apply import_all_inv in E as (l' & -> & _). by destruct l'.
Qed.

Lemma install_works os x y z up :
  Forall (works_in (uuid simple x)) (install os var debug simple ua x y z up Complete []).2.
Proof.
  exact (script_works_in var debug simple ua {| answers := os; ns_random := x; tag_random := y; tag_letter := z;
    upload := up |}).
Qed.

Lemma replies_spare j log ns :
  replies j log -> (forall n, space_of (asked_for j) = Some n -> n <> ns) -> Forall (spares ns) log.
Proof.
  destruct j as [os q a]. unfold replies. simpl. intros Hr Hne.
  assert (Hinstall : forall x y z up, space_of q = Some (uuid simple x) ->
    Forall (spares ns) (install os var debug simple ua x y z up Complete []).2).
  { intros x y z up Hq. eapply Forall_impl; [apply install_works|]. intros e He. eapply works_spares; [exact He|by apply Hne]. }
  destruct q as [x y z up| |t|t], a as [img|imgs|found| |f|]; try done.
  - specialize (Hinstall x y z up eq_refl). by rewrite Hr in Hinstall.
  - destruct Hr as [[_ <-] _]. by apply Hinstall.
  - apply list_endpoint, ecr_list_inv in Hr as [-> _]. by repeat constructor.
  - destruct Hr as [_ Hr]. rewrite list_commands in Hr. subst log. by repeat constructor.
  - apply get_endpoint, bind_Ok in Hr as (imgs & l & [-> _]%ecr_list_inv & [= _ <-]). by repeat constructor.
  - destruct Hr as [_ Hr]. rewrite get_commands in Hr. subst log. by repeat constructor.
  - apply (uninstall_endpoint _ _ (Ok tt)), ecr_uninstall_run in Hr as [-> _]. by repeat constructor.
  - apply (uninstall_endpoint _ _ (Err _)), ecr_uninstall_run in Hr as [-> _]. by repeat constructor.
Qed.

Context {Hecr : EcrServer O var parse_json} {Hpush : PushServer var ecr_state}.

(** The classes for another notion of the others. *)
Definition among_ecr (R : O -> O -> Prop) : EcrServer (H := among R) O var parse_json :=
  @Build_EcrServer O (among R) var parse_json (ecr_state (EcrServer := Hecr)) (untagged_in (EcrServer := Hecr))
    (server_list_images (EcrServer := Hecr))
    (server_list_keeps (EcrServer := Hecr)) (server_delete_image (EcrServer := Hecr)).

Definition among_push (R : O -> O -> Prop) : PushServer (H := among R) var (ecr_state (EcrServer := Hecr)) :=
  @Build_PushServer O (among R) var (ecr_state (EcrServer := Hecr)) (holds (PushServer := Hpush)) (due (PushServer := Hpush))
    (server_ls (PushServer := Hpush)) (server_tag (PushServer := Hpush)) (server_password (PushServer := Hpush))
    (server_no_removal (PushServer := Hpush)) (server_removal (PushServer := Hpush)) (server_due (PushServer := Hpush))
    (server_pushed (PushServer := Hpush)) (server_local (PushServer := Hpush)).

(** The neighbours of a namespace: what is done elsewhere, and what containerd does
    by itself, which is to finish the removals. *)
Class Neighbours := {
  law_spared o e ns ref : spares ns e ->
    holds (out_next o e) ns ref = holds o ns ref /\ (due (out_next o e) ns ref -> due o ns ref);
  law_drift ns : left_alone ns;
  law_drift_registry o1 o2 : others o1 o2 -> ecr_state o2 = ecr_state o1;
}.

Definition neighbour (q : demand) (o1 o2 : O) : Prop :=
  match space_of q with
  | Some ns => others o1 o2 \/ exists e, spares ns e /\ o2 = out_next o1 e
  | None => True
  end.

Lemma neighbours_alone `{!Neighbours} q ns :
  space_of q = Some ns -> left_alone (H := among (neighbour q)) (PushServer0 := among_push (neighbour q)) ns.
Proof.
  intros Hq o1 o2 ref Ho Hdue. simpl in *. unfold neighbour in Ho. rewrite Hq in Ho.
  destruct Ho as [Ho|(e & He & ->)]; [by eapply law_drift|].
  destruct (law_spared o1 e ns ref He) as [Hh Hd]. split; [by intros ?%Hd|done].
Qed.

(** What is assumed of an installation: its namespace is new, its random numbers are
    in range, and the upload does not have the new name already. *)
Definition starts_well (o : O) (j : served) : Prop :=
  match asked_for j, replied j with
  | Installing ns_random random letter upload, Installed image =>
      (forall ref, ~ due o (uuid simple ns_random) ref) /\ 0 <= random < 2 ^ 128 /\ is_ascii_lower letter = true /\
      forall i, (import_ (heard j) (uuid simple ns_random) upload []).1 = Done (Ok i) ->
        tmp_reference i <> new_reference var (tag image)
  | _, _ => True
  end.

(** A handler that does not touch the registry. *)
Lemma local_effect R (os : list event -> list string -> child) o h o' :
  history (H := among R) os o h o' -> Forall (fun e => touches_registry e = false) (map did h) -> h <> [] ->
  exists pre m post, h = pre ++ m :: post /\ ecr_state (after m) = ecr_state (before m) /\
    Forall (registry_keeps ecr_state) (pre ++ post).
Proof.
  intros Hh%(history_chain (H := among R)) Hl Hne.
  pose proof (local_keeps (H := among R) var ecr_state (Hpush := among_push R) _ _ _ Hh Hl) as Hk.
  destruct h as [|m post]; [done|]. apply Forall_cons in Hk as [Hm Hk]. by exists [], m, post.
Qed.

Lemma reply_effect `{!Neighbours} o h o' j :
  simple_law simple -> starts_well o j -> history (H := among (neighbour (asked_for j))) (heard j) o h o' ->
  replies j (map did h) ->
  exists pre m post, h = pre ++ m :: post /\
    effect (untagged_in (before m)) (asked_for j) (replied j) (ecr_state (before m)) (ecr_state (after m)) /\
    Forall (registry_keeps ecr_state) (pre ++ post).
Proof.
  intros Hs Hwell Hh Hr. pose (A := among_ecr (neighbour (asked_for j))). pose (P := among_push (neighbour (asked_for j))).
  pose proof (neighbours_alone (asked_for j)) as Halone.
  destruct j as [os q a]. unfold replies, starts_well in *. simpl in *.
  destruct q as [x y z up| |t|t], a as [img|imgs|found| |f|]; try done.
  - apply (handler_Ok os var debug) in Hr as (_ & img' & Hrun & [= <-]). destruct Hwell as (Hnew & Hy & Hz & Hfresh).
    pose proof (install_valid_tag _ _ _ _ _ _ _ _ _ _ _ _ Hs Hy Hz Hrun) as Hvalid.
    exact (install_moment (H := among _) os var debug simple ua x y z up _ (Hpush := P) o h o' img Hh (Halone _ eq_refl) Hnew
      Hrun Hvalid Hfresh).
  - destruct Hr as [[_ Hlog] Hl]. apply (local_effect _ _ _ _ _ Hh Hl). intros ->. by apply install_not_idle in Hlog.
  - apply list_endpoint in Hr. destruct (ecr_list_moment (H := among _) (EcrServer0 := A) os var parse_json render
      _ _ _ _ Hh Hr) as (m & -> & Hk & Hin). exists [], m, []. by split_and!.
  - destruct Hr as [_ Hr]. rewrite list_commands in Hr.
    apply (local_effect _ _ _ _ _ Hh); [rewrite <- Hr; by repeat constructor|by intros ->].
  - apply get_endpoint, bind_Ok in Hr as (imgs & l & Hl & [= <- ->]).
    destruct (ecr_list_moment (H := among _) (EcrServer0 := A) os var parse_json render _ _ _ _ Hh Hl)
      as (m & -> & Hk & Hin). exists [], m, []. split_and!; [done| |done]. split; [done|]. by apply find_tag_lookup.
  - destruct Hr as [_ Hr]. rewrite get_commands in Hr.
    apply (local_effect _ _ _ _ _ Hh); [rewrite <- Hr; by repeat constructor|by intros ->].
  - apply (uninstall_endpoint _ _ (Ok tt)) in Hr.
    destruct (ecr_uninstall_moment (H := among _) (EcrServer0 := A) os var parse_json render _ _ _ _ _ Hh Hr)
      as [[e He]|(m & l & fs & -> & Hv & Hfs)]; [done|]. exists [], m, []. split_and!; [done| |done]. by eapply verdict_Ok.
  - apply (uninstall_endpoint _ _ (Err _)) in Hr.
    destruct (ecr_uninstall_moment (H := among _) (EcrServer0 := A) os var parse_json render _ _ _ _ _ Hh Hr)
      as [[e He]|(m & l & fs & -> & Hv & Hfs)]; [done|]. exists [], m, []. split_and!; [done| |done].
    destruct fs as [|f' fs]; [done|]. apply Hfs.
Qed.

Lemma together_known oses o g o' k m :
  together oses o g o' -> (k, m) ∈ g -> is_Some (oses !! k) /\ after m = out_next (before m) (did m).
Proof.
  induction 1 as [|g o1 o2 _ IH _|g o1 k' os e _ IH Hk Ht]; [by intros ?%elem_of_nil|done|].
  intros [Hin|Hin]%elem_of_app; [by apply IH|]. apply list_elem_of_singleton in Hin. injection Hin as -> ->. by split; [eexists|].
Qed.

(** The operations at the marks. *)
Definition operations (jobs : list served) (marks : list (nat * moment O)) : list (nat * (demand * reply)) :=
  omap (fun km => (fun j => (untagged_in (before km.2), (asked_for j, replied j))) <$> jobs !! km.1) marks.

Definition effect_of (jobs : list served) (k : nat) (m : moment O) (c c' : gmap string string) : Prop :=
  exists j, jobs !! k = Some j /\ effect (untagged_in (before m)) (asked_for j) (replied j) c c'.

Lemma marks_in_turn jobs marks c c' :
  at_marks ecr_state (effect_of jobs) c marks c' -> in_turn c (operations jobs marks) c'.
Proof.
  revert c. induction marks as [|[k m] marks IH]; intros c; simpl; [intros ->; constructor|].
  intros [(j & Hj & Heff) Hat]. rewrite Hj. simpl. econstructor; [exact Heff|by apply IH].
Qed.

(** The order of the marks is that of time. *)
Lemma marks_ordered (marks g1 g2 : list (nat * moment O)) k k' :
  marks `sublist_of` g1 ++ g2 -> k ∈ map fst marks -> k' ∈ map fst marks -> own k g2 = [] -> own k' g1 = [] ->
  exists l1 l2, map fst marks = l1 ++ l2 /\ k ∈ l1 /\ k' ∈ l2.
Proof.
  intros (m1 & m2 & -> & H1 & H2)%sublist_app_r. rewrite map_app, !elem_of_app. intros Hk Hk' Hn Hn'.
  assert (Habsent : forall (l g : list (nat * moment O)) k0, l `sublist_of` g -> own k0 g = [] -> k0 ∉ map fst l).
  { intros l g k0 Hl Ho ([k1 m] & -> & Hin)%list_elem_of_fmap. eapply (elem_of_nil (A := moment O) m). simpl in Ho.
    rewrite <- Ho. apply own_elem. eapply sublist_subseteq; [exact Hl|exact Hin]. }
  exists (map fst m1), (map fst m2). split_and!; [done| |].
  - destruct Hk as [|Hk]; [done|]. by apply (Habsent _ _ _ H2 Hn) in Hk.
  - destruct Hk' as [Hk'|]; [|done]. by apply (Habsent _ _ _ H1 Hn') in Hk'.
Qed.

(** C7: the image manager over ECR is linearisable.  Whatever handlers run at the
    same time (installations, lists, look-ups and uninstallations) and however
    their commands interleave, with each other and with the removals in the
    background: when all have replied, there is a moment of each handler such that
    the replies, and what the registry has in the end, are those of the operations
    of a map from tags to digests, done one after the other in the order of these
    moments; a handler that is done before another one begins comes before it.
    A list and a look-up miss nothing as long as the repository has no more than a
    hundred images at their moment, which is what one request lists.  The
    installations work in namespaces that differ.  A handler may also fail; only
    a push, or a deletion from ECR, that ends in an error is not covered, because its
    outcome is not known. *)
Theorem aim_linearisable `{!Neighbours} (jobs : list served) (o o' : O) (g : list (nat * moment O))
  (Hsimple : simple_law simple) (Hrun : together (map heard jobs) o g o')
  (Hreplies : forall k j, jobs !! k = Some j -> replies j (map did (own k g)))
  (Hspaces : forall k1 k2 j1 j2 ns, jobs !! k1 = Some j1 -> jobs !! k2 = Some j2 ->
     space_of (asked_for j1) = Some ns -> space_of (asked_for j2) = Some ns -> k1 = k2)
  (Hwell : forall k j, jobs !! k = Some j -> starts_well o j) :
  exists marks, marks `sublist_of` g /\ map fst marks ≡ₚ seq 0 (length jobs) /\
    in_turn (ecr_state o) (operations jobs marks) (ecr_state o') /\
    forall g1 g2 k k', g = g1 ++ g2 -> own k g2 = [] -> own k' g1 = [] -> (k < length jobs)%nat -> (k' < length jobs)%nat ->
      exists l1 l2, map fst marks = l1 ++ l2 /\ k ∈ l1 /\ k' ∈ l2.
Proof.
  destruct (linearise ecr_state law_drift_registry (effect_of jobs) g (seq 0 (length jobs)) o o'
    (together_chain _ _ _ _ Hrun) (NoDup_seq _ _)) as (marks & Hsub & Hperm & Hat).
  - intros k Hk%elem_of_seq. destruct (lookup_lt_is_Some_2 jobs k) as [j Hj]; [lia|].
    assert (Hos : map heard jobs !! k = Some (heard j)) by (by rewrite list_lookup_fmap, Hj).
    destruct (reply_effect o (own k g) o' j Hsimple (Hwell _ _ Hj)) as (pre & m & post & Hh & Heff & Hkeep).
    + apply (together_projects _ _ _ _ _ _ _ Hrun Hos).
      * intros o1 o2 Ho. unfold neighbour. destruct (space_of _); [by left|done].
      * intros k' m Hin Hne. destruct (together_known _ _ _ _ _ _ Hrun Hin) as [[os' Hos'] Hafter].
        rewrite list_lookup_fmap in Hos'. destruct (jobs !! k') as [j'|] eqn:Hj'; [|done].
        unfold neighbour. destruct (space_of (asked_for j)) as [ns|] eqn:Ens; [right|done]. exists (did m). split; [|done].
        pose proof (replies_spare _ _ ns (Hreplies _ _ Hj')) as Hspare. rewrite Forall_forall in Hspare. apply Hspare.
        -- intros n Hn ->. by destruct Hne; eapply Hspaces.
        -- apply list_elem_of_fmap. exists m. split; [done|]. by apply own_elem.
    + by apply Hreplies.
    + exists pre, m, post. split_and!; [done| |done]. by exists j.
  - intros k Hk. apply Forall_forall. intros m Hm%own_elem. exfalso. apply Hk, elem_of_seq.
    destruct (together_known _ _ _ _ _ _ Hrun Hm) as [Hos _]. rewrite list_lookup_fmap, fmap_is_Some in Hos.
    apply lookup_lt_is_Some in Hos. lia.
  - exists marks. split_and!; [done|done|by apply marks_in_turn|]. intros g1 g2 k k' -> Hn Hn' Hk Hk'.
    apply (marks_ordered _ _ _ _ _ Hsub); [..|done|done]; rewrite Hperm; apply elem_of_seq; lia.
Qed.
End Service.

(** ** An instance: a schedule, over containerd and ECR in memory *)

Section Schedule.
Context {O : Type} `{Outside O} `{Http} (start : O) (schedule : list (nat * event)).

Fixpoint perform (o : O) (l : list (nat * event)) : list (nat * moment O) :=
  match l with
  | [] => []
  | (k, e) :: l => (k, {| before := o; did := e; after := out_next o e |}) :: perform (out_next o e) l
  end.
Fixpoint performed (o : O) (l : list (nat * event)) : O :=
  match l with
  | [] => o
  | (_, e) :: l => performed (out_next o e) l
  end.

(** A handler is told what was answered at its moments. *)
Definition scheduled_os (k : nat) (log : list event) (argv : list string) : child :=
  match own k (perform start schedule) !! length log with
  | Some m => (out_run (before m) argv).2
  | None => NotSpawned ""
  end.

Lemma perform_app o l1 l2 : perform o (l1 ++ l2) = perform o l1 ++ perform (performed o l1) l2.
Proof. revert o. induction l1 as [|[k e] l1 IH]; intros o; simpl; [done|]. by rewrite IH. Qed.

Lemma performed_app o l1 l2 : performed o (l1 ++ l2) = performed (performed o l1) l2.
Proof. revert o. induction l1 as [|[k e] l1 IH]; intros o; simpl; [done|]. apply IH. Qed.

Lemma schedule_together n :
  Forall (fun ke => (ke.1 < n)%nat /\ match ke.2 with Sent _ => False | _ => True end) schedule ->
  together (map scheduled_os (seq 0 n)) start (perform start schedule) (performed start schedule).
Proof.
  intros Hall. assert (Hgen : forall l rest, schedule = l ++ rest ->
    together (map scheduled_os (seq 0 n)) start (perform start l) (performed start l)).
  2: by eapply (Hgen _ []); rewrite app_nil_r.
  induction l as [|[k e] l IH] using rev_ind; intros rest Heq; [constructor|].
  rewrite <- app_assoc in Heq. simpl in Heq. rewrite perform_app, performed_app. simpl.
  assert (Hke : (k < n)%nat /\ match e with Sent _ => False | _ => True end).
  { rewrite Forall_forall in Hall. apply (Hall (k, e)). rewrite Heq. apply elem_of_app. right. by left. }
  apply together_event with (os := scheduled_os k); [by eapply IH| |].
  - rewrite list_lookup_fmap, lookup_seq_lt by lia. done.
  - destruct e as [argv|q| |]; [|by destruct Hke|done|done]. simpl. unfold scheduled_os. rewrite length_map.
    rewrite Heq, perform_app, own_app. simpl. rewrite own_cons, decide_True by done. by rewrite list_lookup_middle.
Qed.
End Schedule.

(** Containerd finishes removals and does nothing else. *)
Definition site_drift (s1 s2 : site) : Prop :=
  site_due s2 = site_due s1 /\ site_registry s2 = site_registry s1 /\
  forall ns ref, (ns, ref) ∉ site_due s1 -> site_holds s2 ns ref = site_holds s1 ns ref.

#[local] Instance calm_outside : Outside site := among (H := site_outside aws_env Ecr "") site_drift.
#[local] Instance calm_ecr : EcrServer site aws_env simple_parse :=
  among_ecr (H := site_outside aws_env Ecr "") aws_env simple_parse (Hecr := site_ecr aws_env "") site_drift.
#[local] Instance calm_push : PushServer aws_env (ecr_state (EcrServer := calm_ecr)) :=
  among_push (H := site_outside aws_env Ecr "") aws_env simple_parse (Hecr := site_ecr aws_env "")
    (Hpush := site_PushServer aws_env Ecr "") site_drift.

Lemma ctr_elsewhere (d : memory) argv ns ref :
  spares ns (Ran argv) -> head argv = Some "ctr" -> daemon_held (ctr_run d argv).1 ns ref = daemon_held d ns ref.
Proof.
  destruct argv as [|c args]; [done|]. intros Hs [= ->]. destruct (Hs eq_refl) as (n & Hn & Hne). simpl tail in Hn.
  change (ctr_run d ("ctr" :: args)).1 with (ctr_next d args). rewrite (memory_next _ _ n) by done.
  unfold daemon_held. destruct (up d); [|done].
  by rewrite (proj1 (memory_frame d (parse args) ns n (not_eq_sym Hne))).
Qed.

#[local] Instance calm_Neighbours : Neighbours aws_env simple_parse (Hecr := calm_ecr) (Hpush := calm_push).
Proof.
  split.
  - intros s e ns ref He. destruct e as [argv|q|n r|n]; simpl; [|done| |done].
    + unfold site_run. case_decide as Hc; [|done]. split; [|done]. by apply ctr_elsewhere.
    + split; [done|]. intros [[= -> ->]|Hin]%elem_of_cons; done.
  - intros ns s1 s2 ref (Hdue & _ & Hh) Hno. simpl in *. rewrite Hdue. split; [done|by apply Hh].
  - intros s1 s2 (_ & Hr & _). exact Hr.
Qed.

(** ** Witness *)

(** While an image is installed, the tag [a] is uninstalled, and the new tag is looked
    up as soon as the image is pushed. *)
Definition busy_start : site := {| site_daemon := empty_daemon; site_registry := example_tags; site_due := [] |}.
Definition busy_schedule : list (nat * event) :=
  map (pair 0%nat) (take 3 install_log) ++ [(1%nat, Ran ("aws" :: delete_command aws_env "a"))] ++
  map (pair 0%nat) (take 3 (drop 3 install_log)) ++ [(2%nat, look_up)] ++ map (pair 0%nat) (drop 6 install_log).
Definition busy_os (k : nat) := scheduled_os busy_start busy_schedule k.
Definition busy_moments : list (nat * moment site) := perform busy_start busy_schedule.
Definition busy_jobs : list served :=
  [{| heard := busy_os 0; asked_for := Installing 1 2 97 (Some "/tmp/a"); replied := Installed example_image |};
   {| heard := busy_os 1; asked_for := Uninstalling "a"; replied := Uninstalled |};
   {| heard := busy_os 2; asked_for := Getting new_tag; replied := Got (Some example_image) |}].

#[local] Instance busy_http : Http := {| url_ok _ := true; http_answer _ _ := None |}.

Lemma busy_together : together (map heard busy_jobs) busy_start busy_moments (performed busy_start busy_schedule).
Proof. apply (schedule_together busy_start busy_schedule 3). by repeat (constructor; [split; [simpl; lia|exact I]|]). Qed.

Lemma busy_replies k j :
  busy_jobs !! k = Some j ->
  replies aws_env dyn_display hex_simple no_unicode simple_parse no_render same_bytes j (map did (own k busy_moments)).
Proof.
  destruct k as [|[|[|k]]]; intros [= <-]; vm_compute; reflexivity.
Qed.

Lemma busy_well k j :
  busy_jobs !! k = Some j -> starts_well aws_env hex_simple simple_parse (Hecr := calm_ecr) (Hpush := calm_push) busy_start j.
Proof.
  destruct k as [|[|[|k]]]; intros [= <-]; [|exact I..]. split; [|split; [|split]].
  - intros ref. apply not_elem_of_nil.
  - lia.
  - reflexivity.
  - intros i Hi. vm_compute in Hi. injection Hi as <-. vm_compute. discriminate.
Qed.

Lemma aim_linearisable_witness :
  exists marks : list (nat * moment site), map fst marks ≡ₚ [0; 1; 2]%nat /\
    in_turn example_tags (operations aws_env simple_parse (Hecr := calm_ecr) busy_jobs marks) (<[new_tag := "sha256:76a5"]> (delete "a" example_tags)).
Proof.
  destruct (aim_linearisable aws_env dyn_display hex_simple no_unicode simple_parse no_render same_bytes eq_refl
    (Hecr := calm_ecr) (Hpush := calm_push) (H1 := calm_Neighbours) busy_jobs busy_start
    (performed busy_start busy_schedule) busy_moments hex_simple_law busy_together busy_replies)
    as (marks & _ & Hperm & Hturn & _).
  - intros [|[|[|k1]]] [|[|[|k2]]] j1 j2 ns [= <-] [= <-]; simpl; intros [=] [=]; reflexivity.
  - exact busy_well.
  - exists marks. split; [exact Hperm|].
    assert (Hend : site_registry (performed busy_start busy_schedule) =
      <[new_tag := "sha256:76a5"]> (delete "a" example_tags)) by (vm_compute; reflexivity).
    rewrite <- Hend. exact Hturn.
Defined.
