(* ===== verification/Tests.v ===== *)
(** * The unit tests of the repository

    The tests in the modules [tests] of the libraries and services, run on the
    model: each test is a boolean that the kernel evaluates to [true].  The two
    fuzz tests, which draw random inputs, are theorems about all inputs.

    Where a test calls a crate, the parameter that stands for the crate is
    instantiated: JSON by [simple_pretty] and [simple_parse] of [Json.v], UUIDs by
    [hex_simple] of [Names.v], kebab case by [word_kebab] below. *)

From S2P Require Import Prelude RustStr Json Errors Names Pod Kube Derive Backoff Process AimEnv Containerd Registry.

Definition ok {A} (P : A -> bool) (r : run A) : bool := match r with Done a => P a | Panic _ => false end.
Definition unwrapped {A E} (P : A -> bool) (r : run (result A E)) : bool :=
  ok (fun r => match r with Ok a => P a | Err _ => false end) r.

(** ** [library/kind] *)

Definition kind_is (input : DeriveInput) (x : value) (want : string) : bool :=
  ok (fun g => bool_decide (eval g x = Some want)) (derive_kind input).

Definition variant (name : string) (f : Fields) : Variant := {| v_ident := name; v_fields := f; v_attrs := [] |}.
Definition an_enum (vs : list Variant) : DeriveInput := {| ident := "AnEnum"; attrs := []; data := Enum vs |}.

Definition simple_struct : bool := kind_is {| ident := "Lol"; attrs := []; data := Struct |} StructValue "Lol".
Definition unit_ : bool :=
  kind_is (an_enum [variant "Variant" Unit]) (EnumValue "Variant" Unit) "AnEnum::Variant".
Definition unary_unnamed : bool :=
  kind_is (an_enum [variant "Variant" Unnamed]) (EnumValue "Variant" Unnamed) "AnEnum::Variant".
Definition binary_unnamed : bool :=
  kind_is (an_enum [variant "Variant" Unnamed]) (EnumValue "Variant" Unnamed) "AnEnum::Variant".
Definition unary_named : bool :=
  kind_is (an_enum [variant "Variant" Named]) (EnumValue "Variant" Named) "AnEnum::Variant".
Definition binary_named : bool :=
  kind_is (an_enum [variant "Variant" Named]) (EnumValue "Variant" Named) "AnEnum::Variant".
Definition mixed_enum : bool :=
  let e := an_enum [variant "Unit" Unit; variant "UnaryUnnamed" Unnamed; variant "BinaryUnnamed" Unnamed;
                    variant "UnaryNamed" Named; variant "BinaryNamed" Named] in
  kind_is e (EnumValue "Unit" Unit) "AnEnum::Unit" &&
  kind_is e (EnumValue "UnaryUnnamed" Unnamed) "AnEnum::UnaryUnnamed" &&
  kind_is e (EnumValue "BinaryUnnamed" Unnamed) "AnEnum::BinaryUnnamed" &&
  kind_is e (EnumValue "UnaryNamed" Named) "AnEnum::UnaryNamed" &&
  kind_is e (EnumValue "BinaryNamed" Named) "AnEnum::BinaryNamed".

(** ** [library/httpcode] *)

Definition coded (c : Status.t) : list Attribute := [{| attr_path := "code"; attr_args := Some c |}].
Definition code_is (input : DeriveInput) (x : value) (want : Status.t) : bool :=
  ok (fun g => bool_decide (eval g x = Some want)) (derive_http_code input).

Definition smoke_Struct : DeriveInput :=
  {| ident := "Struct"; attrs := coded Status.BadGateway; data := Struct |}.
Definition smoke_Enum : DeriveInput :=
  {| ident := "Enum"; attrs := [];
     data := Enum [{| v_ident := "Badness"; v_fields := Unit; v_attrs := coded Status.NotFound |};
                   {| v_ident := "NotSoBadness"; v_fields := Unit; v_attrs := coded Status.Ok |};
                   {| v_ident := "Custom"; v_fields := Unit; v_attrs := coded (Status.new 1000) |}] |}.
Definition smoke : bool :=
  code_is smoke_Struct StructValue Status.BadGateway &&
  code_is smoke_Enum (EnumValue "Badness" Unit) Status.NotFound &&
  code_is smoke_Enum (EnumValue "NotSoBadness" Unit) Status.Ok &&
  code_is smoke_Enum (EnumValue "Custom" Unit) (Status.new 1000).

(** ** [library/error] *)

(** The kind and the code of a struct that derives both. *)
Definition derived_kind (input : DeriveInput) : string :=
  match derive_kind input with Done g => unwrap_or (eval g StructValue) "" | Panic m => m end.
Definition derived_code (input : DeriveInput) : Status.t :=
  match derive_http_code input with Done g => unwrap_or (eval g StructValue) (Status.new 0) | Panic _ => Status.new 0 end.

Inductive TooBad := mk_TooBad.
Definition TooBad_input : DeriveInput :=
  {| ident := "TooBad"; attrs := {| attr_path := "error"; attr_args := None |} :: coded Status.BadGateway;
     data := Struct |}.
#[local] Instance TooBad_AcmError : AcmError TooBad := {|
  acm_error := {| display _ := "Nice catch Blanco Niño"; source _ := None |};
  acm_code _ := derived_code TooBad_input;
  acm_kind _ := derived_kind TooBad_input;
|}.

Inductive TooBadWithCause := mk_TooBadWithCause (bad_guy : TooBad).
Definition TooBadWithCause_input : DeriveInput :=
  {| ident := "TooBadWithCause"; attrs := {| attr_path := "error"; attr_args := None |} :: coded Status.NotFound;
     data := Struct |}.
#[local] Instance TooBadWithCause_AcmError : AcmError TooBadWithCause := {|
  acm_error := {| display _ := "You got sacked";
                  source e := match e with mk_TooBadWithCause b => Some (display b) end |};
  acm_code _ := derived_code TooBadWithCause_input;
  acm_kind _ := derived_kind TooBadWithCause_input;
|}.

(** The status of the response, and its body as a document. *)
Definition answers {T} `{Serialize T, Kind T} (r : Result (Response T)) (st : Status.t) (want : json) : bool :=
  ok (fun resp => bool_decide (resp_status resp = st) &&
        match simple_from_str (resp_body resp) with Some got => json_eqb got want | None => false end)
     (respond simple_pretty r).

Definition error_json (k m : string) (cause : json) : json :=
  JObj [("payload", JNull); ("error", JObj [("kind", JStr k); ("message", JStr m); ("cause", cause)])].

Definition fail_without_cause : Result (Response unit) := Err (into_box mk_TooBad).
Definition without_cause : bool :=
  answers fail_without_cause Status.BadGateway (error_json "TooBad" "Nice catch Blanco Niño" JNull).

Definition fail_with_cause : Result (Response unit) := Err (into_box (mk_TooBadWithCause mk_TooBad)).
Definition with_cause : bool :=
  answers fail_with_cause Status.NotFound
    (error_json "TooBadWithCause" "You got sacked" (JStr "Nice catch Blanco Niño")).

(** ** [library/response] *)

Definition greet : Result (Response string) := Ok (into_response "Hello, Alation!").
Definition test_string : bool :=
  answers greet Status.Ok
    (JObj [("payload", JObj [("kind", JStr "String"); ("object", JStr "Hello, Alation!")]); ("error", JNull)]).

Module Response.
Record Metadata := { number : Z; bool_ : bool; arr : list string }.
Record Pod := { name : string; metadata : Metadata }.
#[export] Instance Metadata_Serialize : Serialize Metadata := fun m =>
  JObj [("number", JNum (number m)); ("bool", JBool (bool_ m)); ("arr", serialize (arr m))].
#[export] Instance Pod_Serialize : Serialize Pod := fun p =>
  JObj [("name", JStr (name p)); ("metadata", serialize (metadata p))].
#[export] Instance Pod_Kind : Kind Pod := fun _ => derived_kind {| ident := "Pod"; attrs := []; data := Struct |}.
Definition get_pod : Result (Errors.Response Pod) :=
  Ok (into_response {| name := "Bob"; metadata := {| number := 1; bool_ := true; arr := ["this"; "and"; "that"] |} |}).
Definition test_struct : bool :=
  answers get_pod Status.Ok
    (JObj [("payload", JObj [("kind", JStr "Pod");
                             ("object", JObj [("name", JStr "Bob");
                                              ("metadata", JObj [("number", JNum 1); ("bool", JBool true);
                                                ("arr", JArr [JStr "this"; JStr "and"; JStr "that"])])])]);
           ("error", JNull)]).
End Response.

(** ** [library/names] *)

(** Kebab case with the boundaries of words that the tests need: separators, a
    capital letter after a small one, and between letters and digits. *)
Inductive byte_class := Separator | Small | Capital | Digit.
Definition class_of (b : Z) : byte_class :=
  if is_ascii_lower b then Small else if is_ascii_upper b then Capital
  else if is_ascii_digit b then Digit else Separator.
Definition boundary (a b : byte_class) : bool :=
  match a, b with
  | Small, Capital | Small, Digit | Capital, Digit | Digit, Small | Digit, Capital => true
  | _, _ => false
  end.
Fixpoint kebab_words (started pending : bool) (before : byte_class) (l : list Z) : list Z :=
  match l with
  | [] => []
  | b :: l =>
      match class_of b with
      | Separator => kebab_words started true Separator l
      | c => (if started && (pending || boundary before c) then [45] else []) ++
             lower_byte b :: kebab_words true false c l
      end
  end.
Definition word_kebab (s : string) : string := of_bytes (kebab_words false false Separator (bytes s)).

Definition named_subdomain (prefix : string) (P : string -> bool) : bool :=
  ok P (rfc1123_subdomain hex_simple word_kebab no_unicode 0x123456789abcdef0123456789abcdef0 prefix).
Definition starts_with (prefix s : string) : bool := String.prefix prefix s.

Definition test_complex_name : bool :=
  named_subdomain "Alation's Oracle Connecfor (OCF:v.1.23) aaaaaaaaaaaaaaaaaaaaaaaaaaaaaaaaaaaaaaaaaaa" (fun domain =>
    starts_with "alation-s-oracle-connecfor-ocf-v-1-23" domain && (String.length domain <=? 63)%nat).
Definition test_empty_rfc1123 : bool := named_subdomain "" (starts_with DEFAULT_IF_INVALID_SUBDOMAIN).
Definition test_invalid_prefix_rfc1123 : bool := named_subdomain "🤮🤮🤮" (starts_with DEFAULT_IF_INVALID_SUBDOMAIN).
Definition test_case_3a_rfc1123 : bool :=
  named_subdomain "super cool connector v1.2" (fun domain =>
    starts_with "super-cool-connector-v-1-2" domain &&
    (String.length domain =? String.length "super-cool-connector-v-1-2-" + 32)%nat).
Definition test_case_3b_rfc1123 : bool :=
  named_subdomain "super cool connector v1.2.123456789123456789123456789123456789" (fun domain =>
    (String.length domain =? String.length "super-cool-connector-v-1-2-123456789123456789123456789-" + 8)%nat).
Definition test_case_3c_rfc1123 : bool :=
  named_subdomain "super cool connector v1.2.123456789" (fun domain =>
    (String.length domain =? String.length "super-cool-connector-v-1-2-123456789-" + 26)%nat).

(** ** [library/k8s/src/pod.rs] *)

Definition new_pod (name reference : string) : bool :=
  unwrapped (fun _ => true) (pod_new hex_simple word_kebab no_unicode name_from_value 0 name reference).
Definition empty_ : bool := new_pod "" "asdas".
Definition not_rfc1123_compliant_name : bool := new_pod "not a bloody chance" "asdas".

(** ** [library/os/src/process.rs] *)

(** A system with two programs. *)
Definition test_system (stdin : string) (argv : list string) : child :=
  let out s := Spawned true (Ok {| success := true; stdout := s; stderr := "" |}) in
  if decide (head argv = Some "ls") then out ("bin" +:+ nl +:+ "etc" +:+ nl)
  else if decide (head argv = Some "cat") then out stdin
  else NotSpawned "No such file or directory (os error 2)".

Definition ls : bool := unwrapped (fun _ => true) (cmd (test_system "") None "ls" []).
Definition ls_al : bool := unwrapped (fun _ => true) (cmd (test_system "") None "ls" [plain "-a"; plain "-l"]).
Definition no_newline : bool :=
  unwrapped (fun s => negb (String.eqb s "") && negb (bool_decide (last (bytes s) = Some 10)))
    (cmd (test_system "") None "ls" [plain "/"]).
Definition test_stdin : bool :=
  unwrapped (String.eqb "hello!") (cmd (test_system "hello!") (Some "hello!") "cat" []).

(** ** [service/aim/src/env] *)

Definition test_secret : bool :=
  String.eqb "my password is <REDACTED>!"
    ("my password is " +:+ Secret_fmt (Secret_from "please don't log this") +:+ "!").

(** ** [service/aim/src/registry/containerd/import.rs] *)

Definition TEST_DATA : string :=
  "REF                          TYPE                                                 DIGEST                                                                  SIZE     PLATFORMS   LABELS " +:+ nl +:+
  "docker.io/test/tennis:latest application/vnd.docker.distribution.manifest.v2+json sha256:76a5627069e32d0543dd6bec4c352af358974dd4572dfc05dbf7147b5546df4f 19.2 MiB linux/amd64 -      ".
Definition test_extract_image_metadata : bool :=
  match extract_image_metadata_from_str "some namespace" TEST_DATA with
  | Ok (reference, _, digest) =>
      String.eqb reference "docker.io/test/tennis:latest" &&
      String.eqb digest "sha256:76a5627069e32d0543dd6bec4c352af358974dd4572dfc05dbf7147b5546df4f"
  | Err _ => false
  end.

(** ** [service/aim/src/registry/ecr] *)

Definition reads {T} `{Deserialize T, EqDecision T} (response : string) (want : T) : bool :=
  match from_str (T := T) simple_parse (fun _ _ => "") response with
  | Ok got => bool_decide (got = want)
  | Err _ => false
  end.

Definition list_response : string :=
  "{" +:+ nl +:+
  "    " +:+ dq +:+ "imageIds" +:+ dq +:+ ": [" +:+ nl +:+
  "        {" +:+ nl +:+
  "            " +:+ dq +:+ "imageDigest" +:+ dq +:+ ": " +:+ dq +:+ "sha256:99c6fb4377e9a420a1eb3b410a951c9f464eff3b7dbc76c65e434e39b94b6570" +:+ dq +:+ "," +:+ nl +:+
  "            " +:+ dq +:+ "imageTag" +:+ dq +:+ ": " +:+ dq +:+ "v1.13.8" +:+ dq +:+ nl +:+
  "        }," +:+ nl +:+
  "        {" +:+ nl +:+
  "            " +:+ dq +:+ "imageDigest" +:+ dq +:+ ": " +:+ dq +:+ "sha256:99c6fb4377e9a420a1eb3b410a951c9f464eff3b7dbc76c65e434e39b94b6570" +:+ dq +:+ "," +:+ nl +:+
  "            " +:+ dq +:+ "imageTag" +:+ dq +:+ ": " +:+ dq +:+ "v1.13.7" +:+ dq +:+ nl +:+
  "        }," +:+ nl +:+
  "        {" +:+ nl +:+
  "            " +:+ dq +:+ "imageDigest" +:+ dq +:+ ": " +:+ dq +:+ "sha256:4a1c6567c38904384ebc64e35b7eeddd8451110c299e3368d2210066487d97e5" +:+ dq +:+ "," +:+ nl +:+
  "            " +:+ dq +:+ "imageTag" +:+ dq +:+ ": " +:+ dq +:+ "v1.13.6" +:+ dq +:+ nl +:+
  "        }" +:+ nl +:+
  "    ]" +:+ nl +:+
  "}".
Definition deserialize_ecr_image : bool :=
  reads list_response {| listed_ids :=
    [{| image_digest := "sha256:99c6fb4377e9a420a1eb3b410a951c9f464eff3b7dbc76c65e434e39b94b6570"; image_tag := "v1.13.8" |};
     {| image_digest := "sha256:99c6fb4377e9a420a1eb3b410a951c9f464eff3b7dbc76c65e434e39b94b6570"; image_tag := "v1.13.7" |};
     {| image_digest := "sha256:4a1c6567c38904384ebc64e35b7eeddd8451110c299e3368d2210066487d97e5"; image_tag := "v1.13.6" |}] |}.

Definition uninstall_response : string :=
  "{" +:+ nl +:+
  "    " +:+ dq +:+ "failures" +:+ dq +:+ ": []," +:+ nl +:+
  "    " +:+ dq +:+ "imageIds" +:+ dq +:+ ": [" +:+ nl +:+
  "        {" +:+ nl +:+
  "            " +:+ dq +:+ "imageTag" +:+ dq +:+ ": " +:+ dq +:+ "precise" +:+ dq +:+ "," +:+ nl +:+
  "            " +:+ dq +:+ "imageDigest" +:+ dq +:+ ": " +:+ dq +:+ "sha256:19665f1e6d1e504117a1743c0a3d3753086354a38375961f2e665416ef4b1b2f" +:+ dq +:+ nl +:+
  "        }" +:+ nl +:+
  "    ]" +:+ nl +:+
  "}".
Definition deserialize_uninstall_image : bool :=
  reads uninstall_response {|
    image_ids := [{| image_tag := "precise";
                     image_digest := "sha256:19665f1e6d1e504117a1743c0a3d3753086354a38375961f2e665416ef4b1b2f" |}];
    failures := [] |}.

Definition uninstall_error_response : string :=
  "{" +:+ nl +:+
  "    " +:+ dq +:+ "imageIds" +:+ dq +:+ ": []," +:+ nl +:+
  "    " +:+ dq +:+ "failures" +:+ dq +:+ ": [" +:+ nl +:+
  "        {" +:+ nl +:+
  "            " +:+ dq +:+ "imageId" +:+ dq +:+ ": {" +:+ nl +:+
  "                " +:+ dq +:+ "imageTag" +:+ dq +:+ ": " +:+ dq +:+ "precise" +:+ dq +:+ nl +:+
  "            }," +:+ nl +:+
  "            " +:+ dq +:+ "failureCode" +:+ dq +:+ ": " +:+ dq +:+ "ImageNotFound" +:+ dq +:+ "," +:+ nl +:+
  "            " +:+ dq +:+ "failureReason" +:+ dq +:+ ": " +:+ dq +:+ "Requested image not found" +:+ dq +:+ nl +:+
  "        }" +:+ nl +:+
  "    ]" +:+ nl +:+
  "}" +:+ nl +:+
  "".
Definition deserialize_uninstall_image_error : bool :=
  reads uninstall_error_response {|
    image_ids := [];
    failures := [{| image_id := {| failed_tag := "precise" |}; failure_code := "ImageNotFound";
                    failure_reason := "Requested image not found" |}] |}.

(** ** All of them *)

Definition repository_tests : list bool :=
  [ simple_struct; unit_; unary_unnamed; binary_unnamed; unary_named; binary_named; mixed_enum; smoke;
    without_cause; with_cause; test_string; Response.test_struct;
    test_complex_name; test_empty_rfc1123; test_invalid_prefix_rfc1123; test_case_3a_rfc1123; test_case_3b_rfc1123;
    test_case_3c_rfc1123; empty_; not_rfc1123_compliant_name; ls; ls_al; no_newline; test_stdin; test_secret;
    test_extract_image_metadata; deserialize_ecr_image; deserialize_uninstall_image;
    deserialize_uninstall_image_error ].

Example repository_tests_pass : forallb (fun t => t) repository_tests = true.
Proof. vm_compute. reflexivity. Qed.

(** ** The fuzz tests, for all inputs *)

Section Fuzz.
Context (simple : Z -> string) (to_kebab : string -> string) (ua : Z -> bool).
Context (Hs : simple_law simple) (Hk : kebab_law to_kebab).

(** A printable character: [' '..='~']. *)
Definition is_printable (b : Z) : bool := (32 <=? b) && (b <=? 126).

(** [fuzz_rfc1123]: the three assertions hold for every string of printable
    characters, of any length. *)
Theorem fuzz_rfc1123 (random : Z) (test : string)
  (Hr : 0 <= random < 2 ^ 128) (Ht : str_all is_printable test = true) :
  exists got, rfc1123_subdomain simple to_kebab ua random test = Done got /\
    (String.length got <= 63)%nat /\ (33 < String.length got)%nat /\ first_byte is_ascii_alphanumeric got = true.
Proof.
  assert (Ha : str_all is_ascii test = true).
  { eapply str_all_impl; [|exact Ht]. unfold is_printable, is_ascii. intros b. lia. }
  destruct (subdomain_valid simple to_kebab ua random test Hs Hk Hr Ha) as (got & Hgot & Hv).
  exists got. destruct (subdomain_closed_form simple to_kebab ua random test got Hs Hr Hgot) as [_ Hlen].
  pose proof (normalise_nonempty to_kebab ua test). split_and!; [done|lia|lia|].
  unfold is_dns1123_label in Hv. rewrite !andb_true_iff in Hv. destruct Hv as [[_ Hf] _].
  unfold first_byte in *. destruct (bytes got) as [|b l]; [done|].
  unfold is_lower_alphanumeric in Hf. unfold is_ascii_alphanumeric.
  destruct (is_ascii_lower b), (is_ascii_upper b), (is_ascii_digit b); done.
Qed.

(** [fuzz_rfc1035]: every label matches the expression of the test. *)
Theorem fuzz_rfc1035 (random letter : Z) (Hr : 0 <= random < 2 ^ 128) (Hl : is_ascii_lower letter = true) :
  exists label, rfc1035_label simple ua random letter = Done label /\ is_dns1035_label label = true.
Proof. destruct (label_valid simple ua random letter Hs Hr Hl) as (label & Hlabel & Hv & _). eauto. Qed.
End Fuzz.
